(* ===== verification/_CoqProject ===== *)
-Q . S2P
Prelude.v
BitMap.v
HandleTables.v
FileStub.v
Machine.v
MachineFacts.v
AddrSpace.v
VMInv.v
VMClock.v
VMPaging.v
VMLoad.v
VMSpaces.v
Mips.v
MipsFacts.v
VMAccess.v
VMClaims.v
Coff2Noff.v
CoffClaims.v
Coff2Flat.v
LinkedList.v
Interrupt.v
Kernel.v
Syscalls.v
Step.v
Places.v
ThreadInv.v
Boot.v
KernelClaims.v
IrqClaims.v
SyscallClaims.v
DiskProg.v
Disk.v
SynchDisk.v
SynchDiskFacts.v
DiskFiles.v
FileSys.v
DiskFacts.v
DiskLayout.v
DirFacts.v
AllocFacts.v
FsInv.v
FsFacts.v
FsUpdate.v
FsOps.v
FsFormat.v
FsClaims.v
FsTest.v
DiskClaims.v
Monitor.v
MonitorFacts.v
SynchList.v
Dining.v
SharedDisk.v
Network.v
PostOffice.v
PostFacts.v
PostClaims.v
MailTest.v
Console.v
Stacks.v
CommandLine.v
Disasm.v
Execute.v
ExecuteFacts.v
