(* ===== verification/Prelude.v ===== *)
(** * A verification of NachOS with demand paging (OSProject2)

    NachOS is an operating system that runs on a machine it simulates: user
    programs are MIPS binaries interpreted instruction by instruction, devices
    raise simulated interrupts, kernel threads are host stacks.  The sources are
    under src/nachos64/code, those of Stacks.v under src/nachos64/c++example.  The
    builds modelled are the one of vm/Makefile
    ([USER_PROGRAM], [VM], [USE_TLB], [FILESYS_STUB]), filesys/Makefile ([FILESYS])
    for the disk file system, and network/Makefile for the network.

    ** Parts, and how they interact

    - Machine (Machine.v, MachineFacts.v): registers, memory, TLB; [Translate],
      [ReadMem], [WriteMem], [RaiseException] of machine/{machine,translate}.cc.
    - Interpreter (Mips.v, MipsFacts.v): [Decode], [OneInstruction] and every
      case of its switch, of machine/mipssim.cc.  It calls the machine, and the
      exception handler through the class [MachineHost].
    - Bitmaps and tables (BitMap.v, HandleTables.v): userprog/bitmap.cc,
      userprog/{NachosSems,nachostabla}.cc.
    - UNIX files (FileStub.v): the FILESYS_STUB classes over machine/sysdep.cc.
    - Demand paging (AddrSpace.v): userprog/addrspace.cc.  A page fault calls
      [load], which finds a frame, evicts a page with a second-chance clock, and
      fills the TLB with another.  VMInv.v holds the invariant and the notion of
      the contents of a virtual page, VMClock.v the clocks, VMPaging.v and
      VMLoad.v the steps of a fault, VMSpaces.v the life of address spaces,
      VMAccess.v user accesses that fault, VMClaims.v the resulting theorems.
    - Lists (LinkedList.v): threads/list.h with its cells and pointers.
    - Interrupts (Interrupt.v): machine/interrupt.cc, over the classes [IrqHost]
      and [InterruptHost]: what the simulation needs of the rest of the kernel.
    - Kernel (Kernel.v): machine/timer.cc, threads/{scheduler,thread,synch}.cc.
    - System calls (Syscalls.v): userprog/exception.cc, userprog/progtest.cc.
    - Start (Boot.v, CommandLine.v): [Initialize] of threads/system.cc, [main];
      the options and commands of each build and the flags of [DEBUG].
    - Disk (Disk.v, SynchDisk.v): machine/disk.cc over the interrupt simulation,
      and filesys/synchdisk.cc in the kernel of one thread.  SynchDiskFacts.v
      follows a request from the lock to the interrupt.
    - Disk file system (DiskProg.v, DiskFiles.v, FileSys.v): filesys/{filehdr,
      openfile,directory,filesys}.cc as programs of sector reads and writes, with
      two meanings: [run] on an array of sectors, [srun] through the
      [SynchDisk].  DiskFacts.v is about the bytes of files, DiskLayout.v about
      the encodings, DirFacts.v and AllocFacts.v about directory and free map,
      FsInv.v holds the invariant [fs_ok] and the abstraction [files], FsFacts.v,
      FsUpdate.v, FsOps.v and FsFormat.v prove that the operations keep them.
    - Monitors (Monitor.v, MonitorFacts.v): threads that share locks, conditions
      and semaphores, as lists of statements of threads/synch.cc that any
      interleaving executes; what locks and conditions guarantee to their users.
      The clients are SynchList.v (threads/synchlist.h), Dining.v
      (threads/dinningph.cc and [Philo] of threads/threadtest.cc), SharedDisk.v
      (filesys/synchdisk.cc used by several threads), PostOffice.v and Console.v
      (machine/console.cc and [ConsoleTest] of userprog/progtest.cc).
    - Network (Network.v, PostOffice.v): machine/network.cc, the formats of
      network/post.h, and the post offices of network/post.cc on any number of
      machines; PostFacts.v and PostClaims.v prove what becomes of messages.
      MailTest.v runs network/nettest.cc on two of them.
    - File system tests (FsTest.v): filesys/fstest.cc over the disk file system
      and the UNIX files.
    - Tools (bin/): Coff2Noff.v and CoffClaims.v (coff2noff.c, coff.h) and
      Coff2Flat.v (coff2flat.c), as processes of UNIX; Disasm.v (d.c,
      opstrings.c), the text that [dump_ascii] prints; Execute.v and
      ExecuteFacts.v (execute.c, system.c, int.h), the stand-alone interpreter.
      They meet the kernel twice: AddrSpace.v loads what [coff2noff] writes, and
      Disasm.v and Execute.v are compared with [Decode] and [OneInstruction].
    - Stacks.v: the stacks of c++example, and their self tests.

    The kernel of the first builds is a state machine (Step.v): a step executes the next statement of
    the running thread.  C++ code becomes computations of the monad [M] below:
    state in, a result and a new state or a [fault] out.  Objects created with
    [new] have identifiers in maps; memory the source leaves uninitialised is an
    argument of the definition ([garbage], [Env]); [int] and [unsigned] are
    integers with [s32] and [u32] written where they wrap.

    ** What is proved

    - Translation and memory: [Translate] agrees with a functional description
      on every branch, a read returns what was written, a load of [Mult] is the
      exact product, every instruction keeps the machine well formed and changes
      nothing when it raises an exception.
    - Paging: after a fault the page is mapped and has the contents it had,
      nobody else's page changes, reads and writes of user memory are those of a
      flat virtual memory, the clocks pick the victim they promise and end.
    - Threads: in every state reachable from [Initialize], under every
      interleaving, each thread is in one place, no wake-up is lost, code that
      relies on interrupts being off runs with interrupts off, and a deleted
      thread is not referenced (KernelClaims.v; the invariant is in Places.v,
      that the code keeps it in ThreadInv.v).
    - Time (IrqClaims.v): a tick ends, calls the handler of every interrupt that
      is due, in the order of time, and no other, and gives the processor away
      when the timer asked for it; an idle machine advances its clock to the next
      interrupt, with interrupts off, or halts.
    - Operations (SyscallClaims.v): [P], [V], saved registers, system calls.
    - Refinements: bitmaps, handle tables and lists refine sets, partial
      functions and sequences.
    - Disk file system (FsClaims.v): from a formatted disk every sequence of
      creating, removing, reading and writing files ends, and its replies and the
      disk are those of a finite map from names to contents with the limits of
      the directory and of the space, up to the first creation of a file of more
      than [MaxFileSize] bytes that finds the space: that one overruns the array
      of its header.  Sectors are never shared, the free map is exact, failed
      operations change nothing.  It holds on the device too
      (DiskClaims.v): each request waits for its interrupt and returns.
    - Monitors: for any number of threads and every interleaving, a [SynchList]
      is a queue whose calls take effect once and in order, the synchronous disk
      serialises its callers, neighbouring philosophers never eat together; no
      assertion fails, and a system in which nothing moves has finished or waits
      for what is not there (no lost wake-up, no deadlock).
    - Messages: what is sent arrives with the same headers and bytes, each
      mailbox hands out in order and once what the network did not lose, legal
      messages never stop a machine, and nothing stays on the way.  The console
      echoes what is typed.
    - [Copy] and then [Print] show the bytes of the UNIX file; two machines that
      run [MailTest] both make all its calls (the [Halt] after them is not in the
      model); command lines mean what the usage text says, but for [-n], which
      the code ignores, and up to the first command that does not return;
      the stacks are last-in first-out sequences.
    - Tools: [coff2noff] keeps every section and leaves no output after an
      error; the program it converts, loaded by [AddrSpace], has each byte at its
      linked address in virtual memory; [coff2flat] writes the memory image.  The
      disassembler shows what [Decode] decodes, with the operands of the
      interpreter's table [opStrings] and the addresses where it continues, and the two
      interpreters have the same effect ([agrees]), but for the deviations that
      [dump_ascii_deviates] and [execute_deviates] show.  A shift by a register
      of the stand-alone interpreter takes the low five bits of the amount, as
      the host's instruction does; C leaves larger amounts undefined.
    Some theorems show defects of the code by executions: a context switch that
    loses a write, a child of [Fork] that reads a frame of another program, a
    write to a closed file that keeps the console, a file header written past its
    end, instructions that deviate from MIPS, a key that the console loses.

    ** Fuel and bounds

    Loops without a bound in the source have fuel: [clock_SWAP] and [clock_TLB]
    one more turn than the pages, [check_pending] one more than the pending
    interrupts, [SafeReadMem] and [SafeWriteMem] two attempts, the loops of [P] and
    [Sleep] of SynchDisk.v two turns; theorems show that the fuel is not
    exhausted.  [copy_loop] and [print_loop] of FsTest.v have one turn more than
    the bytes, [SelfTest] of Stacks.v one more than the numbers, [user_string] the
    size of the memory.  [Machine::Run] is a step per turn; so is the loop of
    Execute.v, whose [turns] counts them.  The clock is
    an [int]: theorems about ticks ask for it to be below [time_limit].

    ** Not modelled

    The preemptive scheduler over host signals (threads/preemptive.cc) and the
    host calls of machine/sysdep.cc below the files; the assembly of
    threads/switch.s and the stack it switches (a list of statements here);
    bin/disasm.c, bin/out.c and the loading of a program in bin/main.c, which read
    object files through the COFF library of the host, and the statistics of
    bin/execute.c; debugging output; destructors that only free.  In the monitors
    [P] and [V] are single steps, as Kernel.v and KernelClaims.v establish for
    threads/synch.cc, and an access to data that a lock protects is one step; the
    random number that loses a packet is an argument of the call, compared as a
    rational.  System calls of UNIX are those documented, over the files of
    FileStub.v; those the stand-alone interpreter passes on are parameters. *)

From stdpp Require Import base gmap list numbers strings list_numbers.
From Stdlib Require Import ZArith Lia.

#[global] Open Scope Z_scope.

(** ** Faults, results and the state monad *)

(** What can stop the program: an [ASSERT] that fails (utility.h prints the
    position and calls [Abort]), an access outside an array or through a null
    or dangling pointer (undefined behaviour in C++), an integer division the
    host processor traps on, the [Exit] of [Cleanup()], and the exhaustion of
    the fuel of a modelled loop. *)
Inductive fault :=
| AssertFailed
| OutOfBounds
| NullPointer
| ArithmeticTrap
| MachineHalted
| OutOfFuel.

Inductive outcome (A : Type) :=
| Done (a : A)
| Fault (f : fault).
Arguments Done {A} _.
Arguments Fault {A} _.

#[global] Instance fault_eq_dec : EqDecision fault.
Proof. solve_decision. Defined.

#[global] Instance outcome_eq_dec {A} `{EqDecision A} : EqDecision (outcome A).
Proof. solve_decision. Defined.

(** Stateful code: a computation over a state [S] that returns a value and
    the new state, or stops with a fault. *)
Definition M (S A : Type) : Type := S → outcome (A * S).

#[global] Instance M_ret S : MRet (M S) := λ A a s, Done (a, s).
#[global] Instance M_bind S : MBind (M S) := λ A B k m s,
  match m s with
  | Done (a, s') => k a s'
  | Fault f => Fault f
  end.

Section operations.
Context {S : Type}.

Definition get : M S S := λ s, Done (s, s).
Definition gets {A} (f : S → A) : M S A := λ s, Done (f s, s).
Definition put (s' : S) : M S unit := λ _, Done (tt, s').
Definition modify (f : S → S) : M S unit := λ s, Done (tt, f s).
Definition stop {A} (f : fault) : M S A := λ _, Fault f.

(** [ASSERT(condition)] of threads/utility.h. *)
Definition ASSERT (condition : bool) : M S unit :=
  if condition then mret tt else stop AssertFailed.

Definition lift {A} (o : outcome A) : M S A := λ s,
  match o with
  | Done a => Done (a, s)
  | Fault f => Fault f
  end.

(** Run a computation over a component [T] of the state. *)
Definition zoom {T A} (view : S → T) (update : T → S → S) (m : M T A) : M S A :=
  λ s, match m (view s) with
       | Done (a, t) => Done (a, update t s)
       | Fault f => Fault f
       end.

(** [for (i = lo; i < lo + n; i++) body(i)] *)
Fixpoint for_range (lo : Z) (n : nat) (body : Z → M S unit) : M S unit :=
  match n with
  | O => mret tt
  | Datatypes.S n' => body lo ;; for_range (lo + 1) n' body
  end.
End operations.

(** The value and the final state of a run that returned. *)
Definition value_of {S A} (o : outcome (A * S)) : option A :=
  match o with Done (a, _) => Some a | Fault _ => None end.
Definition state_of {S A} (s : S) (o : outcome (A * S)) : S :=
  match o with Done (_, s') => s' | Fault _ => s end.

(** Arrays: reading and writing outside of the allocation is a fault. *)
Definition rd {A} (l : list A) (i : Z) : outcome A :=
  if decide (0 ≤ i)
  then match l !! Z.to_nat i with Some x => Done x | None => Fault OutOfBounds end
  else Fault OutOfBounds.

Definition wr {A} (l : list A) (i : Z) (x : A) : outcome (list A) :=
  if decide (0 ≤ i < Z.of_nat (length l))
  then Done (<[Z.to_nat i := x]> l)
  else Fault OutOfBounds.

(** [l[i] = x] on an array that is the state. *)
Definition array_set {A} (i : Z) (x : A) : M (list A) unit :=
  l ← get; l' ← lift (wr l i x); put l'.

(** Blocks of an array: [n] elements from index [i], and [bcopy] of [bs] to index [i]. *)
Definition rd_block {A} (l : list A) (i n : Z) : outcome (list A) :=
  if decide (0 ≤ i ∧ 0 ≤ n ∧ i + n ≤ Z.of_nat (length l))
  then Done (take (Z.to_nat n) (drop (Z.to_nat i) l))
  else Fault OutOfBounds.

Definition splice {A} (l : list A) (i : nat) (bs : list A) : list A :=
  take i l ++ bs ++ drop (i + length bs) l.

Definition wr_block {A} (l : list A) (i : Z) (bs : list A) : outcome (list A) :=
  if decide (0 ≤ i ∧ i + Z.of_nat (length bs) ≤ Z.of_nat (length l))
  then Done (splice l (Z.to_nat i) bs)
  else Fault OutOfBounds.

(** The characters of a string literal. *)
Fixpoint chars (s : string) : list Z :=
  match s with
  | EmptyString => []
  | String c s' => Z.of_nat (Ascii.nat_of_ascii c) :: chars s'
  end.

(** ** Fixed-width C++ integers *)

Definition u32 (z : Z) : Z := z mod 2 ^ 32.
Definition s32 (z : Z) : Z := (z + 2 ^ 31) mod 2 ^ 32 - 2 ^ 31.
Definition u16 (z : Z) : Z := z mod 2 ^ 16.
Definition u8 (z : Z) : Z := z mod 2 ^ 8.
Definition s8 (z : Z) : Z := (z + 2 ^ 7) mod 2 ^ 8 - 2 ^ 7.

(** C++ [/] and [%] on [int] truncate towards zero. *)
Definition cdiv (n s : Z) : Z := Z.quot n s.
Definition cmod (n s : Z) : Z := Z.rem n s.

(** [1 << k] computed on [int]. *)
Definition shl32 (x k : Z) : Z := s32 (Z.shiftl x k).

(** threads/utility.h *)
Definition divRoundDown (n s : Z) : Z := cdiv n s.
Definition divRoundUp (n s : Z) : Z :=
  cdiv n s + (if decide (cmod n s > 0) then 1 else 0).

(** ** Total-correctness assertions

    [wp m Q s]: started in [s], [m] returns (no failed assertion, no illegal
    access, no exhausted fuel) and the value and final state satisfy [Q]. *)
Definition wp {S A} (m : M S A) (Q : A → S → Prop) (s : S) : Prop :=
  ∃ a s', m s = Done (a, s') ∧ Q a s'.

Section wp.
Context {S : Type}.
Implicit Types s : S.

Lemma wp_ret {A} (a : A) (Q : A → S → Prop) s : Q a s → wp (mret a) Q s.
Proof. intros HQ. by exists a, s. Qed.

Lemma wp_bind {A B} (m : M S A) (k : A → M S B) Q s :
  wp m (λ a s', wp (k a) Q s') s → wp (m ≫= k) Q s.
Proof.
  intros (a & s' & Hm & b & s'' & Hk & HQ).
  exists b, s''. split; [| done].
  unfold mbind, M_bind. by rewrite Hm.
Qed.

Lemma wp_mono {A} (m : M S A) (P Q : A → S → Prop) s :
  wp m P s → (∀ a s', P a s' → Q a s') → wp m Q s.
Proof. intros (a & s' & Hm & HP) HPQ. exists a, s'. auto. Qed.

Lemma wp_conj {A} (m : M S A) (P Q : A → S → Prop) s :
  wp m P s → wp m Q s → wp m (λ a s', P a s' ∧ Q a s') s.
Proof.
  intros (a & s' & Hm & HP) (b & s'' & Hm' & HQ).
  rewrite Hm in Hm'. simplify_eq. exists b, s''. auto.
Qed.

Lemma wp_get (Q : S → S → Prop) s : Q s s → wp get Q s.
Proof. intros HQ. by exists s, s. Qed.

Lemma wp_gets {A} (f : S → A) Q s : Q (f s) s → wp (gets f) Q s.
Proof. intros HQ. by exists (f s), s. Qed.

Lemma wp_put s0 (Q : unit → S → Prop) s : Q tt s0 → wp (put s0) Q s.
Proof. intros HQ. by exists tt, s0. Qed.

Lemma wp_modify (f : S → S) (Q : unit → S → Prop) s : Q tt (f s) → wp (modify f) Q s.
Proof. intros HQ. by exists tt, (f s). Qed.

Lemma wp_ASSERT b (Q : unit → S → Prop) s : b = true → Q tt s → wp (ASSERT b) Q s.
Proof. intros -> HQ. by exists tt, s. Qed.

Lemma wp_lift {A} (o : outcome A) a Q s : o = Done a → Q a s → wp (lift o) Q s.
Proof. intros -> HQ. by exists a, s. Qed.

Lemma wp_zoom {T A} view (update : T → S → S) (m : M T A) Q s :
  wp m (λ a t, Q a (update t s)) (view s) → wp (zoom view update m) Q s.
Proof.
  intros (a & t & Hm & HQ). exists a, (update t s). unfold zoom. by rewrite Hm.
Qed.

(** The invariant rule of counted loops. *)
Lemma wp_for (I : Z → S → Prop) body n : ∀ lo s,
  I lo s →
  (∀ i s', lo ≤ i < lo + Z.of_nat n → I i s' → wp (body i) (λ _ s'', I (i + 1) s'') s') →
  wp (for_range lo n body) (λ _ s', I (lo + Z.of_nat n) s') s.
Proof.
  induction n as [| n IH]; intros lo s HI Hbody; simpl.
  - apply wp_ret. by rewrite Z.add_0_r.
  - apply wp_bind. eapply wp_mono; [apply Hbody; [lia | done] |].
    intros [] s' HI'. replace (lo + Z.of_nat (Datatypes.S n)) with (lo + 1 + Z.of_nat n) by lia.
    apply IH; [done |]. intros i s'' Hi. apply Hbody. lia.
Qed.

(** Two computations with the same run. *)
Lemma wp_same_run {A} (m m' : M S A) Q s s1 : m s = m' s1 → wp m' Q s1 → wp m Q s.
Proof. intros E (a & s' & Hm & HQ). exists a, s'. by rewrite E. Qed.

Lemma wp_run {A} (m : M S A) s a s' (Q : A → S → Prop) : m s = Done (a, s') → Q a s' → wp m Q s.
Proof. intros. by exists a, s'. Qed.

(** What [wp] gives about a run that is known to return. *)
Lemma wp_elim {A} (m : M S A) Q s a s' : wp m Q s → m s = Done (a, s') → Q a s'.
Proof. intros (b & s'' & Hm & HQ) Hm'. rewrite Hm in Hm'. by simplify_eq. Qed.
End wp.

(** ** Lemmas on arrays *)

Section arrays.
Context {A : Type}.
Implicit Types (l : list A) (i j : Z) (x : A).

Lemma rd_Done l i x : 0 ≤ i → l !! Z.to_nat i = Some x → rd l i = Done x.
Proof. intros Hi Hl. unfold rd. rewrite decide_True by done. by rewrite Hl. Qed.

Lemma rd_in_range l i : 0 ≤ i < Z.of_nat (length l) →
  ∃ x, l !! Z.to_nat i = Some x ∧ rd l i = Done x.
Proof.
  intros Hi. destruct (lookup_lt_is_Some_2 l (Z.to_nat i)) as [x Hx]; [lia |].
  exists x. split; [done |]. apply rd_Done; [lia | done].
Qed.

Lemma rd_inv l i x : rd l i = Done x → 0 ≤ i < Z.of_nat (length l) ∧ l !! Z.to_nat i = Some x.
Proof.
  unfold rd. case_decide; [| done]. destruct (l !! Z.to_nat i) eqn:E; [| done].
  intros ?; simplify_eq. apply lookup_lt_Some in E as Hlt. split; [lia | done].
Qed.

Lemma wr_Done l i x : 0 ≤ i < Z.of_nat (length l) → wr l i x = Done (<[Z.to_nat i := x]> l).
Proof. intros Hi. unfold wr. by rewrite decide_True. Qed.

Lemma wr_inv l i x l' : wr l i x = Done l' →
  0 ≤ i < Z.of_nat (length l) ∧ l' = <[Z.to_nat i := x]> l.
Proof. unfold wr. case_decide; [| done]. intros; by simplify_eq. Qed.

Lemma rd_oob l i : ~ (0 ≤ i < Z.of_nat (length l)) → rd l i = Fault OutOfBounds.
Proof.
  intros Hi. unfold rd. case_decide; [| done].
  rewrite lookup_ge_None_2; [done | lia].
Qed.

Lemma wr_oob l i x : ~ (0 ≤ i < Z.of_nat (length l)) → wr l i x = Fault OutOfBounds.
Proof. intros Hi. unfold wr. by rewrite decide_False. Qed.
End arrays.

Section blocks.
Context {A : Type}.
Implicit Types (l bs : list A) (i j n : Z).

Lemma length_splice l (k : nat) bs : (k + length bs ≤ length l)%nat → length (splice l k bs) = length l.
Proof. intros Hk. unfold splice. rewrite !length_app, length_take, length_drop. lia. Qed.

Lemma lookup_splice_in l (k j : nat) bs :
  (k + length bs ≤ length l)%nat → (k ≤ j < k + length bs)%nat →
  splice l k bs !! j = bs !! (j - k)%nat.
Proof.
  intros Hk Hj. unfold splice.
  rewrite lookup_app_r, length_take by (rewrite length_take; lia).
  rewrite lookup_app_l by lia. f_equal. lia.
Qed.

Lemma lookup_splice_out l (k j : nat) bs :
  (k + length bs ≤ length l)%nat → (j < k ∨ k + length bs ≤ j)%nat →
  splice l k bs !! j = l !! j.
Proof.
  intros Hk [Hj | Hj]; unfold splice.
  - rewrite lookup_app_l by (rewrite length_take; lia). by rewrite lookup_take_lt.
  - rewrite lookup_app_r, length_take by (rewrite length_take; lia).
    rewrite lookup_app_r by lia. rewrite lookup_drop. f_equal. lia.
Qed.

Lemma rd_block_Done l i n : 0 ≤ i → 0 ≤ n → i + n ≤ Z.of_nat (length l) →
  rd_block l i n = Done (take (Z.to_nat n) (drop (Z.to_nat i) l)).
Proof. intros. unfold rd_block. by rewrite decide_True. Qed.

Lemma wr_block_Done l i bs : 0 ≤ i → i + Z.of_nat (length bs) ≤ Z.of_nat (length l) →
  wr_block l i bs = Done (splice l (Z.to_nat i) bs).
Proof. intros. unfold wr_block. by rewrite decide_True. Qed.

Lemma length_block l (k n : nat) : (k + n ≤ length l)%nat → length (take n (drop k l)) = n.
Proof. intros. rewrite length_take, length_drop. lia. Qed.

(** Reading back what was written, and reading beside it. *)
Lemma block_splice_same l (k : nat) bs : (k + length bs ≤ length l)%nat →
  take (length bs) (drop k (splice l k bs)) = bs.
Proof.
  intros Hk. unfold splice. rewrite drop_app_length' by (rewrite length_take; lia).
  by rewrite take_app_length.
Qed.

Lemma block_splice_out l (k j n : nat) bs :
  (k + length bs ≤ length l)%nat → (j + n ≤ k ∨ k + length bs ≤ j)%nat →
  take n (drop j (splice l k bs)) = take n (drop j l).
Proof.
  intros Hk Hj. apply list_eq. intros x. destruct (decide (x < n)%nat).
  - rewrite !lookup_take_lt, !lookup_drop by done. apply lookup_splice_out; lia.
  - by rewrite !lookup_take_ge by lia.
Qed.

Lemma Forall_splice (P : A → Prop) l (k : nat) bs : Forall P l → Forall P bs → Forall P (splice l k bs).
Proof.
  intros. unfold splice. apply Forall_app. split; [by apply Forall_take |].
  apply Forall_app. split; [done | by apply Forall_drop].
Qed.
End blocks.

Lemma array_set_run {A} (l : list A) i x : 0 ≤ i < Z.of_nat (length l) →
  array_set i x l = Done (tt, <[Z.to_nat i := x]> l).
Proof.
  intros Hi. unfold array_set, mbind, M_bind, get, lift, put. by rewrite wr_Done.
Qed.

(** [for (i = lo; i < lo + n; i++) l[i] = x] *)
Lemma wp_fill {A} (x : A) (l : list A) lo n :
  0 ≤ lo → lo + Z.of_nat n ≤ Z.of_nat (length l) →
  wp (for_range lo n (λ i, array_set i x))
     (λ _ l', length l' = length l ∧
        ∀ i, 0 ≤ i < Z.of_nat (length l) → l' !! Z.to_nat i =
          if decide (lo ≤ i < lo + Z.of_nat n) then Some x else l !! Z.to_nat i) l.
Proof.
  intros Hlo Hn.
  pose (I := λ (k : Z) (l' : list A), length l' = length l ∧
    ∀ i, 0 ≤ i < Z.of_nat (length l) → l' !! Z.to_nat i =
          if decide (lo ≤ i < k) then Some x else l !! Z.to_nat i).
  apply (wp_for I).
  - split; [done |]. intros i Hi. by rewrite decide_False by lia.
  - intros k l' Hk [Hl Hv]. exists tt, (<[Z.to_nat k := x]> l').
    split; [apply array_set_run; lia |]. split; [by rewrite length_insert |].
    intros i Hi. destruct (decide (i = k)) as [-> |].
    + rewrite list_lookup_insert_eq by lia. by rewrite decide_True by lia.
    + rewrite list_lookup_insert_ne, Hv by lia. repeat case_decide; done || lia.
Qed.

(** ** Lemmas on fixed-width integers *)

Lemma u32_range z : 0 ≤ u32 z < 2 ^ 32.
Proof. apply Z.mod_pos_bound. lia. Qed.

Lemma s32_range z : - 2 ^ 31 ≤ s32 z < 2 ^ 31.
Proof. unfold s32. pose proof (Z.mod_pos_bound (z + 2 ^ 31) (2 ^ 32)). lia. Qed.

Lemma u32_small z : 0 ≤ z < 2 ^ 32 → u32 z = z.
Proof. apply Z.mod_small. Qed.

Lemma s32_small z : - 2 ^ 31 ≤ z < 2 ^ 31 → s32 z = z.
Proof. intros Hz. unfold s32. rewrite Z.mod_small by lia. lia. Qed.

Lemma s32_mod z : ∃ q, s32 z = z + q * 2 ^ 32.
Proof.
  exists (- ((z + 2 ^ 31) / 2 ^ 32)). unfold s32.
  pose proof (Z.div_mod (z + 2 ^ 31) (2 ^ 32)). lia.
Qed.

Lemma u32_add_mul z q : u32 (z + q * 2 ^ 32) = u32 z.
Proof. unfold u32. apply Z_mod_plus_full. Qed.

Lemma s32_add_mul z q : s32 (z + q * 2 ^ 32) = s32 z.
Proof.
  unfold s32. replace (z + q * 2 ^ 32 + 2 ^ 31) with (z + 2 ^ 31 + q * 2 ^ 32) by lia.
  by rewrite Z_mod_plus_full.
Qed.

Lemma u32_s32 z : u32 (s32 z) = u32 z.
Proof. destruct (s32_mod z) as [q ->]. apply u32_add_mul. Qed.

Lemma s32_u32 z : s32 (u32 z) = s32 z.
Proof.
  unfold u32. rewrite (Z.mod_eq z (2 ^ 32)) by lia.
  replace (z - 2 ^ 32 * (z / 2 ^ 32)) with (z + - (z / 2 ^ 32) * 2 ^ 32) by lia.
  apply s32_add_mul.
Qed.

Lemma u32_u32 z : u32 (u32 z) = u32 z.
Proof. apply u32_small, u32_range. Qed.

Lemma s32_s32 z : s32 (s32 z) = s32 z.
Proof. apply s32_small, s32_range. Qed.

Lemma s32_cases z : 0 ≤ z < 2 ^ 32 → s32 z = if decide (z < 2 ^ 31) then z else z - 2 ^ 32.
Proof.
  intros Hz. case_decide; [apply s32_small; lia |].
  replace z with ((z - 2 ^ 32) + 1 * 2 ^ 32) at 1 by lia.
  rewrite s32_add_mul. apply s32_small. lia.
Qed.

Lemma testbit_u32 z k : 0 ≤ k → Z.testbit (u32 z) k = bool_decide (k < 32) && Z.testbit z k.
Proof.
  intros Hk. unfold u32. rewrite <- Z.land_ones, Z.land_spec by lia.
  case_bool_decide.
  - rewrite Z.ones_spec_low by lia. by rewrite andb_true_r.
  - rewrite Z.ones_spec_high by lia. by rewrite andb_false_r.
Qed.

Lemma testbit_s32_low z k : 0 ≤ k < 32 → Z.testbit (s32 z) k = Z.testbit z k.
Proof.
  intros Hk. transitivity (Z.testbit (u32 (s32 z)) k).
  - rewrite testbit_u32 by lia. by rewrite bool_decide_true by lia.
  - rewrite u32_s32, testbit_u32 by lia. by rewrite bool_decide_true by lia.
Qed.

Lemma testbit_high z n k : 0 ≤ z < 2 ^ n → 0 ≤ n ≤ k → Z.testbit z k = false.
Proof.
  intros Hz Hk. rewrite <- (Z.mod_small z (2 ^ n)) by done.
  apply Z.mod_pow2_bits_high. lia.
Qed.

Lemma bits_range z n : 0 ≤ n → (∀ k, n ≤ k → Z.testbit z k = false) → 0 ≤ z < 2 ^ n.
Proof.
  intros Hn Hbits. replace z with (z mod 2 ^ n).
  - apply Z.mod_pos_bound. lia.
  - rewrite <- Z.land_ones by lia. apply Z.bits_inj'. intros k Hk.
    rewrite Z.land_spec. destruct (decide (k < n)).
    + rewrite Z.ones_spec_low by lia. by rewrite andb_true_r.
    + rewrite Hbits by lia. done.
Qed.

Lemma divRoundUp_spec n s : 0 ≤ n → 0 < s →
  0 ≤ divRoundUp n s ∧ n ≤ divRoundUp n s * s < n + s.
Proof.
  intros Hn Hs. unfold divRoundUp, cdiv, cmod.
  rewrite Z.quot_div_nonneg, Z.rem_mod_nonneg by lia.
  pose proof (Z.div_mod n s). pose proof (Z.mod_pos_bound n s).
  assert (0 ≤ n / s) by (apply Z.div_pos; lia).
  case_decide; nia.
Qed.

Lemma cdiv_nonneg n s : 0 ≤ n → 0 < s → cdiv n s = n / s.
Proof. intros. unfold cdiv. by rewrite Z.quot_div_nonneg by lia. Qed.

Lemma cmod_nonneg n s : 0 ≤ n → 0 < s → cmod n s = n mod s.
Proof. intros. unfold cmod. by rewrite Z.rem_mod_nonneg by lia. Qed.

(** ** Automation *)

Create HintDb nachos.
Create Rewrite HintDb width.
#[export] Hint Resolve u32_range s32_range : nachos.
#[export] Hint Rewrite u32_s32 s32_u32 u32_u32 s32_s32 : width.

(** Linear arithmetic with divisions and remainders by constants. *)
Ltac dlia := Z.div_mod_to_equations; lia.

(** [Forall P [x1; ...; xn]] from the [P xi]. *)
Ltac forall_list := repeat (apply Forall_cons; split); try apply Forall_nil; try done.

(** Take one step of a monadic program under [wp]. *)
Ltac wp_step :=
  lazymatch goal with
  | |- wp (mbind _ _) _ _ => apply wp_bind
  | |- wp (mret _) _ _ => apply wp_ret
  | |- wp get _ _ => apply wp_get
  | |- wp (gets _) _ _ => apply wp_gets
  | |- wp (put _) _ _ => apply wp_put
  | |- wp (modify _) _ _ => apply wp_modify
  | |- wp (zoom _ _ _) _ _ => apply wp_zoom
  | |- wp (ASSERT _) _ _ => apply wp_ASSERT; [try done |]
  | |- wp (match ?b with _ => _ end) _ _ => fail
  end.
Ltac wp_steps := repeat (wp_step; cbv beta).

(** Finish a goal about a value known to be in a finite range. *)
Ltac split_bool :=
  repeat match goal with
  | H : _ && _ = true |- _ => apply andb_true_iff in H as [? ?]
  | |- _ && _ = true => apply andb_true_iff; split
  | H : bool_decide _ = true |- _ => apply bool_decide_eq_true in H
  | H : bool_decide _ = false |- _ => apply bool_decide_eq_false in H
  | |- bool_decide _ = true => apply bool_decide_eq_true
  end.
