(* ===== verification/BitMap.v ===== *)
(** * Bitmaps (userprog/bitmap.h, userprog/bitmap.cc)

    A [BitMap] is an array of 32-bit words.  The operations below are the
    member functions, with the bit arithmetic they do on [unsigned int] words
    and [int] masks.  [bit] is the abstraction: bit [i] of the map as a
    boolean.  The theorems say what each operation does to that abstraction,
    that [Find] returns the first clear bit and sets it, and [NumClear] counts. *)

From stdpp Require Import base gmap list numbers list_numbers.
From Stdlib Require Import ZArith Lia.
From S2P Require Import Prelude.

Definition BitsInByte : Z := 8.
Definition BitsInWord : Z := 32.

Record BitMap := mkBitMap {
  numBits : Z;       (* number of bits in the bitmap *)
  numWords : Z;      (* number of words of bitmap storage *)
  map : list Z       (* bit storage, unsigned int *)
}.

Definition set_map (m : list Z) (b : BitMap) : BitMap :=
  mkBitMap (numBits b) (numWords b) m.

Definition in_bitmap (which : Z) (b : BitMap) : bool :=
  bool_decide (which >= 0) && bool_decide (which < numBits b).

(** [1 << (which % BitsInWord)], an [int]. *)
Definition BitMap_mask (which : Z) : Z := shl32 1 (cmod which BitsInWord).

Definition BitMap_Mark (which : Z) : M BitMap unit :=
  b ← get;
  ASSERT (in_bitmap which b) ;;
  w ← lift (rd (map b) (cdiv which BitsInWord));
  m ← lift (wr (map b) (cdiv which BitsInWord) (Z.lor w (u32 (BitMap_mask which))));
  put (set_map m b).

Definition BitMap_Clear (which : Z) : M BitMap unit :=
  b ← get;
  ASSERT (in_bitmap which b) ;;
  w ← lift (rd (map b) (cdiv which BitsInWord));
  m ← lift (wr (map b) (cdiv which BitsInWord) (Z.land w (u32 (Z.lnot (BitMap_mask which)))));
  put (set_map m b).

Definition BitMap_Test (which : Z) : M BitMap bool :=
  b ← get;
  ASSERT (in_bitmap which b) ;;
  w ← lift (rd (map b) (cdiv which BitsInWord));
  mret (negb (bool_decide (Z.land w (u32 (BitMap_mask which)) = 0))).

(** The scan of [Find]: [n] bits are left, [i] is the next one. *)
Fixpoint BitMap_Find_from (n : nat) (i : Z) : M BitMap Z :=
  match n with
  | O => mret (-1)
  | S n' =>
      t ← BitMap_Test i;
      if (t : bool) then BitMap_Find_from n' (i + 1)
      else BitMap_Mark i ;; mret i
  end.

Definition BitMap_Find : M BitMap Z :=
  b ← get; BitMap_Find_from (Z.to_nat (numBits b)) 0.

Fixpoint BitMap_NumClear_from (n : nat) (i count : Z) : M BitMap Z :=
  match n with
  | O => mret count
  | S n' =>
      t ← BitMap_Test i;
      BitMap_NumClear_from n' (i + 1) (if (t : bool) then count else count + 1)
  end.

Definition BitMap_NumClear : M BitMap Z :=
  b ← get; BitMap_NumClear_from (Z.to_nat (numBits b)) 0 0.

(** The constructor.  [new unsigned int[numWords]] is not initialised:
    [garbage] is what the allocation holds. *)
Definition BitMap_new (garbage : list Z) (nitems : Z) : outcome BitMap :=
  match for_range 0 (Z.to_nat nitems) BitMap_Clear
          (mkBitMap nitems (divRoundUp nitems BitsInWord) garbage) with
  | Done (_, b) => Done b
  | Fault f => Fault f
  end.

(** ** Abstraction and invariant *)

Definition word_at (b : BitMap) (i : Z) : Z := map b !!! Z.to_nat (i / 32).
Definition bit (b : BitMap) (i : Z) : bool := Z.testbit (word_at b i) (i mod 32).

Record BitMap_wf (b : BitMap) : Prop := {
  wf_bits : 0 ≤ numBits b;
  wf_words : numWords b = divRoundUp (numBits b) BitsInWord;
  wf_length : Z.of_nat (length (map b)) = numWords b;
  wf_range : Forall (λ w, 0 ≤ w < 2 ^ 32) (map b)
}.

(** The bits of the map that are set, as a set of bit numbers. *)
Definition used (b : BitMap) : list Z := filter (λ i, bit b i = true) (seqZ 0 (numBits b)).
Definition free (b : BitMap) : list Z := filter (λ i, bit b i = false) (seqZ 0 (numBits b)).

(** [b'] is [b] with bit [i] set to [v]. *)
Definition bit_update (b : BitMap) (i : Z) (v : bool) (b' : BitMap) : Prop :=
  BitMap_wf b' ∧ numBits b' = numBits b ∧
  ∀ j, 0 ≤ j < numBits b → bit b' j = if decide (j = i) then v else bit b j.

(** ** The masks, bit by bit *)

Lemma in_bitmap_true i b : 0 ≤ i < numBits b → in_bitmap i b = true.
Proof. intros. unfold in_bitmap. split_bool; lia. Qed.

Lemma testbit_mask i k : 0 ≤ i → 0 ≤ k < 32 →
  Z.testbit (BitMap_mask i) k = bool_decide (k = i mod 32).
Proof.
  intros Hi Hk. unfold BitMap_mask, shl32, BitsInWord.
  rewrite cmod_nonneg, testbit_s32_low by lia.
  pose proof (Z.mod_pos_bound i 32).
  rewrite Z.shiftl_1_l. case_bool_decide as E.
  - rewrite E. apply Z.pow2_bits_true. lia.
  - apply Z.pow2_bits_false. lia.
Qed.

Lemma testbit_u32_mask i k : 0 ≤ i → 0 ≤ k →
  Z.testbit (u32 (BitMap_mask i)) k = bool_decide (k = i mod 32).
Proof.
  intros Hi Hk. rewrite testbit_u32 by lia. pose proof (Z.mod_pos_bound i 32).
  destruct (decide (k < 32)).
  - rewrite bool_decide_true, testbit_mask by lia. done.
  - rewrite bool_decide_false by lia. rewrite bool_decide_false by lia. done.
Qed.

Lemma testbit_u32_lnot_mask i k : 0 ≤ i → 0 ≤ k →
  Z.testbit (u32 (Z.lnot (BitMap_mask i))) k = bool_decide (k < 32 ∧ k ≠ i mod 32).
Proof.
  intros Hi Hk. rewrite testbit_u32 by lia. destruct (decide (k < 32)).
  - rewrite bool_decide_true by lia. simpl. rewrite Z.lnot_spec, testbit_mask by lia.
    repeat case_bool_decide; try (exfalso; lia); done.
  - rewrite bool_decide_false by lia. rewrite bool_decide_false by naive_solver. done.
Qed.

Lemma land_mask_zero w i : 0 ≤ i →
  bool_decide (Z.land w (u32 (BitMap_mask i)) = 0) = negb (Z.testbit w (i mod 32)).
Proof.
  intros Hi. pose proof (Z.mod_pos_bound i 32).
  case_bool_decide as E.
  - apply (f_equal (λ z, Z.testbit z (i mod 32))) in E.
    rewrite Z.land_spec, testbit_u32_mask, Z.bits_0, bool_decide_true in E by lia.
    rewrite andb_true_r in E. by rewrite E.
  - destruct (Z.testbit w (i mod 32)) eqn:T; [done |]. exfalso. apply E.
    apply Z.bits_inj'. intros k Hk. rewrite Z.land_spec, testbit_u32_mask, Z.bits_0 by lia.
    case_bool_decide; subst; [by rewrite T | by rewrite andb_false_r].
Qed.

(** ** Words and bits of an updated map *)

Section facts.
Implicit Types b : BitMap.

Lemma word_index b i : BitMap_wf b → 0 ≤ i < numBits b →
  0 ≤ i / 32 < Z.of_nat (length (map b)).
Proof.
  intros [? Hw Hl _] Hi. rewrite Hl, Hw. unfold BitsInWord.
  destruct (divRoundUp_spec (numBits b) 32); [lia.. |].
  split; [apply Z.div_pos; lia |]. apply Z.div_lt_upper_bound; lia.
Qed.

Lemma rd_word b i : BitMap_wf b → 0 ≤ i < numBits b →
  rd (map b) (cdiv i BitsInWord) = Done (word_at b i).
Proof.
  intros Hwf Hi. unfold BitsInWord. rewrite cdiv_nonneg by lia.
  destruct (rd_in_range (map b) (i / 32)) as (w & Hw & ->); [by apply word_index |].
  unfold word_at. by rewrite (list_lookup_total_correct _ _ w).
Qed.

Lemma word_at_range b i : BitMap_wf b → 0 ≤ i < numBits b → 0 ≤ word_at b i < 2 ^ 32.
Proof.
  intros Hwf Hi. destruct (word_index b i Hwf Hi).
  destruct (lookup_lt_is_Some_2 (map b) (Z.to_nat (i / 32))) as [w Hw]; [lia |].
  unfold word_at. rewrite (list_lookup_total_correct _ _ w) by done.
  eapply Forall_lookup_1 in Hw; [| apply Hwf]. done.
Qed.

Lemma bit_set_word b i w j : BitMap_wf b → 0 ≤ i < numBits b → 0 ≤ j < numBits b →
  bit (set_map (<[Z.to_nat (i / 32) := w]> (map b)) b) j =
  Z.testbit (if decide (j / 32 = i / 32) then w else word_at b j) (j mod 32).
Proof.
  intros Hwf Hi Hj. unfold bit, word_at. simpl. f_equal.
  destruct (word_index b i Hwf Hi), (word_index b j Hwf Hj).
  case_decide as E.
  - rewrite E. apply list_lookup_total_insert_eq. lia.
  - apply list_lookup_total_insert_ne. lia.
Qed.

Lemma wf_set_word b n w : BitMap_wf b → 0 ≤ w < 2 ^ 32 →
  BitMap_wf (set_map (<[n := w]> (map b)) b).
Proof.
  intros [? ? ? Hr] Hw. split; simpl; [done | done | by rewrite length_insert |].
  by apply Forall_insert.
Qed.

(** Writing a word that differs from the old one only at bit [i mod 32]. *)
Lemma update_word b i v w : BitMap_wf b → 0 ≤ i < numBits b → 0 ≤ w < 2 ^ 32 →
  (∀ k, 0 ≤ k < 32 → Z.testbit w k =
     if decide (k = i mod 32) then v else Z.testbit (word_at b i) k) →
  bit_update b i v (set_map (<[Z.to_nat (i / 32) := w]> (map b)) b).
Proof.
  intros Hwf Hi Hw Hbits. split; [by apply wf_set_word | split; [done |]].
  intros j Hj. rewrite bit_set_word by done.
  pose proof (Z.mod_pos_bound j 32). pose proof (Z.div_mod i 32). pose proof (Z.div_mod j 32).
  case_decide as E.
  - rewrite Hbits by lia. unfold bit, word_at. rewrite E.
    repeat case_decide; congruence || lia.
  - rewrite decide_False by (intros ->; done). done.
Qed.

Lemma wr_word b i w : BitMap_wf b → 0 ≤ i < numBits b →
  wr (map b) (cdiv i BitsInWord) w = Done (<[Z.to_nat (i / 32) := w]> (map b)).
Proof.
  intros Hwf Hi. unfold BitsInWord. rewrite cdiv_nonneg by lia.
  apply wr_Done. by apply word_index.
Qed.
End facts.

(** ** What the operations do *)

Section specs.
Implicit Types b : BitMap.

Lemma Mark_spec b i : BitMap_wf b → 0 ≤ i < numBits b →
  wp (BitMap_Mark i) (λ _ b', bit_update b i true b') b.
Proof.
  intros Hwf Hi. pose proof (word_at_range b i Hwf Hi) as Hw.
  unfold BitMap_Mark. wp_steps; [by apply in_bitmap_true |].
  eapply wp_lift; [by apply rd_word |]. wp_steps.
  eapply wp_lift; [by apply wr_word |]. wp_steps.
  apply update_word; [done | done | |].
  - apply bits_range; [lia |]. intros k Hk. rewrite Z.lor_spec, testbit_u32_mask by lia.
    rewrite (testbit_high _ 32) by lia. pose proof (Z.mod_pos_bound i 32).
    rewrite bool_decide_false by lia. done.
  - intros k Hk. rewrite Z.lor_spec, testbit_u32_mask by lia.
    repeat case_bool_decide; case_decide; try done; by rewrite ?orb_true_r, ?orb_false_r.
Qed.

Lemma Clear_spec b i : BitMap_wf b → 0 ≤ i < numBits b →
  wp (BitMap_Clear i) (λ _ b', bit_update b i false b') b.
Proof.
  intros Hwf Hi. pose proof (word_at_range b i Hwf Hi) as Hw.
  unfold BitMap_Clear. wp_steps; [by apply in_bitmap_true |].
  eapply wp_lift; [by apply rd_word |]. wp_steps.
  eapply wp_lift; [by apply wr_word |]. wp_steps.
  apply update_word; [done | done | |].
  - apply bits_range; [lia |]. intros k Hk. rewrite Z.land_spec.
    rewrite (testbit_high _ 32) by lia. done.
  - intros k Hk. rewrite Z.land_spec, testbit_u32_lnot_mask by lia.
    case_bool_decide; case_decide; try (exfalso; lia); by rewrite ?andb_true_r, ?andb_false_r.
Qed.

Lemma Test_run b i : BitMap_wf b → 0 ≤ i < numBits b →
  BitMap_Test i b = Done (bit b i, b).
Proof.
  intros Hwf Hi. unfold BitMap_Test, mbind, M_bind, get, ASSERT.
  rewrite in_bitmap_true by done. simpl. unfold lift. rewrite rd_word by done.
  rewrite land_mask_zero by lia. by rewrite negb_involutive.
Qed.

Lemma Test_spec b i : BitMap_wf b → 0 ≤ i < numBits b →
  wp (BitMap_Test i) (λ t b', t = bit b i ∧ b' = b) b.
Proof. intros. exists (bit b i), b. split; [by apply Test_run | done]. Qed.

(** What [Find] promises. *)
Definition find_post b (r : Z) b' : Prop :=
  (r = -1 ∧ b' = b ∧ ∀ j, 0 ≤ j < numBits b → bit b j = true) ∨
  (0 ≤ r < numBits b ∧ bit b r = false ∧ (∀ j, 0 ≤ j < r → bit b j = true) ∧
   bit_update b r true b').

Lemma Find_from_spec b n : ∀ i, BitMap_wf b → 0 ≤ i → i + Z.of_nat n = numBits b →
  (∀ j, 0 ≤ j < i → bit b j = true) →
  wp (BitMap_Find_from n i) (find_post b) b.
Proof.
  induction n as [| n IH]; intros i Hwf Hi Hn Hbefore; simpl.
  - apply wp_ret. left. split; [done | split; [done |]]. intros; apply Hbefore; lia.
  - apply wp_bind. exists (bit b i), b. split; [apply Test_run; [done | lia] |].
    destruct (bit b i) eqn:E.
    + apply IH; [done | lia | lia |]. intros j Hj.
      destruct (decide (j = i)); [by subst | apply Hbefore; lia].
    + apply wp_bind. eapply wp_mono; [apply Mark_spec; [done | lia] |].
      intros [] b' Hb'. apply wp_ret. right. split; [lia |]. naive_solver.
Qed.

Lemma Find_spec b : BitMap_wf b → wp BitMap_Find (find_post b) b.
Proof.
  intros Hwf. unfold BitMap_Find. wp_steps. pose proof (wf_bits _ Hwf).
  apply Find_from_spec; [done | lia..].
Qed.

Lemma NumClear_from_spec b n : ∀ i c, BitMap_wf b → 0 ≤ i → i + Z.of_nat n = numBits b →
  BitMap_NumClear_from n i c b =
  Done (c + Z.of_nat (length (filter (λ j, bit b j = false) (seqZ i (Z.of_nat n)))), b).
Proof.
  induction n as [| n IH]; intros i c Hwf Hi Hn; cbn [BitMap_NumClear_from].
  - simpl. by rewrite Z.add_0_r.
  - rewrite seqZ_cons, filter_cons by lia. replace (Z.pred (Z.of_nat (S n))) with (Z.of_nat n) by lia.
    unfold mbind, M_bind. rewrite Test_run by (done || lia).
    rewrite <- Z.add_1_r, (IH (i + 1)) by (done || lia).
    destruct (bit b i); [by rewrite decide_False by done |].
    rewrite decide_True by done. simpl. do 2 f_equal. lia.
Qed.

Lemma NumClear_run b : BitMap_wf b →
  BitMap_NumClear b = Done (Z.of_nat (length (free b)), b).
Proof.
  intros Hwf. unfold BitMap_NumClear, mbind, M_bind, get. pose proof (wf_bits _ Hwf).
  rewrite NumClear_from_spec by (done || lia). unfold free.
  by rewrite Z2Nat.id by lia.
Qed.

(** The constructor clears every bit, whatever the allocation held. *)
Lemma new_spec g n : 0 ≤ n → Z.of_nat (length g) = divRoundUp n BitsInWord →
  Forall (λ w, 0 ≤ w < 2 ^ 32) g →
  ∃ b, BitMap_new g n = Done b ∧ BitMap_wf b ∧ numBits b = n ∧
       ∀ i, 0 ≤ i < n → bit b i = false.
Proof.
  intros Hn Hlen Hg. set (b0 := mkBitMap n (divRoundUp n BitsInWord) g).
  assert (wp (for_range 0 (Z.to_nat n) BitMap_Clear)
    (λ _ b, BitMap_wf b ∧ numBits b = n ∧ ∀ i, 0 ≤ i < 0 + Z.of_nat (Z.to_nat n) → bit b i = false) b0)
    as (u & b & Hrun & Hwf & Hnb & Hb).
  { apply (wp_for (λ k b, BitMap_wf b ∧ numBits b = n ∧ ∀ i, 0 ≤ i < k → bit b i = false)).
    - split; [by split | split; [done | lia]].
    - intros i b Hi (Hwf & Hnb & Hb). eapply wp_mono; [apply Clear_spec; [done | lia] |].
      intros _ b' (Hwf' & Hnb' & Hbits). split; [done | split; [lia |]].
      intros j Hj. rewrite Hbits by lia. case_decide; [done | apply Hb; lia]. }
  exists b. unfold BitMap_new. fold b0. rewrite Hrun. repeat split; try done || apply Hwf.
  intros; apply Hb; lia.
Qed.

(** Outside of the map every operation stops at its [ASSERT]. *)
Lemma out_of_range b i : ~ (0 ≤ i < numBits b) →
  BitMap_Mark i b = Fault AssertFailed ∧
  BitMap_Clear i b = Fault AssertFailed ∧
  BitMap_Test i b = Fault AssertFailed.
Proof.
  intros Hi. assert (in_bitmap i b = false) as E.
  { unfold in_bitmap. destruct (decide (i >= 0)).
    - rewrite (bool_decide_false (i < numBits b)) by lia. apply andb_false_r.
    - by rewrite bool_decide_false. }
  unfold BitMap_Mark, BitMap_Clear, BitMap_Test, mbind, M_bind, get, ASSERT.
  by rewrite E.
Qed.
End specs.

(** ** Counting free bits *)

Lemma filter_ext_in {A} (P Q : A → Prop) `{!∀ x, Decision (P x), !∀ x, Decision (Q x)}
    (l : list A) :
  (∀ y, y ∈ l → P y ↔ Q y) → filter P l = filter Q l.
Proof.
  induction l as [| x l IH]; intros Hiff; [done |]. rewrite !filter_cons.
  rewrite (IH (λ y Hy, Hiff y (list_elem_of_further _ _ _ Hy))).
  pose proof (Hiff x (list_elem_of_here _ _)). repeat case_decide; done || tauto.
Qed.

Lemma filter_remove_one {A} (P Q : A → Prop) `{!∀ x, Decision (P x), !∀ x, Decision (Q x)}
    (l : list A) x :
  NoDup l → x ∈ l → P x → ¬ Q x → (∀ y, y ∈ l → y ≠ x → P y ↔ Q y) →
  length (filter P l) = S (length (filter Q l)).
Proof.
  intros Hnd Hx HP HQ Hiff.
  apply list_elem_of_split in Hx as (l1 & l2 & ->).
  assert (∀ k : list A, (∀ y, y ∈ k → y ∈ l1 ++ x :: l2 ∧ y ≠ x) → filter P k = filter Q k) as Hext.
  { intros k Hk. apply filter_ext_in. intros y Hy. apply Hiff; apply Hk; done. }
  apply NoDup_app in Hnd as (? & Hdisj & [Hx2 ?]%NoDup_cons).
  rewrite !filter_app, !filter_cons, !length_app, decide_True, decide_False by done.
  rewrite (Hext l1), (Hext l2).
  - simpl. lia.
  - intros y Hy. split; [set_solver | by intros ->].
  - intros y Hy. split; [set_solver |]. intros ->. apply (Hdisj x Hy). set_solver.
Qed.

Lemma free_take b i b' : BitMap_wf b → 0 ≤ i < numBits b → bit b i = false →
  bit_update b i true b' → length (free b) = S (length (free b')).
Proof.
  intros Hwf Hi Hbit (_ & Hn & Hbits). unfold free. rewrite Hn.
  apply (filter_remove_one _ _ _ i).
  - apply NoDup_seqZ.
  - apply elem_of_seqZ. lia.
  - done.
  - rewrite Hbits by lia. by rewrite decide_True.
  - intros y Hy%elem_of_seqZ Hne. rewrite Hbits by lia. by rewrite decide_False.
Qed.

Lemma free_release b i b' : BitMap_wf b → 0 ≤ i < numBits b → bit b i = true →
  bit_update b i false b' → length (free b') = S (length (free b)).
Proof.
  intros Hwf Hi Hbit (_ & Hn & Hbits). unfold free. rewrite Hn.
  apply (filter_remove_one _ _ _ i).
  - apply NoDup_seqZ.
  - apply elem_of_seqZ. lia.
  - rewrite Hbits by lia. by rewrite decide_True.
  - by rewrite Hbit.
  - intros y Hy%elem_of_seqZ Hne. rewrite Hbits by lia. by rewrite decide_False.
Qed.

Lemma free_nil_iff b : free b = [] ↔ ∀ j, 0 ≤ j < numBits b → bit b j = true.
Proof.
  unfold free. split.
  - intros Hf j Hj. apply not_false_is_true. intros E.
    assert (j ∈ filter (λ i, bit b i = false) (seqZ 0 (numBits b))) as Hin.
    { apply list_elem_of_filter. split; [done |]. apply elem_of_seqZ. lia. }
    rewrite Hf in Hin. by apply elem_of_nil in Hin.
  - intros Hall. destruct (filter _ _) as [| x l] eqn:E; [done |]. exfalso.
    assert (x ∈ filter (λ i, bit b i = false) (seqZ 0 (numBits b))) as Hin by (rewrite E; set_solver).
    apply list_elem_of_filter in Hin as [Hx Hin%elem_of_seqZ].
    rewrite Hall in Hx by lia. done.
Qed.

#[export] Hint Resolve in_bitmap_true free_take free_release : nachos.

Lemma filter_all_true {A} (P : A → Prop) `{!∀ x, Decision (P x)} (l : list A) :
  (∀ x, x ∈ l → P x) → filter P l = l.
Proof.
  induction l as [| x l IH]; intros Hall; [done |].
  rewrite filter_cons_True by (apply Hall, list_elem_of_here). f_equal. apply IH.
  intros y Hy. by apply Hall, list_elem_of_further.
Qed.

(** ** The bitmap as an allocator *)

Lemma bit_update_wf b i v b' : bit_update b i v b' → BitMap_wf b' ∧ numBits b' = numBits b.
Proof. intros (? & ? & _). done. Qed.

(** Clearing the bit that was just set gives the old bits back. *)
Lemma set_then_clear b r b' : BitMap_wf b → 0 ≤ r < numBits b → bit b r = false →
  bit_update b r true b' →
  wp (BitMap_Clear r) (λ _ b'', numBits b'' = numBits b ∧ ∀ j, 0 ≤ j < numBits b → bit b'' j = bit b j) b'.
Proof.
  intros Hwf Hr Hfree (Hwf' & Hn' & Hb').
  eapply wp_mono; [apply Clear_spec; [done | by rewrite Hn'] |].
  intros [] b'' (_ & Hn'' & Hb''). split; [congruence |]. intros j Hj.
  rewrite Hb'' by (by rewrite Hn'). case_decide as E; [congruence |].
  rewrite Hb' by done. by rewrite decide_False.
Qed.

Lemma NumClear_zero b : BitMap_wf b → (∀ j, 0 ≤ j < numBits b → bit b j = true) →
  BitMap_NumClear b = Done (0, b).
Proof.
  intros Hwf Hfull. rewrite NumClear_run by done.
  destruct (free b) as [| i l] eqn:E; [done |]. exfalso.
  assert (i ∈ free b) as Hi by (rewrite E; apply list_elem_of_here).
  unfold free in Hi. apply list_elem_of_filter in Hi as [Hi Hin].
  apply elem_of_seqZ in Hin. rewrite Hfull in Hi by lia. done.
Qed.

(** [BitMap::Find] always returns.  It returns -1 and changes nothing when
    [NumClear] is 0; otherwise it returns the lowest clear bit, sets that bit
    and no other, [NumClear] drops by exactly one, and clearing the bit again
    restores every bit of the map. *)
Theorem BitMap_Find_allocates b : BitMap_wf b →
  ∃ r b', BitMap_Find b = Done (r, b') ∧ BitMap_wf b' ∧ numBits b' = numBits b ∧
    ((r = -1 ∧ b' = b ∧ BitMap_NumClear b = Done (0, b)) ∨
     (0 ≤ r < numBits b ∧ bit b r = false ∧ (∀ j, 0 ≤ j < r → bit b j = true) ∧
      (∀ j, 0 ≤ j < numBits b → bit b' j = if decide (j = r) then true else bit b j) ∧
      (∃ k, BitMap_NumClear b = Done (k + 1, b) ∧ BitMap_NumClear b' = Done (k, b')) ∧
      wp (BitMap_Clear r)
         (λ _ b'', numBits b'' = numBits b ∧ ∀ j, 0 ≤ j < numBits b → bit b'' j = bit b j) b')).
Proof.
  intros Hwf. destruct (Find_spec b Hwf) as (r & b' & Hrun & [(-> & -> & Hfull) | (Hr & Hfree & Hlow & Hup)]).
  - exists (-1), b. split; [done |]. split; [done |]. split; [done |]. left.
    split; [done |]. split; [done |]. by apply NumClear_zero.
  - exists r, b'. destruct (bit_update_wf _ _ _ _ Hup) as [Hwf' Hn'].
    split; [done |]. split; [done |]. split; [done |]. right.
    split; [done |]. split; [done |]. split; [done |]. split; [apply Hup |]. split.
    + exists (Z.of_nat (length (free b'))). rewrite !NumClear_run by done.
      rewrite (free_take b r b') by done. split; [do 2 f_equal; lia | done].
    + by apply set_then_clear.
Qed.

Lemma BitMap_Find_allocates_witness :
  let b := mkBitMap 4 1 [5] in
  BitMap_wf b ∧ ∃ r b', BitMap_Find b = Done (r, b') ∧ r = 1 ∧ map b' = [7].
Proof.
  assert (BitMap_wf (mkBitMap 4 1 [5])) as Hwf by (split; [done | done | done | forall_list]).
  split; [done |]. destruct (BitMap_Find_allocates _ Hwf) as (r & b' & Hrun & _).
  exists r, b'. split; [done |]. vm_compute in Hrun. by simplify_eq.
Defined.

(** The constructor of [BitMap] clears every bit whatever the memory it
    allocates holds, so that [NumClear] is [nitems]; and every operation on a
    bit outside of the map fails its assertion. *)
Theorem BitMap_new_all_clear g n : 0 ≤ n → Z.of_nat (length g) = divRoundUp n BitsInWord →
  Forall (λ w, 0 ≤ w < 2 ^ 32) g →
  ∃ b, BitMap_new g n = Done b ∧ BitMap_wf b ∧ numBits b = n ∧
       (∀ i, 0 ≤ i < n → BitMap_Test i b = Done (false, b)) ∧ BitMap_NumClear b = Done (n, b) ∧
       ∀ i, ~ (0 ≤ i < n) → BitMap_Mark i b = Fault AssertFailed ∧
              BitMap_Clear i b = Fault AssertFailed ∧ BitMap_Test i b = Fault AssertFailed.
Proof.
  intros Hn Hl Hg. destruct (new_spec g n Hn Hl Hg) as (b & Hrun & Hwf & <- & Hclear).
  exists b. split; [done |]. split; [done |]. split; [done |]. split; [| split].
  - intros i Hi. rewrite Test_run by done. by rewrite Hclear.
  - rewrite NumClear_run by done. unfold free. rewrite filter_all_true, length_seqZ; [do 2 f_equal; lia |].
    intros i Hi%elem_of_seqZ. apply Hclear. lia.
  - intros i Hi. by apply out_of_range.
Qed.

Lemma BitMap_new_all_clear_witness :
  ∃ b, BitMap_new [7; 4294967295] 64 = Done b ∧ BitMap_NumClear b = Done (64, b).
Proof.
  destruct (BitMap_new_all_clear [7; 4294967295] 64) as (b & Hnew & _ & _ & _ & Hnum & _).
  - done.
  - done.
  - repeat apply Forall_cons_2; [lia | lia | apply Forall_nil_2].
  - exists b. split; [exact Hnew | exact Hnum].
Defined.
