(* ===== verification/HandleTables.v ===== *)
(** * Handle tables: user semaphores and open files

    - userprog/NachosSems.{h,cc}: [NachosSems], a table of at most [MAX_SEMS]
      semaphore pointers, indexed by the identifier given to the user program;
    - userprog/nachostabla.{h,cc}: [NachosOpenFilesTable], a table of at most
      [MAX_FILES] UNIX file handles.

    Both keep an array beside a [BitMap] of the slots in use.  [HandleTable]
    is what the system calls rely on: the table behaves as a finite map from
    identifiers to handles, [register] takes the first free identifier.  The
    two classes are instances, and every sequence of operations on them
    returns what the finite map returns ([run_ops_refines]). *)

From stdpp Require Import base gmap list numbers list_numbers.
From Stdlib Require Import ZArith Lia.
From S2P Require Import Prelude BitMap.

(** ** The abstract table *)

Fixpoint first_free_from (m : gmap Z Z) (n : nat) (i : Z) : Z :=
  match n with
  | O => -1
  | S n' => match m !! i with
            | Some _ => first_free_from m n' (i + 1)
            | None => i
            end
  end.
Definition first_free (size : Z) (m : gmap Z Z) : Z := first_free_from m (Z.to_nat size) 0.

Inductive table_op :=
| OpRegister (h : Z)
| OpLookup (id : Z)
| OpRemove (id : Z).

(** One operation on the finite map; [ret] is what a removal returns for the
    handle it removes. *)
Definition spec_op (size : Z) (ret : Z → Z) (o : table_op) (m : gmap Z Z) : Z * gmap Z Z :=
  match o with
  | OpRegister h =>
      let r := first_free size m in
      (r, if decide (r = -1) then m else <[r := h]> m)
  | OpLookup id => (default (-1) (m !! id), m)
  | OpRemove id => (from_option ret (-1) (m !! id), delete id m)
  end.

Fixpoint spec_ops (size : Z) (ret : Z → Z) (os : list table_op) (m : gmap Z Z) : list Z * gmap Z Z :=
  match os with
  | [] => ([], m)
  | o :: os' =>
      let '(r, m') := spec_op size ret o m in
      let '(rs, m'') := spec_ops size ret os' m' in
      (r :: rs, m'')
  end.

(** ** The interface *)

Class HandleTable (T : Type) := {
  ht_size : Z;
  ht_storable : Z → Prop;           (* the handles a client stores *)
  ht_ret : Z → Z;                   (* what removing a handle returns *)
  ht_op : table_op → M T Z;
  ht_rep : T → gmap Z Z → Prop
}.

Definition op_ok {T} `{HandleTable T} (o : table_op) : Prop :=
  match o with
  | OpRegister h => ht_storable h
  | OpLookup id | OpRemove id => 0 ≤ id < ht_size
  end.

Class HandleTableLaws (T : Type) `{HandleTable T} := {
  ht_op_refines : ∀ (t : T) (m : gmap Z Z) (o : table_op),
    ht_rep t m → op_ok o →
    wp (ht_op o) (λ r t', r = fst (spec_op ht_size ht_ret o m) ∧
                          ht_rep t' (snd (spec_op ht_size ht_ret o m))) t
}.

Fixpoint run_ops {T} `{HandleTable T} (os : list table_op) : M T (list Z) :=
  match os with
  | [] => mret []
  | o :: os' => r ← ht_op o; rs ← run_ops os'; mret (r :: rs)
  end.

Section clients.
Context {T : Type} `{HandleTableLaws T}.

Lemma run_ops_spec (os : list table_op) : ∀ (t : T) m,
  ht_rep t m → Forall op_ok os →
  wp (run_ops os) (λ rs t', rs = fst (spec_ops ht_size ht_ret os m) ∧
                            ht_rep t' (snd (spec_ops ht_size ht_ret os m))) t.
Proof.
  induction os as [| o os IH]; intros t m Hrep Hok; simpl.
  - by apply wp_ret.
  - apply Forall_cons in Hok as [Ho Hos]. apply wp_bind.
    eapply wp_mono; [by apply ht_op_refines |]. intros r t' [Hr Hrep'].
    destruct (spec_op ht_size ht_ret o m) as [r0 m0]. simpl in *. simplify_eq.
    apply wp_bind. eapply wp_mono; [by apply IH |]. intros rs t'' [-> Hrep''].
    destruct (spec_ops ht_size ht_ret os m0) as [rs0 m1]. by apply wp_ret.
Qed.
End clients.

(** ** The first free slot *)

Lemma first_free_from_spec m n : ∀ i r, 0 ≤ i →
  ((r = -1 ∧ ∀ j, i ≤ j < i + Z.of_nat n → is_Some (m !! j)) ∨
   (i ≤ r < i + Z.of_nat n ∧ m !! r = None ∧ ∀ j, i ≤ j < r → is_Some (m !! j))) →
  first_free_from m n i = r.
Proof.
  induction n as [| n IH]; intros i r Hi Hr; simpl.
  - destruct Hr as [[-> _] | [? _]]; [done | lia].
  - destruct (m !! i) as [x |] eqn:E.
    + apply IH; [lia |]. destruct Hr as [[-> Hall] | (Hri & Hn & Hall)].
      * left. split; [done |]. intros; apply Hall; lia.
      * assert (r ≠ i) by congruence. right. split; [lia |]. split; [done |].
        intros; apply Hall; lia.
    + destruct Hr as [[-> Hall] | (Hri & Hn & Hall)].
      * destruct (Hall i) as [y Hy]; [lia | congruence].
      * destruct (decide (r = i)); [done |]. destruct (Hall i) as [y Hy]; [lia | congruence].
Qed.

(** The slots in use of [b] are the identifiers of [m]. *)
Definition slots_of (b : BitMap) (m : gmap Z Z) : Prop :=
  (∀ i, 0 ≤ i < numBits b → bit b i = bool_decide (is_Some (m !! i))) ∧
  (∀ i, is_Some (m !! i) → 0 ≤ i < numBits b).

Lemma find_post_first_free b m r b' : BitMap_wf b → slots_of b m → find_post b r b' →
  first_free (numBits b) m = r ∧
  (r = -1 → b' = b) ∧
  (r ≠ -1 → 0 ≤ r < numBits b ∧ m !! r = None ∧ bit_update b r true b').
Proof.
  intros Hwf [Hbits Hdom] Hpost. pose proof (wf_bits _ Hwf). split; [| split].
  - apply first_free_from_spec; [lia |]. rewrite Z2Nat.id by lia.
    destruct Hpost as [(-> & -> & Hall) | (Hr & Hb & Hall & _)].
    + left. split; [done |]. intros j Hj. specialize (Hall j Hj).
      rewrite Hbits in Hall by lia. by split_bool.
    + right. split; [lia |]. rewrite Hbits in Hb by lia. split_bool. apply eq_None_not_Some in Hb.
      split; [done |]. intros j Hj. specialize (Hall j). rewrite Hbits in Hall by lia.
      eapply bool_decide_eq_true_1, Hall. lia.
  - intros ->. destruct Hpost as [(_ & -> & _) | (? & _)]; [done | lia].
  - intros Hr. destruct Hpost as [(-> & _) | (? & Hb & _ & Hu)]; [done |].
    rewrite Hbits in Hb by lia. split_bool. apply eq_None_not_Some in Hb. naive_solver.
Qed.

Lemma slots_of_insert b m r h b' : slots_of b m → 0 ≤ r < numBits b → bit_update b r true b' →
  slots_of b' (<[r := h]> m).
Proof.
  intros [Hbits Hdom] Hr (Hwf & Hn & Hu). split; rewrite Hn.
  - intros i Hi. rewrite Hu by lia. case_decide; subst.
    + by rewrite lookup_insert_eq, bool_decide_true.
    + rewrite lookup_insert_ne by done. by apply Hbits.
  - intros i [x Hx]. destruct (decide (i = r)); [by subst |].
    rewrite lookup_insert_ne in Hx by done. apply Hdom. eauto.
Qed.

Lemma slots_of_delete b m r b' : slots_of b m → 0 ≤ r < numBits b → bit_update b r false b' →
  slots_of b' (delete r m).
Proof.
  intros [Hbits Hdom] Hr (Hwf & Hn & Hu). split; rewrite Hn.
  - intros i Hi. rewrite Hu by lia. case_decide; subst.
    + rewrite lookup_delete_eq, bool_decide_false; [done |]. by intros [? ?].
    + rewrite lookup_delete_ne by done. by apply Hbits.
  - intros i [x Hx]. apply Hdom. apply lookup_delete_Some in Hx as [_ Hx]. eauto.
Qed.

(** ** [NachosSems] *)

Definition MAX_SEMS : Z := 6.

Record NachosSems := mkNachosSems {
  openSemsMap : BitMap;       (* a bitmap to control the vector *)
  semaphores : list Z;        (* the user created semaphores: pointers as long *)
  sems_usage : Z              (* how many threads are using this table *)
}.

Definition set_openSemsMap (b : BitMap) (t : NachosSems) : NachosSems :=
  mkNachosSems b (semaphores t) (sems_usage t).
Definition set_semaphores (l : list Z) (t : NachosSems) : NachosSems :=
  mkNachosSems (openSemsMap t) l (sems_usage t).
Definition set_sems_usage (u : Z) (t : NachosSems) : NachosSems :=
  mkNachosSems (openSemsMap t) (semaphores t) u.

(** [garbage] is what the bitmap's allocation holds, [garbage'] what
    [new long[MAX_SEMS]] holds. *)
Definition NachosSems_new (garbage garbage' : list Z) : outcome NachosSems :=
  match BitMap_new garbage MAX_SEMS with
  | Done b =>
      match for_range 0 (Z.to_nat MAX_SEMS)
              (λ x, array_set x (-1)) garbage' with
      | Done (_, l) => Done (mkNachosSems b l 0)
      | Fault f => Fault f
      end
  | Fault f => Fault f
  end.

Definition NachosSems_registerSem (s : Z) : M NachosSems Z :=
  freeSemSpace ← zoom openSemsMap set_openSemsMap BitMap_Find;
  if decide (-1 ≠ freeSemSpace) then
    t ← get;
    l ← lift (wr (semaphores t) freeSemSpace s);
    put (set_semaphores l t) ;;
    mret freeSemSpace
  else mret freeSemSpace.

Definition NachosSems_unRegisterSem (id : Z) : M NachosSems Z :=
  t ← get;
  p ← lift (rd (semaphores t) id);
  if decide (p ≠ -1) then
    zoom openSemsMap set_openSemsMap (BitMap_Clear id) ;;
    t' ← get;
    copy ← lift (rd (semaphores t') id);
    l ← lift (wr (semaphores t') id (-1));
    put (set_semaphores l t') ;;
    mret copy
  else mret (-1).

Definition NachosSems_getNachosPointer (id : Z) : M NachosSems Z :=
  t ← get; lift (rd (semaphores t) id).

Definition NachosSems_addSem : M NachosSems unit := modify (λ t, set_sems_usage (sems_usage t + 1) t).
Definition NachosSems_delSem : M NachosSems unit := modify (λ t, set_sems_usage (sems_usage t - 1) t).

(** The table holds the pointers of [m]; a free slot holds -1. *)
Record sems_rep (t : NachosSems) (m : gmap Z Z) : Prop := {
  sr_bitmap : BitMap_wf (openSemsMap t);
  sr_bits : numBits (openSemsMap t) = MAX_SEMS;
  sr_slots : slots_of (openSemsMap t) m;
  sr_length : length (semaphores t) = Z.to_nat MAX_SEMS;
  sr_value : ∀ i, 0 ≤ i < MAX_SEMS → semaphores t !! Z.to_nat i = Some (default (-1) (m !! i));
  sr_pointers : ∀ i p, m !! i = Some p → p ≠ -1
}.

#[export] Instance NachosSems_table : HandleTable NachosSems := {
  ht_size := MAX_SEMS;
  ht_storable p := p ≠ -1;
  ht_ret p := p;
  ht_op o := match o with
             | OpRegister h => NachosSems_registerSem h
             | OpLookup id => NachosSems_getNachosPointer id
             | OpRemove id => NachosSems_unRegisterSem id
             end;
  ht_rep := sems_rep
}.

Lemma insert_value (l : list Z) (m : gmap Z Z) n r v v' :
  length l = Z.to_nat n → 0 ≤ r < n →
  (∀ i, 0 ≤ i < n → l !! Z.to_nat i = Some (default v' (m !! i))) →
  ∀ i, 0 ≤ i < n → <[Z.to_nat r := v]> l !! Z.to_nat i =
    Some (if decide (i = r) then v else default v' (m !! i)).
Proof.
  intros Hl Hr Hv i Hi. case_decide; subst.
  - apply list_lookup_insert_eq. lia.
  - rewrite list_lookup_insert_ne by lia. by apply Hv.
Qed.

Lemma register_sems t m h : sems_rep t m → h ≠ -1 →
  wp (NachosSems_registerSem h)
     (λ r t', r = fst (spec_op MAX_SEMS (λ p, p) (OpRegister h) m) ∧
              sems_rep t' (snd (spec_op MAX_SEMS (λ p, p) (OpRegister h) m))) t.
Proof.
  intros [Hwf Hn Hs Hl Hv Hp] Hh. unfold NachosSems_registerSem. wp_steps.
  eapply wp_mono; [by apply Find_spec |]. intros r b' Hpost.
  destruct (find_post_first_free _ _ _ _ Hwf Hs Hpost) as (Hff & Hfull & Hfree).
  rewrite Hn in *. cbn -[first_free]. rewrite Hff. case_decide as Hr.
  - destruct Hfree as (Hrange & Hnone & Hu); [done |]. rewrite decide_False by done.
    wp_steps. eapply wp_lift; [apply wr_Done; simpl; lia |]. wp_steps. split; [done |].
    destruct Hu as (Hwf' & Hn' & Hbits). split; simpl.
    + done.
    + lia.
    + apply (slots_of_insert (openSemsMap t)); [done | lia |]. by split.
    + by rewrite length_insert.
    + intros i Hi. rewrite (insert_value _ m MAX_SEMS _ _ (-1)) by done.
      case_decide; subst; [by rewrite lookup_insert_eq | by rewrite lookup_insert_ne].
    + intros i p. destruct (decide (i = r)) as [-> |].
      * rewrite lookup_insert_eq. intros; by simplify_eq.
      * rewrite lookup_insert_ne by done. apply Hp.
  - assert (r = -1) as -> by lia. rewrite decide_True by done. wp_steps. split; [done |].
    rewrite Hfull by done. by split.
Qed.

Lemma remove_sems t m id : sems_rep t m → 0 ≤ id < MAX_SEMS →
  wp (NachosSems_unRegisterSem id)
     (λ r t', r = fst (spec_op MAX_SEMS (λ p, p) (OpRemove id) m) ∧
              sems_rep t' (snd (spec_op MAX_SEMS (λ p, p) (OpRemove id) m))) t.
Proof.
  intros [Hwf Hn Hs Hl Hv Hp] Hid. unfold NachosSems_unRegisterSem. wp_steps.
  eapply wp_lift; [apply rd_Done; [lia | by apply Hv] |]. cbn [spec_op fst snd].
  destruct (m !! id) as [p |] eqn:E; cbn [default from_option].
  - rewrite decide_True by eauto. wp_steps.
    eapply wp_mono; [apply Clear_spec; [done | lia] |]. intros [] b' (Hwf' & Hn' & Hbits). wp_steps.
    eapply wp_lift; [apply rd_Done; [lia | by apply Hv] |]. rewrite E. wp_steps.
    eapply wp_lift; [apply wr_Done; simpl; lia |]. wp_steps. split; [done |]. split; simpl.
    + done.
    + lia.
    + apply (slots_of_delete (openSemsMap t)); [done | lia |]. by split.
    + by rewrite length_insert.
    + intros i Hi. rewrite (insert_value _ m MAX_SEMS _ _ (-1)) by done.
      case_decide; subst; [by rewrite lookup_delete_eq | by rewrite lookup_delete_ne].
    + intros i q Hq%lookup_delete_Some. naive_solver.
  - rewrite decide_False by lia. wp_steps. split; [done |].
    rewrite delete_id by done. by split.
Qed.

#[export] Instance NachosSems_laws : HandleTableLaws NachosSems.
Proof.
  split. intros t m [h | id | id] Hrep Hok; simpl in *.
  - by apply register_sems.
  - unfold NachosSems_getNachosPointer. wp_steps.
    eapply wp_lift; [apply rd_Done; [lia | by apply (sr_value t m)] |]. done.
  - by apply remove_sems.
Qed.

(** ** [NachosOpenFilesTable] *)

Definition MAX_FILES : Z := 128.

Record NachosOpenFilesTable := mkOpenFilesTable {
  openFiles : list Z;          (* a vector with user opened files: UNIX handles *)
  openFilesMap : BitMap;       (* a bitmap to control the vector *)
  files_usage : Z              (* how many threads are using this table *)
}.

Definition set_openFiles (l : list Z) (t : NachosOpenFilesTable) : NachosOpenFilesTable :=
  mkOpenFilesTable l (openFilesMap t) (files_usage t).
Definition set_openFilesMap (b : BitMap) (t : NachosOpenFilesTable) : NachosOpenFilesTable :=
  mkOpenFilesTable (openFiles t) b (files_usage t).
Definition set_files_usage (u : Z) (t : NachosOpenFilesTable) : NachosOpenFilesTable :=
  mkOpenFilesTable (openFiles t) (openFilesMap t) u.

(** The constructor.  [usage] is not initialised: [garbage_usage] is what the
    allocation holds. *)
Definition OpenFilesTable_new (garbage garbage' : list Z) (garbage_usage : Z) :
    outcome NachosOpenFilesTable :=
  let init : M (list Z) unit :=
    array_set 0 0 ;; array_set 1 1 ;; array_set 2 2 ;;
    for_range 3 (Z.to_nat (MAX_FILES - 3)) (λ x, array_set x 0) in
  match init garbage' with
  | Done (_, l) =>
      match BitMap_new garbage MAX_FILES with
      | Done b =>
          match (BitMap_Mark 0 ;; BitMap_Mark 1 ;; BitMap_Mark 2) b with
          | Done (_, b') => Done (mkOpenFilesTable l b' garbage_usage)
          | Fault f => Fault f
          end
      | Fault f => Fault f
      end
  | Fault f => Fault f
  end.

Definition OpenFilesTable_isOpened (NachosHandle : Z) : M NachosOpenFilesTable bool :=
  if decide (0 ≤ NachosHandle ∧ NachosHandle < MAX_FILES) then
    zoom openFilesMap set_openFilesMap (BitMap_Test NachosHandle)
  else mret false.

Definition OpenFilesTable_Open (UnixHandle : Z) : M NachosOpenFilesTable Z :=
  freeFile ← zoom openFilesMap set_openFilesMap BitMap_Find;
  if decide (freeFile ≠ -1) then
    t ← get;
    l ← lift (wr (openFiles t) freeFile UnixHandle);
    put (set_openFiles l t) ;;
    mret freeFile
  else mret freeFile.

Definition OpenFilesTable_Close (NachosHandle : Z) : M NachosOpenFilesTable Z :=
  o ← OpenFilesTable_isOpened NachosHandle;
  if (o : bool) then
    zoom openFilesMap set_openFilesMap (BitMap_Clear NachosHandle) ;;
    t ← get;
    l ← lift (wr (openFiles t) NachosHandle 0);
    put (set_openFiles l t) ;;
    mret 0
  else mret (-1).

Definition OpenFilesTable_getUnixHandle (NachosHandle : Z) : M NachosOpenFilesTable Z :=
  o ← OpenFilesTable_isOpened NachosHandle;
  if (o : bool) then
    t ← get; lift (rd (openFiles t) NachosHandle)
  else mret (-1).

Definition OpenFilesTable_addThread : M NachosOpenFilesTable unit :=
  modify (λ t, set_files_usage (files_usage t + 1) t).
Definition OpenFilesTable_delThread : M NachosOpenFilesTable unit :=
  modify (λ t, set_files_usage (files_usage t - 1) t).

Record files_rep (t : NachosOpenFilesTable) (m : gmap Z Z) : Prop := {
  fr_bitmap : BitMap_wf (openFilesMap t);
  fr_bits : numBits (openFilesMap t) = MAX_FILES;
  fr_slots : slots_of (openFilesMap t) m;
  fr_length : length (openFiles t) = Z.to_nat MAX_FILES;
  fr_value : ∀ i, 0 ≤ i < MAX_FILES → openFiles t !! Z.to_nat i = Some (default 0 (m !! i))
}.

#[export] Instance OpenFilesTable_table : HandleTable NachosOpenFilesTable := {
  ht_size := MAX_FILES;
  ht_storable _ := True;
  ht_ret _ := 0;
  ht_op o := match o with
             | OpRegister h => OpenFilesTable_Open h
             | OpLookup id => OpenFilesTable_getUnixHandle id
             | OpRemove id => OpenFilesTable_Close id
             end;
  ht_rep := files_rep
}.

Lemma isOpened_spec t m id : files_rep t m →
  OpenFilesTable_isOpened id t = Done (bool_decide (is_Some (m !! id)), t).
Proof.
  intros [Hwf Hn [Hs Hd] Hl Hv]. unfold OpenFilesTable_isOpened. case_decide as Hid.
  - unfold zoom. rewrite Test_run by (done || lia). rewrite Hs by lia. by destruct t.
  - rewrite bool_decide_false; [done |]. intros Hsome. apply Hd in Hsome. lia.
Qed.

Lemma register_files t m h : files_rep t m →
  wp (OpenFilesTable_Open h)
     (λ r t', r = fst (spec_op MAX_FILES (λ _, 0) (OpRegister h) m) ∧
              files_rep t' (snd (spec_op MAX_FILES (λ _, 0) (OpRegister h) m))) t.
Proof.
  intros [Hwf Hn Hs Hl Hv]. unfold OpenFilesTable_Open. wp_steps.
  eapply wp_mono; [by apply Find_spec |]. intros r b' Hpost.
  destruct (find_post_first_free _ _ _ _ Hwf Hs Hpost) as (Hff & Hfull & Hfree).
  rewrite Hn in *. cbn [spec_op fst snd]. rewrite Hff. case_decide as Hr.
  - destruct Hfree as (Hrange & Hnone & Hu); [done |]. rewrite decide_False by done.
    wp_steps. eapply wp_lift; [apply wr_Done; simpl; lia |]. wp_steps. split; [done |].
    destruct Hu as (Hwf' & Hn' & Hbits). split; simpl; [done | lia | | by rewrite length_insert |].
    + apply (slots_of_insert (openFilesMap t)); [done | lia |]. by split.
    + intros i Hi. rewrite (insert_value _ m MAX_FILES _ _ 0) by done.
      case_decide; subst; [by rewrite lookup_insert_eq | by rewrite lookup_insert_ne].
  - assert (r = -1) as -> by lia. rewrite decide_True by done. wp_steps. split; [done |].
    rewrite Hfull by done. by destruct t.
Qed.

(** [Close] works for every handle, in range or not. *)
Lemma remove_files t m id : files_rep t m →
  wp (OpenFilesTable_Close id)
     (λ r t', r = fst (spec_op MAX_FILES (λ _, 0) (OpRemove id) m) ∧
              files_rep t' (snd (spec_op MAX_FILES (λ _, 0) (OpRemove id) m))) t.
Proof.
  intros Hrep. unfold OpenFilesTable_Close. apply wp_bind.
  eexists _, _. split; [by eapply isOpened_spec |]. cbn [spec_op fst snd].
  destruct Hrep as [Hwf Hn Hs Hl Hv]. case_bool_decide as E.
  - destruct E as [p E]. rewrite E. destruct Hs as [Hs Hd].
    assert (0 ≤ id < MAX_FILES) by (rewrite <- Hn; eauto). wp_steps.
    eapply wp_mono; [apply Clear_spec; [done | lia] |]. intros [] b' (Hwf' & Hn' & Hbits). wp_steps.
    eapply wp_lift; [apply wr_Done; simpl; lia |]. wp_steps. split; [done |].
    split; simpl; [done | lia | | by rewrite length_insert |].
    + apply (slots_of_delete (openFilesMap t)); [by split | lia |]. by split.
    + intros i Hi. rewrite (insert_value _ m MAX_FILES _ _ 0) by done.
      case_decide; subst; [by rewrite lookup_delete_eq | by rewrite lookup_delete_ne].
  - apply eq_None_not_Some in E. rewrite E, delete_id by done. wp_steps. split; [done |]. by split.
Qed.

Lemma lookup_files t m id : files_rep t m →
  OpenFilesTable_getUnixHandle id t = Done (default (-1) (m !! id), t).
Proof.
  intros Hrep. unfold OpenFilesTable_getUnixHandle, mbind, M_bind.
  rewrite (isOpened_spec t m) by done. destruct Hrep as [Hwf Hn [Hs Hd] Hl Hv].
  case_bool_decide as E.
  - destruct E as [p E]. assert (0 ≤ id < MAX_FILES) by (rewrite <- Hn; eauto).
    unfold get, lift. rewrite (rd_Done _ _ p); [by rewrite E | lia |].
    rewrite Hv by done. by rewrite E.
  - apply eq_None_not_Some in E. by rewrite E.
Qed.

#[export] Instance OpenFilesTable_laws : HandleTableLaws NachosOpenFilesTable.
Proof.
  split. intros t m [h | id | id] Hrep Hok; simpl in *.
  - by apply register_files.
  - exists (default (-1) (m !! id)), t. split; [by apply lookup_files | done].
  - by apply remove_files.
Qed.

(** ** The constructors give the initial tables *)

(** An allocation of [n] words whose contents are not known. *)
Definition words_of (n : Z) (g : list Z) : Prop :=
  Z.of_nat (length g) = n ∧ Forall (λ w, 0 ≤ w < 2 ^ 32) g.

Definition std_files : gmap Z Z := {[ 0 := 0; 1 := 1; 2 := 2 ]}.

Lemma NachosSems_new_spec g g' : words_of 1 g → length g' = 6%nat →
  ∃ t, NachosSems_new g g' = Done t ∧ sems_rep t ∅ ∧ sems_usage t = 0.
Proof.
  intros [Hg Hr] Hg'. unfold NachosSems_new.
  destruct (new_spec g MAX_SEMS) as (b & -> & Hwf & Hn & Hb); [done | done | done |].
  destruct (wp_fill (-1) g' 0 (Z.to_nat MAX_SEMS)) as ([] & l & -> & Hl & Hv); [done | by rewrite Hg' |].
  eexists. split; [done |]. split; [| done]. split; simpl; [done | done | | by rewrite Hl | | done].
  - split; [| by intros i [? ?]]. intros i Hi. rewrite Hb by lia.
    rewrite bool_decide_false; [done | by intros [? ?]].
  - intros i Hi. rewrite Hv by (rewrite Hg'; done). by rewrite decide_True.
Qed.

Lemma mark_std b : BitMap_wf b → numBits b = MAX_FILES →
  (∀ i, 0 ≤ i < MAX_FILES → bit b i = false) →
  wp (BitMap_Mark 0 ;; BitMap_Mark 1 ;; BitMap_Mark 2)
     (λ _ b', BitMap_wf b' ∧ numBits b' = MAX_FILES ∧
        ∀ i, 0 ≤ i < MAX_FILES → bit b' i = bool_decide (i < 3)) b.
Proof.
  intros Hwf Hn Hb. apply wp_bind.
  eapply wp_mono; [apply Mark_spec; [done | rewrite Hn; done] |]. intros [] b1 (Hwf1 & Hn1 & Hb1).
  apply wp_bind.
  eapply wp_mono; [apply Mark_spec; [done | rewrite Hn1, Hn; done] |]. intros [] b2 (Hwf2 & Hn2 & Hb2).
  eapply wp_mono; [apply Mark_spec; [done | rewrite Hn2, Hn1, Hn; done] |].
  intros [] b3 (Hwf3 & Hn3 & Hb3). split; [done |]. split; [congruence |].
  intros i Hi. rewrite Hb3, Hb2, Hb1, Hb by lia.
  case_bool_decide; repeat case_decide; done || lia.
Qed.

Lemma OpenFilesTable_new_spec g g' u : words_of 4 g → length g' = 128%nat →
  ∃ t, OpenFilesTable_new g g' u = Done t ∧ files_rep t std_files ∧ files_usage t = u.
Proof.
  intros [Hg Hr] Hg'. unfold OpenFilesTable_new, mbind, M_bind.
  rewrite !array_set_run by (rewrite ?length_insert, ?Hg'; done).
  set (l3 := <[Z.to_nat 2:=2]> (<[Z.to_nat 1:=1]> (<[Z.to_nat 0:=0]> g'))).
  assert (length l3 = 128%nat) as Hl3 by (unfold l3; by rewrite !length_insert).
  destruct (wp_fill 0 l3 3 (Z.to_nat (MAX_FILES - 3))) as ([] & l & -> & Hl & Hv);
    [done | by rewrite Hl3 |].
  destruct (new_spec g MAX_FILES) as (b & -> & Hwf & Hn & Hb); [done | done | done |].
  destruct (mark_std b Hwf Hn Hb) as ([] & b' & Hm & Hwf' & Hn' & Hb').
  unfold mbind, M_bind in Hm. rewrite Hm.
  eexists. split; [done |]. split; [| done].
  assert (∀ i, 0 ≤ i < 3 → std_files !! i = Some i) as Hstd.
  { intros i Hi. assert (i = 0 ∨ i = 1 ∨ i = 2) as [-> | [-> | ->]] by lia; done. }
  assert (∀ i, ~ 0 ≤ i < 3 → std_files !! i = None) as Hno.
  { intros i Hi. unfold std_files. rewrite !lookup_insert_ne by lia. apply lookup_singleton_None. lia. }
  split; simpl; [done | done | | by rewrite Hl |].
  - split; rewrite Hn'.
    + intros i Hi. rewrite Hb' by lia. destruct (decide (i < 3)).
      * rewrite Hstd, !bool_decide_true by (done || lia). done.
      * rewrite Hno, !bool_decide_false by (by intros [? ?] || lia). done.
    + intros i [x Hx]. destruct (decide (0 ≤ i < 3)); [unfold MAX_FILES; lia |].
      by rewrite Hno in Hx.
  - intros i Hi. rewrite Hv by (rewrite Hl3; done). unfold MAX_FILES in *. case_decide.
    + by rewrite Hno by lia.
    + rewrite Hstd by lia. assert (i = 0 ∨ i = 1 ∨ i = 2) as [-> | [-> | ->]] by lia.
      all: unfold l3; rewrite ?list_lookup_insert_ne by (simpl; lia).
      all: apply list_lookup_insert_eq; rewrite ?length_insert, Hg'; simpl; lia.
Qed.

(** ** The tables as their users see them *)

(** The table of user semaphores is a finite map: whatever memory the
    constructor got, every sequence of registrations, look-ups and removals
    (with identifiers below [MAX_SEMS]) runs without a fault and returns what
    the same sequence returns on the finite map, starting from the empty map:
    a registration returns the first free identifier or -1 when all six are
    taken, a look-up the pointer or -1, a removal the removed pointer or -1. *)
Theorem sems_table_refines g g' os :
  words_of 1 g → length g' = 6%nat → Forall (op_ok (T := NachosSems)) os →
  ∃ t, NachosSems_new g g' = Done t ∧
       wp (run_ops os) (λ rs _, rs = fst (spec_ops MAX_SEMS (λ p, p) os ∅)) t.
Proof.
  intros Hg Hg' Hos. destruct (NachosSems_new_spec g g' Hg Hg') as (t & Ht & Hrep & _).
  exists t. split; [done |]. eapply wp_mono; [by apply (run_ops_spec os t ∅) |]. naive_solver.
Qed.

Definition sems_script : list table_op :=
  [OpRegister 500; OpRegister 600; OpLookup 1; OpRemove 0; OpLookup 0; OpRegister 700; OpRemove 5].

Lemma sems_table_refines_witness :
  ∃ t, NachosSems_new [4294967295] [7; 7; 7; 7; 7; 7] = Done t ∧
       wp (run_ops sems_script) (λ rs _, rs = [0; 1; 600; 500; -1; 0; -1]) t.
Proof.
  destruct (sems_table_refines [4294967295] [7; 7; 7; 7; 7; 7] sems_script) as (t & Ht & Hw).
  - split; [done | repeat constructor; done].
  - done.
  - repeat constructor; simpl; unfold MAX_SEMS; lia.
  - exists t. split; [exact Ht |]. eapply wp_mono; [exact Hw |]. intros rs s ->. vm_compute. done.
Defined.

(** The table of open files is a finite map that starts with the three
    standard handles: every sequence of [Open], [getUnixHandle] and [Close]
    returns what it returns on the finite map (first free identifier or -1, the
    UNIX handle or -1, 0 or -1). *)
Theorem files_table_refines g g' u os :
  words_of 4 g → length g' = 128%nat → Forall (op_ok (T := NachosOpenFilesTable)) os →
  ∃ t, OpenFilesTable_new g g' u = Done t ∧
       wp (run_ops os) (λ rs _, rs = fst (spec_ops MAX_FILES (λ _, 0) os std_files)) t.
Proof.
  intros Hg Hg' Hos. destruct (OpenFilesTable_new_spec g g' u Hg Hg') as (t & Ht & Hrep & _).
  exists t. split; [done |]. eapply wp_mono; [by apply (run_ops_spec os t std_files) |]. naive_solver.
Qed.

Definition files_script : list table_op :=
  [OpRegister 11; OpRegister 12; OpLookup 4; OpRemove 3; OpLookup 3; OpRegister 13; OpLookup 2].

Lemma files_table_refines_witness :
  ∃ t, OpenFilesTable_new [0; 5; 0; 0] (replicate 128 9) 77 = Done t ∧
       wp (run_ops files_script) (λ rs _, rs = [3; 4; 12; 0; -1; 3; 2]) t.
Proof.
  destruct (files_table_refines [0; 5; 0; 0] (replicate 128 9) 77 files_script) as (t & Ht & Hw).
  - split; [done | repeat constructor; done].
  - done.
  - repeat constructor; simpl; unfold MAX_FILES; lia.
  - exists t. split; [exact Ht |]. eapply wp_mono; [exact Hw |]. intros rs s ->. vm_compute. done.
Defined.
