(* ===== verification/FileStub.v ===== *)
(** * The file system stub (filesys/openfile.h, filesys/filesys.h, machine/sysdep.cc)

    With [FILESYS_STUB] the classes [OpenFile] and [FileSystem] call UNIX.
    The UNIX directory is a finite map from names to the bytes of the files; a
    file descriptor is named by its file.  [pread_bytes] and [pwrite_bytes]
    are what [lseek] followed by [read] or [write] do on a regular file: a read
    stops at the end of the file, a write past the end fills the gap with
    zeros. *)

From stdpp Require Import base gmap list numbers strings list_numbers.
From Stdlib Require Import ZArith Lia.
From S2P Require Import Prelude.

Notation Unix := (gmap string (list Z)).

Definition pread_bytes (f : list Z) (position numBytes : Z) : list Z :=
  take (Z.to_nat numBytes) (drop (Z.to_nat position) f).

Definition pwrite_bytes (f : list Z) (position : Z) (bs : list Z) : list Z :=
  splice (f ++ replicate (Z.to_nat position + length bs - length f) 0) (Z.to_nat position) bs.

(** [class OpenFile] *)
Record OpenFile := mkOpenFile {
  of_file : string;
  currentOffset : Z
}.

Definition unix_file (name : string) : M Unix (list Z) :=
  fs ← get;
  match fs !! name with
  | Some f => mret f
  | None => stop AssertFailed
  end.

(** [FileSystem::Create]: [OpenForWrite] creates or truncates. *)
Definition FileSystem_Create (name : string) (initialSize : Z) : M Unix bool :=
  modify (λ fs : Unix, <[name := []]> fs) ;; mret true.

Definition FileSystem_Open (name : string) : M Unix (option OpenFile) :=
  fs ← get;
  match fs !! name with
  | Some _ => mret (Some (mkOpenFile name 0))
  | None => mret None
  end.

Definition FileSystem_Remove (name : string) : M Unix bool :=
  fs ← get;
  match fs !! name with
  | Some _ => put (delete name fs) ;; mret true
  | None => mret false
  end.

(** The bytes that were read; their number is the result in the source. *)
Definition OpenFile_ReadAt (o : OpenFile) (numBytes position : Z) : M Unix (list Z) :=
  ASSERT (bool_decide (position >= 0)) ;;
  f ← unix_file (of_file o);
  mret (pread_bytes f position numBytes).

Definition OpenFile_WriteAt (o : OpenFile) (from : list Z) (position : Z) : M Unix Z :=
  ASSERT (bool_decide (position >= 0)) ;;
  f ← unix_file (of_file o);
  modify (λ fs : Unix, <[of_file o := pwrite_bytes f position from]> fs) ;;
  mret (Z.of_nat (length from)).

Definition OpenFile_Read (o : OpenFile) (numBytes : Z) : M Unix (list Z * OpenFile) :=
  bs ← OpenFile_ReadAt o numBytes (currentOffset o);
  mret (bs, mkOpenFile (of_file o) (currentOffset o + Z.of_nat (length bs))).

Definition OpenFile_Write (o : OpenFile) (from : list Z) : M Unix (Z * OpenFile) :=
  n ← OpenFile_WriteAt o from (currentOffset o);
  mret (n, mkOpenFile (of_file o) (currentOffset o + n)).

Definition OpenFile_Length (o : OpenFile) : M Unix Z :=
  f ← unix_file (of_file o); mret (Z.of_nat (length f)).

(** ** Reading and writing *)

Lemma lookup_pread f position n (j : nat) : 0 ≤ position → (j < Z.to_nat n)%nat →
  pread_bytes f position n !! j = f !! (Z.to_nat position + j)%nat.
Proof. intros Hp Hj. unfold pread_bytes. by rewrite lookup_take_lt, lookup_drop. Qed.

Lemma length_pread f position n : 0 ≤ position → 0 ≤ n →
  (length (pread_bytes f position n) ≤ Z.to_nat n)%nat.
Proof. intros. unfold pread_bytes. rewrite length_take. lia. Qed.

Lemma length_pread_full f position n : 0 ≤ position → 0 ≤ n → position + n ≤ Z.of_nat (length f) →
  length (pread_bytes f position n) = Z.to_nat n.
Proof. intros. unfold pread_bytes. apply length_block. lia. Qed.

Lemma length_pwrite f position bs : 0 ≤ position →
  length (pwrite_bytes f position bs) = (length f `max` (Z.to_nat position + length bs))%nat.
Proof.
  intros Hp. unfold pwrite_bytes. rewrite length_splice; rewrite length_app, length_replicate; lia.
Qed.

Lemma lookup_pwrite_in f position bs (j : nat) : 0 ≤ position → (j < length bs)%nat →
  pwrite_bytes f position bs !! (Z.to_nat position + j)%nat = bs !! j.
Proof.
  intros Hp Hj. unfold pwrite_bytes. rewrite lookup_splice_in.
  - f_equal. lia.
  - rewrite length_app, length_replicate. lia.
  - lia.
Qed.

Lemma lookup_pwrite_out f position bs (i : nat) b : 0 ≤ position →
  (i < Z.to_nat position ∨ Z.to_nat position + length bs ≤ i)%nat →
  f !! i = Some b → pwrite_bytes f position bs !! i = Some b.
Proof.
  intros Hp Hi Hf. unfold pwrite_bytes. apply lookup_lt_Some in Hf as Hlt.
  rewrite lookup_splice_out; [by rewrite lookup_app_l | | done].
  rewrite length_app, length_replicate. lia.
Qed.

Lemma pread_pwrite_same f position bs : 0 ≤ position →
  pread_bytes (pwrite_bytes f position bs) position (Z.of_nat (length bs)) = bs.
Proof.
  intros Hp. unfold pread_bytes, pwrite_bytes. rewrite Nat2Z.id. apply block_splice_same.
  rewrite length_app, length_replicate. lia.
Qed.

Lemma Forall_pwrite (P : Z → Prop) f position bs : P 0 → Forall P f → Forall P bs →
  Forall P (pwrite_bytes f position bs).
Proof.
  intros. unfold pwrite_bytes. apply Forall_splice; [| done].
  apply Forall_app. split; [done |]. by apply Forall_replicate.
Qed.

Lemma Forall_pread (P : Z → Prop) f position n : Forall P f → Forall P (pread_bytes f position n).
Proof. intros. by apply Forall_take, Forall_drop. Qed.
