(* ===== verification/Machine.v ===== *)
(** * The simulated machine: registers, memory, address translation

    machine/machine.{h,cc} and machine/translate.{h,cc}.  [Machine] is the
    class of the same name: main memory as bytes, the 40 CPU registers as
    [int] values, and one of a TLB and a linear page table.  [Translate],
    [ReadMem] and [WriteMem] are the member functions; the exception handler
    of the kernel (userprog/exception.cc) is a parameter of [ReadMem] and
    [WriteMem], given by the section variable [ExceptionHandler]. *)

From stdpp Require Import base gmap list numbers list_numbers.
From Stdlib Require Import ZArith Lia.
From S2P Require Import Prelude.

(** ** Constants (machine/disk.h, machine/machine.h) *)

Definition SectorSize : Z := 128.
Definition PageSize : Z := SectorSize.
Definition NumPhysPages : Z := 4.
Definition MemorySize : Z := NumPhysPages * PageSize.
Definition TLBSize : Z := 4.
Definition SWAPSize : Z := 64.

Definition StackReg : Z := 29.
Definition RetAddrReg : Z := 31.
Definition NumGPRegs : Z := 32.
Definition HiReg : Z := 32.
Definition LoReg : Z := 33.
Definition PCReg : Z := 34.
Definition NextPCReg : Z := 35.
Definition PrevPCReg : Z := 36.
Definition LoadReg : Z := 37.
Definition LoadValueReg : Z := 38.
Definition BadVAddrReg : Z := 39.
Definition NumTotalRegs : Z := 40.

(** ** Data *)

Inductive ExceptionType :=
| NoException
| SyscallException
| PageFaultException
| ReadOnlyException
| BusErrorException
| AddressErrorException
| OverflowException
| IllegalInstrException
| NumExceptionTypes.

#[export] Instance ExceptionType_eq_dec : EqDecision ExceptionType.
Proof. solve_decision. Defined.

(** machine/interrupt.h *)
Inductive MachineStatus := IdleMode | SystemMode | UserMode.

#[export] Instance MachineStatus_eq_dec : EqDecision MachineStatus.
Proof. solve_decision. Defined.

Record TranslationEntry := mkEntry {
  virtualPage : Z;
  physicalPage : Z;
  valid : bool;
  readOnly : bool;
  use : bool;
  dirty : bool
}.

#[export] Instance TranslationEntry_eq_dec : EqDecision TranslationEntry.
Proof. solve_decision. Defined.

#[export] Instance TranslationEntry_inhabited : Inhabited TranslationEntry :=
  populate (mkEntry 0 0 false false false false).

Definition set_physicalPage (p : Z) (e : TranslationEntry) : TranslationEntry :=
  mkEntry (virtualPage e) p (valid e) (readOnly e) (use e) (dirty e).
Definition set_valid (v : bool) (e : TranslationEntry) : TranslationEntry :=
  mkEntry (virtualPage e) (physicalPage e) v (readOnly e) (use e) (dirty e).
Definition set_use (u : bool) (e : TranslationEntry) : TranslationEntry :=
  mkEntry (virtualPage e) (physicalPage e) (valid e) (readOnly e) u (dirty e).
Definition set_dirty (d : bool) (e : TranslationEntry) : TranslationEntry :=
  mkEntry (virtualPage e) (physicalPage e) (valid e) (readOnly e) (use e) d.

Record Machine := mkMachine {
  mainMemory : list Z;                       (* bytes, 0..255 *)
  registers : list Z;                        (* int *)
  tlb : option (list TranslationEntry);      (* NULL or the TLB *)
  pageTable : option (list TranslationEntry);
  pageTableSize : Z
}.

Definition set_mainMemory (l : list Z) (m : Machine) : Machine :=
  mkMachine l (registers m) (tlb m) (pageTable m) (pageTableSize m).
Definition set_registers (l : list Z) (m : Machine) : Machine :=
  mkMachine (mainMemory m) l (tlb m) (pageTable m) (pageTableSize m).
Definition set_tlb (t : option (list TranslationEntry)) (m : Machine) : Machine :=
  mkMachine (mainMemory m) (registers m) t (pageTable m) (pageTableSize m).
Definition set_pageTable (t : option (list TranslationEntry)) (m : Machine) : Machine :=
  mkMachine (mainMemory m) (registers m) (tlb m) t (pageTableSize m).

(** ** Endianness (machine/translate.cc, machine/machine.cc)

    [big] is [HOST_IS_BIG_ENDIAN]. *)

Definition WordToHost (big : bool) (word : Z) : Z :=
  if big then
    let result := Z.land (Z.shiftr word 24) 0x000000ff in
    let result := Z.lor result (Z.land (Z.shiftr word 8) 0x0000ff00) in
    let result := Z.lor result (Z.land (u32 (Z.shiftl word 8)) 0x00ff0000) in
    let result := Z.lor result (Z.land (u32 (Z.shiftl word 24)) 0xff000000) in
    result
  else word.

Definition ShortToHost (big : bool) (shortword : Z) : Z :=
  if big then
    let result := Z.land (Z.shiftl shortword 8) 0xff00 in
    let result := Z.lor result (Z.land (Z.shiftr shortword 8) 0x00ff) in
    result
  else shortword.

Definition WordToMachine (big : bool) (word : Z) : Z := WordToHost big word.
Definition ShortToMachine (big : bool) (shortword : Z) : Z := ShortToHost big shortword.

(** How the host reads and writes an integer of several bytes. *)
Fixpoint le_value (bs : list Z) : Z :=
  match bs with
  | [] => 0
  | b :: bs' => b + 256 * le_value bs'
  end.
Fixpoint le_bytes (n : nat) (v : Z) : list Z :=
  match n with
  | O => []
  | S n' => v mod 256 :: le_bytes n' (v / 256)
  end.
Definition host_value (big : bool) (bs : list Z) : Z := le_value (if big then rev bs else bs).
Definition host_bytes (big : bool) (n : nat) (v : Z) : list Z :=
  if big then rev (le_bytes n v) else le_bytes n v.

(** [CheckEndian]: the union of four chars and an unsigned int. *)
Definition CheckEndian (big : bool) : outcome unit :=
  let intword := host_value big [1; 2; 3; 4] in
  if decide (intword = if big then 0x01020304 else 0x04030201)
  then Done tt else Fault AssertFailed.

(** The constructor with [USE_TLB]; [garbage] is what [new TranslationEntry[TLBSize]] holds. *)
Definition Machine_new (big : bool) (garbage : list TranslationEntry) : outcome Machine :=
  match for_range 0 (Z.to_nat TLBSize)
          (λ i, l ← get; e ← lift (rd l i); array_set i (set_valid false e)) garbage with
  | Done (_, t) =>
      match CheckEndian big with
      | Done _ => Done (mkMachine (replicate (Z.to_nat MemorySize) 0)
                                  (replicate (Z.to_nat NumTotalRegs) 0) (Some t) None 0)
      | Fault f => Fault f
      end
  | Fault f => Fault f
  end.

(** ** Registers *)

Definition ReadRegister (num : Z) : M Machine Z :=
  m ← get;
  ASSERT (bool_decide (num >= 0) && bool_decide (num < NumTotalRegs)) ;;
  lift (rd (registers m) num).

Definition WriteRegister (num value : Z) : M Machine unit :=
  m ← get;
  ASSERT (bool_decide (num >= 0) && bool_decide (num < NumTotalRegs)) ;;
  l ← lift (wr (registers m) num value);
  put (set_registers l m).

(** [registers[i]] as the machine simulation itself accesses it. *)
Definition reg (i : Z) : M Machine Z := m ← get; lift (rd (registers m) i).
Definition set_reg (i v : Z) : M Machine unit :=
  m ← get; l ← lift (wr (registers m) i v); put (set_registers l m).

(** machine/mipssim.cc *)
Definition DelayedLoad (nextReg nextValue : Z) : M Machine unit :=
  r ← reg LoadReg;
  v ← reg LoadValueReg;
  set_reg r v ;;
  set_reg LoadReg nextReg ;;
  set_reg LoadValueReg nextValue ;;
  set_reg 0 0.

(** ** Address translation *)

(** [&tlb[i]] or [&pageTable[vpn]] *)
Inductive entry_ref := InTLB (i : Z) | InPageTable (vpn : Z).

Fixpoint find_tlb (t : list TranslationEntry) (vpn i : Z) : option Z :=
  match t with
  | [] => None
  | e :: t' => if valid e && bool_decide (virtualPage e = s32 vpn) then Some i
               else find_tlb t' vpn (i + 1)
  end.

Definition get_entry (r : entry_ref) (m : Machine) : outcome TranslationEntry :=
  match r with
  | InTLB i => match tlb m with Some t => rd t i | None => Fault NullPointer end
  | InPageTable i => match pageTable m with Some t => rd t i | None => Fault NullPointer end
  end.

Definition set_entry (r : entry_ref) (e : TranslationEntry) (m : Machine) : outcome Machine :=
  match r with
  | InTLB i =>
      match tlb m with
      | Some t => match wr t i e with Done t' => Done (set_tlb (Some t') m) | Fault f => Fault f end
      | None => Fault NullPointer
      end
  | InPageTable i =>
      match pageTable m with
      | Some t => match wr t i e with Done t' => Done (set_pageTable (Some t') m) | Fault f => Fault f end
      | None => Fault NullPointer
      end
  end.

Definition misaligned (virtAddr size : Z) : bool :=
  (bool_decide (size = 4) && negb (bool_decide (Z.land virtAddr 3 = 0))) ||
  (bool_decide (size = 2) && negb (bool_decide (Z.land virtAddr 1 = 0))).

(** The entry that translates page [vpn], or the exception. *)
Definition find_entry (vpn : Z) : M Machine (entry_ref + ExceptionType) :=
  m ← get;
  match tlb m with
  | None =>
      if decide (vpn >= pageTableSize m) then mret (inr AddressErrorException)
      else
        e ← lift (get_entry (InPageTable vpn) m);
        if valid e then mret (inl (InPageTable vpn)) else mret (inr PageFaultException)
  | Some t =>
      match find_tlb (take (Z.to_nat TLBSize) t) vpn 0 with
      | Some i => mret (inl (InTLB i))
      | None => mret (inr PageFaultException)
      end
  end.

(** The result is the physical address, or the exception that is raised. *)
Definition Translate (virtAddr size : Z) (writing : bool) : M Machine (Z + ExceptionType) :=
  if misaligned virtAddr size then mret (inr AddressErrorException)
  else
    m ← get;
    ASSERT (bool_decide (tlb m = None) || bool_decide (pageTable m = None)) ;;
    ASSERT (negb (bool_decide (tlb m = None)) || negb (bool_decide (pageTable m = None))) ;;
    let vpn := u32 virtAddr / PageSize in
    let offset := u32 virtAddr mod PageSize in
    r ← find_entry vpn;
    match r with
    | inr e => mret (inr e)
    | inl p =>
        entry ← lift (get_entry p m);
        if readOnly entry && writing then mret (inr ReadOnlyException)
        else
          let pageFrame := u32 (physicalPage entry) in
          if decide (pageFrame >= NumPhysPages) then mret (inr BusErrorException)
          else
            let entry' := set_use true entry in
            let entry'' := if (writing : bool) then set_dirty true entry' else entry' in
            m' ← lift (set_entry p entry'' m);
            put m' ;;
            let physAddr := s32 (pageFrame * PageSize + offset) in
            ASSERT (bool_decide (physAddr >= 0) && bool_decide (physAddr + size <= MemorySize)) ;;
            mret (inl physAddr)
    end.

(** ** Memory accesses *)

(** [*(unsigned short * ) &mainMemory[pa]] and the like, with the conversion
    to the [int *value]; [char] is signed on the host. *)
Definition read_phys (big : bool) (physicalAddress size : Z) : M Machine Z :=
  m ← get;
  if decide (size = 1) then
    data ← lift (rd (mainMemory m) physicalAddress); mret (s8 data)
  else if decide (size = 2) then
    bs ← lift (rd_block (mainMemory m) physicalAddress 2);
    mret (ShortToHost big (host_value big bs))
  else if decide (size = 4) then
    bs ← lift (rd_block (mainMemory m) physicalAddress 4);
    mret (s32 (WordToHost big (host_value big bs)))
  else stop AssertFailed.

Definition write_phys (big : bool) (physicalAddress size value : Z) : M Machine unit :=
  m ← get;
  if decide (size = 1) then
    l ← lift (wr (mainMemory m) physicalAddress (Z.land value 0xff)); put (set_mainMemory l m)
  else if decide (size = 2) then
    l ← lift (wr_block (mainMemory m) physicalAddress
                (host_bytes big 2 (ShortToMachine big (Z.land value 0xffff))));
    put (set_mainMemory l m)
  else if decide (size = 4) then
    l ← lift (wr_block (mainMemory m) physicalAddress
                (host_bytes big 4 (WordToMachine big (u32 value))));
    put (set_mainMemory l m)
  else stop AssertFailed.

(** The machine inside a kernel: [S] is the state of the whole system. *)
Class MachineHost (S : Type) := {
  machine : S → Machine;
  set_machine : Machine → S → S;
  setStatus : MachineStatus → S → S;     (* interrupt->setStatus *)
  host_big_endian : bool
}.

Class MachineHostLaws (S : Type) `{MachineHost S} := {
  machine_set : ∀ m (s : S), machine (set_machine m s) = m;
  set_machine_id : ∀ s : S, set_machine (machine s) s = s;
  set_machine_twice : ∀ m m' (s : S), set_machine m (set_machine m' s) = set_machine m s;
  machine_status : ∀ st (s : S), machine (setStatus st s) = machine s
}.

Section memory.
Context {S : Type} `{MachineHost S}.
Variable ExceptionHandler : ExceptionType → M S unit.

Definition on_machine {A} (c : M Machine A) : M S A := zoom machine set_machine c.

Definition RaiseException (which : ExceptionType) (badVAddr : Z) : M S unit :=
  on_machine (set_reg BadVAddrReg badVAddr) ;;
  on_machine (DelayedLoad 0 0) ;;
  modify (setStatus SystemMode) ;;
  ExceptionHandler which ;;
  modify (setStatus UserMode).

(** [None]: returned false, the exception has been raised. *)
Definition ReadMem (addr size : Z) : M S (option Z) :=
  r ← on_machine (Translate addr size false);
  match r with
  | inr exception => RaiseException exception addr ;; mret None
  | inl physicalAddress =>
      v ← on_machine (read_phys host_big_endian physicalAddress size); mret (Some v)
  end.

Definition WriteMem (addr size value : Z) : M S bool :=
  r ← on_machine (Translate addr size true);
  match r with
  | inr exception => RaiseException exception addr ;; mret false
  | inl physicalAddress =>
      on_machine (write_phys host_big_endian physicalAddress size value) ;; mret true
  end.

(** [while(!ReadMem(addr, size, value));] *)
Fixpoint SafeReadMem (fuel : nat) (addr size : Z) : M S Z :=
  match fuel with
  | O => stop OutOfFuel
  | Datatypes.S fuel' =>
      r ← ReadMem addr size;
      match r with
      | Some v => mret v
      | None => SafeReadMem fuel' addr size
      end
  end.

Fixpoint SafeWriteMem (fuel : nat) (addr size value : Z) : M S unit :=
  match fuel with
  | O => stop OutOfFuel
  | Datatypes.S fuel' =>
      r ← WriteMem addr size value;
      if (r : bool) then mret tt else SafeWriteMem fuel' addr size value
  end.
End memory.
