(* ===== verification/MachineFacts.v ===== *)
(** * Properties of the simulated machine

    Byte order (the value a program reads does not depend on the host's byte
    order), address translation (exceptions, bounds, use and dirty bits), and
    memory accesses (what is written is read back, other bytes keep). *)

From stdpp Require Import base gmap list numbers list_numbers.
From Stdlib Require Import ZArith Lia.
From S2P Require Import Prelude Machine.

Definition byte_range (b : Z) : Prop := 0 ≤ b < 256.
Definition int_range (v : Z) : Prop := - 2 ^ 31 ≤ v < 2 ^ 31.

(** ** Byte order *)

Lemma le_value_range bs : Forall byte_range bs → 0 ≤ le_value bs < 256 ^ Z.of_nat (length bs).
Proof.
  induction 1 as [| b bs Hb Hbs IH]; [done |]. cbn [le_value length].
  rewrite Nat2Z.inj_succ, Z.pow_succ_r by lia. unfold byte_range in Hb. lia.
Qed.

Lemma lor_high x y k : 0 ≤ k → 0 ≤ x < 2 ^ k → Z.lor x (y * 2 ^ k) = x + y * 2 ^ k.
Proof.
  intros Hk Hx. pose proof (Z.add_lor_land x (y * 2 ^ k)) as E.
  replace (Z.land x (y * 2 ^ k)) with 0 in E; [lia |].
  symmetry. apply Z.bits_inj'. intros j Hj.
  rewrite Z.land_spec, Z.bits_0, <- Z.shiftl_mul_pow2, Z.shiftl_spec by lia.
  destruct (decide (j < k)).
  - rewrite (Z.testbit_neg_r y) by lia. apply andb_false_r.
  - by rewrite (testbit_high x k) by lia.
Qed.

Lemma le_value_bytes n v : le_value (le_bytes n v) = v mod 256 ^ Z.of_nat n.
Proof.
  revert v. induction n as [| n IH]; intros v; cbn [le_bytes le_value].
  - by rewrite Z.mod_1_r.
  - rewrite IH, Nat2Z.inj_succ, Z.pow_succ_r by lia. rewrite Z.rem_mul_r by lia. done.
Qed.

Lemma le_bytes_range n v : Forall byte_range (le_bytes n v).
Proof.
  revert v. induction n as [| n IH]; intros v; constructor; [| done].
  apply Z.mod_pos_bound. lia.
Qed.

Lemma length_le_bytes n v : length (le_bytes n v) = n.
Proof. revert v. induction n as [| n IH]; intros v; simpl; [done |]. by rewrite IH. Qed.

Lemma le_bytes_value bs : Forall byte_range bs → le_bytes (length bs) (le_value bs) = bs.
Proof.
  induction 1 as [| b bs Hb Hbs IH]; [done |]. cbn [le_value length le_bytes].
  unfold byte_range in Hb. f_equal.
  - rewrite Z.mul_comm, Z_mod_plus_full. by apply Z.mod_small.
  - rewrite Z.mul_comm, Z.div_add, Z.div_small, Z.add_0_l by lia. done.
Qed.

(** The bits of a mask [(2^n - 1) << k]. *)
Lemma testbit_mask_range n k j : 0 ≤ n → 0 ≤ k → 0 ≤ j →
  Z.testbit (Z.shiftl (Z.ones n) k) j = bool_decide (k ≤ j < k + n).
Proof.
  intros. rewrite Z.shiftl_spec by lia. destruct (decide (k ≤ j)).
  - destruct (decide (j < k + n)).
    + rewrite Z.ones_spec_low by lia. by rewrite bool_decide_true by lia.
    + rewrite Z.ones_spec_high by lia. by rewrite bool_decide_false by lia.
  - rewrite Z.testbit_neg_r by lia. by rewrite bool_decide_false by lia.
Qed.

Ltac bit_masks :=
  change 0x000000ff with (Z.shiftl (Z.ones 8) 0);
  change 0x0000ff00 with (Z.shiftl (Z.ones 8) 8);
  change 0x00ff0000 with (Z.shiftl (Z.ones 8) 16);
  change 0xff000000 with (Z.shiftl (Z.ones 8) 24).

Lemma land_shifted_byte x k : 0 ≤ k → Z.land x (Z.shiftl (Z.ones 8) k) = ((x / 2 ^ k) mod 256) * 2 ^ k.
Proof.
  intros Hk. rewrite <- Z.shiftl_mul_pow2 by lia. change 256 with (2 ^ 8).
  rewrite <- Z.land_ones, <- Z.shiftr_div_pow2 by lia. apply Z.bits_inj'. intros j Hj.
  rewrite Z.land_spec, testbit_mask_range, Z.shiftl_spec by lia.
  destruct (decide (k ≤ j)).
  - rewrite Z.land_spec, Z.shiftr_spec by lia. replace (j - k + k) with j by lia. f_equal.
    destruct (decide (j < k + 8)).
    + rewrite Z.ones_spec_low by lia. by rewrite bool_decide_true by lia.
    + rewrite Z.ones_spec_high by lia. by rewrite bool_decide_false by lia.
  - rewrite (Z.testbit_neg_r _ (j - k)) by lia. rewrite bool_decide_false by lia. apply andb_false_r.
Qed.

(** The swap of the bytes of a word, as arithmetic. *)
Lemma WordToHost_swap b0 b1 b2 b3 :
  byte_range b0 → byte_range b1 → byte_range b2 → byte_range b3 →
  WordToHost true (le_value [b0; b1; b2; b3]) = le_value [b3; b2; b1; b0].
Proof.
  unfold byte_range. intros H0 H1 H2 H3. cbn [le_value]. unfold WordToHost.
  set (w := b0 + 256 * (b1 + 256 * (b2 + 256 * (b3 + 256 * 0)))).
  bit_masks. rewrite !land_shifted_byte by lia.
  rewrite !Z.shiftr_div_pow2, !Z.shiftl_mul_pow2 by lia.
  replace (w / 2 ^ 24 / 2 ^ 0) with b3 by (unfold w; dlia).
  replace (w / 2 ^ 8 / 2 ^ 8) with (b2 + 256 * b3) by (unfold w; dlia).
  replace (u32 (w * 2 ^ 8) / 2 ^ 16) with (b1 + 256 * b2) by (unfold w, u32; dlia).
  replace (u32 (w * 2 ^ 24) / 2 ^ 24) with b0 by (unfold w, u32; dlia).
  replace ((b2 + 256 * b3) mod 256) with b2 by dlia.
  replace ((b1 + 256 * b2) mod 256) with b1 by dlia.
  rewrite (Z.mod_small b3), (Z.mod_small b0) by lia. rewrite Z.pow_0_r, Z.mul_1_r.
  rewrite (lor_high b3 b2 8) by lia. rewrite (lor_high (b3 + b2 * 2 ^ 8) b1 16) by lia.
  rewrite (lor_high _ b0 24) by lia. lia.
Qed.

Lemma ShortToHost_swap b0 b1 : byte_range b0 → byte_range b1 →
  ShortToHost true (le_value [b0; b1]) = le_value [b1; b0].
Proof.
  unfold byte_range. intros H0 H1. cbn [le_value]. unfold ShortToHost.
  set (w := b0 + 256 * (b1 + 256 * 0)).
  change 0xff00 with (Z.shiftl (Z.ones 8) 8). change 0x00ff with (Z.shiftl (Z.ones 8) 0).
  rewrite !land_shifted_byte by lia. rewrite Z.shiftr_div_pow2, Z.shiftl_mul_pow2 by lia.
  replace (w * 2 ^ 8 / 2 ^ 8) with w by dlia.
  replace (w mod 256) with b0 by (unfold w; dlia).
  replace (w / 2 ^ 8 / 2 ^ 0) with b1 by (unfold w; dlia).
  rewrite (Z.mod_small b1) by lia. rewrite Z.pow_0_r, Z.mul_1_r, Z.lor_comm, lor_high by lia. lia.
Qed.

(** Whatever the byte order of the host, a word of four bytes is read and
    written in little-endian order. *)
Lemma word_read_le big bs : length bs = 4%nat → Forall byte_range bs →
  WordToHost big (host_value big bs) = le_value bs.
Proof.
  intros Hl Hb. destruct bs as [| b0 [| b1 [| b2 [| b3 [| ? ?]]]]]; try done.
  repeat apply Forall_cons in Hb as [? Hb].
  destruct big; [| done]. unfold host_value. cbn [rev app]. by rewrite WordToHost_swap.
Qed.

Lemma short_read_le big bs : length bs = 2%nat → Forall byte_range bs →
  ShortToHost big (host_value big bs) = le_value bs.
Proof.
  intros Hl Hb. destruct bs as [| b0 [| b1 [| ? ?]]]; try done.
  repeat apply Forall_cons in Hb as [? Hb].
  destruct big; [| done]. unfold host_value. cbn [rev app]. by rewrite ShortToHost_swap.
Qed.

Lemma word_write_le big v : 0 ≤ v < 2 ^ 32 → host_bytes big 4 (WordToMachine big v) = le_bytes 4 v.
Proof.
  intros Hv. destruct big; [| done]. unfold host_bytes, WordToMachine.
  assert (∀ bs, length bs = 4%nat → Forall byte_range bs →
            rev (le_bytes 4 (WordToHost true (le_value bs))) = bs) as Hrev.
  { intros bs Hl Hb. destruct bs as [| b0 [| b1 [| b2 [| b3 [| ? ?]]]]]; try done.
    repeat apply Forall_cons in Hb as [? Hb]. rewrite WordToHost_swap by done.
    change 4%nat with (length [b3; b2; b1; b0]). by rewrite le_bytes_value by forall_list. }
  rewrite <- (Hrev (le_bytes 4 v)) by (apply length_le_bytes || apply le_bytes_range).
  rewrite le_value_bytes. by rewrite Z.mod_small.
Qed.

Lemma short_write_le big v : 0 ≤ v < 2 ^ 16 → host_bytes big 2 (ShortToMachine big v) = le_bytes 2 v.
Proof.
  intros Hv. destruct big; [| done]. unfold host_bytes, ShortToMachine.
  assert (∀ bs, length bs = 2%nat → Forall byte_range bs →
            rev (le_bytes 2 (ShortToHost true (le_value bs))) = bs) as Hrev.
  { intros bs Hl Hb. destruct bs as [| b0 [| b1 [| ? ?]]]; try done.
    repeat apply Forall_cons in Hb as [? Hb]. rewrite ShortToHost_swap by done.
    change 2%nat with (length [b1; b0]). by rewrite le_bytes_value by forall_list. }
  rewrite <- (Hrev (le_bytes 2 v)) by (apply length_le_bytes || apply le_bytes_range).
  rewrite le_value_bytes. by rewrite Z.mod_small.
Qed.

(** ** Well-formed machines *)

Record machine_wf (m : Machine) : Prop := {
  mw_memory : length (mainMemory m) = Z.to_nat MemorySize;
  mw_bytes : Forall byte_range (mainMemory m);
  mw_registers : length (registers m) = Z.to_nat NumTotalRegs;
  mw_ints : Forall int_range (registers m);
  mw_load : ∃ r, registers m !! Z.to_nat LoadReg = Some r ∧ 0 ≤ r < NumGPRegs;
  mw_tables : (tlb m = None ∧ ∃ t, pageTable m = Some t ∧ Z.of_nat (length t) = pageTableSize m) ∨
              (pageTable m = None ∧ ∃ t, tlb m = Some t ∧ Z.of_nat (length t) = TLBSize)
}.

(** The table in use. *)
Definition translation_table (m : Machine) : list TranslationEntry :=
  match tlb m with Some t => t | None => default [] (pageTable m) end.

(** The registers and the memory are untouched. *)
Definition same_cpu (m m' : Machine) : Prop :=
  registers m' = registers m ∧ mainMemory m' = mainMemory m.

(** ** Address translation *)

Lemma find_tlb_Some t vpn : ∀ i k, find_tlb t vpn i = Some k →
  ∃ e, i ≤ k ∧ t !! Z.to_nat (k - i) = Some e ∧ valid e = true ∧ virtualPage e = s32 vpn ∧
       ∀ j e', 0 ≤ j < k - i → t !! Z.to_nat j = Some e' → valid e' = true → virtualPage e' ≠ s32 vpn.
Proof.
  induction t as [| e t IH]; intros i k; simpl; [done |].
  destruct (valid e && bool_decide (virtualPage e = s32 vpn)) eqn:E.
  - intros ?; simplify_eq. split_bool. exists e. rewrite Z.sub_diag. repeat split; [lia | done | done |].
    intros; lia.
  - intros Hk. destruct (IH _ _ Hk) as (e' & Hle & He & Hv & Hp & Hmin). exists e'.
    replace (Z.to_nat (k - i)) with (S (Z.to_nat (k - (i + 1)))) by lia.
    repeat split; [lia | done | done | done |].
    intros j e0 Hj He0 Hv0 Hp0. destruct (decide (j = 0)) as [-> |].
    + simpl in He0. simplify_eq. rewrite Hv0 in E. simpl in E. split_bool. done.
    + replace (Z.to_nat j) with (S (Z.to_nat (j - 1))) in He0 by lia.
      eapply (Hmin (j - 1)); [lia | done | done | done].
Qed.

Lemma find_tlb_None t vpn i : find_tlb t vpn i = None →
  ∀ e, e ∈ t → valid e = true → virtualPage e ≠ s32 vpn.
Proof.
  revert i. induction t as [| e t IH]; intros i; simpl; [set_solver |].
  destruct (valid e && bool_decide (virtualPage e = s32 vpn)) eqn:E; [done |].
  intros Hn e' [-> | He']%elem_of_cons Hv Hp; [| by eapply IH].
  rewrite Hv in E. simpl in E. by split_bool.
Qed.

Definition access_size (size : Z) : Prop := size = 1 ∨ size = 2 ∨ size = 4.
Definition vpn_of (addr : Z) : Z := u32 addr / PageSize.
Definition offset_of (addr : Z) : Z := u32 addr mod PageSize.
Definition touch (writing : bool) (e : TranslationEntry) : TranslationEntry :=
  if writing then set_dirty true (set_use true e) else set_use true e.

Lemma vpn_range addr : 0 ≤ vpn_of addr < 2 ^ 25.
Proof.
  unfold vpn_of, PageSize, SectorSize. pose proof (u32_range addr). dlia.
Qed.

Lemma offset_range addr : 0 ≤ offset_of addr < PageSize.
Proof. apply Z.mod_pos_bound. done. Qed.

Lemma s32_vpn addr : s32 (vpn_of addr) = vpn_of addr.
Proof. apply s32_small. pose proof (vpn_range addr). lia. Qed.

(** An aligned access does not cross the end of its page. *)
Lemma aligned_offset addr size : access_size size → misaligned addr size = false →
  offset_of addr + size ≤ PageSize.
Proof.
  intros Hs Hm. pose proof (offset_range addr). unfold misaligned in Hm.
  apply orb_false_iff in Hm as [H4 H2]. unfold offset_of, u32, PageSize, SectorSize in *.
  destruct Hs as [-> | [-> | ->]]; [lia | |]; simpl in *.
  - apply negb_false_iff in H2. split_bool. change 1 with (Z.ones 1) in H2.
    rewrite Z.land_ones in H2 by lia. dlia.
  - apply negb_false_iff in H4. split_bool. change 3 with (Z.ones 2) in H4.
    rewrite Z.land_ones in H4 by lia. dlia.
Qed.

(** The index in the table in use of the entry for [vpn]. *)
Definition entry_index (p : entry_ref) : Z := match p with InTLB i | InPageTable i => i end.

(** [p] is the entry that translates [vpn]. *)
Definition translates (m : Machine) (vpn : Z) (p : entry_ref) (e : TranslationEntry) : Prop :=
  valid e = true ∧ 0 ≤ entry_index p ∧
  translation_table m !! Z.to_nat (entry_index p) = Some e ∧
  match p with
  | InTLB _ => is_Some (tlb m) ∧ virtualPage e = s32 vpn
  | InPageTable i => tlb m = None ∧ i = vpn
  end.

Lemma translation_table_length m : machine_wf m →
  Z.of_nat (length (translation_table m)) = match tlb m with Some _ => TLBSize | None => pageTableSize m end.
Proof.
  intros Hwf. unfold translation_table.
  destruct (mw_tables m Hwf) as [(-> & t & -> & Ht) | (_ & t & -> & Ht)]; done.
Qed.

Lemma find_entry_spec m vpn : machine_wf m → 0 ≤ vpn →
  wp (find_entry vpn) (λ r m', m' = m ∧
    match r with
    | inl p => ∃ e, translates m vpn p e
    | inr AddressErrorException => tlb m = None ∧ pageTableSize m ≤ vpn
    | inr PageFaultException =>
        match tlb m with
        | Some t => ∀ e, e ∈ t → valid e = true → virtualPage e ≠ s32 vpn
        | None => ∃ e, translation_table m !! Z.to_nat vpn = Some e ∧ valid e = false
        end
    | inr _ => False
    end) m.
Proof.
  intros Hwf Hvpn. unfold find_entry. wp_steps.
  destruct (mw_tables m Hwf) as [(Htlb & t & Hpt & Ht) | (Hpt & t & Htlb & Ht)]; rewrite Htlb.
  - case_decide; wp_steps; [split; [done | split; [done | lia]] |]. simpl. rewrite Hpt.
    destruct (rd_in_range t vpn) as (e & He & Hrd); [lia |]. eapply wp_lift; [done |].
    assert (translation_table m = t) as Htt by (unfold translation_table; by rewrite Htlb, Hpt).
    destruct (valid e) eqn:Hv; wp_steps; (split; [done |]).
    + exists e. unfold translates. simpl. by rewrite Htt.
    + rewrite Htt. eauto.
  - unfold TLBSize in Ht. replace (take (Z.to_nat TLBSize) t) with t
      by (symmetry; apply take_ge; unfold TLBSize; lia).
    assert (translation_table m = t) as Htt by (unfold translation_table; by rewrite Htlb).
    destruct (find_tlb t vpn 0) as [i |] eqn:E; wp_steps; (split; [done |]).
    + apply find_tlb_Some in E as (e & Hi & He & Hv & Hp & _). rewrite Z.sub_0_r in He.
      exists e. unfold translates. simpl. rewrite Htt, Htlb. repeat split; done.
    + intros e. by eapply find_tlb_None.
Qed.

Lemma translates_get m vpn p e : translates m vpn p e → get_entry p m = Done e.
Proof.
  intros (Hv & Hi & He & Hp). unfold translation_table in He. destruct p as [i | i]; simpl in *.
  - destruct Hp as [[t Ht] _]. rewrite Ht in *. by apply rd_Done.
  - destruct Hp as [Ht ->]. rewrite Ht in *. destruct (pageTable m); [by apply rd_Done | done].
Qed.

(** [m] with the entry number [i] of its table replaced by [e]. *)
Definition set_table_entry (i : Z) (e : TranslationEntry) (m : Machine) : Machine :=
  match tlb m with
  | Some t => set_tlb (Some (<[Z.to_nat i := e]> t)) m
  | None => set_pageTable ((λ t, <[Z.to_nat i := e]> t) <$> pageTable m) m
  end.

Lemma translates_set m vpn p e e' : translates m vpn p e →
  set_entry p e' m = Done (set_table_entry (entry_index p) e' m).
Proof.
  intros (Hv & Hi & He & Hp). unfold translation_table, set_table_entry in *.
  apply lookup_lt_Some in He as Hlt. destruct p as [i | i]; simpl in *.
  - destruct Hp as [[t Ht] _]. rewrite Ht in *. rewrite wr_Done; [done | lia].
  - destruct Hp as [Ht ->]. rewrite Ht in *. destruct (pageTable m) as [t |]; simpl in *; [| lia].
    rewrite wr_Done; [done | lia].
Qed.

Lemma set_table_entry_wf m i e : machine_wf m → machine_wf (set_table_entry i e m).
Proof.
  intros Hwf. destruct Hwf as [H1 H2 H3 H4 H5 H6]. unfold set_table_entry.
  destruct H6 as [(Htlb & t & Hpt & Ht) | (Hpt & t & Htlb & Ht)]; rewrite Htlb.
  - split; try done. left. split; [done |]. rewrite Hpt. simpl. eexists. split; [done |].
    by rewrite length_insert.
  - split; try done. right. split; [done |]. simpl. eexists. split; [done |]. by rewrite length_insert.
Qed.

Lemma set_table_entry_table m i e : machine_wf m →
  translation_table (set_table_entry i e m) = <[Z.to_nat i := e]> (translation_table m).
Proof.
  intros Hwf. unfold translation_table, set_table_entry.
  destruct (mw_tables m Hwf) as [(Htlb & t & Hpt & _) | (_ & t & Htlb & _)]; rewrite Htlb; simpl.
  - by rewrite Htlb, Hpt.
  - done.
Qed.

Lemma set_table_entry_cpu m i e : same_cpu m (set_table_entry i e m).
Proof. unfold set_table_entry. by destruct (tlb m). Qed.

Lemma Translate_hit m addr size writing p e :
  machine_wf m → access_size size → misaligned addr size = false →
  find_entry (vpn_of addr) m = Done (inl p, m) → translates m (vpn_of addr) p e →
  readOnly e && writing = false → u32 (physicalPage e) < NumPhysPages →
  Translate addr size writing m =
    Done (inl (u32 (physicalPage e) * PageSize + offset_of addr),
          set_table_entry (entry_index p) (touch writing e) m).
Proof.
  intros Hwf Hs Hm Hf Ht Hro Hfr. unfold Translate. rewrite Hm. fold (vpn_of addr) (offset_of addr).
  unfold mbind, M_bind, get, ASSERT.
  destruct (mw_tables m Hwf) as [(Htlb & t & Hpt & _) | (Hpt & t & Htlb & _)].
  all: rewrite Htlb, Hpt; simpl; rewrite Hf; unfold lift; rewrite (translates_get _ _ _ _ Ht), Hro;
    rewrite decide_False by lia; rewrite (translates_set _ _ _ _ _ Ht); unfold put, mret, M_ret.
  all: pose proof (aligned_offset addr size Hs Hm); pose proof (offset_range addr);
    pose proof (u32_range (physicalPage e)); unfold MemorySize, NumPhysPages, PageSize, SectorSize in *;
    rewrite s32_small by lia; rewrite !bool_decide_true by lia; simpl.
  all: by destruct writing.
Qed.

(** Every outcome of a translation. *)
Definition translate_post (m : Machine) (addr size : Z) (writing : bool)
    (r : Z + ExceptionType) (m' : Machine) : Prop :=
  match r with
  | inl pa =>
      misaligned addr size = false ∧
      ∃ p e, find_entry (vpn_of addr) m = Done (inl p, m) ∧
        translates m (vpn_of addr) p e ∧ readOnly e && writing = false ∧
        pa = u32 (physicalPage e) * PageSize + offset_of addr ∧
        u32 (physicalPage e) < NumPhysPages ∧
        m' = set_table_entry (entry_index p) (touch writing e) m
  | inr exc =>
      m' = m ∧
      match exc with
      | AddressErrorException =>
          misaligned addr size = true ∨ (tlb m = None ∧ pageTableSize m ≤ vpn_of addr)
      | PageFaultException =>
          match tlb m with
          | Some t => ∀ e, e ∈ t → valid e = true → virtualPage e ≠ vpn_of addr
          | None => ∃ e, translation_table m !! Z.to_nat (vpn_of addr) = Some e ∧ valid e = false
          end
      | ReadOnlyException => writing = true ∧ ∃ p e, translates m (vpn_of addr) p e ∧ readOnly e = true
      | BusErrorException => ∃ p e, translates m (vpn_of addr) p e ∧ NumPhysPages ≤ u32 (physicalPage e)
      | _ => False
      end
  end.

Lemma Translate_spec m addr size writing : machine_wf m → access_size size →
  wp (Translate addr size writing) (translate_post m addr size writing) m.
Proof.
  intros Hwf Hs. destruct (misaligned addr size) eqn:Hm.
  { unfold Translate. rewrite Hm. wp_steps. split; [done | by left]. }
  destruct (find_entry_spec m (vpn_of addr)) as (r & m' & Hf & -> & Hr); [done | apply vpn_range |].
  destruct r as [p | exc].
  - destruct Hr as [e Ht].
    destruct (decide (readOnly e && writing = true)) as [Hro | Hro%not_true_is_false].
    + exists (inr ReadOnlyException), m. split; [| split; [done |]].
      * unfold Translate. rewrite Hm. fold (vpn_of addr). unfold mbind, M_bind, get, ASSERT.
        destruct (mw_tables m Hwf) as [(Htlb & t & Hpt & _) | (Hpt & t & Htlb & _)];
          rewrite Htlb, Hpt; simpl; rewrite Hf; unfold lift;
          by rewrite (translates_get _ _ _ _ Ht), Hro.
      * split_bool. eauto.
    + destruct (decide (u32 (physicalPage e) < NumPhysPages)) as [Hfr | Hfr].
      * eexists _, _. split; [by apply (Translate_hit m addr size writing p e) |].
        split; [done |]. exists p, e. done.
      * exists (inr BusErrorException), m. split; [| split; [done |]].
        -- unfold Translate. rewrite Hm. fold (vpn_of addr). unfold mbind, M_bind, get, ASSERT.
           destruct (mw_tables m Hwf) as [(Htlb & t & Hpt & _) | (Hpt & t & Htlb & _)];
             rewrite Htlb, Hpt; simpl; rewrite Hf; unfold lift;
             rewrite (translates_get _ _ _ _ Ht), Hro; by rewrite decide_True by lia.
        -- exists p, e. split; [done | lia].
  - exists (inr exc), m. split; [| split; [done |]].
    + unfold Translate. rewrite Hm. fold (vpn_of addr). unfold mbind, M_bind, get, ASSERT.
      destruct (mw_tables m Hwf) as [(Htlb & t & Hpt & _) | (Hpt & t & Htlb & _)];
        rewrite Htlb, Hpt; simpl; by rewrite Hf.
    + rewrite s32_vpn in Hr. destruct exc; try done. right. done.
Qed.

Lemma translate_post_bounds m addr size writing pa m' : access_size size →
  translate_post m addr size writing (inl pa) m' → 0 ≤ pa ∧ pa + size ≤ MemorySize.
Proof.
  intros Hs (Hm & p & e & _ & _ & _ & -> & Hfr & _).
  pose proof (aligned_offset addr size Hs Hm). pose proof (offset_range addr).
  pose proof (u32_range (physicalPage e)). unfold MemorySize, NumPhysPages, PageSize, SectorSize in *. lia.
Qed.

Lemma translate_post_wf m addr size writing r m' : machine_wf m →
  translate_post m addr size writing r m' → machine_wf m' ∧ same_cpu m m'.
Proof.
  intros Hwf. destruct r as [pa | exc].
  - intros (_ & p & e & _ & _ & _ & _ & _ & ->).
    split; [by apply set_table_entry_wf | apply set_table_entry_cpu].
  - intros [-> _]. done.
Qed.

(** ** Memory accesses *)

(** The value of a register loaded from [size] bytes. *)
Definition loaded (size v : Z) : Z :=
  if decide (size = 1) then s8 v else if decide (size = 2) then v else s32 v.

Definition mem_block (m : Machine) (pa size : Z) : list Z :=
  take (Z.to_nat size) (drop (Z.to_nat pa) (mainMemory m)).

Definition store (pa size v : Z) (m : Machine) : Machine :=
  set_mainMemory (splice (mainMemory m) (Z.to_nat pa) (le_bytes (Z.to_nat size) v)) m.

Lemma le_bytes_mod n v : le_bytes n (v mod 256 ^ Z.of_nat n) = le_bytes n v.
Proof.
  rewrite <- (le_value_bytes n v).
  rewrite <- (length_le_bytes n v) at 1. apply le_bytes_value, le_bytes_range.
Qed.

Lemma read_phys_run big m pa size : machine_wf m → access_size size →
  0 ≤ pa → pa + size ≤ MemorySize →
  read_phys big pa size m = Done (loaded size (le_value (mem_block m pa size)), m).
Proof.
  intros Hwf Hs Hpa Hend. pose proof (mw_memory m Hwf) as Hl.
  assert (Forall byte_range (mem_block m pa size)) as Hb
    by (apply Forall_take, Forall_drop, mw_bytes, Hwf).
  unfold read_phys, loaded, mem_block, mbind, M_bind, get, lift, mret, M_ret in *.
  destruct Hs as [-> | [-> | ->]]; simpl.
  - destruct (rd_in_range (mainMemory m) pa) as (b & Hlook & ->); [lia |].
    rewrite (drop_S _ b) by done. simpl. by rewrite Z.add_0_r.
  - rewrite rd_block_Done by lia. rewrite short_read_le; [done | | done]. apply length_block. lia.
  - rewrite rd_block_Done by lia. rewrite word_read_le; [done | | done]. apply length_block. lia.
Qed.

Lemma write_phys_run big m pa size v : machine_wf m → access_size size →
  0 ≤ pa → pa + size ≤ MemorySize →
  write_phys big pa size v m = Done (tt, store pa size v m).
Proof.
  intros Hwf Hs Hpa Hend. pose proof (mw_memory m Hwf) as Hl.
  unfold write_phys, store, mbind, M_bind, get, lift, put.
  destruct Hs as [-> | [-> | ->]]; simpl.
  - rewrite wr_Done by lia. change 255 with (Z.ones 8). rewrite Z.land_ones by lia.
    do 3 f_equal. unfold splice. rewrite insert_take_drop by lia. simpl. do 3 f_equal. lia.
  - change 65535 with (Z.ones 16). rewrite Z.land_ones, short_write_le by (try apply Z.mod_pos_bound; lia).
    rewrite wr_block_Done by (rewrite ?length_le_bytes; lia).
    change (2 ^ 16) with (256 ^ Z.of_nat 2). by rewrite le_bytes_mod.
  - rewrite word_write_le by apply u32_range.
    rewrite wr_block_Done by (rewrite ?length_le_bytes; lia).
    unfold u32. change (2 ^ 32) with (256 ^ Z.of_nat 4). by rewrite le_bytes_mod.
Qed.

Lemma store_wf pa size v m : machine_wf m → access_size size → 0 ≤ pa → pa + size ≤ MemorySize →
  machine_wf (store pa size v m).
Proof.
  intros [Hl Hb H3 H4 H5 H6] Hs Hpa Hend. split; simpl; try done.
  - rewrite length_splice; [done |]. rewrite length_le_bytes, Hl. unfold access_size in Hs. lia.
  - apply Forall_splice; [done | apply le_bytes_range].
Qed.

Lemma mem_block_store_same pa size v m : machine_wf m → access_size size → 0 ≤ pa →
  pa + size ≤ MemorySize → mem_block (store pa size v m) pa size = le_bytes (Z.to_nat size) v.
Proof.
  intros Hwf Hs Hpa Hend. unfold mem_block, store. simpl.
  rewrite <- (length_le_bytes (Z.to_nat size) v) at 1. apply block_splice_same.
  rewrite length_le_bytes, (mw_memory m Hwf). unfold access_size in Hs. lia.
Qed.

(** [find_entry] only looks at the valid bits and the virtual page numbers. *)
Definition same_mapping (e e' : TranslationEntry) : Prop :=
  valid e' = valid e ∧ virtualPage e' = virtualPage e ∧ physicalPage e' = physicalPage e ∧
  readOnly e' = readOnly e.

Lemma touch_same_mapping w e : same_mapping e (touch w e).
Proof. by destruct w. Qed.

Lemma find_tlb_insert t vpn k e e' : ∀ i, t !! k = Some e → same_mapping e e' →
  find_tlb (<[k := e']> t) vpn i = find_tlb t vpn i.
Proof.
  revert k. induction t as [| e0 t IH]; intros k i He Hsame; [done |].
  pose proof Hsame as (Hv & Hp & _). destruct k as [| k]; simpl in *; simplify_eq.
  - by rewrite Hv, Hp.
  - case_match; [done |]. apply IH; done.
Qed.

Lemma find_entry_touch m vpn p e w mem : machine_wf m →
  find_entry vpn m = Done (inl p, m) → translates m vpn p e →
  let m' := set_mainMemory mem (set_table_entry (entry_index p) (touch w e) m) in
  find_entry vpn m' = Done (inl p, m') ∧ translates m' vpn p (touch w e).
Proof.
  intros Hwf Hf (Hv & Hi & He & Hp) m'. apply lookup_lt_Some in He as Hlt.
  assert (translation_table m' = <[Z.to_nat (entry_index p) := touch w e]> (translation_table m)) as Htab
    by apply (set_table_entry_table m _ _ Hwf).
  assert (valid (touch w e) = true) as Hv' by (by destruct w).
  split.
  - unfold find_entry, mbind, M_bind, get in Hf |- *. unfold translation_table in *.
    destruct p as [i | i]; simpl in *; destruct Hp as [Ht Hvp].
    + destruct Ht as [t Ht]. unfold m', set_table_entry in *. rewrite Ht in *. simpl in *.
      assert (length t = Z.to_nat TLBSize) as Hlen.
      { destruct (mw_tables m Hwf) as [(? & _) | (_ & t' & ? & ?)]; [congruence |]. simplify_eq. lia. }
      rewrite take_ge in Hf |- * by (rewrite ?length_insert; lia).
      rewrite (find_tlb_insert _ _ _ e) by (done || apply touch_same_mapping).
      unfold mret, M_ret in *. by destruct (find_tlb t vpn 0); simplify_eq.
    + unfold m', set_table_entry in *. rewrite Ht in *. simpl in *. subst i.
      destruct (pageTable m) as [t |]; simpl in *; [| lia]. case_decide; [done |].
      unfold lift. rewrite (rd_Done _ _ (touch w e)); [by rewrite Ht, Hv' | done |].
      by apply list_lookup_insert_eq.
  - split; [done |]. split; [done |]. split.
    + rewrite Htab. by apply list_lookup_insert_eq.
    + unfold m', set_table_entry. destruct p as [i | i]; simpl in *; destruct Hp as [Ht Hvp].
      * destruct Ht as [t Ht]. rewrite Ht. split; [done |]. by destruct w.
      * by rewrite Ht.
Qed.

(** A translation that succeeds for a write succeeds, at the same physical
    address, for a read after the write. *)
Lemma Translate_again m addr size pa m1 mem : machine_wf m → access_size size →
  Translate addr size true m = Done (inl pa, m1) → machine_wf (set_mainMemory mem m1) →
  ∃ m2, Translate addr size false (set_mainMemory mem m1) = Done (inl pa, m2) ∧
        same_cpu (set_mainMemory mem m1) m2 ∧ machine_wf m2.
Proof.
  intros Hwf Hs Ht Hwf'.
  pose proof (wp_elim _ _ _ _ _ (Translate_spec m addr size true Hwf Hs) Ht) as
    (Hm & p & e & Hf & Htr & Hro & -> & Hfr & ->).
  destruct (find_entry_touch m _ p e true mem Hwf Hf Htr) as [Hf' Htr'].
  eexists. split; [apply (Translate_hit _ addr size false p (touch true e)); try done |].
  - by rewrite andb_false_r.
  - split; [apply set_table_entry_cpu | by apply set_table_entry_wf].
Qed.

(** ** Accesses in a kernel *)

Section access.
Context {S : Type} `{MachineHostLaws S}.
Variable ExceptionHandler : ExceptionType → M S unit.
Implicit Types s : S.

Lemma on_machine_run {A} (c : M Machine A) s a m' :
  c (machine s) = Done (a, m') → on_machine c s = Done (a, set_machine m' s).
Proof. intros Hc. unfold on_machine, zoom. by rewrite Hc. Qed.

Lemma ReadMem_hit s addr size pa m1 : machine_wf (machine s) → access_size size →
  Translate addr size false (machine s) = Done (inl pa, m1) →
  ReadMem ExceptionHandler addr size s =
    Done (Some (loaded size (le_value (mem_block (machine s) pa size))), set_machine m1 (set_machine m1 s)).
Proof.
  intros Hwf Hs Ht. unfold ReadMem, mbind, M_bind.
  rewrite (on_machine_run _ _ _ _ Ht).
  pose proof (wp_elim _ _ _ _ _ (Translate_spec _ addr size false Hwf Hs) Ht) as Hpost.
  destruct (translate_post_bounds _ _ _ _ _ _ Hs Hpost).
  destruct (translate_post_wf _ _ _ _ _ _ Hwf Hpost) as [Hwf1 [_ Hmem]].
  erewrite on_machine_run by (rewrite machine_set; by apply read_phys_run).
  unfold mem_block. by rewrite Hmem.
Qed.

Lemma WriteMem_hit s addr size v pa m1 : machine_wf (machine s) → access_size size →
  Translate addr size true (machine s) = Done (inl pa, m1) →
  WriteMem ExceptionHandler addr size v s =
    Done (true, set_machine (store pa size v m1) (set_machine m1 s)).
Proof.
  intros Hwf Hs Ht. unfold WriteMem, mbind, M_bind.
  rewrite (on_machine_run _ _ _ _ Ht).
  pose proof (wp_elim _ _ _ _ _ (Translate_spec _ addr size true Hwf Hs) Ht) as Hpost.
  destruct (translate_post_bounds _ _ _ _ _ _ Hs Hpost).
  destruct (translate_post_wf _ _ _ _ _ _ Hwf Hpost) as [Hwf1 _].
  erewrite on_machine_run by (rewrite machine_set; by apply write_phys_run).
  done.
Qed.

Lemma WriteMem_ReadMem s addr size v pa m1 : machine_wf (machine s) → access_size size →
  Translate addr size true (machine s) = Done (inl pa, m1) →
  ∃ s1 s2,
    WriteMem ExceptionHandler addr size v s = Done (true, s1) ∧
    ReadMem ExceptionHandler addr size s1 = Done (Some (loaded size (v mod 256 ^ size)), s2) ∧
    mainMemory (machine s2) = mainMemory (machine s1) ∧
    (∀ a : nat, (a < Z.to_nat pa ∨ Z.to_nat (pa + size) ≤ a)%nat →
       mainMemory (machine s1) !! a = mainMemory (machine s) !! a).
Proof.
  intros Hwf Hs Ht. rewrite (WriteMem_hit _ _ _ v _ _ Hwf Hs Ht).
  pose proof (wp_elim _ _ _ _ _ (Translate_spec _ addr size true Hwf Hs) Ht) as Hpost.
  destruct (translate_post_bounds _ _ _ _ _ _ Hs Hpost) as [Hpa Hend].
  destruct (translate_post_wf _ _ _ _ _ _ Hwf Hpost) as [Hwf1 [_ Hmem]].
  pose proof (store_wf pa size v m1 Hwf1 Hs Hpa Hend) as Hwf2.
  destruct (Translate_again _ _ _ _ _ _ Hwf Hs Ht Hwf2) as (m2 & Ht2 & [_ Hmem2] & Hwf3).
  eexists _, _. split; [done |]. rewrite (ReadMem_hit _ addr size pa m2) by (by rewrite ?machine_set).
  split; [| split].
  - rewrite machine_set. rewrite mem_block_store_same by done. rewrite le_value_bytes.
    do 4 f_equal. rewrite Z2Nat.id; [done |]. destruct Hs as [-> | [-> | ->]]; lia.
  - rewrite !machine_set. done.
  - intros a Ha. rewrite machine_set. simpl. rewrite <- Hmem. apply lookup_splice_out.
    + rewrite length_le_bytes, (mw_memory m1 Hwf1). unfold access_size in Hs. lia.
    + rewrite length_le_bytes. destruct Hs as [-> | [-> | ->]]; lia.
Qed.
End access.

(** ** Claims *)

(** A machine with a TLB that maps page 3 to frame 2, read-write, and page 0
    to frame 1, read-only. *)
Definition sample_machine : Machine :=
  mkMachine (replicate (Z.to_nat MemorySize) 0) (replicate (Z.to_nat NumTotalRegs) 0)
    (Some [mkEntry 3 2 true false false false; mkEntry 0 1 true true false false;
           mkEntry 9 0 false false false false; mkEntry 3 3 false false false false]) None 0.

Lemma sample_machine_wf : machine_wf sample_machine.
Proof.
  split; [done | by apply Forall_replicate | done | by apply Forall_replicate | by exists 0 |].
  right. split; [done |]. by eexists.
Qed.

(** A kernel with no state of its own. *)
Definition bare_host (big : bool) : MachineHost Machine := {|
  machine := λ m, m; set_machine := λ m _, m; setStatus := λ _ m, m; host_big_endian := big
|}.

Lemma bare_host_laws big : @MachineHostLaws Machine (bare_host big).
Proof. by split. Qed.

(** C4 [Machine::Translate] always returns on a well-formed machine.  A
    physical address it returns lies in main memory with the whole access, is
    the frame of the matching valid entry plus the page offset, and the entry
    gets its use bit (and its dirty bit on a write); nothing else changes.  An
    exception it returns instead has its cause: misalignment or a page outside
    of the table (AddressError), no valid entry (PageFault), a write to a
    read-only page (ReadOnly), a frame outside of memory (BusError), and then
    nothing changes. *)
Theorem Translate_correct m addr size writing : machine_wf m → access_size size →
  ∃ r m', Translate addr size writing m = Done (r, m') ∧
    translate_post m addr size writing r m' ∧ machine_wf m' ∧ same_cpu m m' ∧
    (∀ pa, r = inl pa → 0 ≤ pa ∧ pa + size ≤ MemorySize).
Proof.
  intros Hwf Hs. destruct (Translate_spec m addr size writing Hwf Hs) as (r & m' & Hrun & Hpost).
  destruct (translate_post_wf _ _ _ _ _ _ Hwf Hpost) as [Hwf' Hcpu].
  exists r, m'. split; [done |]. split; [done |]. split; [done |]. split; [done |].
  intros pa ->. by eapply translate_post_bounds.
Qed.

Lemma Translate_correct_witness :
  ∃ m', Translate 388 4 true sample_machine = Done (inl 260, m') ∧ machine_wf m' ∧ 260 + 4 ≤ MemorySize.
Proof.
  destruct (Translate_correct sample_machine 388 4 true sample_machine_wf) as (r & m' & Hrun & _ & Hwf & _ & Hb).
  - right. by right.
  - assert (value_of (Translate 388 4 true sample_machine) = Some (inl 260)) as E by (vm_compute; reflexivity).
    rewrite Hrun in E. injection E as ->. exists m'. split; [exact Hrun |]. split; [exact Hwf |].
    apply (Hb 260 eq_refl).
Defined.

(** What a user program stores it loads back: when the translation of a
    write succeeds, [WriteMem] returns true, the following [ReadMem] at the
    same address returns the value truncated to the access size (sign-extended
    for bytes and words), raises no exception, and no byte of main memory
    outside of the access changes.  The byte order of the host is arbitrary. *)
Theorem WriteMem_then_ReadMem {S} `{MachineHostLaws S} (ExceptionHandler : ExceptionType → M S unit)
    s addr size v pa m1 :
  machine_wf (machine s) → access_size size → Translate addr size true (machine s) = Done (inl pa, m1) →
  ∃ s1 s2,
    WriteMem ExceptionHandler addr size v s = Done (true, s1) ∧
    ReadMem ExceptionHandler addr size s1 = Done (Some (loaded size (v mod 256 ^ size)), s2) ∧
    mainMemory (machine s2) = mainMemory (machine s1) ∧
    (∀ a : nat, (a < Z.to_nat pa ∨ Z.to_nat (pa + size) ≤ a)%nat →
       mainMemory (machine s1) !! a = mainMemory (machine s) !! a).
Proof. apply WriteMem_ReadMem. Qed.

Lemma WriteMem_then_ReadMem_witness :
  ∃ s1 s2, @WriteMem Machine (bare_host true) (λ _, mret tt) 388 4 (-2) sample_machine = Done (true, s1) ∧
           @ReadMem Machine (bare_host true) (λ _, mret tt) 388 4 s1 = Done (Some (-2), s2).
Proof.
  destruct (@WriteMem_then_ReadMem Machine (bare_host true) (bare_host_laws true) (λ _, mret tt)
              sample_machine 388 4 (-2) 260 (state_of sample_machine (Translate 388 4 true sample_machine)))
    as (s1 & s2 & Hw & Hr & _).
  - exact sample_machine_wf.
  - right. by right.
  - vm_compute. reflexivity.
  - exists s1, s2. split; [exact Hw | exact Hr].
Defined.

(** The byte order of the host is invisible to user programs: on any
    well-formed machine the loads and stores of a big-endian host give the
    same values and the same memory as those of a little-endian host. *)
Theorem host_byte_order_invisible m pa size v : machine_wf m → access_size size →
  0 ≤ pa → pa + size ≤ MemorySize →
  read_phys true pa size m = read_phys false pa size m ∧
  write_phys true pa size v m = write_phys false pa size v m.
Proof.
  intros Hwf Hs Hpa Hend. split.
  - by rewrite !read_phys_run.
  - by rewrite !write_phys_run.
Qed.

Lemma host_byte_order_invisible_witness :
  read_phys true 8 4 (store 8 4 258 sample_machine) = read_phys false 8 4 (store 8 4 258 sample_machine).
Proof.
  apply (host_byte_order_invisible (store 8 4 258 sample_machine) 8 4 0).
  - apply store_wf; [exact sample_machine_wf | right; by right | done | done].
  - right. by right.
  - done.
  - done.
Defined.
