(* ===== verification/AddrSpace.v ===== *)
(** * Address spaces and demand paging (userprog/addrspace.{h,cc})

    The build modelled is that of vm/Makefile ([VM] and [USE_TLB] defined).
    The state [VM] holds what the member functions of [AddrSpace] read and
    write: the machine, the bitmaps of frames and swap slots, the inverted page
    table, the clock hands, and the address spaces.  [IPT[f]] is a pointer into
    the page table of some address space: it is modelled as the pair of the
    identity of the space and the virtual page, so that a write through it is
    seen by the owner of the page table.  [this] is the identity of the space
    a member function is called on. *)

From stdpp Require Import base gmap list numbers strings list_numbers.
From Stdlib Require Import ZArith Lia.
From S2P Require Import Prelude BitMap FileStub Machine.

Definition UserStackSize : Z := 1024.
Definition NOFFMAGIC : Z := 0xbadfad.
Definition SWAPFILENAME : string := "SWAP.txt".

(** ** State *)

Record AddrSpace := mkAddrSpace {
  initData : Z;                          (* unsigned int: first page of the segment *)
  noInitData : Z;
  stack : Z;
  filename : string;
  numPages : Z;
  as_pageTable : list TranslationEntry
}.

Definition set_as_pageTable (t : list TranslationEntry) (a : AddrSpace) : AddrSpace :=
  mkAddrSpace (initData a) (noInitData a) (stack a) (filename a) (numPages a) t.

Record VM := mkVM {
  vm_machine : Machine;
  MemBitMap : BitMap;
  SWAPBitMap : BitMap;
  IPT : list (option (Z * Z));           (* NULL or &pageTable[vpn] of a space *)
  indexTLBFIFO : Z;
  indexTLBSndChc : Z;
  indexSWAPSndChc : Z;
  indexSWAPFIFO : Z;
  threadFirstTime : bool;
  numPageFaults : Z;                     (* stats->numPageFaults *)
  spaces : gmap Z AddrSpace;             (* the AddrSpace objects *)
  unix : Unix;
  vm_status : MachineStatus              (* interrupt->getStatus() *)
}.

Definition set_vm_machine (m : Machine) (k : VM) : VM :=
  mkVM m (MemBitMap k) (SWAPBitMap k) (IPT k) (indexTLBFIFO k) (indexTLBSndChc k)
    (indexSWAPSndChc k) (indexSWAPFIFO k) (threadFirstTime k) (numPageFaults k) (spaces k) (unix k) (vm_status k).
Definition set_MemBitMap (b : BitMap) (k : VM) : VM :=
  mkVM (vm_machine k) b (SWAPBitMap k) (IPT k) (indexTLBFIFO k) (indexTLBSndChc k)
    (indexSWAPSndChc k) (indexSWAPFIFO k) (threadFirstTime k) (numPageFaults k) (spaces k) (unix k) (vm_status k).
Definition set_SWAPBitMap (b : BitMap) (k : VM) : VM :=
  mkVM (vm_machine k) (MemBitMap k) b (IPT k) (indexTLBFIFO k) (indexTLBSndChc k)
    (indexSWAPSndChc k) (indexSWAPFIFO k) (threadFirstTime k) (numPageFaults k) (spaces k) (unix k) (vm_status k).
Definition set_IPT (t : list (option (Z * Z))) (k : VM) : VM :=
  mkVM (vm_machine k) (MemBitMap k) (SWAPBitMap k) t (indexTLBFIFO k) (indexTLBSndChc k)
    (indexSWAPSndChc k) (indexSWAPFIFO k) (threadFirstTime k) (numPageFaults k) (spaces k) (unix k) (vm_status k).
Definition set_indexTLBSndChc (i : Z) (k : VM) : VM :=
  mkVM (vm_machine k) (MemBitMap k) (SWAPBitMap k) (IPT k) (indexTLBFIFO k) i
    (indexSWAPSndChc k) (indexSWAPFIFO k) (threadFirstTime k) (numPageFaults k) (spaces k) (unix k) (vm_status k).
Definition set_indexSWAPSndChc (i : Z) (k : VM) : VM :=
  mkVM (vm_machine k) (MemBitMap k) (SWAPBitMap k) (IPT k) (indexTLBFIFO k) (indexTLBSndChc k)
    i (indexSWAPFIFO k) (threadFirstTime k) (numPageFaults k) (spaces k) (unix k) (vm_status k).
Definition set_indexSWAPFIFO (i : Z) (k : VM) : VM :=
  mkVM (vm_machine k) (MemBitMap k) (SWAPBitMap k) (IPT k) (indexTLBFIFO k) (indexTLBSndChc k)
    (indexSWAPSndChc k) i (threadFirstTime k) (numPageFaults k) (spaces k) (unix k) (vm_status k).
Definition set_hands_on_restore (k : VM) : VM :=
  mkVM (vm_machine k) (MemBitMap k) (SWAPBitMap k) (IPT k) 0 0
    (indexSWAPSndChc k) (indexSWAPFIFO k) true (numPageFaults k) (spaces k) (unix k) (vm_status k).
Definition add_pageFault (k : VM) : VM :=
  mkVM (vm_machine k) (MemBitMap k) (SWAPBitMap k) (IPT k) (indexTLBFIFO k) (indexTLBSndChc k)
    (indexSWAPSndChc k) (indexSWAPFIFO k) (threadFirstTime k) (numPageFaults k + 1) (spaces k) (unix k) (vm_status k).
Definition set_spaces (m : gmap Z AddrSpace) (k : VM) : VM :=
  mkVM (vm_machine k) (MemBitMap k) (SWAPBitMap k) (IPT k) (indexTLBFIFO k) (indexTLBSndChc k)
    (indexSWAPSndChc k) (indexSWAPFIFO k) (threadFirstTime k) (numPageFaults k) m (unix k) (vm_status k).
Definition set_unix (u : Unix) (k : VM) : VM :=
  mkVM (vm_machine k) (MemBitMap k) (SWAPBitMap k) (IPT k) (indexTLBFIFO k) (indexTLBSndChc k)
    (indexSWAPSndChc k) (indexSWAPFIFO k) (threadFirstTime k) (numPageFaults k) (spaces k) u (vm_status k).
Definition set_vm_status (st : MachineStatus) (k : VM) : VM :=
  mkVM (vm_machine k) (MemBitMap k) (SWAPBitMap k) (IPT k) (indexTLBFIFO k) (indexTLBSndChc k)
    (indexSWAPSndChc k) (indexSWAPFIFO k) (threadFirstTime k) (numPageFaults k) (spaces k) (unix k) st.

(** The VM part of [Initialize] (threads/system.cc); [mem_garbage] and
    [swap_garbage] are what the two bitmap allocations hold. *)
Definition VM_Initialize (m : Machine) (mem_garbage swap_garbage : list Z) (fs : Unix) : outcome VM :=
  match BitMap_new mem_garbage NumPhysPages, BitMap_new swap_garbage SWAPSize with
  | Done mb, Done sb =>
      Done (mkVM m mb sb (replicate (Z.to_nat NumPhysPages) None) 0 0 0 0 true 0 ∅ fs SystemMode)
  | Fault f, _ => Fault f
  | _, Fault f => Fault f
  end.

(** ** Accesses to the state *)

Definition on_vm_machine {A} (c : M Machine A) : M VM A := zoom vm_machine set_vm_machine c.
Definition on_MemBitMap {A} (c : M BitMap A) : M VM A := zoom MemBitMap set_MemBitMap c.
Definition on_SWAPBitMap {A} (c : M BitMap A) : M VM A := zoom SWAPBitMap set_SWAPBitMap c.
Definition on_unix {A} (c : M Unix A) : M VM A := zoom unix set_unix c.

Definition space (id : Z) : M VM AddrSpace :=
  k ← get;
  match spaces k !! id with
  | Some a => mret a
  | None => stop NullPointer
  end.

(** [pageTable[vpn]] of a space. *)
Definition pt_get (id vpn : Z) : M VM TranslationEntry :=
  a ← space id; lift (rd (as_pageTable a) vpn).

Definition pt_modify (id vpn : Z) (f : TranslationEntry → TranslationEntry) : M VM unit :=
  a ← space id;
  e ← lift (rd (as_pageTable a) vpn);
  t ← lift (wr (as_pageTable a) vpn (f e));
  modify (λ k, set_spaces (<[id := set_as_pageTable t a]> (spaces k)) k).

(** [machine->tlb[i]] *)
Definition tlb_get (i : Z) : M VM TranslationEntry :=
  k ← get; lift (get_entry (InTLB i) (vm_machine k)).

Definition tlb_modify (i : Z) (f : TranslationEntry → TranslationEntry) : M VM unit :=
  e ← tlb_get i;
  k ← get;
  m ← lift (set_entry (InTLB i) (f e) (vm_machine k));
  modify (set_vm_machine m).

(** [IPT[i]], [*IPT[i]] *)
Definition IPT_get (i : Z) : M VM (option (Z * Z)) := k ← get; lift (rd (IPT k) i).

Definition IPT_set (i : Z) (p : option (Z * Z)) : M VM unit :=
  k ← get; t ← lift (wr (IPT k) i p); modify (set_IPT t).

Definition IPT_entry (i : Z) : M VM TranslationEntry :=
  p ← IPT_get i;
  match p with
  | Some (id, vpn) => pt_get id vpn
  | None => stop NullPointer
  end.

Definition IPT_modify (i : Z) (f : TranslationEntry → TranslationEntry) : M VM unit :=
  p ← IPT_get i;
  match p with
  | Some (id, vpn) => pt_modify id vpn f
  | None => stop NullPointer
  end.

(** [&mainMemory[a]] as the source or the destination of a copy. *)
Definition mem_read (a n : Z) : M VM (list Z) :=
  k ← get; lift (rd_block (mainMemory (vm_machine k)) a n).

Definition mem_write (a : Z) (bs : list Z) : M VM unit :=
  k ← get;
  l ← lift (wr_block (mainMemory (vm_machine k)) a bs);
  modify (set_vm_machine (set_mainMemory l (vm_machine k))).

(** ** Executables (bin/noff.h) *)

Record Segment := mkSegment { seg_virtualAddr : Z; inFileAddr : Z; seg_size : Z }.

Record NoffHeader := mkNoff {
  noffMagic : Z;
  code : Segment;
  noff_initData : Segment;
  uninitData : Segment
}.

Definition int_at (big : bool) (bs : list Z) (i : nat) : Z :=
  s32 (host_value big (take 4 (drop (4 * i) bs))).

Definition noff_of_bytes (big : bool) (bs : list Z) : NoffHeader :=
  let w := int_at big bs in
  mkNoff (w 0%nat) (mkSegment (w 1%nat) (w 2%nat) (w 3%nat))
    (mkSegment (w 4%nat) (w 5%nat) (w 6%nat)) (mkSegment (w 7%nat) (w 8%nat) (w 9%nat)).

Definition noff_size : Z := 40.

Definition swap_word (big : bool) (x : Z) : Z := s32 (WordToHost big (u32 x)).

Definition SwapHeader (big : bool) (h : NoffHeader) : NoffHeader :=
  let seg g := mkSegment (swap_word big (seg_virtualAddr g)) (swap_word big (inFileAddr g))
                 (swap_word big (seg_size g)) in
  mkNoff (swap_word big (noffMagic h)) (seg (code h)) (seg (noff_initData h)) (seg (uninitData h)).

(** [executable->ReadAt((char * )&noffH, sizeof(noffH), 0)]; a file too short
    for a header leaves [noffH] uninitialised. *)
Definition read_header (big : bool) (o : OpenFile) : M VM NoffHeader :=
  bs ← on_unix (OpenFile_ReadAt o noff_size 0);
  if decide (Z.of_nat (length bs) = noff_size) then mret (noff_of_bytes big bs) else stop OutOfBounds.

(** ** Construction and destruction *)

Definition fresh_entry (i : Z) : TranslationEntry := mkEntry i (-1) false false false false.

(** [AddrSpace(OpenFile *executable, std::string fn)]; the new object is [id]. *)
Definition AddrSpace_new (big : bool) (id : Z) (executable : OpenFile) (fn : string) : M VM unit :=
  h0 ← read_header big executable;
  let h := if bool_decide (noffMagic h0 ≠ NOFFMAGIC) && bool_decide (swap_word big (noffMagic h0) = NOFFMAGIC)
           then SwapHeader big h0 else h0 in
  ASSERT (bool_decide (noffMagic h = NOFFMAGIC)) ;;
  let size := u32 (seg_size (code h) + seg_size (noff_initData h) + seg_size (uninitData h) + UserStackSize) in
  let pages := u32 (divRoundUp size PageSize) in
  let first_init := u32 (divRoundUp (seg_size (code h)) PageSize) in
  let first_noInit := u32 (first_init + divRoundUp (seg_size (noff_initData h)) PageSize) in
  let first_stack := u32 (pages - divRoundUp UserStackSize PageSize) in
  modify (λ k, set_spaces (<[id := mkAddrSpace first_init first_noInit first_stack fn pages
                                     (fresh_entry <$> seqZ 0 pages)]> (spaces k)) k).

(** [AddrSpace(AddrSpace *other)]: the child of a Fork shares code and data
    with [other]; its eight stack pages are fresh.  With fewer than eight pages
    the unsigned [numPages - 8] wraps and the first loop leaves the table. *)
Definition AddrSpace_copy (id other : Z) : M VM unit :=
  o ← space other;
  let dataAndCodePages := numPages o - 8 in
  if decide (dataAndCodePages < 0) then stop OutOfBounds
  else
    let shared (index : Z) (e : TranslationEntry) : TranslationEntry :=
      mkEntry index (physicalPage e) (valid e) (readOnly e) (use e) (dirty e) in
    let t := zip_with shared (seqZ 0 dataAndCodePages) (as_pageTable o) ++
             (fresh_entry <$> seqZ dataAndCodePages 8) in
    modify (λ k, set_spaces (<[id := mkAddrSpace (initData o) (noInitData o) (stack o) (filename o)
                                       (numPages o) t]> (spaces k)) k).

Definition AddrSpace_delete (id : Z) : M VM unit :=
  modify (λ k, set_spaces (delete id (spaces k)) k).

Definition InitRegisters (this : Z) : M VM unit :=
  a ← space this;
  for_range 0 (Z.to_nat NumTotalRegs) (λ i, on_vm_machine (WriteRegister i 0)) ;;
  on_vm_machine (WriteRegister PCReg 0) ;;
  on_vm_machine (WriteRegister NextPCReg 4) ;;
  on_vm_machine (WriteRegister StackReg (s32 (numPages a * PageSize - 16))).

(** ** Context switches *)

(** [machine->tlb = new TranslationEntry[TLBSize]] and the loop that clears
    [valid]; [garbage] is what the allocation holds. *)
Definition new_tlb (garbage : list TranslationEntry) : M VM unit :=
  modify (λ k, set_vm_machine (set_tlb (Some garbage) (vm_machine k)) k) ;;
  for_range 0 (Z.to_nat TLBSize) (λ i, tlb_modify i (set_valid false)).

Definition SaveState (this : Z) (garbage : list TranslationEntry) : M VM unit :=
  for_range 0 (Z.to_nat TLBSize) (λ i,
    t ← tlb_get i;
    pt_modify this (virtualPage t) (set_use (use t)) ;;
    pt_modify this (virtualPage t) (set_dirty (dirty t))) ;;
  new_tlb garbage.

Definition RestoreState (this : Z) (garbage : list TranslationEntry) : M VM unit :=
  modify set_hands_on_restore ;; new_tlb garbage.

(** ** Swapping *)

Definition valid_frame (physicalPage : Z) : bool :=
  negb (bool_decide (physicalPage < 0) || bool_decide (physicalPage >= NumPhysPages)).

Definition clearPhysicalPage (physicalPage : Z) : M VM unit :=
  ASSERT (valid_frame physicalPage) ;;
  for_range 0 (Z.to_nat PageSize) (λ index, mem_write (physicalPage * PageSize + index) [0]).

Definition writeIntoSwap (physicalPageVictim : Z) : M VM unit :=
  swapPage ← on_SWAPBitMap BitMap_Find;
  ASSERT (valid_frame physicalPageVictim) ;;
  ASSERT (negb (bool_decide (swapPage = -1))) ;;
  swapFile ← on_unix (FileSystem_Open SWAPFILENAME);
  match swapFile with
  | None => stop AssertFailed
  | Some swapFile =>
      IPT_modify physicalPageVictim (set_valid false) ;;
      IPT_modify physicalPageVictim (set_physicalPage swapPage) ;;
      bs ← mem_read (physicalPageVictim * PageSize) PageSize;
      on_unix (OpenFile_WriteAt swapFile bs (swapPage * PageSize)) ;;
      k ← get;
      on_MemBitMap (BitMap_Clear (indexSWAPFIFO k))
  end.

Definition readFromSwap (physicalPage swapPage : Z) : M VM unit :=
  on_SWAPBitMap (BitMap_Clear swapPage) ;;
  swapFile ← on_unix (FileSystem_Open SWAPFILENAME);
  ASSERT (bool_decide (swapPage >= 0) && bool_decide (swapPage < SWAPSize)) ;;
  match swapFile with
  | None => stop AssertFailed
  | Some swapFile =>
      ASSERT (valid_frame physicalPage) ;;
      bs ← on_unix (OpenFile_ReadAt swapFile PageSize (swapPage * PageSize));
      mem_write (physicalPage * PageSize) bs ;;
      modify add_pageFault
  end.

(** ** Second chance, for the TLB *)

(** [oldUse] is only ever [true] or [false]. *)
Definition saveVictimTLBInfo (this tlbIndex : Z) (oldUse : bool) : M VM unit :=
  ASSERT (negb (bool_decide (tlbIndex < 0) || bool_decide (tlbIndex >= TLBSize))) ;;
  t ← tlb_get tlbIndex;
  pt_modify this (virtualPage t) (set_use (if oldUse then true else use t)) ;;
  pt_modify this (virtualPage t) (set_dirty (dirty t)).

(** The first loop: the lowest invalid slot. *)
Fixpoint first_invalid_TLB (n : nat) (x : Z) : M VM (option Z) :=
  match n with
  | O => mret None
  | S n' =>
      t ← tlb_get x;
      if valid t then first_invalid_TLB n' (x + 1) else mret (Some x)
  end.

(** The [while] loop; [fuel] bounds the number of its turns. *)
Fixpoint clock_TLB (this : Z) (fuel : nat) : M VM Z :=
  match fuel with
  | O => stop OutOfFuel
  | S fuel' =>
      k ← get;
      let hand := indexTLBSndChc k in
      t ← tlb_get hand;
      if use t then
        tlb_modify hand (set_use false) ;;
        saveVictimTLBInfo this hand true ;;
        modify (set_indexTLBSndChc (cmod (hand + 1) TLBSize)) ;;
        clock_TLB this fuel'
      else
        saveVictimTLBInfo this hand false ;;
        modify (set_indexTLBSndChc (cmod (hand + 1) TLBSize)) ;;
        mret hand
  end.

(** Each turn but the last clears a use bit: [TLBSize + 1] turns are enough. *)
Definition clock_TLB_fuel : nat := S (Z.to_nat TLBSize).

Definition getNextSCTLB (this : Z) : M VM Z :=
  slot ← first_invalid_TLB (Z.to_nat TLBSize) 0;
  match slot with
  | Some x => mret x
  | None =>
      freeSpace ← clock_TLB this clock_TLB_fuel;
      ASSERT (negb (bool_decide (freeSpace < 0) || bool_decide (freeSpace >= TLBSize))) ;;
      mret freeSpace
  end.

Definition useThisTLBIndex (this tlbIndex vpn : Z) : M VM unit :=
  ASSERT (negb (bool_decide (tlbIndex < 0) || bool_decide (tlbIndex >= TLBSize))) ;;
  a ← space this;
  ASSERT (negb (bool_decide (vpn < 0) || bool_decide (vpn >= numPages a))) ;;
  e ← pt_get this vpn;
  tlb_modify tlbIndex (λ _, mkEntry (virtualPage e) (physicalPage e) (valid e) (readOnly e) (use e) (dirty e)).

(** ** Second chance, for the frames *)

Fixpoint clock_SWAP (fuel : nat) : M VM Z :=
  match fuel with
  | O => stop OutOfFuel
  | S fuel' =>
      k ← get;
      let hand := indexSWAPSndChc k in
      p ← IPT_get hand;
      ASSERT (negb (bool_decide (p = None))) ;;
      e ← IPT_entry hand;
      ASSERT (valid e) ;;
      if use e then
        IPT_modify hand (set_use false) ;;
        modify (set_indexSWAPSndChc (cmod (hand + 1) NumPhysPages)) ;;
        clock_SWAP fuel'
      else
        modify (set_indexSWAPSndChc (cmod (hand + 1) NumPhysPages)) ;;
        mret hand
  end.

Definition clock_SWAP_fuel : nat := S (Z.to_nat NumPhysPages).

Definition getNextSCSWAP : M VM Z :=
  k ← get;
  ASSERT (valid_frame (indexSWAPSndChc k)) ;;
  freeSpace ← clock_SWAP clock_SWAP_fuel;
  ASSERT (valid_frame freeSpace) ;;
  mret freeSpace.

(** The loop over the TLB stops at the first slot that maps the frame. *)
Fixpoint invalidate_TLB_of (swapIndex : Z) (n : nat) (index : Z) : M VM unit :=
  match n with
  | O => mret tt
  | S n' =>
      t ← tlb_get index;
      e ← IPT_entry swapIndex;
      if valid t && bool_decide (physicalPage t = physicalPage e) then
        tlb_modify index (set_valid false) ;;
        IPT_modify swapIndex (set_use (use t)) ;;
        IPT_modify swapIndex (set_dirty (dirty t))
      else invalidate_TLB_of swapIndex n' (index + 1)
  end.

Definition updateSwapVictimInfo (swapIndex : Z) : M VM unit :=
  invalidate_TLB_of swapIndex (Z.to_nat TLBSize) 0.

(** ** Loading a page *)

(** [indexSWAPFIFO = getNextSCSWAP(); updateSwapVictimInfo(indexSWAPFIFO);
    victimDirty = IPT[indexSWAPFIFO]->dirty] *)
Definition select_victim : M VM bool :=
  v ← getNextSCSWAP;
  modify (set_indexSWAPFIFO v) ;;
  updateSwapVictimInfo v ;;
  e ← IPT_entry v;
  mret (dirty e).

Definition swap_out_victim : M VM unit :=
  k ← get;
  e ← IPT_entry (indexSWAPFIFO k);
  writeIntoSwap (physicalPage e).

(** The clean victim is dropped; with [zero] its old frame is cleared. *)
Definition drop_victim (zero : bool) : M VM unit :=
  k ← get;
  let v := indexSWAPFIFO k in
  e ← IPT_entry v;
  IPT_modify v (set_valid false) ;;
  IPT_modify v (set_physicalPage (-1)) ;;
  on_MemBitMap (BitMap_Clear (physicalPage e)) ;;
  if (zero : bool) then clearPhysicalPage (physicalPage e) else mret tt.

(** The same, in the order of the initialised data branch. *)
Definition drop_victim_data : M VM unit :=
  k ← get;
  let v := indexSWAPFIFO k in
  e ← IPT_entry v;
  on_MemBitMap (BitMap_Clear (physicalPage e)) ;;
  IPT_modify v (set_valid false) ;;
  IPT_modify v (set_physicalPage (-1)).

(** Room is made by evicting a victim and asking for a frame again. *)
Definition find_frame_again : M VM Z :=
  freeFrame ← on_MemBitMap BitMap_Find;
  ASSERT (negb (bool_decide (freeFrame = -1))) ;;
  mret freeFrame.

(** [pageTable[vpn]] becomes valid in [freeFrame], [IPT] and the TLB follow;
    [fill] brings the contents in, with the old [physicalPage]. *)
Definition map_page (this vpn freeFrame : Z) (fill : Z → M VM unit) : M VM unit :=
  e ← pt_get this vpn;
  pt_modify this vpn (set_physicalPage freeFrame) ;;
  fill (physicalPage e) ;;
  pt_modify this vpn (set_valid true) ;;
  IPT_set freeFrame (Some (this, vpn)) ;;
  tlbSpace ← getNextSCTLB this;
  useThisTLBIndex this tlbSpace vpn.

(** [executable->ReadAt(&mainMemory[freeFrame * PageSize], PageSize,
    noffH.code.inFileAddr + PageSize * vpn)] *)
Definition read_page (executable : OpenFile) (noffH : NoffHeader) (vpn freeFrame : Z) : M VM unit :=
  bs ← on_unix (OpenFile_ReadAt executable PageSize (s32 (inFileAddr (code noffH) + PageSize * vpn)));
  mem_write (freeFrame * PageSize) bs.

(** 1.1 a page of code *)
Definition load_code_page (this vpn : Z) (executable : OpenFile) (noffH : NoffHeader) : M VM unit :=
  freeFrame ← on_MemBitMap BitMap_Find;
  if decide (freeFrame ≠ -1) then
    map_page this vpn freeFrame (λ _, read_page executable noffH vpn freeFrame)
  else
    victimDirty ← select_victim;
    if (victimDirty : bool) then
      swap_out_victim ;;
      freeFrame ← find_frame_again;
      map_page this vpn freeFrame (λ _, read_page executable noffH vpn freeFrame)
    else
      drop_victim false ;;
      freeFrame ← find_frame_again;
      map_page this vpn freeFrame (λ _, read_page executable noffH vpn freeFrame).

(** 1.2 a page of initialised data *)
Definition load_initData_page (this vpn : Z) (executable : OpenFile) (noffH : NoffHeader) : M VM unit :=
  freeFrame ← on_MemBitMap BitMap_Find;
  if decide (freeFrame ≠ -1) then
    map_page this vpn freeFrame (λ _, read_page executable noffH vpn freeFrame)
  else
    victimDirty ← select_victim;
    if (victimDirty : bool) then
      swap_out_victim ;;
      freeFrame ← find_frame_again;
      map_page this vpn freeFrame (λ _, read_page executable noffH vpn freeFrame)
    else
      drop_victim_data ;;
      freeFrame ← find_frame_again;
      map_page this vpn freeFrame (λ _, read_page executable noffH vpn freeFrame).

(** 1.3 a page of uninitialised data or of the stack: nothing is read. *)
Definition load_blank_page (this vpn : Z) : M VM unit :=
  freeFrame ← on_MemBitMap BitMap_Find;
  if decide (freeFrame ≠ -1) then map_page this vpn freeFrame (λ _, mret tt)
  else
    victimDirty ← select_victim;
    if (victimDirty : bool) then
      swap_out_victim ;;
      freeFrame ← find_frame_again;
      map_page this vpn freeFrame (λ _, mret tt)
    else
      drop_victim true ;;
      freeFrame ← find_frame_again;
      map_page this vpn freeFrame (λ _, mret tt).

(** 2 a dirty page that is in the swap area *)
Definition load_swapped_page (this vpn : Z) : M VM unit :=
  freeFrame ← on_MemBitMap BitMap_Find;
  if decide (freeFrame ≠ -1) then
    map_page this vpn freeFrame (λ oldSwapPageAddr, readFromSwap freeFrame oldSwapPageAddr)
  else
    victimDirty ← select_victim;
    if (victimDirty : bool) then
      swap_out_victim ;;
      freeFrame ← find_frame_again;
      map_page this vpn freeFrame (λ oldSwapPageAddr, readFromSwap freeFrame oldSwapPageAddr)
    else
      drop_victim false ;;
      freeFrame ← find_frame_again;
      map_page this vpn freeFrame (λ oldSwapPageAddr, readFromSwap freeFrame oldSwapPageAddr).

(** 1 an invalid clean page: by segment *)
Definition load_clean_page (big : bool) (this vpn : Z) : M VM unit :=
  a ← space this;
  modify add_pageFault ;;
  executable ← on_unix (FileSystem_Open (filename a));
  match executable with
  | None => stop AssertFailed
  | Some executable =>
      noffH ← read_header big executable;
      if decide (vpn < initData a) then load_code_page this vpn executable noffH
      else if decide (vpn < noInitData a) then load_initData_page this vpn executable noffH
      else if decide (vpn < numPages a) then load_blank_page this vpn
      else stop AssertFailed
  end.

(** [AddrSpace::load]; [vpn] is an [unsigned int]. *)
Definition load (big : bool) (this vpn : Z) : M VM unit :=
  e ← pt_get this vpn;
  if negb (valid e) && negb (dirty e) then load_clean_page big this vpn
  else if negb (valid e) && dirty e then load_swapped_page this vpn
  else
    tlbSpace ← getNextSCTLB this;
    useThisTLBIndex this tlbSpace vpn.

(** The machine of the kernel, for [ReadMem] and [WriteMem]. *)
#[export] Instance VM_host : MachineHost VM := {|
  machine := vm_machine; set_machine := set_vm_machine; setStatus := set_vm_status;
  host_big_endian := false
|}.

#[export] Instance VM_host_laws : MachineHostLaws VM.
Proof. split; try done; by intros []. Qed.
