(* ===== verification/VMInv.v ===== *)
(** * Demand paging: invariant and contents of virtual pages

    [vm_inv] is the invariant that ties the page tables, the inverted page
    table, the TLB, the bitmaps and the swap file together.  [page_byte] is the
    contents of a virtual page as the program sees it, wherever the byte lives
    (memory, swap file or executable).  This file has the accessors, the runs of
    the primitive operations, and the lemmas that the invariant and the contents
    are kept by the primitive changes of state. *)

From stdpp Require Import base gmap list numbers strings list_numbers.
From Stdlib Require Import ZArith Lia.
From S2P Require Import Prelude BitMap FileStub Machine MachineFacts AddrSpace.

(** ** Views of the state *)

Definition entry_of (k : VM) (id v : Z) : option TranslationEntry :=
  a ← spaces k !! id;
  if decide (0 ≤ v) then as_pageTable a !! Z.to_nat v else None.

Definition TLB (k : VM) : list TranslationEntry := default [] (tlb (vm_machine k)).

(** Some valid slot of the TLB has a dirty bit for page [v]. *)
Definition tlb_dirty (k : VM) (v : Z) : bool :=
  existsb (λ t, valid t && bool_decide (virtualPage t = v) && dirty t) (TLB k).

Definition mem_byte (k : VM) (frame j : Z) : option Z :=
  mainMemory (vm_machine k) !! Z.to_nat (frame * PageSize + j).

Definition swap_byte (k : VM) (slot j : Z) : option Z :=
  f ← unix k !! SWAPFILENAME; f !! Z.to_nat (slot * PageSize + j).

(** Where [load] reads page [v] of an executable from. *)
Definition page_offset (f : list Z) (v : Z) : Z :=
  s32 (inFileAddr (code (noff_of_bytes false (pread_bytes f 0 noff_size))) + PageSize * v).

(** The byte of the executable, for pages of code and initialised data. *)
Definition file_byte (k : VM) (id v j : Z) : option Z :=
  a ← spaces k !! id;
  f ← unix k !! filename a;
  if decide (v < noInitData a) then f !! Z.to_nat (page_offset f v + j) else None.

(** The byte at offset [j] of page [v] of space [id], when [cur] runs: [None]
    for a page of uninitialised data or stack that was never written. *)
Definition page_byte (k : VM) (cur id v j : Z) : option Z :=
  e ← entry_of k id v;
  if decide (0 ≤ j < PageSize) then
    if valid e then
      if dirty e || (bool_decide (id = cur) && tlb_dirty k v) || bool_decide (is_Some (file_byte k id v j))
      then mem_byte k (physicalPage e) j else None
    else if dirty e then swap_byte k (physicalPage e) j
    else file_byte k id v j
  else None.

(** ** The invariant *)

Record space_wf (k : VM) (a : AddrSpace) : Prop := {
  sw_table : Z.of_nat (length (as_pageTable a)) = numPages a;
  sw_segments : 0 ≤ initData a ∧ initData a ≤ noInitData a ∧ noInitData a ≤ numPages a;
  sw_name : filename a ≠ SWAPFILENAME;
  sw_file : ∃ f, unix k !! filename a = Some f ∧ (Z.to_nat noff_size ≤ length f)%nat ∧
                 ∀ v, 0 ≤ v < numPages a → 0 ≤ page_offset f v
}.

Record vm_inv (k : VM) (cur : Z) (hole : option Z) : Prop := {
  vi_machine : machine_wf (vm_machine k);
  vi_tlb : ∃ t, tlb (vm_machine k) = Some t ∧ length t = Z.to_nat TLBSize;
  vi_mem : BitMap_wf (MemBitMap k) ∧ numBits (MemBitMap k) = NumPhysPages;
  vi_swap : BitMap_wf (SWAPBitMap k) ∧ numBits (SWAPBitMap k) = SWAPSize;
  vi_ipt : length (IPT k) = Z.to_nat NumPhysPages;
  vi_hands : 0 ≤ indexTLBSndChc k < TLBSize ∧ 0 ≤ indexSWAPSndChc k < NumPhysPages;
  vi_swapfile : is_Some (unix k !! SWAPFILENAME);
  vi_bytes : ∀ n f, unix k !! n = Some f → Forall byte_range f;
  vi_spaces : ∀ id a, spaces k !! id = Some a → space_wf k a;
  vi_entries : ∀ id v e, entry_of k id v = Some e → virtualPage e = v ∧ readOnly e = false;
  vi_valid : ∀ id v e, entry_of k id v = Some e → valid e = true →
    0 ≤ physicalPage e < NumPhysPages ∧ IPT k !! Z.to_nat (physicalPage e) = Some (Some (id, v)) ∧
    bit (MemBitMap k) (physicalPage e) = true ∧ hole ≠ Some (physicalPage e);
  vi_owned : ∀ f, 0 ≤ f < NumPhysPages → bit (MemBitMap k) f = true → hole ≠ Some f →
    ∃ id v e, IPT k !! Z.to_nat f = Some (Some (id, v)) ∧ entry_of k id v = Some e ∧
              valid e = true ∧ physicalPage e = f;
  vi_hole : ∀ f, hole = Some f → 0 ≤ f < NumPhysPages ∧ bit (MemBitMap k) f = true;
  vi_swapped : ∀ id v e, entry_of k id v = Some e → valid e = false → dirty e = true →
    0 ≤ physicalPage e < SWAPSize ∧ bit (SWAPBitMap k) (physicalPage e) = true ∧
    ∀ j, 0 ≤ j < PageSize → is_Some (swap_byte k (physicalPage e) j);
  vi_swap_inj : ∀ id v e id' v' e', entry_of k id v = Some e → valid e = false → dirty e = true →
    entry_of k id' v' = Some e' → valid e' = false → dirty e' = true →
    physicalPage e = physicalPage e' → id = id' ∧ v = v';
  vi_tlb_ok : ∀ i t, TLB k !! i = Some t → valid t = true →
    ∃ e, entry_of k cur (virtualPage t) = Some e ∧ valid e = true ∧ physicalPage t = physicalPage e ∧
         readOnly t = false ∧ (dirty e = true → dirty t = true);
  vi_tlb_inj : ∀ i j t t', TLB k !! i = Some t → TLB k !! j = Some t' → valid t = true → valid t' = true →
    virtualPage t = virtualPage t' → i = j;
  vi_clean : ∀ id v e j b, entry_of k id v = Some e → valid e = true → dirty e = false →
    ~ (id = cur ∧ tlb_dirty k v = true) → 0 ≤ j < PageSize → file_byte k id v j = Some b →
    mem_byte k (physicalPage e) j = Some b
}.

(** No byte that is defined changes. *)
Definition bytes_kept (cur : Z) (k k' : VM) : Prop :=
  ∀ id v j b, page_byte k cur id v j = Some b → page_byte k' cur id v j = Some b.

Lemma bytes_kept_refl cur k : bytes_kept cur k k.
Proof. by intros id v j b. Qed.

Lemma bytes_kept_trans cur k1 k2 k3 : bytes_kept cur k1 k2 → bytes_kept cur k2 k3 → bytes_kept cur k1 k3.
Proof. intros H1 H2 id v j b Hb. by apply H2, H1. Qed.

(** ** Lemmas on the views *)

Lemma entry_of_Some k id v e : entry_of k id v = Some e ↔
  ∃ a, spaces k !! id = Some a ∧ 0 ≤ v ∧ as_pageTable a !! Z.to_nat v = Some e.
Proof.
  unfold entry_of. destruct (spaces k !! id) as [a |]; simpl; [| naive_solver].
  case_decide; naive_solver.
Qed.

Lemma tlb_dirty_spec k v : tlb_dirty k v = true ↔
  ∃ i t, TLB k !! i = Some t ∧ valid t = true ∧ virtualPage t = v ∧ dirty t = true.
Proof.
  unfold tlb_dirty. rewrite existsb_exists. split.
  - intros (t & Hin & Ht). split_bool. apply list_elem_of_In, list_elem_of_lookup in Hin as [i Hi].
    exists i, t. split_bool. done.
  - intros (i & t & Hi & Hv & Hp & Hd). exists t. split.
    + apply list_elem_of_In. by eapply list_elem_of_lookup_2.
    + rewrite Hv, Hd. by rewrite bool_decide_true.
Qed.

(** The TLB slot of a page decides [tlb_dirty]. *)
Lemma tlb_dirty_slot k cur hole i t : vm_inv k cur hole → TLB k !! i = Some t → valid t = true →
  tlb_dirty k (virtualPage t) = dirty t.
Proof.
  intros Hinv Hi Hv. destruct (dirty t) eqn:Hd.
  - apply tlb_dirty_spec. by exists i, t.
  - apply not_true_iff_false. intros (j & t' & Hj & Hv' & Hp & Hd')%tlb_dirty_spec.
    assert (i = j) as -> by (eapply (vi_tlb_inj _ _ _ Hinv); eauto). congruence.
Qed.

(** ** Changes of one page-table entry *)

Definition upd_entry (id v : Z) (e : TranslationEntry) (k : VM) : VM :=
  match spaces k !! id with
  | Some a => set_spaces (<[id := set_as_pageTable (<[Z.to_nat v := e]> (as_pageTable a)) a]> (spaces k)) k
  | None => k
  end.

Lemma pt_get_run k id v e : entry_of k id v = Some e → pt_get id v k = Done (e, k).
Proof.
  intros (a & Ha & Hv & He)%entry_of_Some. unfold pt_get, space, mbind, M_bind, get, mret, M_ret, lift.
  rewrite Ha. by rewrite (rd_Done _ _ e).
Qed.

Lemma pt_modify_run k id v e f : entry_of k id v = Some e →
  pt_modify id v f k = Done (tt, upd_entry id v (f e) k).
Proof.
  intros (a & Ha & Hv & He)%entry_of_Some. apply lookup_lt_Some in He as Hlt.
  unfold pt_modify, space, mbind, M_bind, get, mret, M_ret, lift, modify, upd_entry.
  rewrite Ha, (rd_Done _ _ e), wr_Done by (done || lia). done.
Qed.

Lemma entry_of_upd k id v e0 e id' v' : entry_of k id v = Some e0 →
  entry_of (upd_entry id v e k) id' v' =
    if decide (id' = id ∧ v' = v) then Some e else entry_of k id' v'.
Proof.
  intros (a & Ha & Hv & He)%entry_of_Some. apply lookup_lt_Some in He as Hlt.
  unfold upd_entry. rewrite Ha. unfold entry_of. simpl.
  destruct (decide (id' = id)) as [-> | Hid].
  - rewrite lookup_insert_eq, Ha. simpl. destruct (decide (v' = v)) as [-> | Hne].
    + rewrite !decide_True by done. by rewrite list_lookup_insert_eq.
    + rewrite (decide_False (P := id = id ∧ v' = v)) by tauto. case_decide; [| done].
      rewrite list_lookup_insert_ne by lia. done.
  - rewrite lookup_insert_ne by done. by rewrite decide_False by tauto.
Qed.

(** Everything but the page tables is untouched. *)
Lemma upd_entry_fields k id v e :
  let k' := upd_entry id v e k in
  vm_machine k' = vm_machine k ∧ MemBitMap k' = MemBitMap k ∧ SWAPBitMap k' = SWAPBitMap k ∧
  IPT k' = IPT k ∧ unix k' = unix k ∧ indexTLBSndChc k' = indexTLBSndChc k ∧
  indexSWAPSndChc k' = indexSWAPSndChc k ∧ indexSWAPFIFO k' = indexSWAPFIFO k.
Proof. unfold upd_entry. by destruct (spaces k !! id). Qed.

(** ** The parts of the state that paging never changes *)

Definition shape (a : AddrSpace) : AddrSpace * nat := (set_as_pageTable [] a, length (as_pageTable a)).

Record same_shape (k k' : VM) : Prop := {
  ss_spaces : ∀ id, shape <$> spaces k' !! id = shape <$> spaces k !! id;
  ss_unix : ∀ n, n ≠ SWAPFILENAME → unix k' !! n = unix k !! n
}.

Lemma same_shape_refl k : same_shape k k.
Proof. by split. Qed.

Lemma same_shape_trans k1 k2 k3 : same_shape k1 k2 → same_shape k2 k3 → same_shape k1 k3.
Proof.
  intros [H1 H2] [H3 H4]. split; intros; [by rewrite H3, H1 | by rewrite H4, H2].
Qed.

Lemma same_shape_lookup k k' id a' : same_shape k k' → spaces k' !! id = Some a' →
  ∃ a, spaces k !! id = Some a ∧ shape a' = shape a.
Proof.
  intros [Hs _] Ha'. specialize (Hs id). rewrite Ha' in Hs. simpl in Hs.
  destruct (spaces k !! id) as [a |]; [| done]. exists a. split; [done |]. by apply (inj Some).
Qed.

Lemma same_shape_lookup_r k k' id a : same_shape k k' → spaces k !! id = Some a →
  ∃ a', spaces k' !! id = Some a' ∧ shape a' = shape a.
Proof.
  intros [Hs _] Ha. specialize (Hs id). rewrite Ha in Hs. simpl in Hs.
  destruct (spaces k' !! id) as [a' |]; [| done]. exists a'. split; [done |]. by apply (inj Some).
Qed.

Lemma shape_fields a a' : shape a' = shape a →
  initData a' = initData a ∧ noInitData a' = noInitData a ∧ filename a' = filename a ∧
  numPages a' = numPages a ∧ length (as_pageTable a') = length (as_pageTable a).
Proof. destruct a, a'. unfold shape, set_as_pageTable. simpl. intros ?. by simplify_eq. Qed.

Lemma same_shape_space_wf k k' id a' : (∀ id a, spaces k !! id = Some a → space_wf k a) →
  same_shape k k' → spaces k' !! id = Some a' → space_wf k' a'.
Proof.
  intros Hwf Hss Ha'. destruct (same_shape_lookup _ _ _ _ Hss Ha') as (a & Ha & Hsh).
  destruct (shape_fields _ _ Hsh) as (E1 & E2 & E3 & E4 & E5).
  destruct (Hwf _ _ Ha) as [H1 H2 H3 (f & Hf & Hl & Hoff)]. split.
  - by rewrite E5, E4.
  - by rewrite E1, E2, E4.
  - by rewrite E3.
  - exists f. rewrite E3, E4, (ss_unix _ _ Hss) by done. done.
Qed.

Lemma same_shape_file_byte k k' id v j : (∀ id a, spaces k !! id = Some a → space_wf k a) →
  same_shape k k' → file_byte k' id v j = file_byte k id v j.
Proof.
  intros Hwf Hss. unfold file_byte. destruct (spaces k' !! id) as [a' |] eqn:Ha'; simpl.
  - destruct (same_shape_lookup _ _ _ _ Hss Ha') as (a & Ha & Hsh). rewrite Ha. simpl.
    destruct (shape_fields _ _ Hsh) as (_ & E2 & E3 & _). rewrite E2, E3.
    rewrite (ss_unix _ _ Hss) by (apply (sw_name k), (Hwf _ _ Ha)). done.
  - destruct (spaces k !! id) as [a |] eqn:Ha; [| done].
    destruct (same_shape_lookup_r _ _ _ _ Hss Ha) as (? & ? & _). congruence.
Qed.

Lemma upd_entry_shape k id v e : same_shape k (upd_entry id v e k).
Proof.
  unfold upd_entry. destruct (spaces k !! id) as [a |] eqn:Ha; [| done]. split; [| done].
  intros id'. simpl. destruct (decide (id' = id)) as [-> |].
  - rewrite lookup_insert_eq, Ha. simpl. unfold shape. simpl. by rewrite length_insert.
  - by rewrite lookup_insert_ne.
Qed.

(** ** States that differ in bookkeeping only

    Use bits, hands and counters may differ; a dirty bit of a page table may be
    brought up to date with the TLB. *)

Definition entry_sim (k : VM) (cur id v : Z) (e e' : TranslationEntry) : Prop :=
  virtualPage e' = virtualPage e ∧ physicalPage e' = physicalPage e ∧ valid e' = valid e ∧
  readOnly e' = readOnly e ∧
  (dirty e' = dirty e ∨
   (id = cur ∧ ∃ i t, TLB k !! i = Some t ∧ valid t = true ∧ virtualPage t = v ∧ dirty e' = dirty t)).

Record vm_sim (cur : Z) (k k' : VM) : Prop := {
  vs_entry : ∀ id v, match entry_of k id v, entry_of k' id v with
    | Some e, Some e' => entry_sim k cur id v e e'
    | None, None => True
    | _, _ => False
    end;
  vs_tlb : set_use false <$> TLB k' = set_use false <$> TLB k;
  vs_machine : machine_wf (vm_machine k) → machine_wf (vm_machine k') ∧
     (is_Some (tlb (vm_machine k)) → is_Some (tlb (vm_machine k')));
  vs_memory : mainMemory (vm_machine k') = mainMemory (vm_machine k);
  vs_mem : MemBitMap k' = MemBitMap k;
  vs_swap : SWAPBitMap k' = SWAPBitMap k;
  vs_ipt : IPT k' = IPT k;
  vs_unix : unix k' = unix k;
  vs_shape : same_shape k k';
  vs_hands : 0 ≤ indexTLBSndChc k < TLBSize ∧ 0 ≤ indexSWAPSndChc k < NumPhysPages →
             0 ≤ indexTLBSndChc k' < TLBSize ∧ 0 ≤ indexSWAPSndChc k' < NumPhysPages;
  vs_fifo : indexSWAPFIFO k' = indexSWAPFIFO k
}.

Lemma sim_tlb k k' i t' : set_use false <$> TLB k' = set_use false <$> TLB k → TLB k' !! i = Some t' →
  ∃ t, TLB k !! i = Some t ∧ virtualPage t' = virtualPage t ∧ physicalPage t' = physicalPage t ∧
       valid t' = valid t ∧ readOnly t' = readOnly t ∧ dirty t' = dirty t.
Proof.
  intros E Ht'. assert ((set_use false <$> TLB k) !! i = Some (set_use false t')) as Hi
    by (rewrite <- E, list_lookup_fmap, Ht'; done).
  rewrite list_lookup_fmap in Hi. destruct (TLB k !! i) as [t |] eqn:Ht; [| done].
  exists t. split; [done |]. destruct t, t'. simpl in Hi. unfold set_use in Hi. simpl in *. by simplify_eq.
Qed.

Lemma sim_tlb_dirty k k' v : set_use false <$> TLB k' = set_use false <$> TLB k →
  tlb_dirty k' v = tlb_dirty k v.
Proof.
  intros E. apply eq_bool_prop_intro. rewrite !Is_true_true, !tlb_dirty_spec.
  split; intros (i & t & Hi & Hv & Hp & Hd).
  - destruct (sim_tlb _ _ _ _ E Hi) as (t0 & ? & ? & ? & ? & ? & ?). exists i, t0. naive_solver.
  - destruct (sim_tlb _ _ _ _ (eq_sym E) Hi) as (t0 & ? & ? & ? & ? & ? & ?). exists i, t0. naive_solver.
Qed.

Lemma sim_entry cur k k' id v e' : vm_sim cur k k' → entry_of k' id v = Some e' →
  ∃ e, entry_of k id v = Some e ∧ entry_sim k cur id v e e'.
Proof.
  intros Hs He'. pose proof (vs_entry _ _ _ Hs id v) as H. rewrite He' in H.
  destruct (entry_of k id v); [eauto | done].
Qed.

Lemma sim_entry_r cur k k' id v e : vm_sim cur k k' → entry_of k id v = Some e →
  ∃ e', entry_of k' id v = Some e' ∧ entry_sim k cur id v e e'.
Proof.
  intros Hs He. pose proof (vs_entry _ _ _ Hs id v) as H. rewrite He in H.
  destruct (entry_of k' id v); [eauto | done].
Qed.

Lemma sim_dirty cur k k' id v e e' : vm_sim cur k k' → entry_sim k cur id v e e' →
  dirty e' || (bool_decide (id = cur) && tlb_dirty k' v) =
  dirty e || (bool_decide (id = cur) && tlb_dirty k v) ∨
  ∃ i t, TLB k !! i = Some t ∧ valid t = true ∧ virtualPage t = v ∧ id = cur ∧ dirty e' = dirty t.
Proof.
  intros Hs (_ & _ & _ & _ & Hd). rewrite (sim_tlb_dirty _ _ _ (vs_tlb _ _ _ Hs)).
  destruct Hd as [-> | (-> & i & t & Hi & Hv & Hp & Hd)]; [by left |]. right. eauto 10.
Qed.

(** The dirtiness that counts, with the TLB taken into account, is the same. *)
Lemma sim_eff_dirty cur k k' hole id v e e' : vm_inv k cur hole → vm_sim cur k k' →
  entry_of k id v = Some e → entry_sim k cur id v e e' →
  dirty e' || (bool_decide (id = cur) && tlb_dirty k' v) =
  dirty e || (bool_decide (id = cur) && tlb_dirty k v).
Proof.
  intros Hinv Hs He Hes. destruct (sim_dirty _ _ _ _ _ _ _ Hs Hes) as [|(i & t & Hi & Hv & <- & -> & Hd)];
    [done |].
  rewrite (sim_tlb_dirty _ _ _ (vs_tlb _ _ _ Hs)), (tlb_dirty_slot _ _ _ _ _ Hinv Hi Hv), Hd.
  destruct (vi_tlb_ok _ _ _ Hinv _ _ Hi Hv) as (e0 & He0 & _ & _ & _ & Himp).
  rewrite bool_decide_true by done. rewrite He in He0. simplify_eq.
  destruct (dirty t), (dirty e0); try done. by discriminate Himp.
Qed.

Lemma vm_sim_trans cur k1 k2 k3 : vm_sim cur k1 k2 → vm_sim cur k2 k3 → vm_sim cur k1 k3.
Proof.
  intros H1 H2. split.
  - intros id v. pose proof (vs_entry _ _ _ H1 id v) as E1. pose proof (vs_entry _ _ _ H2 id v) as E2.
    destruct (entry_of k1 id v) as [e1 |], (entry_of k2 id v) as [e2 |], (entry_of k3 id v) as [e3 |]; try done.
    destruct E1 as (? & ? & ? & ? & D1), E2 as (? & ? & ? & ? & D2).
    repeat split; try congruence.
    destruct D2 as [-> | (-> & i & t & Hi & Hv & Hp & Hd)]; [done |]. right. split; [done |].
    destruct (sim_tlb _ _ _ _ (vs_tlb _ _ _ H1) Hi) as (t1 & ? & ? & ? & ? & ? & ?). exists i, t1. naive_solver congruence.
  - by rewrite (vs_tlb _ _ _ H2), (vs_tlb _ _ _ H1).
  - intros Hwf. destruct (vs_machine _ _ _ H1 Hwf) as [Hwf2 ?].
    destruct (vs_machine _ _ _ H2 Hwf2) as [Hwf3 ?]. auto.
  - by rewrite (vs_memory _ _ _ H2), (vs_memory _ _ _ H1).
  - by rewrite (vs_mem _ _ _ H2), (vs_mem _ _ _ H1).
  - by rewrite (vs_swap _ _ _ H2), (vs_swap _ _ _ H1).
  - by rewrite (vs_ipt _ _ _ H2), (vs_ipt _ _ _ H1).
  - by rewrite (vs_unix _ _ _ H2), (vs_unix _ _ _ H1).
  - eapply same_shape_trans; [apply (vs_shape _ _ _ H1) | apply (vs_shape _ _ _ H2)].
  - intros Hh. apply (vs_hands _ _ _ H2), (vs_hands _ _ _ H1), Hh.
  - by rewrite (vs_fifo _ _ _ H2), (vs_fifo _ _ _ H1).
Qed.

Lemma vm_sim_refl cur k : vm_sim cur k k.
Proof.
  split; try done.
  intros id v. destruct (entry_of k id v); [| done]. repeat split; auto.
Qed.

(** A valid slot of the TLB maps a valid page, so the dirty bits that [vm_sim]
    lets differ are those of valid pages. *)
Lemma sim_invalid cur k k' hole id v e e' : vm_inv k cur hole → entry_of k id v = Some e →
  entry_sim k cur id v e e' → valid e = false → vm_sim cur k k' → dirty e' = dirty e.
Proof.
  intros Hinv He (_ & _ & _ & _ & [? | (-> & i & t & Hi & Hv & <- & _)]) Hval _; [done |].
  destruct (vi_tlb_ok _ _ _ Hinv _ _ Hi Hv) as (e0 & He0 & Hv0 & _). congruence.
Qed.

Section sim_inv.
Context (cur : Z) (k k' : VM) (hole : option Z).
Hypothesis Hinv : vm_inv k cur hole.
Hypothesis Hs : vm_sim cur k k'.

Lemma sim_file_byte id v j : file_byte k' id v j = file_byte k id v j.
Proof. apply same_shape_file_byte; [apply (vi_spaces _ _ _ Hinv) | apply (vs_shape _ _ _ Hs)]. Qed.

Lemma sim_mem_byte f j : mem_byte k' f j = mem_byte k f j.
Proof. unfold mem_byte. by rewrite (vs_memory _ _ _ Hs). Qed.

Lemma sim_swap_byte f j : swap_byte k' f j = swap_byte k f j.
Proof. unfold swap_byte. by rewrite (vs_unix _ _ _ Hs). Qed.

(** Every byte is the same. *)
Lemma sim_page_byte id v j : page_byte k' cur id v j = page_byte k cur id v j.
Proof.
  unfold page_byte. pose proof (vs_entry _ _ _ Hs id v) as E.
  destruct (entry_of k id v) as [e |] eqn:He, (entry_of k' id v) as [e' |] eqn:He'; try done. simpl.
  case_decide; [| done]. pose proof E as (_ & Hp & Hv & _).
  rewrite Hv, Hp, sim_file_byte, sim_mem_byte, sim_swap_byte.
  destruct (valid e) eqn:Hval.
  - by rewrite (sim_eff_dirty _ _ _ _ _ _ _ _ Hinv Hs He E).
  - by rewrite (sim_invalid _ _ _ _ _ _ _ _ Hinv He E Hval Hs).
Qed.

Lemma sim_bytes : bytes_kept cur k k'.
Proof. intros id v j b. by rewrite sim_page_byte. Qed.

Lemma sim_inv : vm_inv k' cur hole.
Proof.
  destruct (vs_machine _ _ _ Hs (vi_machine _ _ _ Hinv)) as [Hwf' Htlb'].
  split.
  - done.
  - destruct (vi_tlb _ _ _ Hinv) as (t & Ht & Hl). destruct Htlb' as [t' Ht']; [by rewrite Ht |].
    exists t'. split; [done |].
    pose proof (vs_tlb _ _ _ Hs) as E. unfold TLB in E. rewrite Ht, Ht' in E. simpl in E.
    apply (f_equal length) in E. rewrite !length_fmap in E. congruence.
  - rewrite (vs_mem _ _ _ Hs). apply (vi_mem _ _ _ Hinv).
  - rewrite (vs_swap _ _ _ Hs). apply (vi_swap _ _ _ Hinv).
  - rewrite (vs_ipt _ _ _ Hs). apply (vi_ipt _ _ _ Hinv).
  - apply (vs_hands _ _ _ Hs), (vi_hands _ _ _ Hinv).
  - rewrite (vs_unix _ _ _ Hs). apply (vi_swapfile _ _ _ Hinv).
  - rewrite (vs_unix _ _ _ Hs). apply (vi_bytes _ _ _ Hinv).
  - intros id a Ha. eapply same_shape_space_wf; [apply (vi_spaces _ _ _ Hinv) | apply (vs_shape _ _ _ Hs) | done].
  - intros id v e' He'. destruct (sim_entry _ _ _ _ _ _ Hs He') as (e & He & Hvp & _ & _ & Hro & _).
    rewrite Hvp, Hro. by apply (vi_entries _ _ _ Hinv id).
  - intros id v e' He' Hval'. destruct (sim_entry _ _ _ _ _ _ Hs He') as (e & He & _ & Hp & Hval & _).
    rewrite Hp, (vs_ipt _ _ _ Hs), (vs_mem _ _ _ Hs). apply (vi_valid _ _ _ Hinv); congruence.
  - intros f Hf. rewrite (vs_ipt _ _ _ Hs), (vs_mem _ _ _ Hs). intros Hb Hh.
    destruct (vi_owned _ _ _ Hinv f Hf Hb Hh) as (id & v & e & Hi & He & Hv & Hp).
    destruct (sim_entry_r _ _ _ _ _ _ Hs He) as (e' & He' & _ & Hp' & Hv' & _).
    exists id, v, e'. split; [done |]. split; [done |]. split; congruence.
  - intros f Hf. rewrite (vs_mem _ _ _ Hs). by apply (vi_hole _ _ _ Hinv).
  - intros id v e' He' Hval' Hd'. destruct (sim_entry _ _ _ _ _ _ Hs He') as (e & He & Hes).
    pose proof Hes as (_ & Hp & Hval & _). rewrite Hval in Hval'.
    rewrite (sim_invalid _ _ _ _ _ _ _ _ Hinv He Hes Hval' Hs) in Hd'.
    rewrite Hp, (vs_swap _ _ _ Hs).
    destruct (vi_swapped _ _ _ Hinv id v e He Hval' Hd') as (? & ? & Hbytes).
    split; [done |]. split; [done |]. intros j Hj. rewrite sim_swap_byte. by apply Hbytes.
  - intros id v e' id2 v2 e2' He' Hval' Hd' He2' Hval2' Hd2' Hpp.
    destruct (sim_entry _ _ _ _ _ _ Hs He') as (e & He & Hes).
    destruct (sim_entry _ _ _ _ _ _ Hs He2') as (e2 & He2 & Hes2).
    pose proof Hes as (_ & Hp & Hval & _). pose proof Hes2 as (_ & Hp2 & Hval2 & _).
    rewrite Hval in Hval'. rewrite Hval2 in Hval2'.
    rewrite (sim_invalid _ _ _ _ _ _ _ _ Hinv He Hes Hval' Hs) in Hd'.
    rewrite (sim_invalid _ _ _ _ _ _ _ _ Hinv He2 Hes2 Hval2' Hs) in Hd2'.
    apply (vi_swap_inj _ _ _ Hinv id v e id2 v2 e2); congruence.
  - intros i t' Hi' Hv'. destruct (sim_tlb _ _ _ _ (vs_tlb _ _ _ Hs) Hi') as (t & Hi & Hvp & Hp & Hv & Hro & Hd).
    rewrite Hv in Hv'. destruct (vi_tlb_ok _ _ _ Hinv i t Hi Hv') as (e & He & Hve & Hpe & Hroe & Hde).
    destruct (sim_entry_r _ _ _ _ _ _ Hs He) as (e' & He' & _ & Hp' & Hve' & _ & Hdd).
    exists e'. rewrite Hvp, Hp, Hro, Hd. split; [done |]. split; [congruence |]. split; [congruence |].
    split; [done |]. destruct Hdd as [-> | (_ & i2 & t2 & Hi2 & Hv2 & Hvp2 & ->)]; [done |].
    assert (i2 = i) as -> by (eapply (vi_tlb_inj _ _ _ Hinv); eauto). congruence.
  - intros i j t1' t2' Hi Hj Hv1 Hv2 Hvp.
    destruct (sim_tlb _ _ _ _ (vs_tlb _ _ _ Hs) Hi) as (t1 & Hi1 & E1 & _ & E2 & _).
    destruct (sim_tlb _ _ _ _ (vs_tlb _ _ _ Hs) Hj) as (t2 & Hi2 & E3 & _ & E4 & _).
    eapply (vi_tlb_inj _ _ _ Hinv); [exact Hi1 | exact Hi2 | congruence..].
  - intros id v e' j b He' Hval' Hd' Hcur Hj Hb.
    destruct (sim_entry _ _ _ _ _ _ Hs He') as (e & He & Hes). pose proof Hes as (_ & Hp & Hval & _).
    pose proof (sim_eff_dirty _ _ _ _ _ _ _ _ Hinv Hs He Hes) as Heff. rewrite Hd' in Heff. simpl in Heff.
    rewrite sim_file_byte in Hb. rewrite Hp, sim_mem_byte.
    rewrite (sim_tlb_dirty _ _ _ (vs_tlb _ _ _ Hs)) in Hcur, Heff.
    assert (dirty e = false).
    { destruct (dirty e); [| done]. simpl in Heff. apply andb_true_iff in Heff as [? ?]. split_bool. tauto. }
    apply (vi_clean _ _ _ Hinv id v e j b); try done. congruence.
Qed.
End sim_inv.

(** ** The bookkeeping operations *)

Lemma upd_entry_sim cur k id v e e' : entry_of k id v = Some e → entry_sim k cur id v e e' →
  vm_sim cur k (upd_entry id v e' k).
Proof.
  intros He Hes. destruct (upd_entry_fields k id v e') as (E1 & E2 & E3 & E4 & E5 & E6 & E7 & E8).
  split; rewrite ?E1, ?E2, ?E3, ?E4, ?E5, ?E6, ?E7, ?E8; try done; [| | by apply upd_entry_shape].
  - intros id' v'. rewrite (entry_of_upd _ _ _ e) by done. case_decide as Hc.
    + destruct Hc as [-> ->]. by rewrite He.
    + destruct (entry_of k id' v'); [| done]. repeat split; auto.
  - unfold TLB. by rewrite E1.
Qed.

Lemma entry_sim_use k cur id v e u : entry_sim k cur id v e (set_use u e).
Proof. repeat split; auto. Qed.

Lemma entry_sim_sync k cur v e i t : TLB k !! i = Some t → valid t = true → virtualPage t = v →
  entry_sim k cur cur v e (set_dirty (dirty t) e).
Proof. intros. repeat split; auto. right. split; [done |]. by exists i, t. Qed.

Definition upd_tlb (i : Z) (t : TranslationEntry) (k : VM) : VM :=
  set_vm_machine (set_tlb (Some (<[Z.to_nat i := t]> (TLB k))) (vm_machine k)) k.

Lemma TLB_is_Some k i t : TLB k !! i = Some t → tlb (vm_machine k) = Some (TLB k).
Proof. unfold TLB. by destruct (tlb (vm_machine k)). Qed.

Lemma tlb_get_run k i t : 0 ≤ i → TLB k !! Z.to_nat i = Some t → tlb_get i k = Done (t, k).
Proof.
  intros Hi Ht. unfold tlb_get, mbind, M_bind, get, lift, get_entry.
  rewrite (TLB_is_Some _ _ _ Ht), (rd_Done _ _ t) by done. done.
Qed.

Lemma tlb_modify_run k i t f : 0 ≤ i → TLB k !! Z.to_nat i = Some t →
  tlb_modify i f k = Done (tt, upd_tlb i (f t) k).
Proof.
  intros Hi Ht. apply lookup_lt_Some in Ht as Hlt.
  unfold tlb_modify, mbind, M_bind. rewrite (tlb_get_run _ _ _ Hi Ht).
  unfold get, lift, set_entry. rewrite (TLB_is_Some _ _ _ Ht), wr_Done by lia. done.
Qed.

Lemma TLB_upd k i t : TLB (upd_tlb i t k) = <[Z.to_nat i := t]> (TLB k).
Proof. done. Qed.

Lemma set_tlb_wf m t t' : tlb m = Some t → length t' = length t → machine_wf m →
  machine_wf (set_tlb (Some t') m).
Proof.
  intros Ht Hl [H1 H2 H3 H4 H5 H6]. split; try done.
  destruct H6 as [(? & _) | (Hpt & t0 & Ht0 & Hl0)]; [congruence |]. right. split; [done |].
  exists t'. split; [done |]. rewrite Hl. congruence.
Qed.

Lemma upd_tlb_wf k i t0 t : TLB k !! Z.to_nat i = Some t0 → machine_wf (vm_machine k) →
  machine_wf (vm_machine (upd_tlb i t k)).
Proof.
  intros Ht Hwf. eapply set_tlb_wf; [by apply (TLB_is_Some _ _ _ Ht) | by rewrite length_insert | done].
Qed.

Lemma upd_tlb_sim cur k i t u : TLB k !! Z.to_nat i = Some t → vm_sim cur k (upd_tlb i (set_use u t) k).
Proof.
  intros Ht. split; try done.
  - intros id v. unfold upd_tlb, entry_of. simpl. destruct (spaces k !! id) as [a |]; [| done]. simpl.
    case_decide; [| done]. destruct (as_pageTable a !! Z.to_nat v); [| done]. repeat split; auto.
  - rewrite TLB_upd, list_fmap_insert. apply list_insert_id. by rewrite list_lookup_fmap, Ht.
  - intros Hwf. split; [by eapply upd_tlb_wf | done].
Qed.

Lemma hand_TLB_sim cur k i : 0 ≤ i < TLBSize → vm_sim cur k (set_indexTLBSndChc i k).
Proof.
  intros Hi. split; try done; [| simpl; tauto].
  intros id v. change (entry_of (set_indexTLBSndChc i k) id v) with (entry_of k id v).
  destruct (entry_of k id v); [| done]. repeat split; auto.
Qed.

Lemma hand_SWAP_sim cur k i : 0 ≤ i < NumPhysPages → vm_sim cur k (set_indexSWAPSndChc i k).
Proof.
  intros Hi. split; try done; [| simpl; tauto].
  intros id v. change (entry_of (set_indexSWAPSndChc i k) id v) with (entry_of k id v).
  destruct (entry_of k id v); [| done]. repeat split; auto.
Qed.

Lemma fault_count_sim cur k : vm_sim cur k (add_pageFault k).
Proof.
  split; try done. intros id v. change (entry_of (add_pageFault k) id v) with (entry_of k id v).
  destruct (entry_of k id v); [| done]. repeat split; auto.
Qed.

Lemma wp_sim {A} cur (c : M VM A) k k1 Q : vm_sim cur k k1 →
  wp c (λ a k2, vm_sim cur k1 k2 ∧ Q a k2) k1 → wp c (λ a k2, vm_sim cur k k2 ∧ Q a k2) k1.
Proof.
  intros Hs Hwp. eapply wp_mono; [done |]. intros a k2 [Hs2 HQ]. split; [| done].
  by eapply vm_sim_trans.
Qed.

(** [cmod] by a constant, on the hands *)
Lemma next_hand i n : 0 ≤ i < n → 0 ≤ cmod (i + 1) n < n.
Proof. intros Hi. rewrite cmod_nonneg by lia. apply Z.mod_pos_bound. lia. Qed.
