(* ===== verification/VMClock.v ===== *)
(** * The second-chance algorithms of addrspace.cc

    [getNextSCTLB] and [getNextSCSWAP] are loops with no bound in the source.
    They terminate after at most one full turn of the hand, and the victim is
    the one of the textbook algorithm: the first element from the hand on whose
    use bit is clear, or the one at the hand when every use bit is set. *)

From stdpp Require Import base gmap list numbers strings list_numbers.
From Stdlib Require Import ZArith Lia.
From S2P Require Import Prelude BitMap FileStub Machine MachineFacts AddrSpace VMInv.

(** ** The reference algorithm *)

(** [v] is the victim among [n] elements with use bits [u], from [hand] on. *)
Definition second_chance (n : Z) (u : Z → bool) (hand v : Z) : Prop :=
  ∃ d, 0 ≤ d ≤ n ∧ v = (hand + d) mod n ∧ (∀ i, 0 ≤ i < d → u ((hand + i) mod n) = true) ∧
       (d = n ∨ u v = false).

(** The use bits after [c] turns of the loop: the first [c] are cleared. *)
Definition cleared (n : Z) (u : Z → bool) (hand c i : Z) : bool :=
  if decide ((i - hand) mod n < c) then false else u i.

(** The whole effect of the algorithm: the victim; the use bits afterwards, in
    which exactly those that the hand has passed over are cleared; and the hand
    afterwards, behind the victim. *)
Definition second_chance_turn (n : Z) (u u' : Z → bool) (hand hand' v : Z) : Prop :=
  ∃ d, 0 ≤ d ≤ n ∧ v = (hand + d) mod n ∧ (∀ i, 0 ≤ i < d → u ((hand + i) mod n) = true) ∧ (d = n ∨ u v = false) ∧
       (∀ i, 0 ≤ i < n → u' i = cleared n u hand d i) ∧ hand' = (v + 1) mod n.

Lemma cleared_at n u hand c : 0 < n → 0 ≤ c < n → 0 ≤ hand < n →
  cleared n u hand c ((hand + c) mod n) = u ((hand + c) mod n).
Proof.
  intros Hn Hc Hh. unfold cleared. rewrite decide_False; [done |].
  rewrite Zminus_mod_idemp_l. replace (hand + c - hand) with c by lia. rewrite Z.mod_small; lia.
Qed.

Lemma cleared_full n u hand i : 0 < n → cleared n u hand n i = false.
Proof. intros Hn. unfold cleared. rewrite decide_True; [done |]. apply Z.mod_pos_bound. lia. Qed.

Lemma cleared_next n u hand c i : 0 < n → 0 ≤ c < n → 0 ≤ hand < n → 0 ≤ i < n →
  cleared n u hand (c + 1) i = if decide (i = (hand + c) mod n) then false else cleared n u hand c i.
Proof.
  intros Hn Hc Hh Hi. unfold cleared. destruct (decide (i = (hand + c) mod n)) as [-> | Hne].
  - rewrite Zminus_mod_idemp_l. replace (hand + c - hand) with c by lia.
    rewrite (Z.mod_small c) by lia. by rewrite decide_True by lia.
  - assert ((i - hand) mod n ≠ c).
    { intros E. apply Hne. subst c. rewrite Zplus_mod_idemp_r.
      replace (hand + (i - hand)) with i by lia. rewrite Z.mod_small; lia. }
    repeat case_decide; done || lia.
Qed.

Lemma turn_hand n hand c : 0 < n → 0 ≤ hand < n → 0 ≤ c →
  cmod ((hand + c) mod n + 1) n = (hand + (c + 1)) mod n.
Proof.
  intros Hn Hh Hc. pose proof (Z.mod_pos_bound (hand + c) n).
  rewrite cmod_nonneg by lia. rewrite Zplus_mod_idemp_l. f_equal. lia.
Qed.

(** ** The TLB *)

Definition TLB_use (k : VM) (i : Z) : bool := default false (use <$> TLB k !! Z.to_nat i).

Definition TLB_full (k : VM) : Prop := ∀ i t, TLB k !! i = Some t → valid t = true.

(** The page table knows the dirty bit of slot [i]. *)
Definition slot_saved (k : VM) (cur i : Z) : Prop :=
  ∀ t, TLB k !! Z.to_nat i = Some t → valid t = true →
    ∃ e, entry_of k cur (virtualPage t) = Some e ∧ dirty e = dirty t.

Lemma sim_full cur k k' : vm_sim cur k k' → TLB_full k → TLB_full k'.
Proof.
  intros Hs Hfull i t' Hi. destruct (sim_tlb _ _ _ _ (vs_tlb _ _ _ Hs) Hi) as (t & Ht & _ & _ & -> & _).
  eauto.
Qed.

Lemma TLB_slot k cur hole i : vm_inv k cur hole → 0 ≤ i < TLBSize → ∃ t, TLB k !! Z.to_nat i = Some t.
Proof.
  intros Hinv Hi. destruct (vi_tlb _ _ _ Hinv) as (t & Ht & Hl). unfold TLB. rewrite Ht. simpl.
  apply lookup_lt_is_Some_2. lia.
Qed.

Lemma saveVictim_spec k cur hole i t (old : bool) : vm_inv k cur hole → 0 ≤ i < TLBSize →
  TLB k !! Z.to_nat i = Some t → valid t = true →
  wp (saveVictimTLBInfo cur i old)
     (λ _ k', vm_sim cur k k' ∧ TLB k' = TLB k ∧ indexTLBSndChc k' = indexTLBSndChc k ∧
              slot_saved k' cur i) k.
Proof.
  intros Hinv Hi Ht Hv. unfold saveVictimTLBInfo, TLBSize in *.
  wp_step. apply wp_ASSERT; [rewrite !bool_decide_false by lia; done |].
  wp_step. eapply wp_run; [apply tlb_get_run; [lia | done] |].
  destruct (vi_tlb_ok _ _ _ Hinv _ _ Ht Hv) as (e & He & _).
  wp_step. eapply wp_run; [by apply pt_modify_run |].
  set (e1 := set_use _ e). set (k1 := upd_entry cur (virtualPage t) e1 k).
  assert (entry_of k1 cur (virtualPage t) = Some e1) as He1
    by (unfold k1; rewrite (entry_of_upd _ _ _ e) by done; by rewrite decide_True).
  assert (vm_sim cur k k1) as Hs1 by (eapply upd_entry_sim; [done | apply entry_sim_use]).
  destruct (upd_entry_fields k cur (virtualPage t) e1) as (Em & _ & _ & _ & _ & Eh & _). fold k1 in Em, Eh.
  assert (TLB k1 = TLB k) as ET by (unfold TLB; by rewrite Em).
  eapply wp_run; [by apply pt_modify_run |].
  set (e2 := set_dirty _ e1). set (k2 := upd_entry cur (virtualPage t) e2 k1).
  destruct (upd_entry_fields k1 cur (virtualPage t) e2) as (Em2 & _ & _ & _ & _ & Eh2 & _). fold k2 in Em2, Eh2.
  assert (TLB k2 = TLB k) as ET2 by (unfold TLB; by rewrite Em2, Em).
  assert (vm_sim cur k1 k2) as Hs2.
  { eapply upd_entry_sim; [done |]. eapply entry_sim_sync; [by rewrite ET | done | done]. }
  split; [by eapply vm_sim_trans |]. split; [done |]. split; [congruence |].
  intros t' Ht' _. rewrite ET2, Ht in Ht'. simplify_eq. exists e2. split; [| done].
  unfold k2. rewrite (entry_of_upd _ _ _ e1) by done. by rewrite decide_True.
Qed.

Lemma TLB_use_at k i t : TLB k !! Z.to_nat i = Some t → TLB_use k i = use t.
Proof. intros Ht. unfold TLB_use. by rewrite Ht. Qed.

Lemma TLB_use_cleared k i t j : TLB k !! Z.to_nat i = Some t → 0 ≤ i → 0 ≤ j →
  TLB_use (upd_tlb i (set_use false t) k) j = if decide (j = i) then false else TLB_use k j.
Proof.
  intros Ht Hi Hj. apply lookup_lt_Some in Ht as Hlt. unfold TLB_use. rewrite TLB_upd. case_decide as E.
  - subst. by rewrite list_lookup_insert_eq.
  - by rewrite list_lookup_insert_ne by lia.
Qed.

Lemma clock_TLB_spec cur hole u hand : 0 ≤ hand < TLBSize → ∀ fuel c k,
  vm_inv k cur hole → TLB_full k → 0 ≤ c ≤ TLBSize → Z.of_nat fuel + c = TLBSize + 1 →
  indexTLBSndChc k = (hand + c) mod TLBSize →
  (∀ i, 0 ≤ i < TLBSize → TLB_use k i = cleared TLBSize u hand c i) →
  (∀ i, 0 ≤ i < c → u ((hand + i) mod TLBSize) = true) →
  wp (clock_TLB cur fuel)
     (λ r k', vm_sim cur k k' ∧ 0 ≤ r < TLBSize ∧ slot_saved k' cur r ∧
              second_chance TLBSize u hand r) k.
Proof.
  intros Hhand. induction fuel as [| fuel IH]; intros c k Hinv Hfull Hc Hfuel Hh Huse Hall; [lia |].
  assert (0 < TLBSize) as Hpos by done.
  pose proof (Z.mod_pos_bound (hand + c) TLBSize Hpos) as Hr.
  cbn [clock_TLB]. wp_step. wp_step. rewrite Hh. set (r := (hand + c) mod TLBSize) in *.
  destruct (TLB_slot _ _ _ r Hinv Hr) as [t Ht].
  wp_step. eapply wp_run; [apply tlb_get_run; [lia | done] |].
  pose proof (Huse r Hr) as Hur. rewrite (TLB_use_at _ _ _ Ht) in Hur.
  destruct (use t) eqn:Hut.
  - destruct (decide (c = TLBSize)) as [-> |]; [by rewrite cleared_full in Hur |].
    unfold r in Hur. rewrite cleared_at in Hur by lia. fold r in Hur.
    wp_step. eapply wp_run; [apply tlb_modify_run; [lia | done] |].
    pose proof (upd_tlb_sim cur k r t false Ht) as Hs1. set (k1 := upd_tlb r (set_use false t) k) in *.
    pose proof (sim_inv _ _ _ _ Hinv Hs1) as Hinv1.
    assert (TLB k1 !! Z.to_nat r = Some (set_use false t)) as Ht1.
    { unfold k1. rewrite TLB_upd. apply list_lookup_insert_eq. by apply lookup_lt_Some in Ht. }
    wp_step. eapply wp_mono; [apply (saveVictim_spec k1 cur hole r (set_use false t)); try done; exact (Hfull _ _ Ht) |].
    intros [] k2 (Hs2 & ET2 & _ & _). wp_steps.
    assert (vm_sim cur k2 (set_indexTLBSndChc (cmod (r + 1) TLBSize) k2)) as Hs3
      by (apply hand_TLB_sim, next_hand; lia).
    pose proof (vm_sim_trans _ _ _ _ (vm_sim_trans _ _ _ _ Hs1 Hs2) Hs3) as Hs.
    apply (wp_sim _ _ _ _ _ Hs). apply (IH (c + 1)); try lia.
    + exact (sim_inv _ _ _ _ Hinv Hs).
    + exact (sim_full _ _ _ Hs Hfull).
    + apply turn_hand; lia.
    + intros i Hi. unfold TLB_use. change (TLB (set_indexTLBSndChc _ k2)) with (TLB k2). rewrite ET2.
      fold (TLB_use k1 i). unfold k1. rewrite TLB_use_cleared by (done || lia).
      rewrite cleared_next by lia. fold r. by rewrite Huse.
    + intros i Hi. destruct (decide (i = c)) as [-> |]; [done |]. apply Hall. lia.
  - wp_step. eapply wp_mono; [apply (saveVictim_spec k cur hole r t); try done; exact (Hfull _ _ Ht) |].
    intros [] k1 (Hs1 & ET1 & _ & Hsaved). wp_steps. split; [| split; [done | split; [exact Hsaved |]]].
    + eapply vm_sim_trans; [done |]. apply hand_TLB_sim, next_hand. lia.
    + exists c. split; [lia |]. split; [done |]. split; [done |].
      destruct (decide (c = TLBSize)); [by left | right]. fold r. unfold r in Hur.
      rewrite cleared_at in Hur by lia. done.
Qed.

(** The scan for an invalid slot. *)
Lemma first_invalid_spec k cur hole n : ∀ x, vm_inv k cur hole → 0 ≤ x → x + Z.of_nat n ≤ TLBSize →
  wp (first_invalid_TLB n x)
     (λ r k', k' = k ∧
        match r with
        | Some i => x ≤ i < x + Z.of_nat n ∧ ∃ t, TLB k !! Z.to_nat i = Some t ∧ valid t = false
        | None => ∀ i t, x ≤ i < x + Z.of_nat n → TLB k !! Z.to_nat i = Some t → valid t = true
        end) k.
Proof.
  induction n as [| n IH]; intros x Hinv Hx Hn; cbn [first_invalid_TLB].
  { wp_steps. split; [done |]. intros; lia. }
  destruct (TLB_slot _ _ _ x Hinv) as [t Ht]; [lia |].
  wp_step. eapply wp_run; [by apply tlb_get_run |]. destruct (valid t) eqn:Hv.
  - eapply wp_mono; [apply IH; [done | lia | lia] |]. intros r k' [-> Hr]. split; [done |].
    destruct r as [i |]; [destruct Hr; split; [lia | done] |].
    intros i t' Hi Ht'. destruct (decide (i = x)) as [-> |]; [congruence |]. apply (Hr i); [lia | done].
  - wp_steps. split; [done |]. split; [lia | by exists t].
Qed.

Lemma TLB_full_intro k cur hole : vm_inv k cur hole →
  (∀ i t, 0 ≤ i < TLBSize → TLB k !! Z.to_nat i = Some t → valid t = true) → TLB_full k.
Proof.
  intros Hinv H i t Hi. destruct (vi_tlb _ _ _ Hinv) as (l & Hl & Hlen).
  assert (i < length l)%nat by (apply lookup_lt_Some in Hi; unfold TLB in Hi; rewrite Hl in Hi; done).
  apply (H (Z.of_nat i)); [unfold TLBSize in *; lia |]. by rewrite Nat2Z.id.
Qed.

(** [getNextSCTLB] returns an invalid slot, or the victim of the second-chance
    algorithm when there is none. *)
Lemma getNextSCTLB_spec k cur hole : vm_inv k cur hole →
  wp (getNextSCTLB cur)
     (λ r k', vm_sim cur k k' ∧ 0 ≤ r < TLBSize ∧ slot_saved k' cur r ∧
        ((∃ t, TLB k !! Z.to_nat r = Some t ∧ valid t = false ∧ k' = k) ∨
         (TLB_full k ∧ second_chance TLBSize (TLB_use k) (indexTLBSndChc k) r))) k.
Proof.
  intros Hinv. unfold getNextSCTLB. wp_step.
  eapply wp_mono; [apply (first_invalid_spec k cur hole); [done | done | done] |].
  intros r k' [-> Hr]. destruct (vi_hands _ _ _ Hinv) as [Hh _]. destruct r as [i |].
  - destruct Hr as [Hi (t & Ht & Hv)]. wp_steps. split; [apply vm_sim_refl |].
    split; [unfold TLBSize in *; lia |]. split; [| left; by exists t].
    intros t' Ht' Hv'. congruence.
  - assert (TLB_full k) as Hfull.
    { eapply TLB_full_intro; [done |]. intros i t Hi. apply Hr. unfold TLBSize in *. lia. }
    wp_step. eapply wp_mono.
    { apply (clock_TLB_spec cur hole (TLB_use k) (indexTLBSndChc k) Hh _ 0 k); try done.
      - by rewrite Z.add_0_r, Z.mod_small.
      - intros i Hi. unfold cleared. pose proof (Z.mod_pos_bound (i - indexTLBSndChc k) TLBSize).
        rewrite decide_False; [done |]. unfold TLBSize in *. lia.
      - intros; lia. }
    intros r k' (Hs & Hr' & Hsv & Hsc). wp_step. apply wp_ASSERT.
    { rewrite !bool_decide_false by lia. done. }
    wp_steps. split; [done |]. split; [done |]. split; [done |]. by right.
Qed.

(** ** The frames *)

Definition IPT_ent (k : VM) (f : Z) : option TranslationEntry :=
  match IPT k !! Z.to_nat f with
  | Some (Some (id, v)) => entry_of k id v
  | _ => None
  end.

Definition IPT_use (k : VM) (f : Z) : bool := default false (use <$> IPT_ent k f).

(** Every frame is taken by a page. *)
Definition frames_full (k : VM) : Prop := ∀ f, 0 ≤ f < NumPhysPages → bit (MemBitMap k) f = true.

Lemma frame_owner k cur f : vm_inv k cur None → frames_full k → 0 ≤ f < NumPhysPages →
  ∃ id v e, IPT k !! Z.to_nat f = Some (Some (id, v)) ∧ entry_of k id v = Some e ∧
            valid e = true ∧ physicalPage e = f.
Proof. intros Hinv Hfull Hf. apply (vi_owned _ _ _ Hinv); auto. Qed.

Lemma IPT_get_run k f p : 0 ≤ f → IPT k !! Z.to_nat f = Some p → IPT_get f k = Done (p, k).
Proof. intros Hf Hp. unfold IPT_get, mbind, M_bind, get, lift. by rewrite (rd_Done _ _ p). Qed.

Lemma IPT_entry_run k f id v e : 0 ≤ f → IPT k !! Z.to_nat f = Some (Some (id, v)) →
  entry_of k id v = Some e → IPT_entry f k = Done (e, k).
Proof.
  intros Hf Hp He. unfold IPT_entry, mbind, M_bind. rewrite (IPT_get_run _ _ _ Hf Hp).
  by apply pt_get_run.
Qed.

Lemma IPT_modify_run k f id v e g : 0 ≤ f → IPT k !! Z.to_nat f = Some (Some (id, v)) →
  entry_of k id v = Some e → IPT_modify f g k = Done (tt, upd_entry id v (g e) k).
Proof.
  intros Hf Hp He. unfold IPT_modify, mbind, M_bind. rewrite (IPT_get_run _ _ _ Hf Hp).
  by apply pt_modify_run.
Qed.

(** Distinct frames belong to distinct entries. *)
Lemma IPT_use_cleared k cur f id v e j : vm_inv k cur None → frames_full k →
  0 ≤ f < NumPhysPages → 0 ≤ j < NumPhysPages → IPT k !! Z.to_nat f = Some (Some (id, v)) →
  entry_of k id v = Some e → physicalPage e = f →
  IPT_use (upd_entry id v (set_use false e) k) j = if decide (j = f) then false else IPT_use k j.
Proof.
  intros Hinv Hfull Hf Hj Hp He Hpe. unfold IPT_use, IPT_ent.
  destruct (upd_entry_fields k id v (set_use false e)) as (_ & _ & _ & EI & _). rewrite EI.
  destruct (frame_owner k cur j Hinv Hfull Hj) as (id' & v' & e' & Hp' & He' & _ & Hpe').
  rewrite Hp', (entry_of_upd _ _ _ e) by done.
  destruct (decide (id' = id ∧ v' = v)) as [E1 | E1], (decide (j = f)) as [E2 | E2].
  - done.
  - destruct E1 as [-> ->]. congruence.
  - rewrite E2, Hp in Hp'. exfalso. apply E1. by simplify_eq.
  - done.
Qed.

Lemma sim_frames_full cur k k' : vm_sim cur k k' → frames_full k → frames_full k'.
Proof. intros Hs Hf f. rewrite (vs_mem _ _ _ Hs). apply Hf. Qed.

(** The state without the use bits of the page tables and the hand. *)
Definition forget_use (k : VM) : VM :=
  set_indexSWAPSndChc 0 (set_spaces ((λ a, set_as_pageTable (set_use false <$> as_pageTable a) a) <$> spaces k) k).

Lemma forget_use_upd k id v e : entry_of k id v = Some e → forget_use (upd_entry id v (set_use false e) k) = forget_use k.
Proof.
  intros (a & Ha & Hv & He)%entry_of_Some. unfold upd_entry. rewrite Ha.
  assert ((λ a, set_as_pageTable (set_use false <$> as_pageTable a) a) <$>
    <[id := set_as_pageTable (<[Z.to_nat v := set_use false e]> (as_pageTable a)) a]> (spaces k) =
    (λ a, set_as_pageTable (set_use false <$> as_pageTable a) a) <$> spaces k) as Es.
  { rewrite fmap_insert. apply insert_id. rewrite lookup_fmap, Ha. cbn [fmap option_fmap option_map]. f_equal.
    unfold set_as_pageTable. cbn [as_pageTable initData noInitData stack filename numPages]. f_equal.
    rewrite list_fmap_insert. symmetry. apply list_insert_id. rewrite list_lookup_fmap, He. done. }
  unfold forget_use, set_spaces at 1. cbn [spaces]. unfold set_spaces in *. cbn in *. by rewrite Es.
Qed.

Lemma clock_SWAP_spec cur u hand : 0 ≤ hand < NumPhysPages → ∀ fuel c k,
  vm_inv k cur None → frames_full k → 0 ≤ c ≤ NumPhysPages → Z.of_nat fuel + c = NumPhysPages + 1 →
  indexSWAPSndChc k = (hand + c) mod NumPhysPages →
  (∀ i, 0 ≤ i < NumPhysPages → IPT_use k i = cleared NumPhysPages u hand c i) →
  (∀ i, 0 ≤ i < c → u ((hand + i) mod NumPhysPages) = true) →
  wp (clock_SWAP fuel)
     (λ r k', vm_sim cur k k' ∧ 0 ≤ r < NumPhysPages ∧ TLB k' = TLB k ∧
              second_chance_turn NumPhysPages u (IPT_use k') hand (indexSWAPSndChc k') r ∧ forget_use k' = forget_use k) k.
Proof.
  intros Hhand. induction fuel as [| fuel IH]; intros c k Hinv Hfull Hc Hfuel Hh Huse Hall; [lia |].
  assert (0 < NumPhysPages) as Hpos by done.
  pose proof (Z.mod_pos_bound (hand + c) NumPhysPages Hpos) as Hr.
  cbn [clock_SWAP]. wp_step. wp_step. rewrite Hh. set (r := (hand + c) mod NumPhysPages) in *.
  destruct (frame_owner k cur r Hinv Hfull Hr) as (id & v & e & Hp & He & Hv & Hpe).
  wp_step. eapply wp_run; [apply IPT_get_run; [lia | done] |].
  wp_step. apply wp_ASSERT; [done |].
  wp_step. eapply wp_run; [eapply IPT_entry_run; [lia | done | done] |].
  wp_step. apply wp_ASSERT; [done |].
  pose proof (Huse r Hr) as Hur.
  assert (IPT_use k r = use e) as Eu by (unfold IPT_use, IPT_ent; rewrite Hp, He; done). rewrite Eu in Hur.
  destruct (use e) eqn:Hue.
  - destruct (decide (c = NumPhysPages)) as [-> |]; [by rewrite cleared_full in Hur |].
    unfold r in Hur. rewrite cleared_at in Hur by lia. fold r in Hur.
    wp_step. eapply wp_run; [eapply IPT_modify_run; [lia | done | done] |].
    assert (vm_sim cur k (upd_entry id v (set_use false e) k)) as Hs1
      by (eapply upd_entry_sim; [done | apply entry_sim_use]).
    destruct (upd_entry_fields k id v (set_use false e)) as (Em & _ & _ & EI & _).
    set (k1 := upd_entry id v (set_use false e) k) in *. wp_steps.
    assert (vm_sim cur k1 (set_indexSWAPSndChc (cmod (r + 1) NumPhysPages) k1)) as Hs2
      by (apply hand_SWAP_sim, next_hand; lia).
    pose proof (vm_sim_trans _ _ _ _ Hs1 Hs2) as Hs.
    eapply wp_mono; [apply (IH (c + 1)); try lia |].
    + exact (sim_inv _ _ _ _ Hinv Hs).
    + exact (sim_frames_full _ _ _ Hs Hfull).
    + apply turn_hand; lia.
    + intros i Hi. change (IPT_use (set_indexSWAPSndChc _ k1) i) with (IPT_use k1 i).
      unfold k1. rewrite (IPT_use_cleared k cur r) by done. rewrite cleared_next by lia. fold r.
      by rewrite Huse.
    + intros i Hi. destruct (decide (i = c)) as [-> |]; [done |]. apply Hall. lia.
    + intros r' k' (Hs' & Hr' & ET & Hsc & EF). split; [by eapply vm_sim_trans |]. split; [done |].
      split; [rewrite ET; unfold TLB; simpl; by rewrite Em |]. split; [done |].
      rewrite EF. exact (forget_use_upd k id v e He).
  - wp_steps. split; [apply hand_SWAP_sim, next_hand; lia |]. split; [done |]. split; [done |]. split; [| done].
    exists c. split; [lia |]. split; [done |]. split; [done |].
    split; [| split; [exact Huse | simpl; by rewrite cmod_nonneg by lia]].
    destruct (decide (c = NumPhysPages)); [by left | right]. fold r. unfold r in Hur.
    rewrite cleared_at in Hur by lia. done.
Qed.

Lemma getNextSCSWAP_spec k cur : vm_inv k cur None → frames_full k →
  wp getNextSCSWAP
     (λ r k', vm_sim cur k k' ∧ 0 ≤ r < NumPhysPages ∧ TLB k' = TLB k ∧
              second_chance_turn NumPhysPages (IPT_use k) (IPT_use k') (indexSWAPSndChc k) (indexSWAPSndChc k') r ∧
              forget_use k' = forget_use k) k.
Proof.
  intros Hinv Hfull. destruct (vi_hands _ _ _ Hinv) as [_ Hh]. unfold getNextSCSWAP, valid_frame.
  wp_step. wp_step. wp_step. apply wp_ASSERT; [rewrite !bool_decide_false by lia; done |].
  wp_step. eapply wp_mono.
  { apply (clock_SWAP_spec cur (IPT_use k) (indexSWAPSndChc k) Hh _ 0 k); try done.
    - by rewrite Z.add_0_r, Z.mod_small.
    - intros i Hi. unfold cleared. pose proof (Z.mod_pos_bound (i - indexSWAPSndChc k) NumPhysPages).
      rewrite decide_False; [done |]. unfold NumPhysPages in *. lia.
    - intros; lia. }
  intros r k' (Hs & Hr & ET & Hsc). wp_step. apply wp_ASSERT; [rewrite !bool_decide_false by lia; done |].
  wp_steps. done.
Qed.
