(* ===== verification/VMPaging.v ===== *)
(** * Demand paging: the steps of a page fault

    Each step of [load] keeps the invariant and the contents of every virtual
    page: recording and dropping a TLB slot, evicting a victim to the swap file
    or dropping it, taking a frame, filling it, and mapping the page. *)

From stdpp Require Import base gmap list numbers strings list_numbers.
From Stdlib Require Import ZArith Lia.
From S2P Require Import Prelude BitMap FileStub Machine MachineFacts AddrSpace VMInv VMClock.

(** ** What a step must keep *)

(** Invalid pages stay as they are, and the TLB gains no mapping. *)
Record tracked (k k' : VM) : Prop := {
  tr_shape : same_shape k k';
  tr_invalid : ∀ id v e, entry_of k id v = Some e → valid e = false →
    ∃ e', entry_of k' id v = Some e' ∧ valid e' = false ∧ dirty e' = dirty e ∧ physicalPage e' = physicalPage e;
  tr_tlb : ∀ i t', TLB k' !! i = Some t' → valid t' = true →
    ∃ t, TLB k !! i = Some t ∧ valid t = true ∧ virtualPage t = virtualPage t'
}.

Record paging (cur : Z) (k k' : VM) (hole : option Z) : Prop := {
  pg_inv : vm_inv k' cur hole;
  pg_bytes : bytes_kept cur k k';
  pg_tracked : tracked k k'
}.

Lemma tracked_trans k1 k2 k3 : tracked k1 k2 → tracked k2 k3 → tracked k1 k3.
Proof.
  intros [S1 I1 T1] [S2 I2 T2]. split.
  - by eapply same_shape_trans.
  - intros id v e He Hv. destruct (I1 _ _ _ He Hv) as (e2 & He2 & Hv2 & Hd2 & Hp2).
    destruct (I2 _ _ _ He2 Hv2) as (e3 & He3 & Hv3 & Hd3 & Hp3). exists e3. naive_solver congruence.
  - intros i t3 Ht3 Hv3. destruct (T2 _ _ Ht3 Hv3) as (t2 & Ht2 & Hv2 & Hp2).
    destruct (T1 _ _ Ht2 Hv2) as (t1 & Ht1 & Hv1 & Hp1). exists t1. naive_solver congruence.
Qed.

Lemma paging_trans cur k1 k2 k3 h2 h3 : paging cur k1 k2 h2 → paging cur k2 k3 h3 → paging cur k1 k3 h3.
Proof.
  intros [_ B1 T1] [I2 B2 T2]. split; [done | by eapply bytes_kept_trans | by eapply tracked_trans].
Qed.

Lemma paging_sim cur k k' hole : vm_inv k cur hole → vm_sim cur k k' → paging cur k k' hole.
Proof.
  intros Hinv Hs. split; [by eapply sim_inv | by eapply sim_bytes |]. split.
  - apply (vs_shape _ _ _ Hs).
  - intros id v e He Hv. destruct (sim_entry_r _ _ _ _ _ _ Hs He) as (e' & He' & Hes).
    exists e'. split; [done |]. pose proof Hes as (_ & Hp & Hv' & _). split; [congruence |].
    split; [| done]. by eapply sim_invalid.
  - intros i t' Ht' Hv. destruct (sim_tlb _ _ _ _ (vs_tlb _ _ _ Hs) Ht') as (t & Ht & Hp & _ & Hv' & _).
    exists t. naive_solver congruence.
Qed.

Lemma paging_refl cur k hole : vm_inv k cur hole → paging cur k k hole.
Proof. intros Hinv. apply paging_sim; [done | apply vm_sim_refl]. Qed.

(** ** Replacing a slot of the TLB *)

Section tlb_replace.
Context (k : VM) (cur : Z) (hole : option Z) (i : Z) (t' : TranslationEntry).
Hypothesis Hinv : vm_inv k cur hole.
Hypothesis Hi : 0 ≤ i < TLBSize.
Hypothesis Hsaved : slot_saved k cur i.
Hypothesis Hnew : valid t' = true →
  (∃ e, entry_of k cur (virtualPage t') = Some e ∧ valid e = true ∧ physicalPage t' = physicalPage e ∧
        readOnly t' = false ∧ dirty t' = dirty e) ∧
  ∀ j t, j ≠ Z.to_nat i → TLB k !! j = Some t → valid t = true → virtualPage t ≠ virtualPage t'.

Let k' := upd_tlb i t' k.

Lemma replace_lookup j : TLB k' !! j = if decide (j = Z.to_nat i) then Some t' else TLB k !! j.
Proof.
  destruct (TLB_slot _ _ _ _ Hinv Hi) as [t Ht]. apply lookup_lt_Some in Ht as Hlt.
  unfold k'. rewrite TLB_upd. case_decide as E.
  - subst. by apply list_lookup_insert_eq.
  - by apply list_lookup_insert_ne.
Qed.

Lemma replace_eff v e : entry_of k cur v = Some e → dirty e || tlb_dirty k' v = dirty e || tlb_dirty k v.
Proof.
  intros He. destruct (dirty e) eqn:Hd; [done |]. simpl.
  apply eq_bool_prop_intro. rewrite !Is_true_true, !tlb_dirty_spec.
  split; intros (j & t & Hj & Hv & Hp & Hdt).
  - rewrite replace_lookup in Hj. case_decide; [| by exists j, t]. simplify_eq.
    destruct (Hnew Hv) as [(e0 & He0 & _ & _ & _ & Hd0) _]. congruence.
  - exists j, t. rewrite replace_lookup. rewrite decide_False; [done |]. intros ->.
    destruct (Hsaved t Hj Hv) as (e0 & He0 & Hd0). congruence.
Qed.

Lemma replace_entry id v : entry_of k' id v = entry_of k id v.
Proof. done. Qed.

Lemma tlb_replace_inv : vm_inv k' cur hole.
Proof.
  destruct (TLB_slot _ _ _ _ Hinv Hi) as [t0 Ht0].
  pose proof Hinv as [I1 I2 I3 I4 I5 I6 I7 I8 I9 I11 I12 I13 I14 I15 I16 I17 I18 I19].
  split; try done.
  - by eapply upd_tlb_wf.
  - eexists. split; [done |]. rewrite length_insert. destruct I2 as (t & Ht & Hl).
    unfold TLB. by rewrite Ht.
  - intros id a. by apply (same_shape_space_wf k).
  - intros j t Hj Hv. rewrite replace_lookup in Hj. case_decide; [| by eapply I17].
    simplify_eq. destruct (Hnew Hv) as [(e & He & Hve & Hp & Hro & Hd) _].
    exists e. split; [done |]. split; [done |]. split; [done |]. split; [done |]. congruence.
  - intros j1 j2 t1 t2 H1 H2 Hv1 Hv2 Hvp. rewrite replace_lookup in H1, H2.
    destruct (decide (j1 = Z.to_nat i)) as [-> |], (decide (j2 = Z.to_nat i)) as [-> |]; simplify_eq; [done | | |].
    + destruct (Hnew Hv1) as [_ Hother]. by destruct (Hother j2 t2).
    + destruct (Hnew Hv2) as [_ Hother]. by destruct (Hother j1 t1).
    + by eapply I18.
  - intros id v e j b He Hv Hd Hcur Hj Hb. rewrite replace_entry in He.
    apply (I19 id v e j b); try done. intros [-> Ht]. apply Hcur. split; [done |].
    pose proof (replace_eff v e He) as E. rewrite Hd, Ht in E. done.
Qed.

Lemma tlb_replace_bytes : bytes_kept cur k k'.
Proof.
  intros id v j b. unfold page_byte. rewrite replace_entry.
  destruct (entry_of k id v) as [e |] eqn:He; [| done]. simpl.
  case_decide; [| done]. destruct (valid e); [| done].
  change (file_byte k' id v j) with (file_byte k id v j).
  change (mem_byte k' (physicalPage e) j) with (mem_byte k (physicalPage e) j).
  destruct (decide (id = cur)) as [-> |].
  - rewrite bool_decide_true by done. simpl. by rewrite (replace_eff v e He).
  - by rewrite bool_decide_false.
Qed.
End tlb_replace.

(** ** [updateSwapVictimInfo]: the TLB forgets the frame of the victim *)

Definition unmapped (k : VM) (f : Z) : Prop :=
  ∀ i t, TLB k !! i = Some t → valid t = true → physicalPage t ≠ f.

(** The page in frame [f]. *)
Definition owner (k : VM) (f id v : Z) (e : TranslationEntry) : Prop :=
  IPT k !! Z.to_nat f = Some (Some (id, v)) ∧ entry_of k id v = Some e ∧ valid e = true ∧ physicalPage e = f.

Lemma upd_comm i t id v e k : upd_entry id v e (upd_tlb i t k) = upd_tlb i t (upd_entry id v e k).
Proof. unfold upd_entry, upd_tlb. simpl. destruct (spaces k !! id); done. Qed.

Lemma paging_unmap k cur hole i t : vm_inv k cur hole → 0 ≤ i < TLBSize → slot_saved k cur i →
  TLB k !! Z.to_nat i = Some t → paging cur k (upd_tlb i (set_valid false t) k) hole.
Proof.
  intros Hinv Hi Hsv Ht. split.
  - by apply tlb_replace_inv.
  - by eapply tlb_replace_bytes.
  - split; [done | |].
    + intros id v e He Hv. exists e. done.
    + intros j t' Hj Hv. rewrite (replace_lookup _ _ _ _ _ Hinv Hi) in Hj. case_decide; simplify_eq.
      by exists t'.
Qed.

(** The slot of a frame belongs to the owner of the frame. *)
Lemma slot_owner k cur hole i t f id v e : vm_inv k cur hole → TLB k !! i = Some t → valid t = true →
  physicalPage t = f → owner k f id v e → id = cur ∧ v = virtualPage t.
Proof.
  intros Hinv Ht Hv Hp (HI & He & _ & _).
  destruct (vi_tlb_ok _ _ _ Hinv _ _ Ht Hv) as (e0 & He0 & Hv0 & Hp0 & _).
  destruct (vi_valid _ _ _ Hinv _ _ _ He0 Hv0) as (_ & HI0 & _).
  rewrite <- Hp0, Hp, HI in HI0. by simplify_eq.
Qed.

(** The slot that maps the frame is recorded in the page table and dropped. *)
Lemma forget_slot k cur i t f id v e : vm_inv k cur None → owner k f id v e → 0 ≤ i < TLBSize →
  TLB k !! Z.to_nat i = Some t → valid t = true → physicalPage t = f →
  let e' := set_dirty (dirty t) (set_use (use t) e) in
  let k' := upd_entry id v e' (upd_entry id v (set_use (use t) e) (upd_tlb i (set_valid false t) k)) in
  paging cur k k' None ∧ owner k' f id v e' ∧ unmapped k' f.
Proof.
  intros Hinv Hown Hi Ht Hv Hp e' k'.
  destruct (slot_owner _ _ _ _ _ _ _ _ _ Hinv Ht Hv Hp Hown) as [-> ->].
  destruct Hown as (HI & He & Hve & Hpe).
  set (e1 := set_use (use t) e) in *.
  set (k1 := upd_entry cur (virtualPage t) e1 k).
  set (k2 := upd_entry cur (virtualPage t) e' k1).
  assert (k' = upd_tlb i (set_valid false t) k2) as -> by (unfold k', k2, k1; by rewrite !upd_comm).
  assert (entry_of k1 cur (virtualPage t) = Some e1) as He1
    by (unfold k1; rewrite (entry_of_upd _ _ _ e) by done; by rewrite decide_True).
  assert (entry_of k2 cur (virtualPage t) = Some e') as He2
    by (unfold k2; rewrite (entry_of_upd _ _ _ e1) by done; by rewrite decide_True).
  assert (vm_sim cur k k1) as Hs1 by (eapply upd_entry_sim; [done | apply entry_sim_use]).
  destruct (upd_entry_fields k cur (virtualPage t) e1) as (Em1 & _ & _ & EI1 & _). fold k1 in Em1, EI1.
  destruct (upd_entry_fields k1 cur (virtualPage t) e') as (Em2 & _ & _ & EI2 & _). fold k2 in Em2, EI2.
  assert (TLB k1 = TLB k) as ET1 by (unfold TLB; by rewrite Em1).
  assert (TLB k2 = TLB k) as ET2 by (unfold TLB; by rewrite Em2, Em1).
  assert (vm_sim cur k1 k2) as Hs2
    by (eapply upd_entry_sim; [done | eapply entry_sim_sync; [by rewrite ET1 | done | done]]).
  pose proof (paging_sim _ _ _ _ Hinv (vm_sim_trans _ _ _ _ Hs1 Hs2)) as Hpg.
  assert (slot_saved k2 cur i) as Hsv
    by (intros t0 Ht0 _; rewrite ET2, Ht in Ht0; simplify_eq; by exists e').
  split; [| split].
  - eapply paging_trans; [done |]. apply paging_unmap; [apply (pg_inv _ _ _ _ Hpg) | done | done | by rewrite ET2].
  - split; [| split; [| done]].
    + change (IPT k2 !! Z.to_nat f = Some (Some (cur, virtualPage t))). by rewrite EI2, EI1.
    + exact He2.
  - intros j t0 Hj Hv0 Hp0. rewrite (replace_lookup _ _ _ _ _ (pg_inv _ _ _ _ Hpg) Hi), ET2 in Hj.
    case_decide as Ej; [by simplify_eq |].
    destruct (slot_owner _ _ _ _ _ _ _ _ _ Hinv Hj Hv0 Hp0 (conj HI (conj He (conj Hve Hpe)))) as [_ E].
    apply Ej. eapply (vi_tlb_inj _ _ _ Hinv); eauto.
Qed.

Lemma invalidate_spec k cur f id v e n : ∀ i, vm_inv k cur None → owner k f id v e →
  0 ≤ f < NumPhysPages → 0 ≤ i → i + Z.of_nat n = TLBSize →
  (∀ j t, (j < Z.to_nat i)%nat → TLB k !! j = Some t → valid t = true → physicalPage t ≠ f) →
  wp (invalidate_TLB_of f n i)
     (λ _ k', paging cur k k' None ∧ unmapped k' f ∧ indexSWAPFIFO k' = indexSWAPFIFO k ∧
              MemBitMap k' = MemBitMap k ∧ SWAPBitMap k' = SWAPBitMap k ∧
              ∃ e', owner k' f id v e') k.
Proof.
  induction n as [| n IH]; intros i Hinv Hown Hf Hi Hn Hprev; cbn [invalidate_TLB_of].
  { wp_steps. split; [by apply paging_refl |]. split; [| by eauto 10].
    intros j t Hj. apply (Hprev j); [| done].
    destruct (vi_tlb _ _ _ Hinv) as (l & Hl & Hlen). apply lookup_lt_Some in Hj.
    unfold TLB in Hj. rewrite Hl in Hj. simpl in Hj. unfold TLBSize in *. lia. }
  destruct (TLB_slot _ _ _ i Hinv) as [t Ht]; [lia |].
  pose proof Hown as (HI & He & Hve & Hpe).
  wp_step. eapply wp_run; [by apply tlb_get_run |].
  wp_step. eapply wp_run; [eapply IPT_entry_run; [lia | done | done] |]. rewrite Hpe.
  destruct (valid t && bool_decide (physicalPage t = f)) eqn:Hc.
  - split_bool. wp_step. eapply wp_run; [by apply tlb_modify_run |].
    wp_step. eapply wp_run; [eapply (IPT_modify_run _ _ id v e); [lia | done | done] |].
    eapply wp_run.
    { eapply (IPT_modify_run _ _ id v (set_use (use t) e)); [lia | |].
      - rewrite (proj1 (proj2 (proj2 (proj2 (upd_entry_fields _ _ _ _))))). done.
      - rewrite (entry_of_upd _ _ _ e) by done. by rewrite decide_True. }
    destruct (forget_slot k cur i t f id v e) as (Hpg & Hown' & Hun); try done; [lia |].
    split; [exact Hpg |]. split; [exact Hun |].
    repeat rewrite (proj1 (proj2 (upd_entry_fields _ _ _ _))).
    repeat rewrite (proj1 (proj2 (proj2 (upd_entry_fields _ _ _ _)))).
    repeat rewrite (proj2 (proj2 (proj2 (proj2 (proj2 (proj2 (proj2 (upd_entry_fields _ _ _ _)))))))).
    split; [done |]. split; [done |]. split; [done |]. by eexists.
  - eapply IH; try done; try lia. intros j t' Hj Ht' Hv' Hp'.
    destruct (decide (j < Z.to_nat i)%nat); [by apply (Hprev j t')|].
    assert (j = Z.to_nat i) as -> by lia. simplify_eq. rewrite Hv' in Hc. simpl in Hc. by split_bool.
Qed.

Lemma set_FIFO_sim cur k f : vm_inv k cur None → paging cur k (set_indexSWAPFIFO f k) None.
Proof.
  intros [I1 I2 I3 I4 I5 I6 I7 I8 I9 I11 I12 I13 I14 I15 I16 I17 I18 I19]. split.
  - split; try done. intros id a. by apply (same_shape_space_wf k).
  - by intros id v j b.
  - split; [done | |].
    + intros id v e He Hv. by exists e.
    + intros i t Ht Hv. by exists t.
Qed.

(** A victim is chosen, recorded in [indexSWAPFIFO], and unknown to the TLB. *)
Lemma select_victim_spec k cur : vm_inv k cur None → frames_full k →
  wp select_victim
     (λ d k', paging cur k k' None ∧ 0 ≤ indexSWAPFIFO k' < NumPhysPages ∧ unmapped k' (indexSWAPFIFO k') ∧
              MemBitMap k' = MemBitMap k ∧ SWAPBitMap k' = SWAPBitMap k ∧
              ∃ id v e, owner k' (indexSWAPFIFO k') id v e ∧ d = dirty e) k.
Proof.
  intros Hinv Hfull. unfold select_victim. wp_step.
  eapply wp_mono; [by apply getNextSCSWAP_spec |]. intros f k1 (Hs & Hf & _). wp_steps.
  pose proof (paging_sim _ _ _ _ Hinv Hs) as P1.
  pose proof (set_FIFO_sim cur k1 f (pg_inv _ _ _ _ P1)) as P2. set (k2 := set_indexSWAPFIFO f k1) in *.
  destruct (frame_owner k2 cur f (pg_inv _ _ _ _ P2)) as (id & v & e & Hown); [| done |].
  { intros g Hg. change (bit (MemBitMap k1) g = true). rewrite (vs_mem _ _ _ Hs). by apply Hfull. }
  eapply wp_mono; [apply (invalidate_spec k2 cur f id v e); try done; [apply (pg_inv _ _ _ _ P2) | intros; lia] |].
  intros [] k3 (P3 & Hun & EF & EM & ES & e' & Hown'). change (indexSWAPFIFO k2) with f in EF.
  wp_step. pose proof Hown' as (HI & He & _).
  eapply wp_run; [eapply IPT_entry_run; [lia | done | done] |]. wp_steps. rewrite EF.
  split; [eapply paging_trans; [exact P1 | by eapply paging_trans] |]. split; [done |]. split; [done |].
  split; [rewrite EM; apply (vs_mem _ _ _ Hs) |]. split; [rewrite ES; apply (vs_swap _ _ _ Hs) |]. eauto 10.
Qed.

(** ** Evicting the victim *)

Lemma mem_byte_Some k f j : machine_wf (vm_machine k) → 0 ≤ f < NumPhysPages → 0 ≤ j < PageSize →
  is_Some (mem_byte k f j).
Proof.
  intros Hwf Hf Hj. apply lookup_lt_is_Some_2. rewrite (mw_memory _ Hwf).
  unfold MemorySize, NumPhysPages, PageSize, SectorSize in *. lia.
Qed.

Section evict.
Context (k k' : VM) (cur f id v : Z) (e e' : TranslationEntry).
Hypothesis Hinv : vm_inv k cur None.
Hypothesis Hown : owner k f id v e.
Hypothesis Hf : 0 ≤ f < NumPhysPages.
Hypothesis Hun : unmapped k f.
Hypothesis Hent : ∀ id' v', entry_of k' id' v' = if decide (id' = id ∧ v' = v) then Some e' else entry_of k id' v'.
Hypothesis Hinvalid : valid e' = false.
Hypothesis Hdirty : dirty e' = dirty e.
Hypothesis Hvirtual : virtualPage e' = virtualPage e.
Hypothesis Hreadonly : readOnly e' = readOnly e.
Hypothesis Hwf' : machine_wf (vm_machine k').
Hypothesis Htlb : tlb (vm_machine k') = tlb (vm_machine k).
Hypothesis Hmem : ∀ g j, 0 ≤ g < NumPhysPages → g ≠ f → 0 ≤ j < PageSize → mem_byte k' g j = mem_byte k g j.
Hypothesis HIPT : IPT k' = IPT k.
Hypothesis Hhands : indexTLBSndChc k' = indexTLBSndChc k ∧ indexSWAPSndChc k' = indexSWAPSndChc k.
Hypothesis Hbits : bit_update (MemBitMap k) f false (MemBitMap k').
Hypothesis Hshape : same_shape k k'.
Hypothesis Hfiles : ∀ n l, unix k' !! n = Some l → Forall byte_range l.
Hypothesis Hswapfile : is_Some (unix k' !! SWAPFILENAME).
Hypothesis Hswapbits : BitMap_wf (SWAPBitMap k') ∧ numBits (SWAPBitMap k') = SWAPSize.
Hypothesis Hswap :
  if dirty e then
    let s := physicalPage e' in
    0 ≤ s < SWAPSize ∧ bit (SWAPBitMap k) s = false ∧
    (∀ s', 0 ≤ s' < SWAPSize → bit (SWAPBitMap k') s' = if decide (s' = s) then true else bit (SWAPBitMap k) s') ∧
    (∀ j, 0 ≤ j < PageSize → swap_byte k' s j = mem_byte k f j) ∧
    (∀ s' j b, 0 ≤ s' → s' ≠ s → 0 ≤ j < PageSize → swap_byte k s' j = Some b → swap_byte k' s' j = Some b)
  else SWAPBitMap k' = SWAPBitMap k ∧ unix k' = unix k.

Lemma evict_TLB : TLB k' = TLB k.
Proof. unfold TLB. by rewrite Htlb. Qed.

Lemma evict_tlb_dirty v' : tlb_dirty k' v' = tlb_dirty k v'.
Proof. unfold tlb_dirty. by rewrite evict_TLB. Qed.

(** The victim has no slot in the TLB. *)
Lemma evict_no_slot i t : TLB k !! i = Some t → valid t = true → ~ (id = cur ∧ v = virtualPage t).
Proof.
  intros Ht Hv [-> ->]. destruct Hown as (_ & He & _ & Hpe).
  destruct (vi_tlb_ok _ _ _ Hinv _ _ Ht Hv) as (e0 & He0 & _ & Hp0 & _).
  apply (Hun _ _ Ht Hv). congruence.
Qed.

Lemma evict_not_dirty : bool_decide (id = cur) && tlb_dirty k v = false.
Proof.
  apply not_true_iff_false. intros Hc. apply andb_true_iff in Hc as [Hid Ht]. split_bool.
  apply tlb_dirty_spec in Ht as (i & t & Hi & Hv & Hvp & _). by eapply evict_no_slot; eauto.
Qed.

(** Another valid page is in another frame, another swapped page in another slot. *)
Lemma evict_other_frame id' v' e0 : entry_of k id' v' = Some e0 → valid e0 = true → ~ (id' = id ∧ v' = v) →
  0 ≤ physicalPage e0 < NumPhysPages ∧ physicalPage e0 ≠ f.
Proof.
  intros He0 Hv0 Hne. destruct (vi_valid _ _ _ Hinv _ _ _ He0 Hv0) as (? & HI & _). split; [done |].
  intros E. rewrite E in HI. destruct Hown as (HI' & _). rewrite HI in HI'. simplify_eq. tauto.
Qed.

Lemma evict_swap_kept id' v' e0 j b : entry_of k id' v' = Some e0 → valid e0 = false → dirty e0 = true →
  0 ≤ j < PageSize → swap_byte k (physicalPage e0) j = Some b → swap_byte k' (physicalPage e0) j = Some b.
Proof.
  intros He0 Hv0 Hd0 Hj Hb. destruct (vi_swapped _ _ _ Hinv _ _ _ He0 Hv0 Hd0) as (Hr & Hbit & _).
  destruct (dirty e).
  - destruct Hswap as (_ & Hfree & _ & _ & Hkeep). apply Hkeep; try done; [lia |]. congruence.
  - destruct Hswap as [_ EU]. unfold swap_byte in *. by rewrite EU.
Qed.

Lemma evict_file id' v' j : file_byte k' id' v' j = file_byte k id' v' j.
Proof. apply same_shape_file_byte; [apply (vi_spaces _ _ _ Hinv) | done]. Qed.

Lemma evict_bytes : bytes_kept cur k k'.
Proof.
  intros id' v' j b. unfold page_byte. rewrite Hent, evict_file, evict_tlb_dirty.
  destruct (decide (id' = id ∧ v' = v)) as [Hc | Hc].
  - destruct Hc as [-> ->]. destruct Hown as (_ & He & Hve & Hpe). rewrite He. simpl.
    case_decide; [| done]. rewrite Hve, Hinvalid, Hdirty, evict_not_dirty, Hpe.
    destruct (dirty e) eqn:Hd; simpl.
    + destruct Hswap as (_ & _ & _ & Hcopy & _). by rewrite Hcopy.
    + case_bool_decide as Hfb; [| done]. destruct Hfb as [b' Hb'].
      pose proof evict_not_dirty as Hnd.
      rewrite <- Hpe, (vi_clean _ _ _ Hinv _ _ _ j b' He Hve Hd); try done; [congruence |].
      intros [Hid Ht]. by rewrite bool_decide_true, Ht in Hnd.
  - destruct (entry_of k id' v') as [e0 |] eqn:He0; [| done]. simpl. case_decide; [| done].
    destruct (valid e0) eqn:Hv0.
    + destruct (evict_other_frame _ _ _ He0 Hv0 Hc) as [Hr Hne]. by rewrite Hmem.
    + destruct (dirty e0) eqn:Hd0; [| done]. by apply (evict_swap_kept id' v').
Qed.

(** The swap area after the eviction. *)
Lemma evict_swapped id' v' e0 : entry_of k' id' v' = Some e0 → valid e0 = false → dirty e0 = true →
  0 ≤ physicalPage e0 < SWAPSize ∧ bit (SWAPBitMap k') (physicalPage e0) = true ∧
  ∀ j, 0 ≤ j < PageSize → is_Some (swap_byte k' (physicalPage e0) j).
Proof.
  rewrite Hent. case_decide as Hc; intros He0 Hv0 Hd0.
  - simplify_eq. rewrite <- Hdirty, Hd0 in Hswap. destruct Hswap as (Hr & _ & Hb & Hcopy & _).
    split; [done |]. split; [rewrite Hb by done; by rewrite decide_True |].
    intros j Hj. rewrite Hcopy by done. apply mem_byte_Some; [apply (vi_machine _ _ _ Hinv) | done | done].
  - destruct (vi_swapped _ _ _ Hinv _ _ _ He0 Hv0 Hd0) as (Hr & Hb & Hj). split; [done |]. split.
    + destruct (dirty e); [destruct Hswap as (_ & _ & Hb' & _); rewrite Hb' by done; by case_decide |].
      destruct Hswap as [-> _]. done.
    + intros j Hj'. destruct (Hj j Hj') as [b Hb']. exists b. by apply (evict_swap_kept id' v').
Qed.

Lemma evict_swap_inj id1 v1 e1 id2 v2 e2 : entry_of k' id1 v1 = Some e1 → valid e1 = false → dirty e1 = true →
  entry_of k' id2 v2 = Some e2 → valid e2 = false → dirty e2 = true →
  physicalPage e1 = physicalPage e2 → id1 = id2 ∧ v1 = v2.
Proof.
  (* the slot of the victim was free, so no other page had it *)
  assert (∀ id0 v0 e0, entry_of k id0 v0 = Some e0 → valid e0 = false → dirty e0 = true → dirty e' = true →
            physicalPage e0 ≠ physicalPage e') as Hfresh.
  { intros id0 v0 e0 He0 Hv0 Hd0 Hd' E. rewrite <- Hdirty, Hd' in Hswap.
    destruct Hswap as (_ & Hfree & _). destruct (vi_swapped _ _ _ Hinv _ _ _ He0 Hv0 Hd0) as (_ & Hb & _).
    congruence. }
  rewrite !Hent. destruct (decide (id1 = id ∧ v1 = v)) as [Hc1 | Hc1], (decide (id2 = id ∧ v2 = v)) as [Hc2 | Hc2];
    intros He1 Hv1 Hd1 He2 Hv2 Hd2 Hpp; simplify_eq.
  - naive_solver.
  - exfalso. by eapply (Hfresh id2 v2 e2).
  - exfalso. by eapply (Hfresh id1 v1 e1).
  - by eapply (vi_swap_inj _ _ _ Hinv).
Qed.

Lemma evict_inv : vm_inv k' cur None.
Proof.
  pose proof Hinv as [I1 I2 I3 I4 I5 I6 I7 I8 I9 I11 I12 I13 I14 I15 I16 I17 I18 I19].
  destruct Hown as (HI & He & Hve & Hpe). destruct Hbits as (Hbwf & Hbn & Hb).
  assert (numBits (MemBitMap k) = NumPhysPages) as Hn by apply I3.
  split; try done.
  - by rewrite Htlb.
  - split; [done | congruence].
  - by rewrite HIPT.
  - destruct Hhands as [-> ->]. done.
  - intros id' a. by apply (same_shape_space_wf k).
  - intros id' v' e0. rewrite Hent. case_decide as Hc; [| apply I11]. intros ?; simplify_eq.
    destruct Hc as [-> ->]. rewrite Hvirtual, Hreadonly. by apply (I11 id).
  - intros id' v' e0. rewrite Hent. case_decide as Hc; [congruence |]. intros He0 Hv0.
    destruct (evict_other_frame _ _ _ He0 Hv0 Hc) as [Hr Hne].
    destruct (I12 _ _ _ He0 Hv0) as (_ & HI0 & Hb0 & _). rewrite HIPT. split; [done |]. split; [done |].
    split; [| done]. rewrite Hb by (by rewrite Hn). by rewrite decide_False.
  - intros g Hg. rewrite HIPT, Hb by (by rewrite Hn). case_decide as Hgf; [done |]. intros Hbg _.
    destruct (I13 g Hg Hbg) as (id0 & v0 & e0 & HI0 & He0 & Hv0 & Hp0); [done |].
    exists id0, v0, e0. split; [done |]. split; [| done]. rewrite Hent. rewrite decide_False; [done |].
    intros [-> ->]. congruence.
  - apply evict_swapped.
  - apply evict_swap_inj.
  - rewrite evict_TLB. intros i t Hi Hv. destruct (I17 i t Hi Hv) as (e0 & He0 & Hrest).
    exists e0. split; [| done]. rewrite Hent. rewrite decide_False; [done |].
    intros [Hid Hvp]. by apply (evict_no_slot i t Hi Hv).
  - rewrite evict_TLB. apply I18.
  - intros id' v' e0 j b. rewrite Hent, evict_tlb_dirty, evict_file. case_decide as Hc; [congruence |].
    intros He0 Hv0 Hd0 Hcur Hj Hfb. destruct (evict_other_frame _ _ _ He0 Hv0 Hc) as [Hr Hne].
    rewrite Hmem by done. by apply (I19 id' v').
Qed.

Lemma evict_paging : paging cur k k' None ∧ bit (MemBitMap k') f = false.
Proof.
  split; [split; [apply evict_inv | apply evict_bytes |] |].
  - split; [done | |].
    + intros id' v' e0 He0 Hv0. exists e0. rewrite Hent. rewrite decide_False; [done |].
      intros [-> ->]. destruct Hown as (_ & He & Hve & _). congruence.
    + rewrite evict_TLB. intros i t Ht Hv. by exists t.
  - destruct Hbits as (_ & _ & Hb). rewrite Hb; [by rewrite decide_True |].
    destruct (vi_mem _ _ _ Hinv) as [_ ->]. done.
Qed.
End evict.

(** ** The operations that evict *)

Definition with_mem (l : list Z) (k : VM) : VM := set_vm_machine (set_mainMemory l (vm_machine k)) k.

(** [l'] is [l] outside of frame [f]. *)
Definition frame_only (f : Z) (l l' : list Z) : Prop :=
  length l' = length l ∧ (Forall byte_range l → Forall byte_range l') ∧
  ∀ g j, 0 ≤ g → g ≠ f → 0 ≤ j < PageSize → l' !! Z.to_nat (g * PageSize + j) = l !! Z.to_nat (g * PageSize + j).

Lemma frame_only_refl f l : frame_only f l l.
Proof. done. Qed.

Lemma frame_only_trans f l1 l2 l3 : frame_only f l1 l2 → frame_only f l2 l3 → frame_only f l1 l3.
Proof.
  intros (L1 & B1 & F1) (L2 & B2 & F2). split; [congruence |]. split; [auto |].
  intros g j Hg Hne Hj. by rewrite F2, F1.
Qed.

(** A copy into frame [f] from offset [o]. *)
Lemma frame_only_splice f l o bs : 0 ≤ f < NumPhysPages → length l = Z.to_nat MemorySize →
  0 ≤ o → o + Z.of_nat (length bs) ≤ PageSize → Forall byte_range bs →
  frame_only f l (splice l (Z.to_nat (f * PageSize + o)) bs).
Proof.
  intros Hf Hl Ho Hbs Hb. unfold frame_only, MemorySize, NumPhysPages, PageSize, SectorSize in *.
  split; [| split].
  - apply length_splice. lia.
  - intros. by apply Forall_splice.
  - intros g j Hg Hne Hj. apply lookup_splice_out; lia.
Qed.

Lemma with_mem_wf k l f : machine_wf (vm_machine k) → frame_only f (mainMemory (vm_machine k)) l →
  machine_wf (vm_machine (with_mem l k)).
Proof.
  intros [H1 H2 H3 H4 H5 H6] (Hl & Hb & _). split; simpl; try done; [congruence | auto].
Qed.

Lemma with_mem_byte k l f g j : frame_only f (mainMemory (vm_machine k)) l → 0 ≤ g → g ≠ f →
  0 ≤ j < PageSize → mem_byte (with_mem l k) g j = mem_byte k g j.
Proof. intros (_ & _ & Hout) Hg Hne Hj. unfold mem_byte. simpl. by apply Hout. Qed.

Lemma mem_write_run k a bs : 0 ≤ a → a + Z.of_nat (length bs) ≤ Z.of_nat (length (mainMemory (vm_machine k))) →
  mem_write a bs k = Done (tt, with_mem (splice (mainMemory (vm_machine k)) (Z.to_nat a) bs) k).
Proof.
  intros Ha Hbs. unfold mem_write, mbind, M_bind, get, lift. by rewrite wr_block_Done.
Qed.

Lemma clear_spec k f : machine_wf (vm_machine k) → 0 ≤ f < NumPhysPages →
  wp (clearPhysicalPage f)
     (λ _ k', ∃ l, k' = with_mem l k ∧ frame_only f (mainMemory (vm_machine k)) l) k.
Proof.
  intros Hwf Hf. unfold clearPhysicalPage, valid_frame. wp_step.
  apply wp_ASSERT; [rewrite !bool_decide_false by lia; done |].
  pose proof (mw_memory _ Hwf) as Hlen.
  eapply wp_mono; [apply (wp_for (λ _ k', ∃ l, k' = with_mem l k ∧ frame_only f (mainMemory (vm_machine k)) l)) |].
  - exists (mainMemory (vm_machine k)). split; [by destruct k as [[]] | apply frame_only_refl].
  - intros i k' Hi (l & -> & Hl). pose proof Hl as (Hll & _).
    unfold MemorySize, NumPhysPages, PageSize, SectorSize in *. simpl in Hi.
    eapply wp_run; [apply mem_write_run; simpl; lia |]. eexists. split; [done |].
    eapply frame_only_trans; [done |].
    apply frame_only_splice; unfold MemorySize, NumPhysPages, PageSize, SectorSize; simpl; try lia.
    repeat constructor; done.
  - intros [] k' Hk'. exact Hk'.
Qed.

Lemma on_unix_pure {A} (c : M Unix A) k a : c (unix k) = Done (a, unix k) → on_unix c k = Done (a, k).
Proof. intros Hc. unfold on_unix, zoom. rewrite Hc. by destruct k. Qed.

Lemma open_run k n f : unix k !! n = Some f → on_unix (FileSystem_Open n) k = Done (Some (mkOpenFile n 0), k).
Proof.
  intros Hf. apply on_unix_pure. unfold FileSystem_Open, mbind, M_bind, get. by rewrite Hf.
Qed.

Lemma ReadAt_run k n f p c len : unix k !! n = Some f → 0 ≤ p →
  on_unix (OpenFile_ReadAt (mkOpenFile n c) len p) k = Done (pread_bytes f p len, k).
Proof.
  intros Hf Hp. apply on_unix_pure. unfold OpenFile_ReadAt, unix_file, mbind, M_bind, get, ASSERT.
  rewrite bool_decide_true by lia. simpl. by rewrite Hf.
Qed.

Lemma WriteAt_run k n f p c bs : unix k !! n = Some f → 0 ≤ p →
  on_unix (OpenFile_WriteAt (mkOpenFile n c) bs p) k =
    Done (Z.of_nat (length bs), set_unix (<[n := pwrite_bytes f p bs]> (unix k)) k).
Proof.
  intros Hf Hp. unfold on_unix, zoom, OpenFile_WriteAt, unix_file, mbind, M_bind, get, ASSERT.
  rewrite bool_decide_true by lia. simpl. by rewrite Hf.
Qed.

(** The two writes through [IPT[f]]. *)
Lemma IPT_modify2_run k f id v e g h : 0 ≤ f → owner k f id v e →
  ∃ k', (IPT_modify f g ;; IPT_modify f h) k = Done (tt, k') ∧
    k' = upd_entry id v (h (g e)) (upd_entry id v (g e) k).
Proof.
  intros Hf (HI & He & _). eexists. split; [| done]. unfold mbind, M_bind.
  rewrite (IPT_modify_run _ _ _ _ _ _ Hf HI He).
  apply IPT_modify_run; [done | |].
  - by rewrite (proj1 (proj2 (proj2 (proj2 (upd_entry_fields _ _ _ _))))).
  - rewrite (entry_of_upd _ _ _ e) by done. by rewrite decide_True.
Qed.

Lemma entry_of_upd2 k id v e e1 e2 id' v' : entry_of k id v = Some e →
  entry_of (upd_entry id v e2 (upd_entry id v e1 k)) id' v' =
    if decide (id' = id ∧ v' = v) then Some e2 else entry_of k id' v'.
Proof.
  intros He. rewrite (entry_of_upd _ _ _ e1).
  - rewrite (entry_of_upd _ _ _ e) by done. by case_decide.
  - rewrite (entry_of_upd _ _ _ e) by done. by rewrite decide_True.
Qed.

Lemma upd2_fields k id v e1 e2 :
  let k' := upd_entry id v e2 (upd_entry id v e1 k) in
  vm_machine k' = vm_machine k ∧ MemBitMap k' = MemBitMap k ∧ SWAPBitMap k' = SWAPBitMap k ∧
  IPT k' = IPT k ∧ unix k' = unix k ∧ indexTLBSndChc k' = indexTLBSndChc k ∧
  indexSWAPSndChc k' = indexSWAPSndChc k ∧ indexSWAPFIFO k' = indexSWAPFIFO k.
Proof.
  destruct (upd_entry_fields k id v e1) as (? & ? & ? & ? & ? & ? & ? & ?).
  destruct (upd_entry_fields (upd_entry id v e1 k) id v e2) as (? & ? & ? & ? & ? & ? & ? & ?).
  simpl. repeat split; congruence.
Qed.

(** A swap slot is free. *)
Definition swap_room (k : VM) : Prop := ∃ s, 0 ≤ s < SWAPSize ∧ bit (SWAPBitMap k) s = false.

(** After an eviction: the state of before, and a free frame. *)
Definition evicted (cur : Z) (k k' : VM) : Prop :=
  paging cur k k' None ∧ ∃ f, 0 ≤ f < NumPhysPages ∧ bit (MemBitMap k') f = false.

Lemma SWAP_Find_spec k cur : vm_inv k cur None → swap_room k →
  wp (on_SWAPBitMap BitMap_Find)
     (λ s k', ∃ b, k' = set_SWAPBitMap b k ∧ 0 ≤ s < SWAPSize ∧ bit (SWAPBitMap k) s = false ∧
                   bit_update (SWAPBitMap k) s true b) k.
Proof.
  intros Hinv (s0 & Hs0 & Hfree). destruct (vi_swap _ _ _ Hinv) as [Hwf Hn].
  apply wp_zoom. eapply wp_mono; [by apply Find_spec |].
  intros s b [(_ & _ & Hfull) | (Hr & Hf & _ & Hup)].
  - rewrite Hfull in Hfree by lia. done.
  - exists b. rewrite Hn in Hr. done.
Qed.

Lemma Mem_Clear_spec k cur f : vm_inv k cur None → 0 ≤ f < NumPhysPages →
  ∀ k1, MemBitMap k1 = MemBitMap k →
  wp (on_MemBitMap (BitMap_Clear f))
     (λ _ k', ∃ b, k' = set_MemBitMap b k1 ∧ bit_update (MemBitMap k) f false b) k1.
Proof.
  intros Hinv Hf k1 E. destruct (vi_mem _ _ _ Hinv) as [Hwf Hn]. apply wp_zoom. rewrite E.
  eapply wp_mono; [apply Clear_spec; [done | by rewrite Hn] |].
  intros [] b Hb. by exists b.
Qed.

(** The bytes of the frame in the swap file, after [WriteAt]. *)
Lemma swap_write_bytes k1 k2 sw f s : unix k1 !! SWAPFILENAME = Some sw → 0 ≤ s →
  machine_wf (vm_machine k1) → 0 ≤ f < NumPhysPages →
  let bs := take (Z.to_nat PageSize) (drop (Z.to_nat (f * PageSize)) (mainMemory (vm_machine k1))) in
  unix k2 = <[SWAPFILENAME := pwrite_bytes sw (s * PageSize) bs]> (unix k1) →
  (∀ j, 0 ≤ j < PageSize → swap_byte k2 s j = mem_byte k1 f j) ∧
  (∀ s' j b, 0 ≤ s' → s' ≠ s → 0 ≤ j < PageSize → swap_byte k1 s' j = Some b → swap_byte k2 s' j = Some b).
Proof.
  intros Hsw Hs Hwf Hf bs EU. pose proof (mw_memory _ Hwf) as Hlen.
  assert (length bs = Z.to_nat PageSize) as Hbs.
  { apply length_block. unfold MemorySize, NumPhysPages, PageSize, SectorSize in *. lia. }
  unfold swap_byte. rewrite EU, lookup_insert_eq, Hsw. simpl. unfold mem_byte.
  unfold NumPhysPages, PageSize, SectorSize in *. split.
  - intros j Hj. replace (Z.to_nat (s * 128 + j)) with (Z.to_nat (s * 128) + Z.to_nat j)%nat by lia.
    rewrite lookup_pwrite_in by lia. unfold bs. rewrite lookup_take_lt, lookup_drop by lia. f_equal. lia.
  - intros s' j b Hs' Hne Hj Hb. apply lookup_pwrite_out; [lia | rewrite Hbs; lia | done].
Qed.

Lemma swap_out_spec k cur id v e : vm_inv k cur None → 0 ≤ indexSWAPFIFO k < NumPhysPages →
  owner k (indexSWAPFIFO k) id v e → unmapped k (indexSWAPFIFO k) → dirty e = true → swap_room k →
  wp swap_out_victim (λ _ k', evicted cur k k') k.
Proof.
  intros Hinv Hf Hown Hun Hd Hroom. set (f := indexSWAPFIFO k) in *.
  pose proof Hown as (HI & He & Hve & Hpe). pose proof (vi_machine _ _ _ Hinv) as Hwf.
  destruct (vi_swapfile _ _ _ Hinv) as [sw Hsw]. pose proof (mw_memory _ Hwf) as Hlen.
  unfold swap_out_victim, writeIntoSwap, valid_frame. wp_step. wp_step. wp_step.
  eapply wp_run; [eapply IPT_entry_run; [lia | done | done] |]. rewrite Hpe.
  wp_step. eapply wp_mono; [by apply (SWAP_Find_spec k cur) |]. intros s k1 (sb & -> & Hs & Hfree & Hup).
  wp_step. apply wp_ASSERT; [rewrite !bool_decide_false by lia; done |].
  wp_step. apply wp_ASSERT; [rewrite bool_decide_false by lia; done |].
  wp_step. eapply wp_run; [by apply (open_run _ _ sw) |]. cbv beta iota.
  set (e1 := set_valid false e). set (e2 := set_physicalPage s e1).
  set (k1 := set_SWAPBitMap sb k).
  wp_step. eapply wp_run; [apply (IPT_modify_run k1 f id v e); [lia | done | done] |]. fold e1.
  assert (entry_of (upd_entry id v e1 k1) id v = Some e1) as He1
    by (rewrite (entry_of_upd k1 id v e) by done; by rewrite decide_True).
  wp_step. eapply wp_run.
  { apply (IPT_modify_run _ f id v e1); [lia | | done].
    by rewrite (proj1 (proj2 (proj2 (proj2 (upd_entry_fields _ _ _ _))))). }
  fold e2. set (k2 := upd_entry id v e2 (upd_entry id v e1 k1)).
  destruct (upd2_fields k1 id v e1 e2) as (Em & EM & ES & EI & EU & ET & EW & EF). fold k2 in Em, EM, ES, EI, EU, ET, EW, EF.
  wp_step. eapply wp_run.
  { unfold mem_read, mbind, M_bind, get, lift. rewrite Em. rewrite rd_block_Done; [done | ..];
      unfold k1; simpl; unfold MemorySize, NumPhysPages, PageSize, SectorSize in *; lia. }
  set (bs := take _ _).
  wp_step. eapply wp_run; [apply (WriteAt_run k2 SWAPFILENAME sw); [by rewrite EU |]; unfold PageSize, SectorSize; lia |].
  set (k3 := set_unix _ k2).
  wp_step. wp_step. change (indexSWAPFIFO k3) with (indexSWAPFIFO k2). rewrite EF. change (indexSWAPFIFO k1) with f.
  eapply wp_mono; [apply (Mem_Clear_spec k cur f Hinv Hf k3); exact EM |]. intros [] k4 (mb & -> & Hmb).
  destruct (swap_write_bytes k k3 sw f s) as [Hcopy Hkeep]; try done; [lia | unfold k3, bs; simpl; by rewrite EU |].
  assert (∀ id' v', entry_of (set_MemBitMap mb k3) id' v' =
            if decide (id' = id ∧ v' = v) then Some e2 else entry_of k id' v') as Hent
    by (intros id' v'; exact (entry_of_upd2 k1 id v e e1 e2 id' v' He)).
  assert (same_shape k (set_MemBitMap mb k3)) as Hshape.
  { assert (same_shape k1 k2) as [H1 H2] by (eapply same_shape_trans; apply upd_entry_shape).
    split; [exact H1 |]. intros n Hn. unfold k3. simpl. rewrite lookup_insert_ne by done. by apply H2. }
  assert (∀ n l, unix (set_MemBitMap mb k3) !! n = Some l → Forall byte_range l) as Hfiles.
  { intros n l. unfold k3. simpl. rewrite EU. destruct (decide (n = SWAPFILENAME)) as [-> |].
    - rewrite lookup_insert_eq. intros ?; simplify_eq. apply Forall_pwrite; [done | by apply (vi_bytes _ _ _ Hinv _ _ Hsw) |].
      apply Forall_take, Forall_drop, (mw_bytes _ Hwf).
    - rewrite lookup_insert_ne by done. apply (vi_bytes _ _ _ Hinv). }
  destruct (evict_paging k (set_MemBitMap mb k3) cur f id v e e2) as [Hpg Hbit]; try done.
  - simpl. by rewrite Em.
  - simpl. by rewrite Em.
  - intros g j _ _ _. unfold mem_byte. simpl. by rewrite Em.
  - unfold k3. simpl. by rewrite lookup_insert_eq.
  - simpl. rewrite ES. destruct Hup as (? & Hn & _). split; [done |]. simpl. rewrite Hn. apply (vi_swap _ _ _ Hinv).
  - rewrite Hd. cbv zeta. split; [exact Hs |]. split; [exact Hfree |]. split; [| split; [exact Hcopy | exact Hkeep]].
    intros s' Hs'. simpl. rewrite ES. apply Hup. rewrite (proj2 (vi_swap _ _ _ Hinv)). exact Hs'.
  - split; [exact Hpg |]. by exists f.
Qed.

(** The state after a clean victim is dropped, its frame zeroed or not. *)
Lemma drop_paging k cur f id v e mb l : vm_inv k cur None → 0 ≤ f < NumPhysPages →
  owner k f id v e → unmapped k f → dirty e = false →
  bit_update (MemBitMap k) f false mb → frame_only f (mainMemory (vm_machine k)) l →
  let k2 := upd_entry id v (set_physicalPage (-1) (set_valid false e)) (upd_entry id v (set_valid false e) k) in
  evicted cur k (with_mem l (set_MemBitMap mb k2)).
Proof.
  intros Hinv Hf Hown Hun Hd Hmb Hl k2. pose proof Hown as (_ & He & _).
  destruct (upd2_fields k id v (set_valid false e) (set_physicalPage (-1) (set_valid false e)))
    as (Em & EM & ES & EI & EU & ET & EW & EF). fold k2 in Em, EM, ES, EI, EU, ET, EW, EF.
  set (k' := with_mem l (set_MemBitMap mb k2)).
  assert (∀ id' v', entry_of k' id' v' = if decide (id' = id ∧ v' = v)
            then Some (set_physicalPage (-1) (set_valid false e)) else entry_of k id' v') as Hent
    by (intros id' v'; exact (entry_of_upd2 k id v e _ _ id' v' He)).
  assert (same_shape k k') as Hshape.
  { assert (same_shape k k2) as [H1 H2] by (eapply same_shape_trans; apply upd_entry_shape). by split. }
  destruct (evict_paging k k' cur f id v e (set_physicalPage (-1) (set_valid false e))) as [Hpg Hbit]; try done.
  - apply (with_mem_wf _ _ f); simpl; rewrite Em; [apply (vi_machine _ _ _ Hinv) | done].
  - simpl. by rewrite Em.
  - intros g j Hg Hne Hj. unfold k'. rewrite (with_mem_byte _ _ f) by (simpl; rewrite ?Em; done || lia).
    unfold mem_byte. simpl. by rewrite Em.
  - intros n fl. simpl. rewrite EU. apply (vi_bytes _ _ _ Hinv).
  - simpl. rewrite EU. apply (vi_swapfile _ _ _ Hinv).
  - simpl. rewrite ES. apply (vi_swap _ _ _ Hinv).
  - rewrite Hd. simpl. by rewrite ES, EU.
  - split; [exact Hpg |]. by exists f.
Qed.

Lemma with_mem_same k : with_mem (mainMemory (vm_machine k)) k = k.
Proof. by destruct k as [[]]. Qed.

Lemma drop_spec k cur id v e zero : vm_inv k cur None → 0 ≤ indexSWAPFIFO k < NumPhysPages →
  owner k (indexSWAPFIFO k) id v e → unmapped k (indexSWAPFIFO k) → dirty e = false →
  wp (drop_victim zero) (λ _ k', evicted cur k k' ∧ SWAPBitMap k' = SWAPBitMap k) k.
Proof.
  intros Hinv Hf Hown Hun Hd. set (f := indexSWAPFIFO k) in *. pose proof Hown as (HI & He & Hve & Hpe).
  unfold drop_victim. wp_step. wp_step. wp_step.
  eapply wp_run; [eapply IPT_entry_run; [lia | done | done] |]. rewrite Hpe.
  set (e1 := set_valid false e). set (e2 := set_physicalPage (-1) e1).
  destruct (upd2_fields k id v e1 e2) as (Em & EM & ES & _).
  wp_step. eapply wp_run; [apply (IPT_modify_run k f id v e); [lia | done | done] |]. fold e1.
  wp_step. eapply wp_run.
  { apply (IPT_modify_run _ f id v e1); [lia | |].
    - by rewrite (proj1 (proj2 (proj2 (proj2 (upd_entry_fields _ _ _ _))))).
    - rewrite (entry_of_upd k id v e) by done. by rewrite decide_True. }
  fold e2. set (k2 := upd_entry id v e2 (upd_entry id v e1 k)) in *.
  wp_step. eapply wp_mono; [apply (Mem_Clear_spec k cur f Hinv Hf k2); exact EM |]. intros [] k3 (mb & -> & Hmb).
  destruct zero.
  - eapply wp_mono; [apply (clear_spec _ f); [simpl; rewrite Em; apply (vi_machine _ _ _ Hinv) | done] |].
    intros [] k4 (l & -> & Hl). simpl in Hl. rewrite Em in Hl.
    split; [by apply (drop_paging k cur f id v e mb l) | done].
  - apply wp_ret. split; [| done]. rewrite <- (with_mem_same (set_MemBitMap mb k2)). simpl. rewrite Em.
    by apply (drop_paging k cur f id v e mb).
Qed.

(** The order of the initialised data branch gives the same state. *)
Lemma drop_data_same k cur id v e : vm_inv k cur None → 0 ≤ indexSWAPFIFO k < NumPhysPages →
  owner k (indexSWAPFIFO k) id v e → drop_victim_data k = drop_victim false k.
Proof.
  intros Hinv Hf (HI & He & Hve & Hpe). set (f := indexSWAPFIFO k) in *.
  destruct (vi_mem _ _ _ Hinv) as [Hwf Hn].
  destruct (Clear_spec (MemBitMap k) f Hwf) as ([] & mb & Hrun & _); [by rewrite Hn |].
  assert (0 ≤ f) as Hf0 by lia.
  assert (∀ k1, IPT k1 = IPT k → ∀ e0 g, entry_of k1 id v = Some e0 →
    IPT_modify f g k1 = Done (tt, upd_entry id v (g e0) k1)) as Hmod.
  { intros k1 EI e0 g He0. apply IPT_modify_run; [done | by rewrite EI | done]. }
  set (e1 := set_valid false e).
  destruct (upd2_fields k id v e1 (set_physicalPage (-1) e1)) as (_ & EM & _).
  assert (on_MemBitMap (BitMap_Clear f) k = Done (tt, set_MemBitMap mb k)) as R1
    by (unfold on_MemBitMap, zoom; by rewrite Hrun).
  assert (on_MemBitMap (BitMap_Clear f) (upd_entry id v (set_physicalPage (-1) e1) (upd_entry id v e1 k)) =
          Done (tt, set_MemBitMap mb (upd_entry id v (set_physicalPage (-1) e1) (upd_entry id v e1 k)))) as R2
    by (unfold on_MemBitMap, zoom; by rewrite EM, Hrun).
  assert (∀ k1, entry_of k1 id v = Some e → entry_of (upd_entry id v e1 k1) id v = Some e1) as Hupd.
  { intros k1 H1. rewrite (entry_of_upd k1 id v e) by done. by rewrite decide_True. }
  assert (∀ k1, IPT (upd_entry id v e1 k1) = IPT k1) as HIupd
    by (intros k1; apply (proj1 (proj2 (proj2 (proj2 (upd_entry_fields k1 id v e1)))))).
  unfold drop_victim_data, drop_victim, mbind, M_bind, get. fold f.
  rewrite (IPT_entry_run k f id v e Hf0 HI He), Hpe, R1.
  rewrite (Hmod (set_MemBitMap mb k) eq_refl e), (Hmod k eq_refl e) by done. fold e1.
  rewrite (Hmod (upd_entry id v e1 (set_MemBitMap mb k)) (HIupd _) e1) by (by apply Hupd).
  rewrite (Hmod (upd_entry id v e1 k) (HIupd _) e1), R2 by (by apply Hupd).
  unfold mret, M_ret. do 2 f_equal. apply entry_of_Some in He as (a & Ha & _).
  unfold upd_entry. simpl. rewrite !Ha. simpl. by rewrite !lookup_insert_eq.
Qed.
