(* ===== verification/VMLoad.v ===== *)
(** * Demand paging: [AddrSpace::load] is correct

    A page fault on page [vpn] of the running address space returns, keeps the
    invariant of [VMInv], changes no byte of any virtual page of any address
    space, and leaves the TLB with a valid slot for the page. *)

From stdpp Require Import base gmap list numbers strings list_numbers.
From Stdlib Require Import ZArith Lia.
From S2P Require Import Prelude BitMap FileStub Machine MachineFacts AddrSpace VMInv VMClock VMPaging.

(** ** Taking a frame *)

Lemma take_inv k cur f b : vm_inv k cur None → 0 ≤ f < NumPhysPages → bit (MemBitMap k) f = false →
  bit_update (MemBitMap k) f true b → vm_inv (set_MemBitMap b k) cur (Some f).
Proof.
  intros [I1 I2 I3 I4 I5 I6 I7 I8 I9 I11 I12 I13 I14 I15 I16 I17 I18 I19] Hf Hfree (Hwf & Hn & Hb).
  destruct I3 as [I3 En]. rewrite En in *.
  split; try done.
  - intros id a. by apply (same_shape_space_wf k).
  - intros id v e He Hv. destruct (I12 id v e He Hv) as (Hr & HI & Hbit & _).
    split; [done |]. split; [done |]. simpl. rewrite Hb by done. split; [by case_decide |]. congruence.
  - intros g Hg. simpl. rewrite Hb by done. intros Hbit Hne. apply I13; [done | | done].
    case_decide; [congruence | done].
  - intros g ?. simplify_eq. split; [done |]. simpl. rewrite Hb by done. by rewrite decide_True.
Qed.

Lemma take_paging k cur f b : vm_inv k cur None → 0 ≤ f < NumPhysPages → bit (MemBitMap k) f = false →
  bit_update (MemBitMap k) f true b → paging cur k (set_MemBitMap b k) (Some f).
Proof.
  intros. split; [by apply take_inv | by intros id v j x |]. split; [done | |].
  - intros id v e He Hv. by exists e.
  - intros i t Ht Hv. by exists t.
Qed.

(** [MemBitMap->Find()] *)
Lemma Mem_Find_spec k cur : vm_inv k cur None →
  wp (on_MemBitMap BitMap_Find)
     (λ r k', SWAPBitMap k' = SWAPBitMap k ∧
        ((r = -1 ∧ k' = k ∧ frames_full k) ∨ (0 ≤ r < NumPhysPages ∧ paging cur k k' (Some r)))) k.
Proof.
  intros Hinv. destruct (vi_mem _ _ _ Hinv) as [Hwf Hn]. apply wp_zoom.
  eapply wp_mono; [by apply Find_spec |].
  intros r b [(-> & -> & Hfull) | (Hr & Hfree & _ & Hup)]; (split; [done |]).
  - left. split; [done |]. split; [by destruct k |]. intros f Hf. apply Hfull. by rewrite Hn.
  - right. rewrite Hn in Hr. split; [done |]. by apply take_paging.
Qed.

Lemma find_again_spec k cur : vm_inv k cur None →
  (∃ f, 0 ≤ f < NumPhysPages ∧ bit (MemBitMap k) f = false) →
  wp find_frame_again
     (λ r k', 0 ≤ r < NumPhysPages ∧ paging cur k k' (Some r)) k.
Proof.
  intros Hinv (f & Hf & Hfree). unfold find_frame_again. wp_step.
  eapply wp_mono; [by apply (Mem_Find_spec k cur) |].
  intros r k' [_ [(_ & _ & Hfull) | [Hr Hpg]]].
  - rewrite Hfull in Hfree by done. done.
  - wp_step. apply wp_ASSERT; [rewrite bool_decide_false by lia; done |]. by wp_steps.
Qed.

(** ** Installing a page in a frame *)

Section install.
Context (k k' : VM) (cur f v : Z) (e : TranslationEntry).
Hypothesis Hinv : vm_inv k cur (Some f).
Hypothesis He : entry_of k cur v = Some e.
Hypothesis Hve : valid e = false.
Let e' := set_valid true (set_physicalPage f e).
Hypothesis Hent : ∀ id' v', entry_of k' id' v' = if decide (id' = cur ∧ v' = v) then Some e' else entry_of k id' v'.
Hypothesis Hshape : same_shape k k'.
Hypothesis Hunix : unix k' = unix k.
Hypothesis Hwf' : machine_wf (vm_machine k').
Hypothesis Htlb : tlb (vm_machine k') = tlb (vm_machine k).
Hypothesis Hmem : ∀ g j, 0 ≤ g < NumPhysPages → g ≠ f → 0 ≤ j < PageSize → mem_byte k' g j = mem_byte k g j.
Hypothesis HIPT : IPT k' = <[Z.to_nat f := Some (cur, v)]> (IPT k).
Hypothesis HMem : MemBitMap k' = MemBitMap k.
Hypothesis Hhands : indexTLBSndChc k' = indexTLBSndChc k ∧ indexSWAPSndChc k' = indexSWAPSndChc k.
Hypothesis Hswapwf : BitMap_wf (SWAPBitMap k') ∧ numBits (SWAPBitMap k') = SWAPSize.
Hypothesis Hswap : ∀ s, 0 ≤ s < SWAPSize → (dirty e = true → s ≠ physicalPage e) →
  bit (SWAPBitMap k') s = bit (SWAPBitMap k) s.
Hypothesis Hcontents : ∀ j b, page_byte k cur cur v j = Some b → mem_byte k' f j = Some b.

Lemma install_frame : 0 ≤ f < NumPhysPages ∧ bit (MemBitMap k) f = true.
Proof. by apply (vi_hole _ _ _ Hinv). Qed.

Lemma install_TLB : TLB k' = TLB k.
Proof. unfold TLB. by rewrite Htlb. Qed.

Lemma install_tlb_dirty v' : tlb_dirty k' v' = tlb_dirty k v'.
Proof. unfold tlb_dirty. by rewrite install_TLB. Qed.

Lemma install_no_slot i t : TLB k !! i = Some t → valid t = true → virtualPage t ≠ v.
Proof.
  intros Ht Hv Hvp. destruct (vi_tlb_ok _ _ _ Hinv _ _ Ht Hv) as (e0 & He0 & Hv0 & _). congruence.
Qed.

Lemma install_not_dirty : tlb_dirty k v = false.
Proof.
  apply not_true_iff_false. intros (i & t & Hi & Hv & Hvp & _)%tlb_dirty_spec. by eapply install_no_slot.
Qed.

Lemma install_file id' v' j : file_byte k' id' v' j = file_byte k id' v' j.
Proof. apply same_shape_file_byte; [apply (vi_spaces _ _ _ Hinv) | done]. Qed.

Lemma install_swap s j : swap_byte k' s j = swap_byte k s j.
Proof. unfold swap_byte. by rewrite Hunix. Qed.

Lemma install_other_frame id' v' e0 : entry_of k id' v' = Some e0 → valid e0 = true →
  0 ≤ physicalPage e0 < NumPhysPages ∧ physicalPage e0 ≠ f.
Proof.
  intros He0 Hv0. destruct (vi_valid _ _ _ Hinv _ _ _ He0 Hv0) as (? & _ & _ & Hne). split; [done |]. congruence.
Qed.

Lemma install_bytes : bytes_kept cur k k'.
Proof.
  intros id' v' j b Hb. destruct (decide (id' = cur ∧ v' = v)) as [[-> ->] | Hc].
  - pose proof (Hcontents j b Hb) as Hm. revert Hb. unfold page_byte.
    rewrite Hent, decide_True, He, install_file, install_tlb_dirty, install_not_dirty by done. simpl.
    case_decide; [| done]. rewrite Hve, andb_false_r. intros Hb. destruct (dirty e); simpl; [done |].
    rewrite bool_decide_true by (by exists b). done.
  - revert Hb. unfold page_byte. rewrite Hent, decide_False, install_file, install_tlb_dirty by done.
    destruct (entry_of k id' v') as [e0 |] eqn:He0; [| done]. simpl. case_decide; [| done].
    rewrite install_swap. destruct (valid e0) eqn:Hv0; [| done].
    destruct (install_other_frame _ _ _ He0 Hv0). by rewrite Hmem.
Qed.

Lemma install_inv : vm_inv k' cur None.
Proof.
  pose proof Hinv as [I1 I2 I3 I4 I5 I6 I7 I8 I9 I11 I12 I13 I14 I15 I16 I17 I18 I19].
  destruct install_frame as [Hf Hbit].
  assert (∀ g, 0 ≤ g → g ≠ f → IPT k' !! Z.to_nat g = IPT k !! Z.to_nat g) as HIne.
  { intros g Hg Hne. rewrite HIPT. apply list_lookup_insert_ne. lia. }
  assert (IPT k' !! Z.to_nat f = Some (Some (cur, v))) as HIf.
  { rewrite HIPT. apply list_lookup_insert_eq. rewrite I5. lia. }
  split; try done.
  - by rewrite Htlb.
  - by rewrite HMem.
  - by rewrite HIPT, length_insert.
  - destruct Hhands as [-> ->]. done.
  - by rewrite Hunix.
  - by rewrite Hunix.
  - intros id' a. by apply (same_shape_space_wf k).
  - intros id' v' e0. rewrite Hent. case_decide as Hc; [| apply I11]. intros ?; simplify_eq.
    destruct Hc as [-> ->]. apply (I11 cur v e He).
  - intros id' v' e0. rewrite Hent, HMem. case_decide as Hc; intros He0 Hv0.
    + simplify_eq. destruct Hc as [-> ->]. done.
    + destruct (install_other_frame _ _ _ He0 Hv0) as [Hr Hne].
      destruct (I12 _ _ _ He0 Hv0) as (_ & HI & Hb & _). rewrite HIne by (done || lia). done.
  - intros g Hg. rewrite HMem. intros Hb _. destruct (decide (g = f)) as [-> | Hne].
    + exists cur, v, e'. rewrite Hent, decide_True by done. done.
    + destruct (I13 g Hg Hb) as (id0 & v0 & e0 & HI & He0 & Hv0 & Hp0); [congruence |].
      exists id0, v0, e0. rewrite HIne by (done || lia). split; [done |]. split; [| done].
      rewrite Hent, decide_False; [done |]. intros [-> ->]. congruence.
  - intros id' v' e0. rewrite Hent. case_decide as Hc; intros He0 Hv0 Hd0; [by simplify_eq |].
    destruct (I15 _ _ _ He0 Hv0 Hd0) as (Hr & Hb & Hj). split; [done |].
    split; [| intros j Hj'; rewrite install_swap; by apply Hj].
    rewrite Hswap; [done | done |]. intros Hd Hp. destruct (I16 _ _ _ _ _ _ He0 Hv0 Hd0 He Hve Hd Hp). tauto.
  - intros id1 v1 e1 id2 v2 e2. rewrite !Hent.
    destruct (decide (id1 = cur ∧ v1 = v)), (decide (id2 = cur ∧ v2 = v)); intros; simplify_eq; try done.
    by eapply I16.
  - rewrite install_TLB. intros i t Hi Hv. destruct (I17 i t Hi Hv) as (e0 & He0 & Hrest).
    exists e0. split; [| done]. rewrite Hent, decide_False; [done |].
    intros [_ Hvp]. by apply (install_no_slot i t Hi Hv).
  - rewrite install_TLB. apply I18.
  - intros id' v' e0 j b. rewrite Hent, install_tlb_dirty, install_file. case_decide as Hc; intros He0 Hv0 Hd0 Hcur Hj Hb.
    + simplify_eq. destruct Hc as [-> ->]. apply Hcontents. unfold page_byte. rewrite He. simpl.
      rewrite decide_True by done. rewrite Hve. simpl in Hd0. by rewrite Hd0.
    + destruct (install_other_frame _ _ _ He0 Hv0) as [Hr Hne]. rewrite Hmem by done. by apply (I19 id' v').
Qed.
End install.

(** ** The TLB slot of the page *)

Definition no_slot (k : VM) (v : Z) : Prop :=
  ∀ i t, TLB k !! i = Some t → valid t = true → virtualPage t ≠ v.

(** The TLB maps [v] to the frame of its entry, with its protection and dirty bit. *)
Definition tlb_maps (k : VM) (cur v : Z) : Prop :=
  ∃ i t e, TLB k !! i = Some t ∧ valid t = true ∧ virtualPage t = v ∧ readOnly t = false ∧
    entry_of k cur v = Some e ∧ valid e = true ∧ physicalPage t = physicalPage e.

(** What a page fault must do. *)
Definition fault_served (cur v : Z) (k k' : VM) : Prop :=
  vm_inv k' cur None ∧ bytes_kept cur k k' ∧ same_shape k k' ∧ tlb_maps k' cur v.

Lemma sim_no_slot cur k k' v : vm_sim cur k k' → no_slot k v → no_slot k' v.
Proof.
  intros Hs Hno i t' Ht' Hv'. destruct (sim_tlb _ _ _ _ (vs_tlb _ _ _ Hs) Ht') as (t & Ht & -> & _ & Hv & _).
  apply (Hno i t Ht). congruence.
Qed.

Lemma tracked_no_slot k k' v : tracked k k' → no_slot k v → no_slot k' v.
Proof.
  intros Htr Hno i t' Ht' Hv'. destruct (tr_tlb _ _ Htr _ _ Ht' Hv') as (t & Ht & Hv & <-). by apply (Hno i t).
Qed.

Lemma entry_range k cur hole id v e : vm_inv k cur hole → entry_of k id v = Some e →
  ∃ a, spaces k !! id = Some a ∧ 0 ≤ v < numPages a.
Proof.
  intros Hinv (a & Ha & Hv & He)%entry_of_Some. exists a. split; [done |].
  apply lookup_lt_Some in He. pose proof (sw_table _ _ (vi_spaces _ _ _ Hinv _ _ Ha)). lia.
Qed.

Lemma space_run k id a : spaces k !! id = Some a → space id k = Done (a, k).
Proof. intros Ha. unfold space, mbind, M_bind, get. by rewrite Ha. Qed.

Lemma map_tlb_spec k cur v e : vm_inv k cur None → entry_of k cur v = Some e → valid e = true → no_slot k v →
  wp (tlbSpace ← getNextSCTLB cur; useThisTLBIndex cur tlbSpace v) (λ _ k', fault_served cur v k k') k.
Proof.
  intros Hinv He Hve Hno. wp_step. eapply wp_mono; [by apply (getNextSCTLB_spec k cur None) |].
  intros i k1 (Hs & Hi & Hsaved & _). pose proof (sim_inv _ _ _ _ Hinv Hs) as Hinv1.
  destruct (sim_entry_r _ _ _ _ _ _ Hs He) as (e1 & He1 & _ & _ & Hv1 & _). rewrite Hve in Hv1.
  destruct (entry_range _ _ _ _ _ _ Hinv1 He1) as (a & Ha & Hvr).
  destruct (vi_entries _ _ _ Hinv1 _ _ _ He1) as [Hvp Hro].
  destruct (TLB_slot _ _ _ _ Hinv1 Hi) as [t0 Ht0].
  unfold useThisTLBIndex. wp_step. apply wp_ASSERT; [rewrite !bool_decide_false by lia; done |].
  wp_step. eapply wp_run; [by apply space_run |].
  wp_step. apply wp_ASSERT; [rewrite !bool_decide_false by lia; done |].
  wp_step. eapply wp_run; [by apply pt_get_run |]. eapply wp_run; [apply tlb_modify_run; [lia | done] |].
  set (t := mkEntry _ _ _ _ _ _).
  assert (valid t = true →
    (∃ e0, entry_of k1 cur (virtualPage t) = Some e0 ∧ valid e0 = true ∧ physicalPage t = physicalPage e0 ∧
          readOnly t = false ∧ dirty t = dirty e0) ∧
    ∀ j t', j ≠ Z.to_nat i → TLB k1 !! j = Some t' → valid t' = true → virtualPage t' ≠ virtualPage t) as Hnew.
  { intros _. simpl. rewrite Hvp. split; [by exists e1 |].
    intros j t' _. by apply (sim_no_slot _ _ _ _ Hs Hno). }
  pose proof (tlb_replace_inv k1 cur None i t Hinv1 Hi Hsaved Hnew) as Hinv2.
  split; [exact Hinv2 |]. split; [| split].
  - eapply bytes_kept_trans; [by eapply sim_bytes | by eapply tlb_replace_bytes].
  - destruct (vs_shape _ _ _ Hs) as [S1 S2]. split; [exact S1 | exact S2].
  - exists (Z.to_nat i), t, e1. rewrite (replace_lookup k1 cur None i t Hinv1 Hi), decide_True by done. done.
Qed.

(** ** Mapping a page, whatever fills its frame *)

(** What the code that fills frame [f] may change, from [k1] to [k2]; [k] is
    the state before the page was given the frame. *)
Record filled (k k1 k2 : VM) (cur f v : Z) (e : TranslationEntry) : Prop := {
  fl_spaces : spaces k2 = spaces k1;
  fl_unix : unix k2 = unix k1;
  fl_ipt : IPT k2 = IPT k1;
  fl_mem : MemBitMap k2 = MemBitMap k1;
  fl_hands : indexTLBSndChc k2 = indexTLBSndChc k1 ∧ indexSWAPSndChc k2 = indexSWAPSndChc k1;
  fl_machine : ∃ l, vm_machine k2 = set_mainMemory l (vm_machine k1) ∧
                    frame_only f (mainMemory (vm_machine k1)) l;
  fl_swapwf : BitMap_wf (SWAPBitMap k2) ∧ numBits (SWAPBitMap k2) = SWAPSize;
  fl_swap : ∀ s, 0 ≤ s < SWAPSize → (dirty e = true → s ≠ physicalPage e) →
              bit (SWAPBitMap k2) s = bit (SWAPBitMap k1) s;
  fl_contents : ∀ j b, page_byte k cur cur v j = Some b → mem_byte k2 f j = Some b
}.

Lemma map_page_spec k cur f v e fill : vm_inv k cur (Some f) → entry_of k cur v = Some e → valid e = false →
  (let k1 := upd_entry cur v (set_physicalPage f e) k in
   wp (fill (physicalPage e)) (λ _ k2, filled k k1 k2 cur f v e) k1) →
  wp (map_page cur v f fill) (λ _ k', fault_served cur v k k') k.
Proof.
  intros Hinv He Hve Hfill. destruct (vi_hole _ _ _ Hinv f eq_refl) as [Hf Hbit].
  unfold map_page. wp_step. eapply wp_run; [by apply pt_get_run |].
  wp_step. eapply wp_run; [by apply pt_modify_run |]. set (e1 := set_physicalPage f e).
  set (k1 := upd_entry cur v e1 k) in *. cbv zeta in Hfill. wp_step. eapply wp_mono; [exact Hfill |].
  intros [] k2 Hfilled. fold e1 k1 in Hfilled. destruct Hfilled as [F1 F2 F3 F4 F5 (l & F6 & F7) F8 F9 F10].
  destruct (upd_entry_fields k cur v e1) as (Em & EM & ES & EI & EU & ET & EW & EF).
  fold k1 in Em, EM, ES, EI, EU, ET, EW, EF.
  assert (∀ id' v', entry_of k2 id' v' = entry_of k1 id' v') as Hent2 by (intros; unfold entry_of; by rewrite F1).
  assert (entry_of k2 cur v = Some e1) as He2.
  { rewrite Hent2. unfold k1. rewrite (entry_of_upd _ _ _ e) by done. by rewrite decide_True. }
  wp_step. eapply wp_run; [by apply pt_modify_run |]. set (e2 := set_valid true e1).
  set (k3 := upd_entry cur v e2 k2).
  destruct (upd_entry_fields k2 cur v e2) as (Em3 & EM3 & ES3 & EI3 & EU3 & ET3 & EW3 & EF3).
  fold k3 in Em3, EM3, ES3, EI3, EU3, ET3, EW3, EF3.
  assert (IPT k3 = IPT k) as EIk by (by rewrite EI3, F3, EI).
  wp_step. eapply wp_run.
  { unfold IPT_set, mbind, M_bind, get, lift. rewrite EIk.
    rewrite wr_Done; [done |]. rewrite (vi_ipt _ _ _ Hinv). lia. }
  set (k4 := set_IPT _ k3).
  assert (∀ id' v', entry_of k4 id' v' = if decide (id' = cur ∧ v' = v) then Some e2 else entry_of k id' v') as Hent.
  { intros id' v'. change (entry_of k4 id' v') with (entry_of k3 id' v').
    unfold k3. rewrite (entry_of_upd k2 cur v e1) by done. case_decide as Hc; [done |].
    rewrite Hent2. unfold k1. rewrite (entry_of_upd _ _ _ e) by done. by rewrite decide_False. }
  assert (same_shape k k4) as Hshape.
  { assert (same_shape k k1) as S1 by apply upd_entry_shape.
    assert (same_shape k1 k2) as S2 by (split; [by rewrite F1 | by rewrite F2]).
    assert (same_shape k2 k3) as S3 by apply upd_entry_shape.
    destruct (same_shape_trans _ _ _ (same_shape_trans _ _ _ S1 S2) S3) as [H1 H2].
    split; [exact H1 | exact H2]. }
  assert (vm_machine k4 = set_mainMemory l (vm_machine k)) as Em4 by (simpl; congruence).
  rewrite Em in F7.
  assert (machine_wf (vm_machine k4)) as Hwf4
    by (rewrite Em4; apply (with_mem_wf k l f); [apply (vi_machine _ _ _ Hinv) | done]).
  assert (∀ g j, 0 ≤ g < NumPhysPages → g ≠ f → 0 ≤ j < PageSize → mem_byte k4 g j = mem_byte k g j) as Hmem4.
  { intros g j Hg Hne Hj. unfold mem_byte. rewrite Em4. apply F7; [lia | done | done]. }
  assert (∀ j b, page_byte k cur cur v j = Some b → mem_byte k4 f j = Some b) as Hcont.
  { intros j b Hb. unfold mem_byte. simpl. rewrite Em3. by apply F10. }
  assert (vm_inv k4 cur None ∧ bytes_kept cur k k4) as [Hinv4 Hbytes4].
  { split; [apply (install_inv k k4 cur f v e) | apply (install_bytes k k4 cur f v e)]; try done.
    all: simpl; try congruence.
    all: try (rewrite Em3, F6, Em; done).
    all: intros s Hs Hd; rewrite ES3, F9 by done; by rewrite ES. }
  eapply wp_mono; [apply (map_tlb_spec k4 cur v e2); try done |].
  - by rewrite Hent, decide_True.
  - intros i t Ht Hv. assert (TLB k4 = TLB k) as ETk by (unfold TLB; by rewrite Em4).
    rewrite ETk in Ht. by eapply (install_no_slot k cur f v e).
  - intros [] k5 (H1 & H2 & H3 & H4). split; [done |]. split; [by eapply bytes_kept_trans |].
    split; [by eapply same_shape_trans | done].
Qed.

(** ** The three ways to fill a frame *)

Section fill.
Context (k : VM) (cur f v : Z) (e : TranslationEntry).
Hypothesis Hinv : vm_inv k cur (Some f).
Hypothesis He : entry_of k cur v = Some e.
Hypothesis Hve : valid e = false.
Let k1 := upd_entry cur v (set_physicalPage f e) k.

Lemma fill_mem_length : length (mainMemory (vm_machine k1)) = Z.to_nat MemorySize.
Proof.
  unfold k1. rewrite (proj1 (upd_entry_fields _ _ _ _)). apply (mw_memory _ (vi_machine _ _ _ Hinv)).
Qed.

Lemma fill_bounds : 0 ≤ f < NumPhysPages.
Proof. by apply (vi_hole _ _ _ Hinv). Qed.

(** A copy of [bs] at the start of the frame. *)
Lemma fill_copy bs (k2 : VM) : Forall byte_range bs → (length bs ≤ Z.to_nat PageSize)%nat →
  vm_machine k2 = vm_machine k1 →
  wp (mem_write (f * PageSize) bs)
     (λ _ k3, ∃ l, k3 = with_mem l k2 ∧ frame_only f (mainMemory (vm_machine k1)) l ∧
                   ∀ j b, 0 ≤ j < PageSize → bs !! Z.to_nat j = Some b → mem_byte k3 f j = Some b) k2.
Proof.
  intros Hb Hlen Em. pose proof fill_mem_length as Hml. pose proof fill_bounds as Hf.
  eapply wp_run; [apply mem_write_run; rewrite ?Em; unfold MemorySize, NumPhysPages, PageSize, SectorSize in *; lia |].
  rewrite Em. eexists. split; [done |]. split.
  - replace (f * PageSize) with (f * PageSize + 0) by lia.
    apply frame_only_splice; try done. unfold PageSize, SectorSize in *. lia.
  - intros j b Hj Hbj. unfold mem_byte. simpl. apply lookup_lt_Some in Hbj as Hlt.
    unfold MemorySize, NumPhysPages, PageSize, SectorSize in *.
    rewrite lookup_splice_in by lia. rewrite <- Hbj. f_equal. lia.
Qed.

Lemma fill_swap_unchanged s : bit (SWAPBitMap k1) s = bit (SWAPBitMap k) s.
Proof. unfold k1. by rewrite (proj1 (proj2 (proj2 (upd_entry_fields _ _ _ _)))). Qed.

Lemma fill_swap_wf : BitMap_wf (SWAPBitMap k1) ∧ numBits (SWAPBitMap k1) = SWAPSize.
Proof.
  unfold k1. rewrite (proj1 (proj2 (proj2 (upd_entry_fields _ _ _ _)))). apply (vi_swap _ _ _ Hinv).
Qed.

Lemma fill_unix : unix k1 = unix k.
Proof. unfold k1. apply (proj1 (proj2 (proj2 (proj2 (proj2 (upd_entry_fields _ _ _ _)))))). Qed.

(** From the executable. *)
Lemma fill_file a fl : spaces k !! cur = Some a → unix k !! filename a = Some fl → dirty e = false →
  wp (read_page (mkOpenFile (filename a) 0) (noff_of_bytes false (pread_bytes fl 0 noff_size)) v f)
     (λ _ k2, filled k k1 k2 cur f v e) k1.
Proof.
  intros Ha Hfl Hd. destruct (entry_range _ _ _ _ _ _ Hinv He) as (a' & Ha' & Hv). simplify_eq.
  destruct (sw_file _ _ (vi_spaces _ _ _ Hinv _ _ Ha)) as (fl' & Hfl' & _ & Hoff). simplify_eq.
  specialize (Hoff v Hv). unfold read_page. fold (page_offset fl v). wp_step.
  eapply wp_run; [apply (ReadAt_run _ _ fl); [by rewrite fill_unix | done] |].
  eapply wp_mono; [apply fill_copy; [by apply Forall_pread, (vi_bytes _ _ _ Hinv _ _ Hfl) | by apply length_pread | done] |].
  intros [] k2 (l & -> & Hl & Hcopy). split; try done.
  - by exists l.
  - apply fill_swap_wf.
  - intros j b Hb. assert (0 ≤ j < PageSize) as Hj.
    { unfold page_byte in Hb. rewrite He in Hb. simpl in Hb. by case_decide. }
    apply Hcopy; [done |]. unfold page_byte in Hb. rewrite He in Hb. simpl in Hb.
    rewrite decide_True, Hve, Hd in Hb by done. unfold file_byte in Hb. rewrite Ha in Hb. simpl in Hb.
    rewrite Hfl in Hb. simpl in Hb. case_decide; [| done].
    rewrite lookup_pread by (done || (unfold PageSize, SectorSize in *; lia)). rewrite <- Hb. f_equal. lia.
Qed.

(** Nothing: a page of uninitialised data or of the stack. *)
Lemma fill_none a : spaces k !! cur = Some a → noInitData a ≤ v → dirty e = false →
  wp (mret tt) (λ _ k2, filled k k1 k2 cur f v e) k1.
Proof.
  intros Ha Hv Hd. wp_steps. split; try done.
  - exists (mainMemory (vm_machine k1)). split; [| apply frame_only_refl]. by destruct (vm_machine k1).
  - apply fill_swap_wf.
  - intros j b Hb. exfalso. unfold page_byte in Hb. rewrite He in Hb. simpl in Hb. case_decide; [| done].
    rewrite Hve, Hd in Hb. unfold file_byte in Hb. rewrite Ha in Hb. simpl in Hb.
    destruct (unix k !! filename a); [| done]. simpl in Hb. by rewrite decide_False in Hb by lia.
Qed.

(** From the swap file. *)
Lemma fill_swap : dirty e = true →
  wp (readFromSwap f (physicalPage e)) (λ _ k2, filled k k1 k2 cur f v e) k1.
Proof.
  intros Hd. destruct (vi_swapped _ _ _ Hinv _ _ _ He Hve Hd) as (Hs & Hbit & _).
  destruct (vi_swapfile _ _ _ Hinv) as [sw Hsw]. pose proof fill_bounds as Hf.
  set (s := physicalPage e) in *. destruct fill_swap_wf as [Hswf Hsn].
  unfold readFromSwap, valid_frame. wp_step. apply wp_zoom.
  eapply wp_mono; [apply (Clear_spec _ s Hswf); by rewrite Hsn |]. intros [] sb (Hbwf & Hbn & Hb).
  rewrite Hsn in Hb, Hbn. set (k2 := set_SWAPBitMap sb k1).
  assert (unix k2 !! SWAPFILENAME = Some sw) as Hsw2 by (change (unix k2) with (unix k1); by rewrite fill_unix).
  wp_step. eapply wp_run; [by apply (open_run k2 _ sw) |].
  wp_step. apply wp_ASSERT; [rewrite !bool_decide_true by lia; done |]. cbv beta iota.
  wp_step. apply wp_ASSERT; [rewrite !bool_decide_false by lia; done |].
  wp_step. eapply wp_run; [apply (ReadAt_run k2 _ sw); [done | unfold PageSize, SectorSize; lia] |].
  wp_step. eapply wp_mono; [apply fill_copy;
    [by apply Forall_pread, (vi_bytes _ _ _ Hinv _ _ Hsw) | apply length_pread; unfold PageSize, SectorSize; lia | done] |].
  intros [] k3 (l & -> & Hl & Hcopy). wp_steps. split; try done.
  - by exists l.
  - intros s' Hs' Hne. simpl. rewrite Hb by done. rewrite decide_False by auto. done.
  - intros j b Hbj. unfold page_byte in Hbj. rewrite He in Hbj. simpl in Hbj. case_decide as Hj; [| done].
    rewrite Hve, Hd in Hbj. change (mem_byte (with_mem l k2) f j = Some b). apply Hcopy; [done |].
    unfold swap_byte in Hbj. rewrite Hsw in Hbj. simpl in Hbj. fold s in Hbj.
    rewrite lookup_pread by (unfold PageSize, SectorSize in *; lia). rewrite <- Hbj. f_equal.
    unfold PageSize, SectorSize in *. lia.
Qed.
End fill.

(** ** Making room *)

(** The common shape of the four branches of [load] that need a frame. *)
Definition acquire (drop : M VM unit) (map : Z → M VM unit) : M VM unit :=
  freeFrame ← on_MemBitMap BitMap_Find;
  if decide (freeFrame ≠ -1) then map freeFrame
  else
    victimDirty ← select_victim;
    if (victimDirty : bool) then
      swap_out_victim ;; freeFrame ← find_frame_again; map freeFrame
    else
      drop ;; freeFrame ← find_frame_again; map freeFrame.

Definition drops (cur : Z) (drop : M VM unit) : Prop := ∀ k id v e,
  vm_inv k cur None → 0 ≤ indexSWAPFIFO k < NumPhysPages → owner k (indexSWAPFIFO k) id v e →
  unmapped k (indexSWAPFIFO k) → dirty e = false → wp drop (λ _ k', evicted cur k k') k.

Lemma drops_victim cur zero : drops cur (drop_victim zero).
Proof.
  intros k id v e Hinv Hf Hown Hun Hd. eapply wp_mono; [by apply (drop_spec k cur id v e zero) |].
  intros [] k' [Hev _]. done.
Qed.

Lemma drops_victim_data cur : drops cur drop_victim_data.
Proof.
  intros k id v e Hinv Hf Hown Hun Hd.
  eapply wp_same_run; [by apply (drop_data_same k cur id v e) |]. by apply (drops_victim cur false k id v e).
Qed.

Lemma acquire_spec k cur drop map Q : vm_inv k cur None → swap_room k → drops cur drop →
  (∀ f k', paging cur k k' (Some f) → wp (map f) Q k') → wp (acquire drop map) Q k.
Proof.
  intros Hinv Hroom Hdrop Hmap. unfold acquire. wp_step. eapply wp_mono; [by apply (Mem_Find_spec k cur) |].
  intros r k1 [ES [(-> & -> & Hfull) | [Hr Hpg]]].
  2: { rewrite decide_True by lia. by apply Hmap. }
  rewrite decide_False by lia. wp_step. eapply wp_mono; [by apply (select_victim_spec k cur) |].
  intros d k2 (Hpg & Hf & Hun & EM & ES2 & id & v & e & Hown & ->).
  pose proof (pg_inv _ _ _ _ Hpg) as Hinv2.
  assert (swap_room k2) as Hroom2 by (unfold swap_room; by rewrite ES2).
  assert (∀ k3, evicted cur k2 k3 → wp (freeFrame ← find_frame_again; map freeFrame) Q k3) as Hrest.
  { intros k3 [Hpg3 Hfree]. wp_step. eapply wp_mono; [by apply (find_again_spec k3 cur), Hfree; apply Hpg3 |].
    intros g k4 [Hg Hpg4]. apply Hmap. exact (paging_trans _ _ _ _ _ _ Hpg (paging_trans _ _ _ _ _ _ Hpg3 Hpg4)). }
  destruct (dirty e) eqn:Hd.
  - wp_step. eapply wp_mono; [by apply (swap_out_spec k2 cur id v e) |]. intros [] k3. apply Hrest.
  - wp_step. eapply wp_mono; [by apply (Hdrop k2 id v e) |]. intros [] k3. apply Hrest.
Qed.

(** A branch of [load]: take a frame, fill it, map the page. *)
Lemma load_branch k cur v e drop fill : vm_inv k cur None → swap_room k → drops cur drop →
  entry_of k cur v = Some e → valid e = false →
  (∀ f k' e', vm_inv k' cur (Some f) → same_shape k k' → entry_of k' cur v = Some e' → valid e' = false →
     dirty e' = dirty e →
     wp (fill f (physicalPage e')) (λ _ k2, filled k' (upd_entry cur v (set_physicalPage f e') k') k2 cur f v e')
        (upd_entry cur v (set_physicalPage f e') k')) →
  wp (acquire drop (λ f, map_page cur v f (fill f))) (λ _ k', fault_served cur v k k') k.
Proof.
  intros Hinv Hroom Hdrop He Hve Hfill. eapply acquire_spec; try done.
  intros f k' [Hinv' Hbytes Htr]. destruct (tr_invalid _ _ Htr _ _ _ He Hve) as (e' & He' & Hve' & Hd' & _).
  eapply wp_mono; [apply (map_page_spec k' cur f v e'); try done |].
  - apply Hfill; try done. apply (tr_shape _ _ Htr).
  - intros [] k2 (H1 & H2 & H3 & H4). split; [done |]. split; [by eapply bytes_kept_trans |].
    split; [eapply same_shape_trans; [apply (tr_shape _ _ Htr) | done] | done].
Qed.

Lemma header_run k n fl : unix k !! n = Some fl → (Z.to_nat noff_size ≤ length fl)%nat →
  read_header false (mkOpenFile n 0) k = Done (noff_of_bytes false (pread_bytes fl 0 noff_size), k).
Proof.
  intros Hfl Hlen. unfold read_header, mbind, M_bind. rewrite (ReadAt_run _ _ fl) by done.
  rewrite decide_True; [done |]. rewrite length_pread_full; unfold noff_size in *; lia.
Qed.

Lemma shape_same_space k k' cur a : same_shape k k' → spaces k !! cur = Some a →
  ∃ a', spaces k' !! cur = Some a' ∧ filename a' = filename a ∧ noInitData a' = noInitData a.
Proof.
  intros Hss Ha. destruct (same_shape_lookup_r _ _ _ _ Hss Ha) as (a' & Ha' & Hsh).
  destruct (shape_fields _ _ Hsh) as (_ & E2 & E3 & _). exists a'. done.
Qed.

Lemma load_clean_spec k cur v e : vm_inv k cur None → swap_room k → entry_of k cur v = Some e →
  valid e = false → dirty e = false → wp (load_clean_page false cur v) (λ _ k', fault_served cur v k k') k.
Proof.
  intros Hinv Hroom He Hve Hd. destruct (entry_range _ _ _ _ _ _ Hinv He) as (a & Ha & Hv).
  pose proof (vi_spaces _ _ _ Hinv _ _ Ha) as Hsw. destruct (sw_file _ _ Hsw) as (fl & Hfl & Hlen & _).
  pose proof (sw_segments _ _ Hsw) as Hseg. pose proof (sw_name _ _ Hsw) as Hname.
  unfold load_clean_page. wp_step. eapply wp_run; [by apply space_run |]. wp_steps.
  pose proof (fault_count_sim cur k) as Hsim. set (k1 := add_pageFault k) in *.
  pose proof (paging_sim _ _ _ _ Hinv Hsim) as [Hinv1 Hb1 Ht1].
  assert (∀ c : M VM unit, wp c (λ _ k', fault_served cur v k1 k') k1 → wp c (λ _ k', fault_served cur v k k') k1) as Hlift.
  { intros c Hc. eapply wp_mono; [exact Hc |]. intros [] k' (H1 & H2 & H3 & H4). split; [done |].
    split; [exact (bytes_kept_trans _ _ _ _ Hb1 H2) |]. split; [| done]. eapply same_shape_trans; [apply (tr_shape _ _ Ht1) | done]. }
  eapply wp_run; [by apply (open_run k1 _ fl) |]. cbv beta iota. wp_step.
  eapply wp_run; [by apply (header_run k1 _ fl) |]. apply Hlift. clear Hlift.
  assert (∀ f k' e', vm_inv k' cur (Some f) → same_shape k1 k' → entry_of k' cur v = Some e' → valid e' = false →
    dirty e' = dirty e →
    wp (read_page (mkOpenFile (filename a) 0) (noff_of_bytes false (pread_bytes fl 0 noff_size)) v f)
       (λ _ k2, filled k' (upd_entry cur v (set_physicalPage f e') k') k2 cur f v e')
       (upd_entry cur v (set_physicalPage f e') k')) as Hfile.
  { intros f k' e' Hinv' Hss He' Hve' Hd'. destruct (shape_same_space _ _ _ _ Hss Ha) as (a' & Ha' & En & _).
    rewrite <- En. apply fill_file; try done; [| congruence]. rewrite (ss_unix _ _ Hss) by (by rewrite En). by rewrite En. }
  case_decide; [| case_decide; [| rewrite decide_True by lia]].
  - by apply (load_branch k1 cur v e _ (λ f _, read_page _ _ v f)); [| | apply drops_victim | | | apply Hfile].
  - by apply (load_branch k1 cur v e _ (λ f _, read_page _ _ v f)); [| | apply drops_victim_data | | | apply Hfile].
  - apply (load_branch k1 cur v e _ (λ f _, mret tt)); try done; [apply drops_victim |].
    intros f k' e' Hinv' Hss He' Hve' Hd'. destruct (shape_same_space _ _ _ _ Hss Ha) as (a' & Ha' & _ & En).
    apply (fill_none k' cur f v e' Hinv' He' Hve' a'); [done | lia | congruence].
Qed.

Lemma load_swapped_spec k cur v e : vm_inv k cur None → swap_room k → entry_of k cur v = Some e →
  valid e = false → dirty e = true → wp (load_swapped_page cur v) (λ _ k', fault_served cur v k k') k.
Proof.
  intros Hinv Hroom He Hve Hd.
  apply (load_branch k cur v e _ (λ f old, readFromSwap f old)); try done; [apply drops_victim |].
  intros f k' e' Hinv' Hss He' Hve' Hd'. apply fill_swap; congruence.
Qed.

Lemma load_spec k cur v e : vm_inv k cur None → swap_room k → entry_of k cur v = Some e → no_slot k v →
  wp (load false cur v) (λ _ k', fault_served cur v k k') k.
Proof.
  intros Hinv Hroom He Hno. unfold load. wp_step. eapply wp_run; [by apply pt_get_run |].
  destruct (valid e) eqn:Hve, (dirty e) eqn:Hd; cbn [andb negb].
  - by apply (map_tlb_spec k cur v e).
  - by apply (map_tlb_spec k cur v e).
  - by apply (load_swapped_spec k cur v e).
  - by apply (load_clean_spec k cur v e).
Qed.
