(* ===== verification/VMSpaces.v ===== *)
(** * Address spaces come and go

    The state after [Initialize] satisfies the paging invariant, loading an
    executable into a new address space keeps it, and so does a context switch
    ([SaveState], [RestoreState]) when every slot of the TLB is valid. *)

From stdpp Require Import base gmap list numbers strings list_numbers.
From Stdlib Require Import ZArith Lia.
From S2P Require Import Prelude BitMap FileStub Machine MachineFacts AddrSpace VMInv VMClock VMPaging VMLoad.

(** ** Start-up *)

Definition TLB_empty (k : VM) : Prop := ∀ i t, TLB k !! i = Some t → valid t = false.

Lemma TLB_empty_dirty k v : TLB_empty k → tlb_dirty k v = false.
Proof.
  intros Hem. apply not_true_iff_false. intros (i & t & Ht & Hv & _)%tlb_dirty_spec.
  rewrite (Hem _ _ Ht) in Hv. done.
Qed.

Lemma Initialize_spec m mg sg fs cur : machine_wf m →
  (∃ t, tlb m = Some t ∧ length t = Z.to_nat TLBSize ∧ Forall (λ e, valid e = false) t) →
  length mg = 1%nat → Forall (λ w, 0 ≤ w < 2 ^ 32) mg → length sg = 2%nat → Forall (λ w, 0 ≤ w < 2 ^ 32) sg →
  is_Some (fs !! SWAPFILENAME) → (∀ n f, fs !! n = Some f → Forall byte_range f) →
  ∃ k, VM_Initialize m mg sg fs = Done k ∧ vm_inv k cur None ∧ swap_room k ∧ TLB_empty k ∧
       spaces k = ∅ ∧ unix k = fs.
Proof.
  intros Hwf (t & Ht & Hlt & Hinvalid) Hmg Hmg' Hsg Hsg' Hswap Hfs.
  destruct (new_spec mg NumPhysPages) as (mb & Emb & Hmwf & Hmn & Hmb); [done | by rewrite Hmg | done |].
  destruct (new_spec sg SWAPSize) as (sb & Esb & Hswf & Hsn & Hsb); [done | by rewrite Hsg | done |].
  unfold VM_Initialize. rewrite Emb, Esb. eexists. split; [done |].
  set (k := mkVM _ _ _ _ _ _ _ _ _ _ _ _ _).
  assert (∀ id v, entry_of k id v = None) as Hnone by done.
  assert (TLB_empty k) as Hem.
  { intros i t0 Ht0. unfold TLB in Ht0. simpl in Ht0. rewrite Ht in Ht0. simpl in Ht0.
    rewrite Forall_forall in Hinvalid. by eapply Hinvalid, list_elem_of_lookup_2. }
  split; [| split; [exists 0; split; [done | by apply Hsb] | split; [done | done]]].
  split; try done.
  - by exists t.
  - intros f Hf Hb. simpl in Hb. rewrite Hmb in Hb by done. done.
  - intros i t0 Ht0 Hv0. rewrite (Hem _ _ Ht0) in Hv0. done.
  - intros i j t1 t2 H1 H2 Hv1. rewrite (Hem _ _ H1) in Hv1. done.
Qed.

(** ** Loading an executable *)

(** What [load] needs of an executable file. *)
Record noff_wf (f : list Z) (h : NoffHeader) : Prop := {
  nw_length : (Z.to_nat noff_size ≤ length f)%nat;
  nw_header : noff_of_bytes false (pread_bytes f 0 noff_size) = h;
  nw_magic : noffMagic h = NOFFMAGIC;
  nw_sizes : 0 ≤ seg_size (code h) ∧ 0 ≤ seg_size (noff_initData h) ∧ 0 ≤ seg_size (uninitData h);
  nw_place : 0 ≤ inFileAddr (code h) ∧
    inFileAddr (code h) + seg_size (code h) + seg_size (noff_initData h) + seg_size (uninitData h) < 2 ^ 30
}.

(** The address space of an executable. *)
Definition noff_space (h : NoffHeader) (fn : string) : AddrSpace :=
  let size := seg_size (code h) + seg_size (noff_initData h) + seg_size (uninitData h) + UserStackSize in
  let pages := divRoundUp size PageSize in
  mkAddrSpace (divRoundUp (seg_size (code h)) PageSize)
    (divRoundUp (seg_size (code h)) PageSize + divRoundUp (seg_size (noff_initData h)) PageSize)
    (pages - divRoundUp UserStackSize PageSize) fn pages (fresh_entry <$> seqZ 0 pages).

Lemma AddrSpace_new_run k id fn f h : unix k !! fn = Some f → noff_wf f h →
  AddrSpace_new false id (mkOpenFile fn 0) fn k =
    Done (tt, set_spaces (<[id := noff_space h fn]> (spaces k)) k).
Proof.
  intros Hf [N1 N2 N3 N4 N5]. unfold AddrSpace_new, mbind, M_bind.
  rewrite (header_run k fn f) by done. rewrite N2.
  replace (bool_decide (noffMagic h ≠ NOFFMAGIC)) with false by (rewrite N3; reflexivity).
  cbv beta iota zeta. cbn [andb]. unfold ASSERT. rewrite N3, bool_decide_true by done.
  unfold mret, M_ret, modify.
  pose proof (divRoundUp_spec (seg_size (code h)) PageSize) as D1.
  pose proof (divRoundUp_spec (seg_size (noff_initData h)) PageSize) as D2.
  pose proof (divRoundUp_spec (seg_size (code h) + seg_size (noff_initData h) + seg_size (uninitData h) + UserStackSize)
                PageSize) as D3.
  assert (divRoundUp UserStackSize PageSize = 8) as D4 by reflexivity.
  unfold UserStackSize, PageSize, SectorSize in *.
  rewrite (u32_small (_ + _ + _ + 1024)) by lia. rewrite D4.
  rewrite (u32_small (divRoundUp (seg_size (code h)) 128)) by lia.
  rewrite (u32_small (_ + divRoundUp _ 128)) by lia.
  rewrite (u32_small (divRoundUp (_ + _ + _ + 1024) 128)) by lia. rewrite u32_small by lia. done.
Qed.

Lemma entry_fresh pages (n : nat) e : (fresh_entry <$> seqZ 0 pages) !! n = Some e →
  e = fresh_entry (Z.of_nat n).
Proof.
  rewrite list_lookup_fmap. destruct (seqZ 0 pages !! n) as [x |] eqn:E; [| done]. simpl. intros ?; simplify_eq.
  apply lookup_seqZ in E as [-> _]. done.
Qed.

Lemma noff_space_wf k f h fn : unix k !! fn = Some f → fn ≠ SWAPFILENAME → noff_wf f h →
  space_wf k (noff_space h fn).
Proof.
  intros Hf Hfn [N1 N2 N3 N4 N5].
  pose proof (divRoundUp_spec (seg_size (code h)) PageSize) as D1.
  pose proof (divRoundUp_spec (seg_size (noff_initData h)) PageSize) as D2.
  pose proof (divRoundUp_spec (seg_size (code h) + seg_size (noff_initData h) + seg_size (uninitData h) + UserStackSize)
                PageSize) as D3.
  unfold UserStackSize, PageSize, SectorSize in *. split; simpl.
  - unfold UserStackSize, PageSize, SectorSize. rewrite length_fmap, length_seqZ. lia.
  - unfold UserStackSize, PageSize, SectorSize. lia.
  - done.
  - exists f. split; [done |]. split; [done |]. intros v Hv. unfold page_offset. rewrite N2.
    unfold UserStackSize, PageSize, SectorSize in *. rewrite s32_small by lia. lia.
Qed.

Section new_space.
Context (k : VM) (cur id : Z) (fn : string) (f : list Z) (h : NoffHeader).
Hypothesis Hinv : vm_inv k cur None.
Hypothesis Hid : spaces k !! id = None.
Hypothesis Hf : unix k !! fn = Some f.
Hypothesis Hfn : fn ≠ SWAPFILENAME.
Hypothesis Hnoff : noff_wf f h.
Let k' := set_spaces (<[id := noff_space h fn]> (spaces k)) k.

Lemma new_entry id' v e : entry_of k' id' v = Some e →
  (id' ≠ id ∧ entry_of k id' v = Some e) ∨ (id' = id ∧ e = fresh_entry v).
Proof.
  unfold entry_of, k'. simpl. destruct (decide (id' = id)) as [-> |].
  - rewrite lookup_insert_eq. simpl. case_decide; [| done]. intros He. right. split; [done |].
    rewrite (entry_fresh _ _ _ He). f_equal. lia.
  - rewrite lookup_insert_ne by done. auto.
Qed.

Lemma new_entry_old id' v e : entry_of k id' v = Some e → id' ≠ id ∧ entry_of k' id' v = Some e.
Proof.
  intros He. assert (id' ≠ id) as Hne.
  { intros ->. apply entry_of_Some in He as (a & Ha & _). congruence. }
  split; [done |]. unfold entry_of, k'. simpl. by rewrite lookup_insert_ne.
Qed.

Lemma new_file_byte id' v j : id' ≠ id → file_byte k' id' v j = file_byte k id' v j.
Proof. intros Hne. unfold file_byte, k'. simpl. by rewrite lookup_insert_ne. Qed.

Lemma new_space_inv : vm_inv k' cur None.
Proof.
  pose proof Hinv as [I1 I2 I3 I4 I5 I6 I7 I8 I9 I11 I12 I13 I14 I15 I16 I17 I18 I19].
  split; try done.
  - intros id' a. unfold k'. simpl. destruct (decide (id' = id)) as [-> |].
    + rewrite lookup_insert_eq. intros ?; simplify_eq. by apply (noff_space_wf _ f).
    + rewrite lookup_insert_ne by done. intros Ha. destruct (I9 _ _ Ha). by split.
  - intros id' v e [[_ He] | [_ ->]]%new_entry; [by apply (I11 id') | done].
  - intros id' v e [[_ He] | [_ ->]]%new_entry Hv; [by apply I12 | done].
  - intros g Hg Hb _. destruct (I13 g Hg Hb) as (id0 & v0 & e0 & HI & He0 & Hrest); [done |].
    exists id0, v0, e0. split; [done |]. split; [by apply new_entry_old | done].
  - intros id' v e [[_ He] | [_ ->]]%new_entry Hv Hd; [by apply (I15 id' v) | done].
  - intros id1 v1 e1 id2 v2 e2 [[_ He1] | [_ ->]]%new_entry Hv1 Hd1; [| done].
    intros [[_ He2] | [_ ->]]%new_entry Hv2 Hd2; [| done]. by apply (I16 id1 v1 e1 id2 v2 e2).
  - intros i t Ht Hv. destruct (I17 i t Ht Hv) as (e & He & Hrest). exists e.
    split; [by apply new_entry_old | done].
  - intros id' v e j b [[Hne He] | [_ ->]]%new_entry Hv; [| done]. rewrite new_file_byte by done.
    by apply (I19 id' v e).
Qed.

Lemma new_space_bytes : bytes_kept cur k k'.
Proof.
  intros id' v j b. unfold page_byte. destruct (entry_of k id' v) as [e |] eqn:He; [| done].
  destruct (new_entry_old _ _ _ He) as [Hne ->]. simpl. by rewrite new_file_byte.
Qed.
End new_space.

(** ** Context switches *)

Definition with_tlb (t : list TranslationEntry) (k : VM) : VM :=
  set_vm_machine (set_tlb (Some t) (vm_machine k)) k.

Lemma new_tlb_spec k g : length g = Z.to_nat TLBSize →
  wp (new_tlb g)
     (λ _ k', ∃ t, k' = with_tlb t k ∧ length t = Z.to_nat TLBSize ∧ Forall (λ e, valid e = false) t) k.
Proof.
  intros Hg. unfold new_tlb. wp_steps. fold (with_tlb g k).
  eapply wp_mono; [apply (wp_for (λ i k', ∃ t, k' = with_tlb t k ∧ length t = Z.to_nat TLBSize ∧
    ∀ j e, (j < Z.to_nat i)%nat → t !! j = Some e → valid e = false)) |].
  - exists g. split; [done |]. split; [done |]. intros; lia.
  - intros i k' Hi (t & -> & Hl & Hinv). simpl in Hi.
    destruct (lookup_lt_is_Some_2 t (Z.to_nat i)) as [e He]; [unfold TLBSize in *; lia |].
    eapply wp_run; [apply (tlb_modify_run _ _ e); [lia | done] |].
    exists (<[Z.to_nat i := set_valid false e]> t). split; [done |]. split; [by rewrite length_insert |].
    intros j e' Hj. destruct (decide (j = Z.to_nat i)) as [-> |].
    + rewrite list_lookup_insert_eq by (unfold TLBSize in *; lia). intros; by simplify_eq.
    + rewrite list_lookup_insert_ne by done. apply Hinv. lia.
  - intros [] k' (t & -> & Hl & Hall). exists t. split; [done |]. split; [done |].
    apply Forall_lookup. intros j e He. apply (Hall j); [| done]. apply lookup_lt_Some in He.
    unfold TLBSize in *. simpl. lia.
Qed.

Section flush.
Context (k : VM) (cur : Z) (t : list TranslationEntry).
Hypothesis Hinv : vm_inv k cur None.
Hypothesis Hsaved : ∀ i, 0 ≤ i < TLBSize → slot_saved k cur i.
Hypothesis Hlen : length t = Z.to_nat TLBSize.
Hypothesis Hempty : Forall (λ e, valid e = false) t.
Let k' := with_tlb t k.

Lemma flush_TLB_empty : TLB_empty k'.
Proof.
  intros i e He. rewrite Forall_forall in Hempty. eapply Hempty, list_elem_of_lookup_2. exact He.
Qed.

Lemma flush_eff id v e : entry_of k id v = Some e →
  dirty e || (bool_decide (id = cur) && tlb_dirty k v) = dirty e.
Proof.
  intros He. destruct (dirty e) eqn:Hd; [done |]. simpl. apply not_true_iff_false.
  intros [Hid Ht]%andb_true_iff. split_bool. subst id.
  apply tlb_dirty_spec in Ht as (i & s & Hi & Hv & <- & Hds).
  destruct (vi_tlb _ _ _ Hinv) as (l & Hl & Hll). apply lookup_lt_Some in Hi as Hlt.
  unfold TLB in Hlt. rewrite Hl in Hlt. simpl in Hlt.
  destruct (Hsaved (Z.of_nat i)) with (t := s) as (e0 & He0 & Hd0); [unfold TLBSize in *; lia | by rewrite Nat2Z.id | done |].
  congruence.
Qed.

Lemma flush_inv cur' : vm_inv k' cur' None.
Proof.
  pose proof Hinv as [I1 I2 I3 I4 I5 I6 I7 I8 I9 I11 I12 I13 I14 I15 I16 I17 I18 I19].
  pose proof flush_TLB_empty as Hem. destruct I2 as (t0 & Ht0 & Hl0).
  split; try done.
  - eapply set_tlb_wf; [exact Ht0 | congruence | done].
  - by exists t.
  - intros id a. by apply (same_shape_space_wf k).
  - intros i s Hs Hv. rewrite (Hem _ _ Hs) in Hv. done.
  - intros i j s1 s2 H1 H2 Hv. rewrite (Hem _ _ H1) in Hv. done.
  - intros id v e j b He Hv Hd _ Hj Hb. apply (I19 id v e j b); try done.
    intros [-> Ht]. pose proof (flush_eff cur v e He) as E. rewrite Hd, Ht, bool_decide_true in E; done.
Qed.

Lemma flush_bytes cur' id v j b : page_byte k cur id v j = Some b → page_byte k' cur' id v j = Some b.
Proof.
  unfold page_byte. change (entry_of k' id v) with (entry_of k id v).
  destruct (entry_of k id v) as [e |] eqn:He; [| done]. simpl. case_decide; [| done].
  rewrite (flush_eff id v e He), (TLB_empty_dirty k' v flush_TLB_empty), andb_false_r, orb_false_r. done.
Qed.
End flush.

(** The write-back loop of [SaveState]. *)
Lemma save_loop_spec k cur : vm_inv k cur None → TLB_full k →
  wp (for_range 0 (Z.to_nat TLBSize) (λ i,
        t ← tlb_get i;
        pt_modify cur (virtualPage t) (set_use (use t)) ;;
        pt_modify cur (virtualPage t) (set_dirty (dirty t))))
     (λ _ k', vm_sim cur k k' ∧ TLB k' = TLB k ∧ ∀ i, 0 ≤ i < TLBSize → slot_saved k' cur i) k.
Proof.
  intros Hinv Hfull.
  eapply wp_mono; [apply (wp_for (λ n k', vm_sim cur k k' ∧ TLB k' = TLB k ∧ ∀ i, 0 ≤ i < n → slot_saved k' cur i)) |].
  - split; [apply vm_sim_refl |]. split; [done |]. intros; lia.
  - intros i k1 Hi (Hs1 & ET1 & Hsv). simpl in Hi.
    pose proof (sim_inv _ _ _ _ Hinv Hs1) as Hinv1.
    destruct (TLB_slot _ _ _ i Hinv1) as [t Ht]; [unfold TLBSize in *; lia |].
    pose proof (Hfull (Z.to_nat i) t) as Hv. rewrite <- ET1 in Hv. specialize (Hv Ht).
    destruct (vi_tlb_ok _ _ _ Hinv1 _ _ Ht Hv) as (e & He & _).
    wp_step. eapply wp_run; [apply tlb_get_run; [lia | done] |].
    wp_step. eapply wp_run; [by apply pt_modify_run |].
    set (e1 := set_use (use t) e). set (k2 := upd_entry cur (virtualPage t) e1 k1).
    assert (entry_of k2 cur (virtualPage t) = Some e1) as He1
      by (unfold k2; rewrite (entry_of_upd _ _ _ e) by done; by rewrite decide_True).
    eapply wp_run; [by apply pt_modify_run |]. set (e2 := set_dirty (dirty t) e1).
    set (k3 := upd_entry cur (virtualPage t) e2 k2).
    assert (TLB k2 = TLB k1) as ET2 by (unfold TLB, k2; by rewrite (proj1 (upd_entry_fields _ _ _ _))).
    assert (TLB k3 = TLB k1) as ET3 by (unfold TLB, k3; rewrite (proj1 (upd_entry_fields _ _ _ _)); exact ET2).
    assert (vm_sim cur k1 k3) as Hs3.
    { eapply vm_sim_trans; [eapply upd_entry_sim; [done | apply entry_sim_use] |].
      eapply upd_entry_sim; [done |]. eapply entry_sim_sync; [by rewrite ET2 | done | done]. }
    split; [by eapply vm_sim_trans |]. split; [congruence |].
    intros j Hj t' Ht' Hv'. rewrite ET3 in Ht'.
    unfold k3. rewrite (entry_of_upd2 k1 cur (virtualPage t) e e1 e2) by done. case_decide as Hc.
    + assert (Z.to_nat j = Z.to_nat i) as Eji
        by (eapply (vi_tlb_inj _ _ _ Hinv1); [exact Ht' | exact Ht | done | done | apply Hc]).
      rewrite Eji, Ht in Ht'. simplify_eq. by exists e2.
    + apply (Hsv j); [| done | done]. destruct (decide (j = i)) as [-> |]; [| lia].
      exfalso. apply Hc. by simplify_eq.
  - intros [] k' Hk'. exact Hk'.
Qed.

Lemma SaveState_spec k cur g : vm_inv k cur None → TLB_full k → length g = Z.to_nat TLBSize →
  wp (SaveState cur g)
     (λ _ k', TLB_empty k' ∧ ∀ cur', vm_inv k' cur' None ∧
        ∀ id v j b, page_byte k cur id v j = Some b → page_byte k' cur' id v j = Some b) k.
Proof.
  intros Hinv Hfull Hg. unfold SaveState. wp_step. eapply wp_mono; [by apply save_loop_spec |].
  intros [] k1 (Hs & ET & Hsv). pose proof (sim_inv _ _ _ _ Hinv Hs) as Hinv1.
  eapply wp_mono; [by apply new_tlb_spec |]. intros [] k2 (t & -> & Hl & Hem).
  split; [by apply (flush_TLB_empty k1 t) |]. intros cur'. split; [by apply (flush_inv k1 cur t) |].
  intros id v j b Hb. apply (flush_bytes k1 cur t); try done. by apply (sim_bytes _ _ _ _ Hinv Hs).
Qed.

(** [RestoreState] of the next space, after [SaveState] of the previous one. *)
Lemma RestoreState_spec k cur g : vm_inv k cur None → TLB_empty k → length g = Z.to_nat TLBSize →
  wp (RestoreState cur g)
     (λ _ k', TLB_empty k' ∧ vm_inv k' cur None ∧ bytes_kept cur k k' ∧ indexTLBSndChc k' = 0) k.
Proof.
  intros Hinv Hem Hg. unfold RestoreState. wp_steps.
  set (k1 := set_hands_on_restore k).
  assert (vm_sim cur k k1) as Hs.
  { split; try done; [| simpl; unfold TLBSize; lia].
    intros id v. change (entry_of k1 id v) with (entry_of k id v).
    destruct (entry_of k id v); [| done]. repeat split; auto. }
  pose proof (sim_inv _ _ _ _ Hinv Hs) as Hinv1.
  assert (∀ i, 0 ≤ i < TLBSize → slot_saved k1 cur i) as Hsv.
  { intros i _ t Ht Hv. rewrite (Hem _ _ Ht) in Hv. done. }
  eapply wp_mono; [by apply new_tlb_spec |]. intros [] k2 (t & -> & Hl & Ht).
  split; [by apply (flush_TLB_empty k1 t) |]. split; [by apply (flush_inv k1 cur t) |]. split; [| done].
  intros id v j b Hb. by apply (flush_bytes k1 cur t).
Qed.
