(* ===== verification/Mips.v ===== *)
(** * The MIPS instruction simulator (machine/mipssim.h, machine/mipssim.cc)

    [Decode] and [exec] are [Instruction::Decode] and the [switch] of
    [Machine::OneInstruction].  The switch is split into one function per
    group of cases.  Where the source calls [RaiseException] (itself or inside
    [ReadMem]/[WriteMem]) and returns, [exec] returns [Raised] and
    [OneInstruction] raises the exception as its last action. *)

From stdpp Require Import base gmap list numbers list_numbers.
From Stdlib Require Import ZArith Lia.
From S2P Require Import Prelude Machine.

(** ** Operation codes and decoding tables *)

Inductive OpCode :=
| OP_ADD | OP_ADDI | OP_ADDIU | OP_ADDU | OP_AND | OP_ANDI
| OP_BEQ | OP_BGEZ | OP_BGEZAL | OP_BGTZ | OP_BLEZ | OP_BLTZ | OP_BLTZAL | OP_BNE
| OP_DIV | OP_DIVU | OP_J | OP_JAL | OP_JALR | OP_JR
| OP_LB | OP_LBU | OP_LH | OP_LHU | OP_LUI | OP_LW | OP_LWL | OP_LWR
| OP_MFHI | OP_MFLO | OP_MTHI | OP_MTLO | OP_MULT | OP_MULTU
| OP_NOR | OP_OR | OP_ORI | OP_RFE
| OP_SB | OP_SH | OP_SLL | OP_SLLV | OP_SLT | OP_SLTI | OP_SLTIU | OP_SLTU
| OP_SRA | OP_SRAV | OP_SRL | OP_SRLV | OP_SUB | OP_SUBU
| OP_SW | OP_SWL | OP_SWR | OP_XOR | OP_XORI | OP_SYSCALL | OP_UNIMP | OP_RES
| SPECIAL | BCOND.

#[export] Instance OpCode_eq_dec : EqDecision OpCode.
Proof. solve_decision. Defined.

Inductive Format := IFMT | JFMT | RFMT.

Definition IndexToAddr (x : Z) : Z := s32 (Z.shiftl x 2).
Definition SIGN_BIT : Z := 0x80000000.
Definition R31 : Z := 31.

Definition opTable : list (OpCode * Format) := [
  (SPECIAL, RFMT); (BCOND, IFMT); (OP_J, JFMT); (OP_JAL, JFMT);
  (OP_BEQ, IFMT); (OP_BNE, IFMT); (OP_BLEZ, IFMT); (OP_BGTZ, IFMT);
  (OP_ADDI, IFMT); (OP_ADDIU, IFMT); (OP_SLTI, IFMT); (OP_SLTIU, IFMT);
  (OP_ANDI, IFMT); (OP_ORI, IFMT); (OP_XORI, IFMT); (OP_LUI, IFMT);
  (OP_UNIMP, IFMT); (OP_UNIMP, IFMT); (OP_UNIMP, IFMT); (OP_UNIMP, IFMT);
  (OP_RES, IFMT); (OP_RES, IFMT); (OP_RES, IFMT); (OP_RES, IFMT);
  (OP_RES, IFMT); (OP_RES, IFMT); (OP_RES, IFMT); (OP_RES, IFMT);
  (OP_RES, IFMT); (OP_RES, IFMT); (OP_RES, IFMT); (OP_RES, IFMT);
  (OP_LB, IFMT); (OP_LH, IFMT); (OP_LWL, IFMT); (OP_LW, IFMT);
  (OP_LBU, IFMT); (OP_LHU, IFMT); (OP_LWR, IFMT); (OP_RES, IFMT);
  (OP_SB, IFMT); (OP_SH, IFMT); (OP_SWL, IFMT); (OP_SW, IFMT);
  (OP_RES, IFMT); (OP_RES, IFMT); (OP_SWR, IFMT); (OP_RES, IFMT);
  (OP_UNIMP, IFMT); (OP_UNIMP, IFMT); (OP_UNIMP, IFMT); (OP_UNIMP, IFMT);
  (OP_RES, IFMT); (OP_RES, IFMT); (OP_RES, IFMT); (OP_RES, IFMT);
  (OP_UNIMP, IFMT); (OP_UNIMP, IFMT); (OP_UNIMP, IFMT); (OP_UNIMP, IFMT);
  (OP_RES, IFMT); (OP_RES, IFMT); (OP_RES, IFMT); (OP_RES, IFMT) ].

Definition specialTable : list OpCode := [
  OP_SLL; OP_RES; OP_SRL; OP_SRA; OP_SLLV; OP_RES; OP_SRLV; OP_SRAV;
  OP_JR; OP_JALR; OP_RES; OP_RES; OP_SYSCALL; OP_UNIMP; OP_RES; OP_RES;
  OP_MFHI; OP_MTHI; OP_MFLO; OP_MTLO; OP_RES; OP_RES; OP_RES; OP_RES;
  OP_MULT; OP_MULTU; OP_DIV; OP_DIVU; OP_RES; OP_RES; OP_RES; OP_RES;
  OP_ADD; OP_ADDU; OP_SUB; OP_SUBU; OP_AND; OP_OR; OP_XOR; OP_NOR;
  OP_RES; OP_RES; OP_SLT; OP_SLTU; OP_RES; OP_RES; OP_RES; OP_RES;
  OP_RES; OP_RES; OP_RES; OP_RES; OP_RES; OP_RES; OP_RES; OP_RES;
  OP_RES; OP_RES; OP_RES; OP_RES; OP_RES; OP_RES; OP_RES; OP_RES ].

(** ** Decoding *)

Record Instruction := mkInstruction {
  opCode : OpCode;
  i_rs : Z;
  i_rt : Z;
  i_rd : Z;
  extra : Z            (* int: immediate, target, shamt or offset *)
}.

(** [value] is the instruction as an [unsigned int]. *)
Definition decode_extra (value : Z) (format : Format) : Z :=
  match format with
  | IFMT =>
      let x := Z.land value 0xffff in
      if decide (Z.land x 0x8000 = 0) then x else s32 (Z.lor x 0xffff0000)
  | RFMT => Z.land (Z.shiftr value 6) 0x1f
  | JFMT => Z.land value 0x3ffffff
  end.

Definition decode_bcond (value : Z) : OpCode :=
  let i := Z.land value 0x1f0000 in
  if decide (i = 0) then OP_BLTZ
  else if decide (i = 0x10000) then OP_BGEZ
  else if decide (i = 0x100000) then OP_BLTZAL
  else if decide (i = 0x110000) then OP_BGEZAL
  else OP_UNIMP.

Definition Decode (value : Z) : outcome Instruction :=
  match rd opTable (Z.land (Z.shiftr value 26) 0x3f) with
  | Fault f => Fault f
  | Done (op, format) =>
      let mk o := mkInstruction o (Z.land (Z.shiftr value 21) 0x1f)
                    (Z.land (Z.shiftr value 16) 0x1f) (Z.land (Z.shiftr value 11) 0x1f)
                    (decode_extra value format) in
      match op with
      | SPECIAL =>
          match rd specialTable (Z.land value 0x3f) with
          | Done o => Done (mk o)
          | Fault f => Fault f
          end
      | BCOND => Done (mk (decode_bcond value))
      | o => Done (mk o)
      end
  end.

(** ** Multiplication *)

(** The loop of [Mult]; [a] is the [int] that is shifted, the others are
    [unsigned int].  [n] iterations are left. *)
Fixpoint Mult_loop (n : nat) (a bLo bHi lo hi : Z) : Z * Z :=
  match n with
  | O => (hi, lo)
  | S n' =>
      let step (lo hi : Z) :=
        let bHi' := u32 (Z.shiftl bHi 1) in
        let bHi'' := if decide (Z.land bLo 0x80000000 = 0) then bHi' else Z.lor bHi' 1 in
        Mult_loop n' (Z.shiftr a 1) (u32 (Z.shiftl bLo 1)) bHi'' lo hi in
      if decide (Z.land a 1 = 0) then step lo hi
      else
        let lo' := u32 (lo + bLo) in
        let hi' := if decide (lo' < bLo) then u32 (hi + 1) else hi in
        let hi'' := u32 (hi' + bHi) in
        if decide (Z.land (u32 a) 0xfffffffe = 0) then (hi'', lo')
        else step lo' hi''
  end.

(** The result is [( *hiPtr, *loPtr )]. *)
Definition Mult (a b : Z) (signedArith : bool) : Z * Z :=
  if decide (a = 0 ∨ b = 0) then (0, 0)
  else
    let neg_a := signedArith && bool_decide (a < 0) in
    let neg_b := signedArith && bool_decide (b < 0) in
    let a' := if neg_a then s32 (- a) else a in
    let b' := if neg_b then s32 (- b) else b in
    let negative := xorb neg_a neg_b in
    let '(hi, lo) := Mult_loop 32 a' (u32 b') 0 0 0 in
    if negative then
      let hi' := u32 (Z.lnot hi) in
      let lo' := u32 (u32 (Z.lnot lo) + 1) in
      let hi'' := if decide (lo' = 0) then u32 (hi' + 1) else hi' in
      (s32 hi'', s32 lo')
    else (s32 hi, s32 lo).

(** ** Executing one instruction *)

(** [Raised which badVAddr]: the source raises the exception and returns.
    [Completed pcAfter nextLoadReg nextLoadValue]: it leaves the switch. *)
Inductive exec_outcome :=
| Raised (which : ExceptionType) (badVAddr : Z)
| Completed (pcAfter nextLoadReg nextLoadValue : Z).

(** [registers[x] & SIGN_BIT] as a condition. *)
Definition signed_bit (x : Z) : bool := negb (bool_decide (Z.land x SIGN_BIT = 0)).

Section exec.
Variable big : bool.          (* HOST_IS_BIG_ENDIAN *)

(** [ReadMem] and [WriteMem], with the exception they raise as a value. *)
Definition read_mem (addr size : Z) : M Machine (Z + ExceptionType) :=
  r ← Translate addr size false;
  match r with
  | inr e => mret (inr e)
  | inl pa => v ← read_phys big pa size; mret (inl v)
  end.

Definition write_mem (addr size value : Z) : M Machine (option ExceptionType) :=
  r ← Translate addr size true;
  match r with
  | inr e => mret (Some e)
  | inl pa => write_phys big pa size value ;; mret None
  end.

Implicit Types instr : Instruction.

Definition exec_arith instr (pcAfter : Z) : M Machine exec_outcome :=
  let next := mret (Completed pcAfter 0 0) in
  a ← reg (i_rs instr);
  b ← reg (i_rt instr);
  match opCode instr with
  | OP_ADD =>
      let sum := s32 (a + b) in
      if negb (signed_bit (Z.lxor a b)) && signed_bit (Z.lxor a sum)
      then mret (Raised OverflowException 0)
      else set_reg (i_rd instr) sum ;; next
  | OP_ADDI =>
      let sum := s32 (a + extra instr) in
      if negb (signed_bit (Z.lxor a (extra instr))) && signed_bit (Z.lxor (extra instr) sum)
      then mret (Raised OverflowException 0)
      else set_reg (i_rt instr) sum ;; next
  | OP_ADDIU => set_reg (i_rt instr) (s32 (a + extra instr)) ;; next
  | OP_ADDU => set_reg (i_rd instr) (s32 (a + b)) ;; next
  | OP_AND => set_reg (i_rd instr) (Z.land a b) ;; next
  | OP_ANDI => set_reg (i_rt instr) (Z.land a (Z.land (extra instr) 0xffff)) ;; next
  | OP_SUB =>
      let diff := s32 (a - b) in
      if signed_bit (Z.lxor a b) && signed_bit (Z.lxor a diff)
      then mret (Raised OverflowException 0)
      else set_reg (i_rd instr) diff ;; next
  | OP_SUBU => set_reg (i_rd instr) (s32 (a - b)) ;; next
  | _ => stop AssertFailed
  end.

Definition exec_branch instr (pcAfter : Z) : M Machine exec_outcome :=
  let goto (b : bool) : M Machine exec_outcome :=
    npc ← reg NextPCReg;
    mret (Completed (if b then s32 (npc + IndexToAddr (extra instr)) else pcAfter) 0 0) in
  let link : M Machine unit := npc ← reg NextPCReg; set_reg R31 (s32 (npc + 4)) in
  match opCode instr with
  | OP_BEQ => a ← reg (i_rs instr); b ← reg (i_rt instr); goto (bool_decide (a = b))
  | OP_BGEZAL => link ;; a ← reg (i_rs instr); goto (negb (signed_bit a))
  | OP_BGEZ => a ← reg (i_rs instr); goto (negb (signed_bit a))
  | OP_BGTZ => a ← reg (i_rs instr); goto (bool_decide (a > 0))
  | OP_BLEZ => a ← reg (i_rs instr); goto (bool_decide (a <= 0))
  | OP_BLTZAL => link ;; a ← reg (i_rs instr); goto (signed_bit a)
  | OP_BLTZ => a ← reg (i_rs instr); goto (signed_bit a)
  | OP_BNE => a ← reg (i_rs instr); b ← reg (i_rt instr); goto (negb (bool_decide (a = b)))
  | _ => stop AssertFailed
  end.

(** [INT_MIN / -1] traps on the host. *)
Definition exec_div instr (pcAfter : Z) : M Machine exec_outcome :=
  a ← reg (i_rs instr);
  b ← reg (i_rt instr);
  match opCode instr with
  | OP_DIV =>
      if decide (b = 0) then
        set_reg LoReg 0 ;; set_reg HiReg 0 ;; mret (Completed pcAfter 0 0)
      else if decide (a = - 2 ^ 31 ∧ b = -1) then stop ArithmeticTrap
      else set_reg LoReg (Z.quot a b) ;; set_reg HiReg (Z.rem a b) ;; mret (Completed pcAfter 0 0)
  | OP_DIVU =>
      let rs := u32 a in
      let rt := u32 b in
      if decide (rt = 0) then
        set_reg LoReg 0 ;; set_reg HiReg 0 ;; mret (Completed pcAfter 0 0)
      else
        set_reg LoReg (s32 (rs / rt)) ;; set_reg HiReg (s32 (rs mod rt)) ;;
        mret (Completed pcAfter 0 0)
  | _ => stop AssertFailed
  end.

Definition exec_jump instr (pcAfter : Z) : M Machine exec_outcome :=
  let target := s32 (Z.lor (Z.land (u32 pcAfter) 0xf0000000) (IndexToAddr (extra instr))) in
  match opCode instr with
  | OP_JAL => npc ← reg NextPCReg; set_reg R31 (s32 (npc + 4)) ;; mret (Completed target 0 0)
  | OP_J => mret (Completed target 0 0)
  | OP_JALR =>
      npc ← reg NextPCReg;
      set_reg (i_rd instr) (s32 (npc + 4)) ;;
      a ← reg (i_rs instr); mret (Completed a 0 0)
  | OP_JR => a ← reg (i_rs instr); mret (Completed a 0 0)
  | _ => stop AssertFailed
  end.

Definition exec_load instr (pcAfter : Z) : M Machine exec_outcome :=
  a ← reg (i_rs instr);
  let tmp := s32 (a + extra instr) in
  match opCode instr with
  | OP_LB | OP_LBU =>
      r ← read_mem tmp 1;
      match r with
      | inr e => mret (Raised e tmp)
      | inl value =>
          let value' :=
            if negb (bool_decide (Z.land value 0x80 = 0)) && bool_decide (opCode instr = OP_LB)
            then s32 (Z.lor value 0xffffff00) else Z.land value 0xff in
          mret (Completed pcAfter (i_rt instr) value')
      end
  | OP_LH | OP_LHU =>
      if negb (bool_decide (Z.land tmp 1 = 0)) then mret (Raised AddressErrorException tmp)
      else
        r ← read_mem tmp 2;
        match r with
        | inr e => mret (Raised e tmp)
        | inl value =>
            let value' :=
              if negb (bool_decide (Z.land value 0x8000 = 0)) && bool_decide (opCode instr = OP_LH)
              then s32 (Z.lor value 0xffff0000) else Z.land value 0xffff in
            mret (Completed pcAfter (i_rt instr) value')
        end
  | OP_LUI => set_reg (i_rt instr) (s32 (Z.shiftl (extra instr) 16)) ;; mret (Completed pcAfter 0 0)
  | OP_LW =>
      if negb (bool_decide (Z.land tmp 3 = 0)) then mret (Raised AddressErrorException tmp)
      else
        r ← read_mem tmp 4;
        match r with
        | inr e => mret (Raised e tmp)
        | inl value => mret (Completed pcAfter (i_rt instr) value)
        end
  | _ => stop AssertFailed
  end.

(** [LWL] and [LWR]: the pending load of the same register is merged. *)
Definition merge_left (k next value : Z) : Z :=
  if decide (k = 0) then value
  else if decide (k = 1) then s32 (Z.lor (Z.land next 0xff) (Z.shiftl value 8))
  else if decide (k = 2) then s32 (Z.lor (Z.land next 0xffff) (Z.shiftl value 16))
  else s32 (Z.lor (Z.land next 0xffffff) (Z.shiftl value 24)).

Definition merge_right (k next value : Z) : Z :=
  if decide (k = 0) then
    s32 (Z.lor (Z.land (u32 next) 0xffffff00) (Z.land (Z.shiftr value 24) 0xff))
  else if decide (k = 1) then
    s32 (Z.lor (Z.land (u32 next) 0xffff0000) (Z.land (Z.shiftr value 16) 0xffff))
  else if decide (k = 2) then
    s32 (Z.lor (Z.land (u32 next) 0xff000000) (Z.land (Z.shiftr value 8) 0xffffff))
  else value.

Definition exec_unaligned_load instr (pcAfter : Z) : M Machine exec_outcome :=
  a ← reg (i_rs instr);
  let tmp := s32 (a + extra instr) in
  ASSERT (bool_decide (Z.land tmp 3 = 0)) ;;
  r ← read_mem tmp 4;
  match r with
  | inr e => mret (Raised e tmp)
  | inl value =>
      lr ← reg LoadReg;
      next ← (if decide (lr = i_rt instr) then reg LoadValueReg else reg (i_rt instr));
      match opCode instr with
      | OP_LWL => mret (Completed pcAfter (i_rt instr) (merge_left (Z.land tmp 3) next value))
      | OP_LWR => mret (Completed pcAfter (i_rt instr) (merge_right (Z.land tmp 3) next value))
      | _ => stop AssertFailed
      end
  end.

Definition exec_hilo instr (pcAfter : Z) : M Machine exec_outcome :=
  let next := mret (Completed pcAfter 0 0) in
  let mult (signedArith : bool) : M Machine exec_outcome :=
    a ← reg (i_rs instr);
    b ← reg (i_rt instr);
    let '(hi, lo) := Mult a b signedArith in
    set_reg HiReg hi ;; set_reg LoReg lo ;; next in
  match opCode instr with
  | OP_MFHI => v ← reg HiReg; set_reg (i_rd instr) v ;; next
  | OP_MFLO => v ← reg LoReg; set_reg (i_rd instr) v ;; next
  | OP_MTHI => v ← reg (i_rs instr); set_reg HiReg v ;; next
  | OP_MTLO => v ← reg (i_rs instr); set_reg LoReg v ;; next
  | OP_MULT => mult true
  | OP_MULTU => mult false
  | _ => stop AssertFailed
  end.

(** [OP_OR] reads [rs] twice, as the source does. *)
Definition exec_logic instr (pcAfter : Z) : M Machine exec_outcome :=
  let next := mret (Completed pcAfter 0 0) in
  a ← reg (i_rs instr);
  b ← reg (i_rt instr);
  match opCode instr with
  | OP_NOR => set_reg (i_rd instr) (Z.lnot (Z.lor a b)) ;; next
  | OP_OR => set_reg (i_rd instr) (Z.lor a a) ;; next
  | OP_ORI => set_reg (i_rt instr) (Z.lor a (Z.land (extra instr) 0xffff)) ;; next
  | OP_XOR => set_reg (i_rd instr) (Z.lxor a b) ;; next
  | OP_XORI => set_reg (i_rt instr) (Z.lxor a (Z.land (extra instr) 0xffff)) ;; next
  | _ => stop AssertFailed
  end.

Definition exec_store instr (pcAfter : Z) : M Machine exec_outcome :=
  a ← reg (i_rs instr);
  b ← reg (i_rt instr);
  let addr := s32 (a + extra instr) in
  let wrt (size : Z) : M Machine exec_outcome :=
    r ← write_mem addr size b;
    match r with
    | Some e => mret (Raised e addr)
    | None => mret (Completed pcAfter 0 0)
    end in
  match opCode instr with
  | OP_SB => wrt 1
  | OP_SH => wrt 2
  | OP_SW => wrt 4
  | _ => stop AssertFailed
  end.

(** [tmp] of [OP_SRL] and [OP_SRLV] is an [int]: [>>=] keeps the sign. *)
Definition exec_shift instr (pcAfter : Z) : M Machine exec_outcome :=
  let next := mret (Completed pcAfter 0 0) in
  a ← reg (i_rs instr);
  b ← reg (i_rt instr);
  let amount := Z.land a 0x1f in
  match opCode instr with
  | OP_SLL => set_reg (i_rd instr) (s32 (Z.shiftl b (extra instr))) ;; next
  | OP_SLLV => set_reg (i_rd instr) (s32 (Z.shiftl b amount)) ;; next
  | OP_SRA => set_reg (i_rd instr) (Z.shiftr b (extra instr)) ;; next
  | OP_SRAV => set_reg (i_rd instr) (Z.shiftr b amount) ;; next
  | OP_SRL => set_reg (i_rd instr) (Z.shiftr b (extra instr)) ;; next
  | OP_SRLV => set_reg (i_rd instr) (Z.shiftr b amount) ;; next
  | _ => stop AssertFailed
  end.

Definition exec_compare instr (pcAfter : Z) : M Machine exec_outcome :=
  let set (r : Z) (c : bool) : M Machine exec_outcome :=
    set_reg r (if c then 1 else 0) ;; mret (Completed pcAfter 0 0) in
  a ← reg (i_rs instr);
  b ← reg (i_rt instr);
  match opCode instr with
  | OP_SLT => set (i_rd instr) (bool_decide (a < b))
  | OP_SLTI => set (i_rt instr) (bool_decide (a < extra instr))
  | OP_SLTIU => set (i_rt instr) (bool_decide (u32 a < u32 (extra instr)))
  | OP_SLTU => set (i_rd instr) (bool_decide (u32 a < u32 b))
  | _ => stop AssertFailed
  end.

(** The word [SWL] and [SWR] write: [k] is [tmp & 0x3], [rt] the register. *)
Definition store_left (k value rt : Z) : Z :=
  if decide (k = 0) then rt
  else if decide (k = 1) then
    s32 (Z.lor (Z.land (u32 value) 0xff000000) (Z.land (Z.shiftr rt 8) 0xffffff))
  else if decide (k = 2) then
    s32 (Z.lor (Z.land (u32 value) 0xffff0000) (Z.land (Z.shiftr rt 16) 0xffff))
  else s32 (Z.lor (Z.land (u32 value) 0xffffff00) (Z.land (Z.shiftr rt 24) 0xff)).

Definition store_right (k value rt : Z) : Z :=
  if decide (k = 0) then s32 (Z.lor (Z.land value 0xffffff) (Z.shiftl rt 24))
  else if decide (k = 1) then s32 (Z.lor (Z.land value 0xffff) (Z.shiftl rt 16))
  else if decide (k = 2) then s32 (Z.lor (Z.land value 0xff) (Z.shiftl rt 8))
  else rt.

Definition exec_unaligned_store instr (pcAfter : Z) : M Machine exec_outcome :=
  a ← reg (i_rs instr);
  b ← reg (i_rt instr);
  let tmp := s32 (a + extra instr) in
  ASSERT (bool_decide (Z.land tmp 3 = 0)) ;;
  let addr := Z.land tmp (Z.lnot 3) in
  let merge := match opCode instr with OP_SWL => store_left | _ => store_right end in
  r ← read_mem addr 4;
  match r with
  | inr e => mret (Raised e addr)
  | inl value =>
      w ← write_mem addr 4 (merge (Z.land tmp 3) value b);
      match w with
      | Some e => mret (Raised e addr)
      | None => mret (Completed pcAfter 0 0)
      end
  end.

(** The [switch] on [instr->opCode]. *)
Definition exec instr (pcAfter : Z) : M Machine exec_outcome :=
  match opCode instr with
  | OP_ADD | OP_ADDI | OP_ADDIU | OP_ADDU | OP_AND | OP_ANDI | OP_SUB | OP_SUBU =>
      exec_arith instr pcAfter
  | OP_BEQ | OP_BGEZ | OP_BGEZAL | OP_BGTZ | OP_BLEZ | OP_BLTZ | OP_BLTZAL | OP_BNE =>
      exec_branch instr pcAfter
  | OP_DIV | OP_DIVU => exec_div instr pcAfter
  | OP_J | OP_JAL | OP_JALR | OP_JR => exec_jump instr pcAfter
  | OP_LB | OP_LBU | OP_LH | OP_LHU | OP_LUI | OP_LW => exec_load instr pcAfter
  | OP_LWL | OP_LWR => exec_unaligned_load instr pcAfter
  | OP_MFHI | OP_MFLO | OP_MTHI | OP_MTLO | OP_MULT | OP_MULTU => exec_hilo instr pcAfter
  | OP_NOR | OP_OR | OP_ORI | OP_XOR | OP_XORI => exec_logic instr pcAfter
  | OP_SB | OP_SH | OP_SW => exec_store instr pcAfter
  | OP_SLL | OP_SLLV | OP_SRA | OP_SRAV | OP_SRL | OP_SRLV => exec_shift instr pcAfter
  | OP_SLT | OP_SLTI | OP_SLTIU | OP_SLTU => exec_compare instr pcAfter
  | OP_SWL | OP_SWR => exec_unaligned_store instr pcAfter
  | OP_SYSCALL => mret (Raised SyscallException 0)
  | OP_RES | OP_UNIMP => mret (Raised IllegalInstrException 0)
  | OP_RFE | SPECIAL | BCOND => stop AssertFailed
  end.
End exec.

(** The end of [OneInstruction]: the delayed load and the program counters. *)
Definition retire (pcAfter nextLoadReg nextLoadValue : Z) : M Machine unit :=
  DelayedLoad nextLoadReg nextLoadValue ;;
  pc ← reg PCReg;
  set_reg PrevPCReg pc ;;
  npc ← reg NextPCReg;
  set_reg PCReg npc ;;
  set_reg NextPCReg pcAfter.

Section run.
Context {S : Type} `{MachineHost S}.
Variable ExceptionHandler : ExceptionType → M S unit.

Definition OneInstruction : M S unit :=
  pc ← on_machine (reg PCReg);
  raw ← ReadMem ExceptionHandler pc 4;
  match raw with
  | None => mret tt
  | Some raw =>
      instr ← lift (Decode (u32 raw));
      npc ← on_machine (reg NextPCReg);
      r ← on_machine (exec host_big_endian instr (s32 (npc + 4)));
      match r with
      | Raised which badVAddr => RaiseException ExceptionHandler which badVAddr
      | Completed pcAfter nextLoadReg nextLoadValue =>
          on_machine (retire pcAfter nextLoadReg nextLoadValue)
      end
  end.

(** [n] turns of the loop of [Machine::Run]; [OneTick] is [interrupt->OneTick()]. *)
Variable OneTick : M S unit.

Fixpoint Run_loop (n : nat) : M S unit :=
  match n with
  | O => mret tt
  | Datatypes.S n' => OneInstruction ;; OneTick ;; Run_loop n'
  end.

Definition Run (n : nat) : M S unit := modify (setStatus UserMode) ;; Run_loop n.
End run.
