(* ===== verification/MipsFacts.v ===== *)
(** * Properties of the instruction simulator

    Multiplication computes the exact 64-bit product, decoding never yields
    an operation the simulator has no case for, the arithmetic cases detect
    overflow exactly, every executed instruction keeps the machine well formed
    and register 0 at zero, and an instruction that raises an exception leaves
    the registers and the memory as they were, so that it can be restarted. *)

From stdpp Require Import base gmap list numbers list_numbers.
From Stdlib Require Import ZArith Lia.
From S2P Require Import Prelude Machine MachineFacts Mips.

(** ** Multiplication *)

(** Equality modulo [2 ^ 64]. *)
Definition cong64 (x y : Z) : Prop := ∃ k, x = y + k * 2 ^ 64.

Definition word_range (x : Z) : Prop := 0 ≤ x < 2 ^ 32.

Lemma cong64_trans x y z : cong64 x y → cong64 y z → cong64 x z.
Proof. intros [k ->] [j ->]. exists (k + j). lia. Qed.

Lemma cong64_add_mul x y y' c : cong64 y y' → cong64 (x + c * y) (x + c * y').
Proof. intros [k ->]. exists (c * k). lia. Qed.

Lemma cong64_add x x' y : cong64 x x' → cong64 (x + y) (x' + y).
Proof. intros [k ->]. exists k. lia. Qed.

Lemma land_1_mod a : Z.land a 1 = a mod 2.
Proof. change 1 with (Z.ones 1). by rewrite Z.land_ones by lia. Qed.

Lemma land_top_bit x : word_range x → Z.land x 0x80000000 = 0 ↔ x < 2 ^ 31.
Proof.
  intros Hx. unfold word_range in Hx.
  replace 0x80000000 with (Z.shiftl (Z.ones 1) 31) by done.
  assert (Z.land x (Z.shiftl (Z.ones 1) 31) = ((x / 2 ^ 31) mod 2) * 2 ^ 31) as ->.
  { rewrite <- Z.shiftl_mul_pow2 by lia. change 2 with (2 ^ 1) at 2.
    rewrite <- Z.land_ones, <- Z.shiftr_div_pow2 by lia. apply Z.bits_inj'. intros j Hj.
    rewrite Z.land_spec, testbit_mask_range, Z.shiftl_spec by lia. destruct (decide (31 ≤ j)).
    - rewrite Z.land_spec, Z.shiftr_spec by lia. replace (j - 31 + 31) with j by lia. f_equal.
      destruct (decide (j < 32)).
      + rewrite Z.ones_spec_low by lia. by rewrite bool_decide_true by lia.
      + rewrite Z.ones_spec_high by lia. by rewrite bool_decide_false by lia.
    - rewrite (Z.testbit_neg_r _ (j - 31)) by lia. rewrite bool_decide_false by lia. apply andb_false_r. }
  dlia.
Qed.

(** [bHi:bLo <<= 1] *)
Lemma double_shift bHi bLo : word_range bHi → word_range bLo →
  let bHi' := u32 (Z.shiftl bHi 1) in
  let bHi'' := if decide (Z.land bLo 0x80000000 = 0) then bHi' else Z.lor bHi' 1 in
  word_range bHi'' ∧ word_range (u32 (Z.shiftl bLo 1)) ∧
  cong64 (bHi'' * 2 ^ 32 + u32 (Z.shiftl bLo 1)) (2 * (bHi * 2 ^ 32 + bLo)).
Proof.
  intros Hh Hl bHi' bHi''. pose proof (u32_range (Z.shiftl bLo 1)) as Hr.
  assert (bHi'' = bHi' + (if decide (bLo < 2 ^ 31) then 0 else 1)) as ->.
  { unfold bHi''. pose proof (land_top_bit bLo Hl) as Ht. repeat case_decide; try lia; try tauto.
    rewrite Z.lor_comm. unfold bHi'. rewrite Z.shiftl_mul_pow2 by lia. unfold u32.
    change (2 ^ 32) with (2 ^ 31 * 2 ^ 1). rewrite Z.mul_mod_distr_r by lia.
    rewrite lor_high by lia. lia. }
  unfold word_range, bHi', u32, cong64 in *. rewrite !Z.shiftl_mul_pow2 in * by lia.
  split; [| split; [done |]]; case_decide.
  - dlia.
  - dlia.
  - exists (- (bHi / 2 ^ 31)). dlia.
  - exists (- (bHi / 2 ^ 31)). dlia.
Qed.

(** [hi:lo += bHi:bLo] *)
Lemma double_add hi lo bHi bLo : word_range hi → word_range lo → word_range bHi → word_range bLo →
  let lo' := u32 (lo + bLo) in
  let hi' := u32 ((if decide (lo' < bLo) then u32 (hi + 1) else hi) + bHi) in
  word_range hi' ∧ word_range lo' ∧
  cong64 (hi' * 2 ^ 32 + lo') (hi * 2 ^ 32 + lo + (bHi * 2 ^ 32 + bLo)).
Proof.
  intros H1 H2 H3 H4 lo' hi'. split; [apply u32_range | split; [apply u32_range |]].
  unfold hi', lo', word_range, u32, cong64 in *. case_decide.
  - exists (- ((hi + 1 + bHi) / 2 ^ 32)). dlia.
  - exists (- ((hi + bHi) / 2 ^ 32)). dlia.
Qed.

Lemma mod_pow_succ a n : a mod 2 ^ Z.of_nat (S n) = a mod 2 + 2 * (Z.shiftr a 1 mod 2 ^ Z.of_nat n).
Proof.
  rewrite Nat2Z.inj_succ, Z.pow_succ_r, Z.rem_mul_r, Z.shiftr_div_pow2 by lia. done.
Qed.

Lemma only_low_bit a : int_range a → Z.land a 1 ≠ 0 → Z.land (u32 a) 0xfffffffe = 0 → a = 1.
Proof.
  intros Ha Hodd Hrest. rewrite land_1_mod in Hodd.
  assert (u32 a = 1) as Hu.
  { pose proof (u32_range a).
    assert (Z.land (u32 a) (Z.lor 1 0xfffffffe) = Z.lor (u32 a mod 2) 0) as E.
    { rewrite Z.land_lor_distr_r, Hrest. by rewrite land_1_mod. }
    change (Z.lor 1 0xfffffffe) with (Z.ones 32) in E. rewrite Z.land_ones, Z.mod_small, Z.lor_0_r in E by lia.
    unfold u32 in *. dlia. }
  unfold int_range, u32 in *. dlia.
Qed.

Lemma Mult_loop_spec n : ∀ a bLo bHi lo hi,
  int_range a → word_range bLo → word_range bHi → word_range lo → word_range hi →
  let r := Mult_loop n a bLo bHi lo hi in
  word_range r.1 ∧ word_range r.2 ∧
  cong64 (r.1 * 2 ^ 32 + r.2) (hi * 2 ^ 32 + lo + a mod 2 ^ Z.of_nat n * (bHi * 2 ^ 32 + bLo)).
Proof.
  induction n as [| n IH]; intros a bLo bHi lo hi Ha H1 H2 H3 H4; cbn [Mult_loop].
  { rewrite Z.mod_1_r. split; [done |]. split; [done |]. exists 0. simpl. lia. }
  assert (int_range (Z.shiftr a 1)) as Ha'
    by (unfold int_range in *; rewrite Z.shiftr_div_pow2 by lia; dlia).
  rewrite mod_pow_succ.
  destruct (double_shift bHi bLo) as (Hr1 & Hr2 & Hcong); [done | done |].
  rewrite land_1_mod. destruct (decide (a mod 2 = 0)) as [Hbit | Hbit].
  - destruct (IH (Z.shiftr a 1) _ _ lo hi Ha' Hr2 Hr1 H3 H4) as (? & ? & Hc).
    split; [done |]. split; [done |]. eapply cong64_trans; [exact Hc |].
    rewrite Hbit. destruct Hcong as [k ->]. exists (Z.shiftr a 1 mod 2 ^ Z.of_nat n * k). ring.
  - destruct (double_add hi lo bHi bLo) as (Hr3 & Hr4 & Hsum); [done.. |].
    assert (a mod 2 = 1) as Hodd by (pose proof (Z.mod_pos_bound a 2); lia). rewrite Hodd.
    destruct (decide (Z.land (u32 a) 0xfffffffe = 0)) as [Hlast | Hlast].
    + assert (a = 1) as -> by (apply only_low_bit; rewrite ?land_1_mod; done).
      split; [done |]. split; [done |]. eapply cong64_trans; [exact Hsum |].
      exists 0. simpl. rewrite Z.mod_0_l by lia. lia.
    + destruct (IH (Z.shiftr a 1) _ _ _ _ Ha' Hr2 Hr1 Hr4 Hr3) as (? & ? & Hc).
      split; [done |]. split; [done |]. eapply cong64_trans; [exact Hc |].
      destruct Hcong as [k ->], Hsum as [j ->].
      exists (j + Z.shiftr a 1 mod 2 ^ Z.of_nat n * k). ring.
Qed.

(** The bits the loop works with: [u32 a * u32 b] in two words. *)
Lemma Mult_loop_product a b : int_range a → int_range b →
  let r := Mult_loop 32 a (u32 b) 0 0 0 in
  word_range r.1 ∧ word_range r.2 ∧ r.1 * 2 ^ 32 + r.2 = u32 a * u32 b.
Proof.
  intros Ha Hb r. destruct (Mult_loop_spec 32 a (u32 b) 0 0 0) as (H1 & H2 & [k Hk]).
  all: try apply u32_range; try done.
  split; [done |]. split; [done |]. fold r in H1, H2, Hk.
  change (a mod 2 ^ Z.of_nat 32) with (u32 a) in Hk.
  pose proof (u32_range a). pose proof (u32_range b). unfold word_range in *.
  assert (0 ≤ u32 a * u32 b < 2 ^ 64) by nia. lia.
Qed.

Lemma u32_neg a : int_range a → a < 0 → u32 (s32 (- a)) = - a.
Proof. intros Ha Hneg. rewrite u32_s32. apply u32_small. unfold int_range in Ha. lia. Qed.

Lemma int_neg a : int_range (s32 (- a)).
Proof. apply s32_range. Qed.

(** Two's complement negation of a double word, the last step of [Mult]. *)
Lemma double_neg hi lo : word_range hi → word_range lo → 0 < hi * 2 ^ 32 + lo ≤ 2 ^ 63 →
  let lo' := u32 (u32 (Z.lnot lo) + 1) in
  let hi' := if decide (lo' = 0) then u32 (u32 (Z.lnot hi) + 1) else u32 (Z.lnot hi) in
  s32 hi' * 2 ^ 32 + u32 (s32 lo') = - (hi * 2 ^ 32 + lo).
Proof.
  intros Hh Hl Hpos lo' hi'. rewrite u32_s32. unfold word_range in *.
  assert (u32 (Z.lnot lo) = 2 ^ 32 - 1 - lo) as El by (unfold Z.lnot, Z.pred, u32; dlia).
  assert (u32 (Z.lnot hi) = 2 ^ 32 - 1 - hi) as Eh by (unfold Z.lnot, Z.pred, u32; dlia).
  assert (u32 lo' = if decide (lo = 0) then 0 else 2 ^ 32 - lo) as Elo.
  { unfold lo'. rewrite u32_u32, El. case_decide; unfold u32; dlia. }
  assert (lo' = u32 lo') as Ell by (unfold lo'; by rewrite u32_u32).
  unfold hi'. rewrite Eh, Elo, Ell, Elo. unfold s32, u32.
  repeat case_decide; dlia.
Qed.

(** What [Mult] computes, signed and unsigned. *)
Lemma Mult_spec a b : int_range a → int_range b →
  (let r := Mult a b true in
     int_range r.1 ∧ int_range r.2 ∧ r.1 * 2 ^ 32 + u32 r.2 = a * b) ∧
  (let r := Mult a b false in
     int_range r.1 ∧ int_range r.2 ∧ u32 r.1 * 2 ^ 32 + u32 r.2 = u32 a * u32 b).
Proof.
  intros Ha Hb. unfold Mult. case_decide as Hz.
  { unfold int_range. split; cbn [fst snd]; (split; [lia |]); (split; [lia |]);
      destruct Hz as [-> | ->]; change (u32 0) with 0; lia. }
  assert (a ≠ 0 ∧ b ≠ 0) as [Hza Hzb] by tauto.
  pose proof (u32_range a). pose proof (u32_range b). split; cbn [andb].
  - set (a' := if bool_decide (a < 0) then s32 (- a) else a).
    set (b' := if bool_decide (b < 0) then s32 (- b) else b).
    assert (u32 a' = Z.abs a ∧ int_range a') as [Ea Ia].
    { unfold a'. case_bool_decide.
      - rewrite u32_neg by done. split; [lia | apply s32_range].
      - unfold int_range in *. rewrite u32_small; lia. }
    assert (u32 b' = Z.abs b ∧ int_range b') as [Eb Ib].
    { unfold b'. case_bool_decide.
      - rewrite u32_neg by done. split; [lia | apply s32_range].
      - unfold int_range in *. rewrite u32_small; lia. }
    destruct (Mult_loop_product a' b' Ia Ib) as (Hh & Hl & Hp).
    destruct (Mult_loop 32 a' (u32 b') 0 0 0) as [hi lo]. cbn [fst snd] in *. rewrite Ea, Eb in Hp.
    unfold int_range in Ha, Hb.
    assert (0 < Z.abs a * Z.abs b ≤ 2 ^ 31 * 2 ^ 31) as Hbound
      by (split; [apply Z.mul_pos_pos | apply Z.mul_le_mono_nonneg]; lia).
    destruct (xorb (bool_decide (a < 0)) (bool_decide (b < 0))) eqn:Hneg; cbn [fst snd].
    + split; [apply s32_range |]. split; [apply s32_range |].
      rewrite double_neg by (done || lia). rewrite Hp.
      repeat case_bool_decide; simpl in Hneg; try done; lia.
    + split; [apply s32_range |]. split; [apply s32_range |].
      rewrite u32_s32. unfold word_range in *. rewrite s32_small, u32_small by lia. rewrite Hp.
      repeat case_bool_decide; simpl in Hneg; try done; lia.
  - destruct (Mult_loop_product a b Ha Hb) as (Hh & Hl & Hp).
    destruct (Mult_loop 32 a (u32 b) 0 0 0) as [hi lo]. cbn [xorb fst snd] in *.
    split; [apply s32_range |]. split; [apply s32_range |].
    unfold word_range in *. rewrite !u32_s32, !u32_small by lia. done.
Qed.

(** ** Decoding *)

Definition executable (o : OpCode) : bool :=
  match o with OP_RFE | SPECIAL | BCOND => false | _ => true end.

Definition shift_immediate (o : OpCode) : bool :=
  match o with OP_SLL | OP_SRA | OP_SRL => true | _ => false end.

Record instruction_wf (i : Instruction) : Prop := {
  iw_op : executable (opCode i) = true;
  iw_rs : 0 ≤ i_rs i < NumGPRegs;
  iw_rt : 0 ≤ i_rt i < NumGPRegs;
  iw_rd : 0 ≤ i_rd i < NumGPRegs;
  iw_extra : int_range (extra i);
  iw_shamt : shift_immediate (opCode i) = true → 0 ≤ extra i < 32
}.

Lemma land_ones_range x n : 0 ≤ n → 0 ≤ Z.land x (Z.ones n) < 2 ^ n.
Proof. intros Hn. rewrite Z.land_ones by lia. apply Z.mod_pos_bound. lia. Qed.

Lemma decode_extra_range v f : int_range (decode_extra v f).
Proof.
  unfold int_range. destruct f; cbn [decode_extra].
  - case_decide; [| apply s32_range]. pose proof (land_ones_range v 16). change (Z.ones 16) with 0xffff in *. lia.
  - pose proof (land_ones_range v 26). change (Z.ones 26) with 0x3ffffff in *. lia.
  - pose proof (land_ones_range (Z.shiftr v 6) 5). change (Z.ones 5) with 0x1f in *. lia.
Qed.

Lemma opTable_ops op f : (op, f) ∈ opTable →
  (executable op = true ∧ shift_immediate op = false) ∨ (op = SPECIAL ∧ f = RFMT) ∨ op = BCOND.
Proof.
  intros Hin.
  assert (Forall (λ x, (executable x.1 && negb (shift_immediate x.1)) ||
                       match x with (SPECIAL, RFMT) | (BCOND, _) => true | _ => false end) opTable) as H
    by (apply forallb_True; vm_compute; done).
  rewrite Forall_forall in H. specialize (H _ Hin). simpl in H.
  destruct op, f; simpl in H; try done; auto.
Qed.

Lemma specialTable_ops op : op ∈ specialTable → executable op = true.
Proof.
  intros Hin. assert (Forall (λ x, executable x) specialTable) as H
    by (apply forallb_True; vm_compute; done).
  rewrite Forall_forall in H. apply Is_true_eq_true, (H _ Hin).
Qed.

Lemma Decode_spec v : ∃ i, Decode v = Done i ∧ instruction_wf i.
Proof.
  unfold Decode.
  assert (∀ x, 0 ≤ Z.land x 0x3f < 64) as H6 by (intros x; apply (land_ones_range x 6); lia).
  assert (∀ x, 0 ≤ Z.land x 0x1f < 32) as H5 by (intros x; apply (land_ones_range x 5); lia).
  assert (∀ o f, executable o = true → (shift_immediate o = true → f = RFMT) →
    instruction_wf (mkInstruction o (Z.land (Z.shiftr v 21) 0x1f) (Z.land (Z.shiftr v 16) 0x1f)
                      (Z.land (Z.shiftr v 11) 0x1f) (decode_extra v f))) as Hmk.
  { intros o f Ho Hsh. split; try apply H5; simpl; [done | apply decode_extra_range |].
    intros ->%Hsh. apply H5. }
  destruct (rd_in_range opTable (Z.land (Z.shiftr v 26) 0x3f)) as ([op f] & Hlk & ->);
    [apply H6 |].
  pose proof (list_elem_of_lookup_2 _ _ _ Hlk) as Hop%opTable_ops.
  destruct Hop as [[Hop Hsh] | [[-> ->] | ->]].
  - destruct op; try done; eexists; (split; [done | by apply Hmk]).
  - destruct (rd_in_range specialTable (Z.land v 0x3f)) as (o & Hlo & ->); [apply H6 |].
    eexists. split; [done |]. apply Hmk; [| done]. eapply specialTable_ops, list_elem_of_lookup_2, Hlo.
  - eexists. split; [done |]. apply Hmk; unfold decode_bcond; by repeat case_decide.
Qed.

(** ** Bitwise operations on [int] *)

Lemma int_range_shiftr v : int_range v ↔ Z.shiftr v 31 = 0 ∨ Z.shiftr v 31 = -1.
Proof. unfold int_range. rewrite Z.shiftr_div_pow2 by lia. split; dlia. Qed.

Lemma int_land a b : int_range a → int_range b → int_range (Z.land a b).
Proof.
  rewrite !int_range_shiftr, Z.shiftr_land. intros [-> | ->] [-> | ->]; auto.
Qed.

Lemma int_lor a b : int_range a → int_range b → int_range (Z.lor a b).
Proof.
  rewrite !int_range_shiftr, Z.shiftr_lor. intros [-> | ->] [-> | ->]; auto.
Qed.

Lemma int_lxor a b : int_range a → int_range b → int_range (Z.lxor a b).
Proof.
  rewrite !int_range_shiftr, Z.shiftr_lxor. intros [-> | ->] [-> | ->]; auto.
Qed.

Lemma int_lnot a : int_range a → int_range (Z.lnot a).
Proof. unfold int_range, Z.lnot, Z.pred. lia. Qed.

Lemma int_shiftr a k : 0 ≤ k → int_range a → int_range (Z.shiftr a k).
Proof.
  intros Hk Ha. unfold int_range in *. rewrite Z.shiftr_div_pow2 by lia.
  assert (0 < 2 ^ k) by lia. split.
  - apply Z.div_le_lower_bound; nia.
  - apply Z.div_lt_upper_bound; nia.
Qed.

Lemma int_low_mask x n : 0 ≤ n ≤ 31 → int_range (Z.land x (Z.ones n)).
Proof.
  intros Hn. pose proof (land_ones_range x n). unfold int_range.
  assert (2 ^ n ≤ 2 ^ 31) by (apply Z.pow_le_mono_r; lia). lia.
Qed.

Lemma int_low_mask_imm x : int_range (Z.land x 0xffff).
Proof. apply (int_low_mask x 16). lia. Qed.

Lemma int_s32 x : int_range (s32 x).
Proof. apply s32_range. Qed.

Lemma int_small x : - 2 ^ 31 ≤ x < 2 ^ 31 → int_range x.
Proof. done. Qed.

#[export] Hint Resolve int_land int_lor int_lxor int_lnot int_low_mask_imm int_s32 : nachos.

Lemma signed_bit_neg x : int_range x → signed_bit x = bool_decide (x < 0).
Proof.
  intros Hx. unfold signed_bit, SIGN_BIT.
  assert (Z.land x 0x80000000 = 0 ↔ ~ x < 0) as E.
  { assert (Z.land x 0x80000000 = Z.land (u32 x) 0x80000000) as ->.
    { unfold u32. rewrite <- Z.land_ones, <- Z.land_assoc by lia. done. }
    rewrite land_top_bit by apply u32_range. unfold int_range, u32 in *. dlia. }
  repeat case_bool_decide; simpl; tauto.
Qed.

Lemma signed_bit_lxor x y : int_range x → int_range y →
  signed_bit (Z.lxor x y) = xorb (bool_decide (x < 0)) (bool_decide (y < 0)).
Proof.
  intros Hx Hy. rewrite signed_bit_neg by eauto with nachos.
  assert (Z.lxor x y < 0 ↔ ~ (x < 0 ↔ y < 0)) as E.
  { pose proof (Z.lxor_nonneg x y). lia. }
  repeat case_bool_decide; simpl; tauto.
Qed.

(** The test of [OP_ADD], [OP_ADDI] is exact, and so is that of [OP_SUB]. *)
Lemma add_overflow a b : int_range a → int_range b →
  negb (signed_bit (Z.lxor a b)) && signed_bit (Z.lxor a (s32 (a + b))) =
    negb (bool_decide (int_range (a + b))).
Proof.
  intros Ha Hb. rewrite !signed_bit_lxor by eauto with nachos.
  pose proof (s32_mod (a + b)) as [q Hq]. pose proof (s32_range (a + b)).
  unfold int_range in *. repeat case_bool_decide; simpl; try done; lia.
Qed.

Lemma sub_overflow a b : int_range a → int_range b →
  signed_bit (Z.lxor a b) && signed_bit (Z.lxor a (s32 (a - b))) =
    negb (bool_decide (int_range (a - b))).
Proof.
  intros Ha Hb. rewrite !signed_bit_lxor by eauto with nachos.
  pose proof (s32_mod (a - b)) as [q Hq]. pose proof (s32_range (a - b)).
  unfold int_range in *. repeat case_bool_decide; simpl; try done; lia.
Qed.

(** ** Register accesses *)

Definition set_register (i v : Z) (m : Machine) : Machine :=
  set_registers (<[Z.to_nat i := v]> (registers m)) m.

Lemma reg_lookup m i : machine_wf m → 0 ≤ i < NumTotalRegs →
  ∃ v, registers m !! Z.to_nat i = Some v ∧ int_range v ∧ reg i m = Done (v, m).
Proof.
  intros Hwf Hi. pose proof (mw_registers m Hwf) as Hl. unfold NumTotalRegs in *.
  destruct (rd_in_range (registers m) i) as (v & Hv & Hrd); [lia |].
  exists v. split; [done |]. split.
  - pose proof (mw_ints m Hwf) as Hints. rewrite Forall_forall in Hints.
    apply Hints. by eapply list_elem_of_lookup_2.
  - unfold reg, mbind, M_bind, get, lift. by rewrite Hrd.
Qed.

Lemma wp_reg m i Q : machine_wf m → 0 ≤ i < NumTotalRegs →
  (∀ v, registers m !! Z.to_nat i = Some v → int_range v → Q v m) → wp (reg i) Q m.
Proof.
  intros Hwf Hi HQ. destruct (reg_lookup m i Hwf Hi) as (v & Hv & Hr & Hrun).
  exists v, m. auto.
Qed.

Lemma set_reg_run m i v : machine_wf m → 0 ≤ i < NumTotalRegs →
  set_reg i v m = Done (tt, set_register i v m).
Proof.
  intros Hwf Hi. pose proof (mw_registers m Hwf) as Hl. unfold NumTotalRegs in *.
  unfold set_reg, mbind, M_bind, get, lift, put. rewrite wr_Done by lia. done.
Qed.

Lemma set_register_wf m i v : machine_wf m → 0 ≤ i < NumTotalRegs → int_range v →
  (i = LoadReg → 0 ≤ v < NumGPRegs) → machine_wf (set_register i v m).
Proof.
  intros [H1 H2 H3 H4 H5 H6] Hi Hv Hload. split; simpl; try done.
  - by rewrite length_insert.
  - by apply Forall_insert.
  - unfold NumTotalRegs, LoadReg in *. destruct (decide (i = 37)) as [-> |].
    + exists v. rewrite list_lookup_insert_eq by lia. auto.
    + rewrite list_lookup_insert_ne by lia. done.
Qed.

Lemma reg_set_register m r r' v v' : 0 ≤ r' → r ≠ r' → reg r m = Done (v, m) →
  reg r (set_register r' v' m) = Done (v, set_register r' v' m).
Proof.
  intros Hr' Hne. unfold reg, mbind, M_bind, get, lift, rd. case_decide; [| done]. simpl.
  rewrite list_lookup_insert_ne by lia. by destruct (registers m !! Z.to_nat r); intros [= ->].
Qed.

Lemma wp_set_reg m i v Q : machine_wf m → 0 ≤ i < NumTotalRegs →
  Q tt (set_register i v m) → wp (set_reg i v) Q m.
Proof. intros. exists tt, (set_register i v m). split; [by apply set_reg_run | done]. Qed.

(** ** Memory accesses of an instruction *)

Lemma length_mem_block m pa size : machine_wf m → access_size size → 0 ≤ pa →
  pa + size ≤ MemorySize → length (mem_block m pa size) = Z.to_nat size.
Proof.
  intros Hwf Hs Hpa Hend. apply length_block. rewrite (mw_memory m Hwf). unfold access_size in Hs. lia.
Qed.

Lemma read_mem_spec big m addr size : machine_wf m → access_size size →
  wp (read_mem big addr size)
     (λ r m', machine_wf m' ∧ same_cpu m m' ∧
        match r with
        | inr e => m' = m
        | inl v => int_range v ∧ ∃ pa, Translate addr size false m = Done (inl pa, m') ∧
                     v = loaded size (le_value (mem_block m pa size))
        end) m.
Proof.
  intros Hwf Hs. destruct (Translate_spec m addr size false Hwf Hs) as (r & m1 & Ht & Hpost).
  unfold read_mem. wp_step. exists r, m1. split; [done |].
  destruct (translate_post_wf _ _ _ _ _ _ Hwf Hpost) as [Hwf1 Hcpu].
  destruct r as [pa | e].
  - destruct (translate_post_bounds _ _ _ _ _ _ Hs Hpost) as [Hpa Hend].
    wp_step. eexists _, _. split; [by apply read_phys_run |]. wp_steps.
    split; [done |]. split; [done |].
    assert (mem_block m1 pa size = mem_block m pa size) as E
      by (unfold mem_block; by rewrite (proj2 Hcpu)).
    rewrite E. split; [| by exists pa].
    assert (Forall byte_range (mem_block m pa size)) as Hb
      by (apply Forall_take, Forall_drop, mw_bytes, Hwf).
    pose proof (le_value_range _ Hb) as Hr. rewrite length_mem_block in Hr by done.
    unfold loaded, int_range, s8, s32. destruct Hs as [-> | [-> | ->]]; simpl;
      rewrite Z2Nat.id in Hr by done; change (256 ^ 2) with 65536 in Hr; dlia.
  - wp_steps. split; [done |]. split; [done |]. by destruct Hpost.
Qed.

Lemma write_mem_spec big m addr size v : machine_wf m → access_size size →
  wp (write_mem big addr size v)
     (λ r m', machine_wf m' ∧ registers m' = registers m ∧
        match r with
        | Some e => m' = m
        | None => ∃ pa m1, Translate addr size true m = Done (inl pa, m1) ∧ m' = store pa size v m1
        end) m.
Proof.
  intros Hwf Hs. destruct (Translate_spec m addr size true Hwf Hs) as (r & m1 & Ht & Hpost).
  unfold write_mem. wp_step. exists r, m1. split; [done |].
  destruct (translate_post_wf _ _ _ _ _ _ Hwf Hpost) as [Hwf1 Hcpu].
  destruct r as [pa | e].
  - destruct (translate_post_bounds _ _ _ _ _ _ Hs Hpost) as [Hpa Hend].
    wp_step. eexists _, _. split; [by apply write_phys_run |]. wp_steps.
    split; [by apply store_wf |]. split; [apply Hcpu |]. by exists pa, m1.
  - wp_steps. split; [done |]. destruct Hpost as [-> _]. done.
Qed.

(** ** Every instruction *)

(** The two instructions that stop the simulator: [INT_MIN / -1], and the
    unaligned loads and stores when they are unaligned. *)
Definition traps (i : Instruction) (m : Machine) : option fault :=
  match registers m !! Z.to_nat (i_rs i), registers m !! Z.to_nat (i_rt i) with
  | Some a, Some b =>
      match opCode i with
      | OP_DIV => if decide (a = - 2 ^ 31 ∧ b = -1) then Some ArithmeticTrap else None
      | OP_LWL | OP_LWR | OP_SWL | OP_SWR =>
          if decide (Z.land (s32 (a + extra i)) 3 = 0) then None else Some AssertFailed
      | _ => None
      end
  | _, _ => None
  end.

Definition exec_post (m : Machine) (r : exec_outcome) (m' : Machine) : Prop :=
  machine_wf m' ∧
  match r with
  | Raised _ badVAddr => same_cpu m m' ∧ int_range badVAddr
  | Completed pcAfter nextLoadReg nextLoadValue =>
      int_range pcAfter ∧ 0 ≤ nextLoadReg < NumGPRegs ∧ int_range nextLoadValue
  end.

Lemma exec_post_raised m m' e a : machine_wf m' → same_cpu m m' → int_range a →
  exec_post m (Raised e a) m'.
Proof. done. Qed.

Lemma exec_post_completed m m' pc r v : machine_wf m' → int_range pc → 0 ≤ r < NumGPRegs → int_range v →
  exec_post m (Completed pc r v) m'.
Proof. done. Qed.

Lemma same_cpu_refl m : same_cpu m m.
Proof. done. Qed.

Lemma int_0 : int_range 0.
Proof. done. Qed.

Lemma gp_0 : 0 ≤ 0 < NumGPRegs.
Proof. done. Qed.

#[export] Hint Resolve exec_post_raised exec_post_completed same_cpu_refl int_0 gp_0 : nachos.

Lemma set_gp_wf m i v : machine_wf m → 0 ≤ i < LoadReg → int_range v → machine_wf (set_register i v m).
Proof.
  intros Hwf Hi Hv. unfold LoadReg in Hi.
  apply set_register_wf; unfold NumTotalRegs, LoadReg; try done; lia.
Qed.

Lemma int_quot a b : int_range a → int_range b → b ≠ 0 → ~ (a = - 2 ^ 31 ∧ b = -1) →
  int_range (Z.quot a b).
Proof.
  intros Ha Hb Hz Ht. unfold int_range in *.
  assert (Z.abs (Z.quot a b) ≤ Z.abs a) as Habs.
  { rewrite <- Z.quot_abs by done. apply Z.quot_le_upper_bound; [lia |]. nia. }
  destruct (decide (Z.quot a b = 2 ^ 31)) as [E |]; [| lia]. exfalso.
  pose proof (Z.quot_rem a b Hz). pose proof (Z.rem_bound_abs a b Hz). rewrite E in *. nia.
Qed.

Lemma int_rem a b : int_range a → int_range b → b ≠ 0 → int_range (Z.rem a b).
Proof.
  intros Ha Hb Hz. unfold int_range in *. pose proof (Z.rem_bound_abs a b Hz). lia.
Qed.

Lemma int_Mult a b s : int_range a → int_range b →
  int_range (Mult a b s).1 ∧ int_range (Mult a b s).2.
Proof. intros Ha Hb. destruct (Mult_spec a b Ha Hb) as [? ?]. destruct s; naive_solver. Qed.

Lemma int_land_31 x : int_range (Z.land x 0x1f).
Proof. apply (int_low_mask x 5). lia. Qed.

Lemma shift_amount x : 0 ≤ Z.land x 0x1f.
Proof. pose proof (land_ones_range x 5). change (Z.ones 5) with 0x1f in *. lia. Qed.

Lemma int_low_8 x : int_range (Z.land x 0xff).
Proof. apply (int_low_mask x 8). lia. Qed.

Lemma int_bit (b : bool) : int_range (if b then 1 else 0).
Proof. by destruct b. Qed.

Lemma int_choice (b : bool) x y : int_range x → int_range y → int_range (if b then x else y).
Proof. by destruct b. Qed.

Lemma int_merge_left k next v : int_range v → int_range (merge_left k next v).
Proof. intros Hv. unfold merge_left. repeat case_decide; eauto with nachos. Qed.

Lemma int_merge_right k next v : int_range v → int_range (merge_right k next v).
Proof. intros Hv. unfold merge_right. repeat case_decide; eauto with nachos. Qed.

Lemma access_1 : access_size 1. Proof. by left. Qed.
Lemma access_2 : access_size 2. Proof. right. by left. Qed.
Lemma access_4 : access_size 4. Proof. right. by right. Qed.

#[export] Hint Resolve set_gp_wf int_quot int_rem int_land_31 int_low_8 int_shiftr
  int_merge_left int_merge_right int_bit int_choice shift_amount access_1 access_2 access_4 : nachos.
#[export] Hint Extern 1 (0 ≤ _ < _) =>
  unfold NumTotalRegs, NumGPRegs, LoadReg, LoadValueReg, HiReg, LoReg, NextPCReg, PCReg, R31 in *; lia : nachos.

(** One step of a case of the [switch]. *)
Ltac exec_step :=
  lazymatch goal with
  | |- wp (mbind _ _) _ _ => apply wp_bind
  | |- wp (mret _) _ _ => apply wp_ret
  | |- wp (reg _) _ _ => apply wp_reg; [by eauto with nachos | by eauto with nachos | intros ? ? ?]
  | |- wp (set_reg _ _) _ _ => apply wp_set_reg; [by eauto with nachos | by eauto with nachos |]
  | |- wp (read_mem _ _ _) _ _ =>
      eapply wp_mono; [apply read_mem_spec; by eauto with nachos | intros [? | ?] ? (? & ? & Hread); [destruct Hread as [? _] |]]
  | |- wp (write_mem _ _ _ _) _ _ =>
      eapply wp_mono; [apply write_mem_spec; by eauto with nachos | intros [? |] ? (? & ? & ?)]
  | |- wp (if ?b then _ else _) _ _ => destruct b eqn:?
  end; cbv beta iota; try by eauto with nachos.

Ltac exec_done :=
  first [apply exec_post_completed | apply exec_post_raised]; eauto with nachos.

Lemma traps_aligned i m a b : opCode i ∈ [OP_LWL; OP_LWR; OP_SWL; OP_SWR] → traps i m = None →
  registers m !! Z.to_nat (i_rs i) = Some a → registers m !! Z.to_nat (i_rt i) = Some b →
  Z.land (s32 (a + extra i)) 3 = 0.
Proof.
  intros Hop Htrap Ha Hb. unfold traps in Htrap. rewrite Ha, Hb in Htrap.
  set_unfold in Hop; destruct_or! Hop; rewrite Hop in Htrap; by case_decide.
Qed.

Section exec_spec.
Variable big : bool.
Context (instr : Instruction) (pcAfter : Z) (m : Machine).
Hypothesis Hwf : machine_wf m.
Hypothesis Hpc : int_range pcAfter.
Hypothesis Hrs : 0 ≤ i_rs instr < 32.
Hypothesis Hrt : 0 ≤ i_rt instr < 32.
Hypothesis Hrd : 0 ≤ i_rd instr < 32.
Hypothesis Hextra : int_range (extra instr).

Lemma exec_logic_spec : opCode instr ∈ [OP_NOR; OP_OR; OP_ORI; OP_XOR; OP_XORI] →
  wp (exec_logic instr pcAfter) (exec_post m) m.
Proof.
  intros Hop. unfold exec_logic. repeat exec_step.
  set_unfold in Hop; destruct_or! Hop; rewrite Hop; repeat exec_step.
Qed.

Lemma exec_arith_spec :
  opCode instr ∈ [OP_ADD; OP_ADDI; OP_ADDIU; OP_ADDU; OP_AND; OP_ANDI; OP_SUB; OP_SUBU] →
  wp (exec_arith instr pcAfter) (exec_post m) m.
Proof.
  intros Hop. unfold exec_arith. repeat exec_step.
  set_unfold in Hop; destruct_or! Hop; rewrite Hop; repeat exec_step.
Qed.

Lemma exec_branch_spec :
  opCode instr ∈ [OP_BEQ; OP_BGEZ; OP_BGEZAL; OP_BGTZ; OP_BLEZ; OP_BLTZ; OP_BLTZAL; OP_BNE] →
  wp (exec_branch instr pcAfter) (exec_post m) m.
Proof.
  intros Hop. unfold exec_branch.
  set_unfold in Hop; destruct_or! Hop; rewrite Hop; repeat exec_step.
Qed.

Lemma exec_div_spec : opCode instr ∈ [OP_DIV; OP_DIVU] → traps instr m = None →
  wp (exec_div instr pcAfter) (exec_post m) m.
Proof.
  intros Hop Htrap. unfold exec_div. repeat exec_step. unfold traps in Htrap. simplify_option_eq.
  all: set_unfold in Hop; destruct_or! Hop; rewrite Hop in *; repeat case_decide; try done; repeat exec_step.
  all: exec_done.
Qed.

Lemma exec_jump_spec : opCode instr ∈ [OP_J; OP_JAL; OP_JALR; OP_JR] →
  wp (exec_jump instr pcAfter) (exec_post m) m.
Proof.
  intros Hop. unfold exec_jump.
  set_unfold in Hop; destruct_or! Hop; rewrite Hop; repeat exec_step.
Qed.

Lemma exec_load_spec : opCode instr ∈ [OP_LB; OP_LBU; OP_LH; OP_LHU; OP_LUI; OP_LW] →
  wp (exec_load big instr pcAfter) (exec_post m) m.
Proof.
  intros Hop. unfold exec_load. repeat exec_step.
  set_unfold in Hop; destruct_or! Hop; rewrite Hop; repeat exec_step.
  all: exec_done.
Qed.

Lemma exec_unaligned_load_spec : opCode instr ∈ [OP_LWL; OP_LWR] → traps instr m = None →
  wp (exec_unaligned_load big instr pcAfter) (exec_post m) m.
Proof.
  intros Hop Htrap. unfold exec_unaligned_load. do 2 exec_step.
  destruct (reg_lookup m (i_rt instr) Hwf) as (b & Hb & Ib & _); [eauto with nachos |].
  rewrite bool_decide_true by (eapply traps_aligned; eauto; set_solver).
  unfold ASSERT. repeat exec_step. case_decide; repeat exec_step.
  all: set_unfold in Hop; destruct_or! Hop; rewrite Hop; repeat exec_step; exec_done.
  all: exec_done.
Qed.

Lemma exec_hilo_spec : opCode instr ∈ [OP_MFHI; OP_MFLO; OP_MTHI; OP_MTLO; OP_MULT; OP_MULTU] →
  wp (exec_hilo instr pcAfter) (exec_post m) m.
Proof.
  intros Hop. unfold exec_hilo.
  set_unfold in Hop; destruct_or! Hop; rewrite Hop; repeat exec_step.
  all: match goal with |- context [Mult ?a ?b ?s] =>
         destruct (int_Mult a b s) as [? ?]; [done | done |]; destruct (Mult a b s) end.
  all: simpl in *; repeat exec_step; exec_done.
Qed.

Lemma exec_store_spec : opCode instr ∈ [OP_SB; OP_SH; OP_SW] →
  wp (exec_store big instr pcAfter) (exec_post m) m.
Proof.
  intros Hop. unfold exec_store. repeat exec_step.
  set_unfold in Hop; destruct_or! Hop; rewrite Hop; repeat exec_step.
  all: subst; exec_done.
Qed.

Lemma exec_shift_spec : opCode instr ∈ [OP_SLL; OP_SLLV; OP_SRA; OP_SRAV; OP_SRL; OP_SRLV] →
  (shift_immediate (opCode instr) = true → 0 ≤ extra instr) → wp (exec_shift instr pcAfter) (exec_post m) m.
Proof.
  intros Hop Hx. unfold exec_shift. repeat exec_step.
  set_unfold in Hop; destruct_or! Hop; rewrite Hop in *; try specialize (Hx eq_refl); repeat exec_step.
Qed.

Lemma exec_compare_spec : opCode instr ∈ [OP_SLT; OP_SLTI; OP_SLTIU; OP_SLTU] →
  wp (exec_compare instr pcAfter) (exec_post m) m.
Proof.
  intros Hop. unfold exec_compare. repeat exec_step.
  set_unfold in Hop; destruct_or! Hop; rewrite Hop; repeat exec_step.
Qed.

Lemma exec_unaligned_store_spec : opCode instr ∈ [OP_SWL; OP_SWR] → traps instr m = None →
  wp (exec_unaligned_store big instr pcAfter) (exec_post m) m.
Proof.
  intros Hop Htrap. unfold exec_unaligned_store. do 4 exec_step.
  rewrite bool_decide_true by (eapply traps_aligned; eauto; set_solver).
  unfold ASSERT. repeat exec_step. all: subst; exec_done.
Qed.
End exec_spec.

Lemma exec_spec big i pc m : machine_wf m → instruction_wf i → int_range pc → traps i m = None →
  wp (exec big i pc) (exec_post m) m.
Proof.
  intros Hwf [Hop Hrs Hrt Hrd Hx Hsh] Hpc Htrap. unfold NumGPRegs in *. unfold exec.
  destruct (opCode i) eqn:E; try done.
  all: first
    [ apply exec_arith_spec | apply exec_branch_spec | apply exec_div_spec | apply exec_jump_spec
    | apply exec_load_spec | apply exec_unaligned_load_spec | apply exec_hilo_spec
    | apply exec_logic_spec | apply exec_store_spec | apply exec_shift_spec
    | apply exec_compare_spec | apply exec_unaligned_store_spec | wp_step; apply exec_post_raised ].
  all: rewrite ?E; try done; try solve [repeat constructor].
  all: intros Hs; apply Hsh in Hs; lia.
Qed.

(** A trap happens before the instruction has any effect. *)
Lemma exec_traps big i pc m f : machine_wf m → instruction_wf i → traps i m = Some f →
  exec big i pc m = Fault f.
Proof.
  intros Hwf [Hop Hrs Hrt Hrd Hx Hsh] Htrap. unfold NumGPRegs in *.
  destruct (reg_lookup m (i_rs i) Hwf) as (a & Ha & _ & Ra); [unfold NumTotalRegs; lia |].
  destruct (reg_lookup m (i_rt i) Hwf) as (b & Hb & _ & Rb); [unfold NumTotalRegs; lia |].
  unfold traps in Htrap. rewrite Ha, Hb in Htrap. unfold exec.
  destruct (opCode i) eqn:E; try done; case_decide as Hc; try done; simplify_eq.
  - unfold exec_div, mbind, M_bind. rewrite Ra, Rb, E. destruct Hc as [-> ->]. done.
  - unfold exec_unaligned_load, mbind, M_bind. rewrite Ra. by rewrite bool_decide_false.
  - unfold exec_unaligned_load, mbind, M_bind. rewrite Ra. by rewrite bool_decide_false.
  - unfold exec_unaligned_store, mbind, M_bind. rewrite Ra, Rb. by rewrite bool_decide_false.
  - unfold exec_unaligned_store, mbind, M_bind. rewrite Ra, Rb. by rewrite bool_decide_false.
Qed.

(** ** One instruction in a kernel *)

(** The state the simulator keeps: well formed, register 0 is zero. *)
Definition cpu_ok (m : Machine) : Prop := machine_wf m ∧ registers m !! 0%nat = Some 0.

Lemma cpu_ok_same m m' : machine_wf m' → registers m' = registers m → cpu_ok m → cpu_ok m'.
Proof. intros Hwf E [_ Hz]. split; [done |]. by rewrite E. Qed.

Lemma set_register_zero m i v : machine_wf m → 0 ≤ i < LoadReg → registers m !! 0%nat = Some 0 →
  i ≠ 0 → registers (set_register i v m) !! 0%nat = Some 0.
Proof. intros Hwf Hi Hz Hne. simpl. rewrite list_lookup_insert_ne by lia. done. Qed.

Lemma DelayedLoad_spec m r v : machine_wf m → 0 ≤ r < NumGPRegs → int_range v →
  wp (DelayedLoad r v)
     (λ _ m', cpu_ok m' ∧ registers m' !! Z.to_nat PCReg = registers m !! Z.to_nat PCReg ∧
              registers m' !! Z.to_nat NextPCReg = registers m !! Z.to_nat NextPCReg) m.
Proof.
  intros Hwf Hr Hv. destruct (mw_load m Hwf) as (lr & Hlr & Hlr').
  destruct (reg_lookup m LoadReg Hwf) as (lr' & Hlr2 & _ & R1); [done |]. simplify_eq.
  destruct (reg_lookup m LoadValueReg Hwf) as (lv & Hlv & Ilv & R2); [done |].
  unfold DelayedLoad. wp_step. eexists _, _. split; [done |]. wp_step. eexists _, _. split; [done |].
  assert (machine_wf (set_register lr lv m)) as W1 by eauto with nachos.
  assert (machine_wf (set_register LoadReg r (set_register lr lv m))) as W2.
  { apply set_register_wf; eauto with nachos. unfold int_range, NumGPRegs in *. lia. }
  assert (machine_wf (set_register LoadValueReg v (set_register LoadReg r (set_register lr lv m)))) as W3.
  { apply set_register_wf; done. }
  wp_step. apply wp_set_reg; [done | unfold NumTotalRegs, NumGPRegs in *; lia |].
  wp_step. apply wp_set_reg; [done | done |].
  wp_step. apply wp_set_reg; [done | done |]. apply wp_set_reg; [done | done |].
  pose proof (mw_registers m Hwf) as Hl. unfold NumTotalRegs, NumGPRegs in *.
  split; [split |].
  - eauto with nachos.
  - simpl. rewrite list_lookup_insert_eq; [done |]. rewrite !length_insert. lia.
  - simpl. split; rewrite !list_lookup_insert_ne by (unfold PCReg, NextPCReg, LoadReg, LoadValueReg; lia); done.
Qed.

Lemma retire_spec m pc r v : machine_wf m → int_range pc → 0 ≤ r < NumGPRegs → int_range v →
  wp (retire pc r v)
     (λ _ m', cpu_ok m' ∧ registers m' !! Z.to_nat NextPCReg = Some pc ∧
              registers m' !! Z.to_nat PCReg = registers m !! Z.to_nat NextPCReg) m.
Proof.
  intros Hwf Hpc Hr Hv. unfold retire. wp_step.
  eapply wp_mono; [by apply DelayedLoad_spec |]. intros _ m1 ([Hwf1 Hz1] & _ & Hnpc).
  wp_step. apply wp_reg; [done | done |]. intros a Ha Ia.
  assert (machine_wf (set_register PrevPCReg a m1)) as W1 by (apply set_gp_wf; done).
  wp_step. apply wp_set_reg; [done | done |]. wp_step. apply wp_reg; [done | done |]. intros b Hb Ib.
  assert (machine_wf (set_register PCReg b (set_register PrevPCReg a m1))) as W2 by (apply set_gp_wf; done).
  wp_step. apply wp_set_reg; [done | done |]. apply wp_set_reg; [done | done |].
  pose proof (mw_registers _ Hwf1) as Hl. unfold NumTotalRegs in Hl.
  split; [split; [by apply set_gp_wf |] | split].
  - by apply set_register_zero; [| | apply set_register_zero; [| | apply set_register_zero |] |].
  - simpl. rewrite list_lookup_insert_eq; [done |]. rewrite !length_insert. unfold NextPCReg. lia.
  - simpl. rewrite list_lookup_insert_ne, list_lookup_insert_eq
      by (unfold PCReg, NextPCReg; rewrite ?length_insert; lia).
    rewrite <- Hnpc. revert Hb. simpl. rewrite list_lookup_insert_ne by (unfold PrevPCReg, NextPCReg; lia). done.
Qed.

Section one_instruction.
Context {S : Type} `{MachineHostLaws S}.
Variable ExceptionHandler : ExceptionType → M S unit.
Implicit Types s : S.

Definition handler_ok : Prop := ∀ which s, cpu_ok (machine s) →
  wp (ExceptionHandler which) (λ _ s', cpu_ok (machine s')) s.

Lemma wp_on_machine {A} (c : M Machine A) Q s :
  wp c (λ a m', Q a (set_machine m' s)) (machine s) → wp (on_machine c) Q s.
Proof. apply wp_zoom. Qed.

Lemma RaiseException_ok e a s : handler_ok → machine_wf (machine s) → int_range a →
  wp (RaiseException ExceptionHandler e a) (λ _ s', cpu_ok (machine s')) s.
Proof.
  intros Hh Hwf Ha. unfold RaiseException. wp_step. apply wp_on_machine.
  apply wp_set_reg; [done | done |]. wp_step. apply wp_on_machine. rewrite machine_set.
  eapply wp_mono; [apply DelayedLoad_spec; [by apply set_register_wf | done | done] |].
  intros _ m2 [Hok _]. wp_steps. eapply wp_mono; [apply Hh; by rewrite machine_status, machine_set |].
  intros [] s' Hs'. wp_steps. by rewrite machine_status.
Qed.

Lemma ReadMem_ok addr size s : handler_ok → cpu_ok (machine s) → access_size size → int_range addr →
  wp (ReadMem ExceptionHandler addr size)
     (λ r s', cpu_ok (machine s') ∧ match r with Some v => int_range v | None => True end) s.
Proof.
  intros Hh [Hwf Hz] Hs Ha.
  destruct (Translate_spec (machine s) addr size false Hwf Hs) as (r & m1 & Ht & Hpost).
  destruct (translate_post_wf _ _ _ _ _ _ Hwf Hpost) as [Hwf1 [Hr1 Hm1]].
  destruct r as [pa | e].
  - destruct (read_mem_spec host_big_endian (machine s) addr size Hwf Hs) as (v & m2 & Hv & Hv').
    unfold read_mem, mbind, M_bind in Hv. rewrite Ht in Hv.
    destruct (translate_post_bounds _ _ _ _ _ _ Hs Hpost).
    rewrite (read_phys_run _ _ _ _ Hwf1) in Hv by done. unfold mret, M_ret in Hv. simplify_eq.
    eexists _, _. split; [by eapply ReadMem_hit |]. rewrite machine_set.
    destruct Hv' as (_ & _ & Hint & _). split; [by split; [| rewrite Hr1] |].
    revert Hint. unfold mem_block. by rewrite Hm1.
  - unfold ReadMem. wp_step. eexists _, _. split; [by apply on_machine_run |].
    cbv beta iota. wp_step. eapply wp_mono; [apply RaiseException_ok; [done | by rewrite machine_set | done] |].
    intros [] s' Hok. wp_steps. done.
Qed.

(** The instruction at the program counter is [i], fetched in state [s1]. *)
Definition fetches s (i : Instruction) s1 : Prop :=
  ∃ pc raw, registers (machine s) !! Z.to_nat PCReg = Some pc ∧
    ReadMem ExceptionHandler pc 4 s = Done (Some raw, s1) ∧ Decode (u32 raw) = Done i.

Lemma on_machine_pure {A} (c : M Machine A) s a :
  c (machine s) = Done (a, machine s) → on_machine c s = Done (a, s).
Proof. intros Hc. rewrite (on_machine_run _ _ _ _ Hc). by rewrite set_machine_id. Qed.

(** After the fetch, [OneInstruction] is the [switch] and the end of the function. *)
Lemma OneInstruction_after_fetch s i s1 npc : machine_wf (machine s) → fetches s i s1 →
  reg NextPCReg (machine s1) = Done (npc, machine s1) →
  OneInstruction ExceptionHandler s =
    (r ← on_machine (exec host_big_endian i (s32 (npc + 4)));
     match r with
     | Raised which badVAddr => RaiseException ExceptionHandler which badVAddr
     | Completed pcAfter nextLoadReg nextLoadValue => on_machine (retire pcAfter nextLoadReg nextLoadValue)
     end) s1.
Proof.
  intros Hwf (pc & raw & Hpc & Hread & Hdec) Rnpc.
  destruct (reg_lookup (machine s) PCReg Hwf) as (pc' & Hpc' & _ & Rpc); [done |]. simplify_eq.
  unfold OneInstruction, mbind, M_bind, lift. rewrite (on_machine_pure _ _ _ Rpc), Hread, Hdec.
  by rewrite (on_machine_pure _ _ _ Rnpc).
Qed.

(** The instruction runs to its end, or it traps. *)
Lemma OneInstruction_exec s i s1 : handler_ok → cpu_ok (machine s) → cpu_ok (machine s1) →
  fetches s i s1 → instruction_wf i →
  match traps i (machine s1) with
  | None => wp (OneInstruction ExceptionHandler) (λ _ s', cpu_ok (machine s')) s
  | Some f => OneInstruction ExceptionHandler s = Fault f
  end.
Proof.
  intros Hh [Hwf _] [Hwf1 Hz1] Hf Hi.
  destruct (reg_lookup (machine s1) NextPCReg Hwf1) as (npc & Hnpc & Inpc & Rnpc); [done |].
  pose proof (OneInstruction_after_fetch s i s1 npc Hwf Hf Rnpc) as E.
  destruct (traps i (machine s1)) as [f |] eqn:Htrap.
  - rewrite E. unfold mbind, M_bind, on_machine at 1, zoom. by rewrite (exec_traps _ _ _ _ f).
  - eapply wp_same_run; [exact E |].
    wp_step. apply wp_on_machine. eapply wp_mono; [apply exec_spec; eauto with nachos |].
    intros [e a | pc2 r v] m2 [Hwf2 Hpost].
    + apply RaiseException_ok; [done | by rewrite machine_set | apply Hpost].
    + destruct Hpost as (? & ? & ?). apply wp_on_machine. rewrite machine_set.
      eapply wp_mono; [by apply retire_spec |]. intros _ m3 [Hok _]. by rewrite machine_set.
Qed.

Lemma OneInstruction_spec s : handler_ok → cpu_ok (machine s) →
  wp (OneInstruction ExceptionHandler) (λ _ s', cpu_ok (machine s')) s ∨
  ∃ i s1 f, fetches s i s1 ∧ traps i (machine s1) = Some f ∧
            OneInstruction ExceptionHandler s = Fault f.
Proof.
  intros Hh Hok. pose proof Hok as [Hwf Hz].
  destruct (reg_lookup (machine s) PCReg Hwf) as (pc & Hpc & Ipc & Rpc); [done |].
  destruct (ReadMem_ok pc 4 s) as (r & s1 & Hread & Hok1 & Hr); try done; [eauto with nachos |].
  destruct r as [raw |].
  - destruct (Decode_spec (u32 raw)) as (i & Hdec & Hi).
    assert (fetches s i s1) as Hf by (by exists pc, raw).
    pose proof (OneInstruction_exec s i s1 Hh Hok Hok1 Hf Hi) as Hx.
    destruct (traps i (machine s1)) as [f |] eqn:Htrap; [right; by exists i, s1, f | by left].
  - left. exists tt, s1. split; [| done].
    unfold OneInstruction, mbind, M_bind. by rewrite (on_machine_pure _ _ _ Rpc), Hread.
Qed.
End one_instruction.

(** ** Claims *)

(** C5 [Mult] computes the exact double-length product of two [int]
    registers: signed for [OP_MULT] (also for the most negative integer),
    unsigned for [OP_MULTU], in spite of the early exit of its loop. *)
Theorem Mult_exact a b : int_range a → int_range b →
  (let '(hi, lo) := Mult a b true in
     int_range hi ∧ int_range lo ∧ hi * 2 ^ 32 + u32 lo = a * b) ∧
  (let '(hi, lo) := Mult a b false in
     int_range hi ∧ int_range lo ∧ u32 hi * 2 ^ 32 + u32 lo = u32 a * u32 b).
Proof.
  intros Ha Hb. destruct (Mult_spec a b Ha Hb) as [Hs Hu].
  destruct (Mult a b true), (Mult a b false). done.
Qed.

Lemma Mult_exact_witness :
  Mult (- 2 ^ 31) (- 2 ^ 31) true = (2 ^ 30, 0) ∧ 2 ^ 30 * 2 ^ 32 + u32 0 = - 2 ^ 31 * - 2 ^ 31.
Proof.
  assert (int_range (- 2 ^ 31)) as H by (unfold int_range; lia).
  assert (Mult (- 2 ^ 31) (- 2 ^ 31) true = (2 ^ 30, 0)) as E by (vm_compute; reflexivity).
  split; [exact E |]. destruct (Mult_exact (- 2 ^ 31) (- 2 ^ 31) H H) as [Hs _].
  rewrite E in Hs. destruct Hs as (_ & _ & Hs). exact Hs.
Defined.

(** [OP_ADD] and [OP_SUB] raise an overflow exception exactly when the
    mathematical result does not fit in an [int], and then change nothing;
    otherwise they write the mathematical result to the destination. *)
Theorem add_sub_overflow_exact instr pc m a b : machine_wf m → instruction_wf instr →
  registers m !! Z.to_nat (i_rs instr) = Some a → registers m !! Z.to_nat (i_rt instr) = Some b →
  (opCode instr = OP_ADD → exec_arith instr pc m =
     if decide (int_range (a + b)) then Done (Completed pc 0 0, set_register (i_rd instr) (a + b) m)
     else Done (Raised OverflowException 0, m)) ∧
  (opCode instr = OP_SUB → exec_arith instr pc m =
     if decide (int_range (a - b)) then Done (Completed pc 0 0, set_register (i_rd instr) (a - b) m)
     else Done (Raised OverflowException 0, m)).
Proof.
  intros Hwf Hi Ha Hb. destruct Hi as [_ Hrs Hrt Hrd _ _]. unfold NumGPRegs in *.
  destruct (reg_lookup m (i_rs instr) Hwf) as (a' & Ha' & Ia & Ra); [unfold NumTotalRegs; lia |].
  destruct (reg_lookup m (i_rt instr) Hwf) as (b' & Hb' & Ib & Rb); [unfold NumTotalRegs; lia |].
  simplify_eq. split; intros Hop; unfold exec_arith, mbind, M_bind; rewrite Ra, Rb, Hop.
  - rewrite add_overflow by done. case_decide; [rewrite bool_decide_true | rewrite bool_decide_false];
      try done; simpl. rewrite set_reg_run by (done || unfold NumTotalRegs; lia). by rewrite s32_small.
  - rewrite sub_overflow by done. case_decide; [rewrite bool_decide_true | rewrite bool_decide_false];
      try done; simpl. rewrite set_reg_run by (done || unfold NumTotalRegs; lia). by rewrite s32_small.
Qed.

Lemma add_sub_overflow_exact_witness :
  exec_arith (mkInstruction OP_ADD 4 5 6 0) 8
    (set_register 4 2147483647 (set_register 5 1 sample_machine)) =
  Done (Raised OverflowException 0, set_register 4 2147483647 (set_register 5 1 sample_machine)).
Proof.
  assert (machine_wf (set_register 4 2147483647 (set_register 5 1 sample_machine))) as Hwf.
  { apply set_gp_wf; [apply set_gp_wf; [exact sample_machine_wf | |] | |];
      unfold int_range, LoadReg; lia. }
  destruct (add_sub_overflow_exact (mkInstruction OP_ADD 4 5 6 0) 8 _ 2147483647 1 Hwf) as [H _].
  - by split.
  - reflexivity.
  - reflexivity.
  - exact (H eq_refl).
Defined.

(** Decoding is total: every 32-bit word decodes to an instruction that
    the simulator has a case for (never to [OP_RFE], [SPECIAL] or [BCOND]),
    with register numbers below 32, an immediate that is an [int], and a shift
    amount below 32. *)
Theorem Decode_total value : ∃ i, Decode value = Done i ∧ instruction_wf i.
Proof. apply Decode_spec. Qed.

(** C7 Exceptions are precise: an instruction that does not trap the host
    runs to its end, and when it raises an exception the registers and the
    main memory are those before it, so that it can be started again. *)
Theorem exec_precise big value i pc m : machine_wf m → Decode value = Done i → int_range pc →
  traps i m = None →
  ∃ r m', exec big i pc m = Done (r, m') ∧ machine_wf m' ∧
    (∀ e a, r = Raised e a → registers m' = registers m ∧ mainMemory m' = mainMemory m).
Proof.
  intros Hwf Hdec Hpc Htrap. destruct (Decode_spec value) as (i' & Hdec' & Hi). rewrite Hdec in Hdec'. simplify_eq.
  destruct (exec_spec big i' pc m Hwf Hi Hpc Htrap) as (r & m' & Hrun & Hwf' & Hpost).
  exists r, m'. split; [done |]. split; [done |]. intros e a ->. apply Hpost.
Qed.

(** [sw $4, 0($5)] to a read-only page. *)
Lemma exec_precise_witness :
  ∃ r m', exec false (mkInstruction OP_SW 5 4 0 0) 8 sample_machine = Done (r, m') ∧
          r = Raised ReadOnlyException 0 ∧ registers m' = registers sample_machine.
Proof.
  destruct (exec_precise false 0xaca40000 (mkInstruction OP_SW 5 4 0 0) 8 sample_machine)
    as (r & m' & Hrun & _ & Hsame).
  - exact sample_machine_wf.
  - vm_compute. reflexivity.
  - done.
  - vm_compute. reflexivity.
  - assert (value_of (exec false (mkInstruction OP_SW 5 4 0 0) 8 sample_machine)
            = Some (Raised ReadOnlyException 0)) as E by (vm_compute; reflexivity).
    rewrite Hrun in E. injection E as ->. exists (Raised ReadOnlyException 0), m'.
    split; [exact Hrun |]. split; [reflexivity |]. apply (Hsame _ _ eq_refl).
Defined.

(** C6 [Machine::OneInstruction] keeps the machine well formed and register 0
    at zero, provided the exception handler does, whatever the program; the
    only other outcome is one of the two host traps of [traps] ([INT_MIN / -1]
    and an unaligned [LWL]/[LWR]/[SWL]/[SWR]), at an instruction that was
    fetched. *)
Theorem OneInstruction_safe {S} `{MachineHostLaws S} (ExceptionHandler : ExceptionType → M S unit) s :
  handler_ok ExceptionHandler → cpu_ok (machine s) →
  wp (OneInstruction ExceptionHandler) (λ _ s', cpu_ok (machine s')) s ∨
  ∃ i s1 f, fetches ExceptionHandler s i s1 ∧ traps i (machine s1) = Some f ∧
            OneInstruction ExceptionHandler s = Fault f.
Proof. apply OneInstruction_spec. Qed.

Lemma bare_handler_ok big : @handler_ok Machine (bare_host big) (λ _, mret tt).
Proof. intros e s Hok. by apply wp_ret. Qed.

Lemma OneInstruction_safe_witness :
  @wp Machine unit (@OneInstruction Machine (bare_host false) (λ _, mret tt))
      (λ _ s', cpu_ok s') sample_machine.
Proof.
  destruct (@OneInstruction_safe Machine (bare_host false) (bare_host_laws false) (λ _, mret tt)
              sample_machine (bare_handler_ok false)) as [H | (i & s1 & f & _ & _ & Hf)].
  - split; [exact sample_machine_wf | reflexivity].
  - exact H.
  - exfalso. revert Hf. vm_compute. discriminate.
Defined.

(** The simulated [OP_SRL] and [OP_SRLV] are arithmetic shifts: they do
    exactly what [OP_SRA] and [OP_SRAV] do, so a negative word shifted right
    "logically" keeps its sign; and [OP_OR] copies [rs] whatever [rt] holds. *)
Theorem srl_and_or_deviate instr pc m a b :
  registers m !! Z.to_nat (i_rs instr) = Some a → registers m !! Z.to_nat (i_rt instr) = Some b →
  0 ≤ i_rs instr → 0 ≤ i_rt instr →
  let with_op o := mkInstruction o (i_rs instr) (i_rt instr) (i_rd instr) (extra instr) in
  exec_shift (with_op OP_SRL) pc m = exec_shift (with_op OP_SRA) pc m ∧
  exec_shift (with_op OP_SRLV) pc m = exec_shift (with_op OP_SRAV) pc m ∧
  exec_logic (with_op OP_OR) pc m = (set_reg (i_rd instr) a ;; mret (Completed pc 0 0)) m.
Proof.
  intros Ha Hb Hrs Hrt with_op. split; [done |]. split; [done |].
  unfold exec_logic, reg, mbind, M_bind, get, lift. simpl.
  rewrite (rd_Done _ _ a), (rd_Done _ _ b) by done. by rewrite Z.lor_diag.
Qed.

Lemma srl_and_or_deviate_witness :
  let m := set_register 4 1 (set_register 5 6 sample_machine) in
  exec_logic (mkInstruction OP_OR 4 5 6 0) 8 m = Done (Completed 8 0 0, set_register 6 1 m).
Proof.
  intros m. destruct (srl_and_or_deviate (mkInstruction OP_OR 4 5 6 0) 8 m 1 6) as (_ & _ & H).
  - reflexivity.
  - reflexivity.
  - done.
  - done.
  - etransitivity; [exact H |]. vm_compute. reflexivity.
Defined.
