(* ===== verification/VMAccess.v ===== *)
(** * User accesses under demand paging

    The kernel's answer to a page fault ([ExceptionHandler] of
    userprog/exception.cc, all cases but the system calls) together with
    [ReadMem]/[WriteMem] of the machine: an access to a page of the program
    returns the byte the program last wrote there, after at most one fault,
    however many pages have been evicted in between. *)

From stdpp Require Import base gmap list numbers strings list_numbers.
From Stdlib Require Import ZArith Lia.
From S2P Require Import Prelude BitMap FileStub Machine MachineFacts AddrSpace Mips MipsFacts VMInv VMClock VMPaging VMLoad.

(** [ExceptionHandler] for everything but [SyscallException]; [this] is
    [currentThread->space]. *)
Definition FaultHandler (big : bool) (this : Z) (which : ExceptionType) : M VM unit :=
  match which with
  | PageFaultException =>
      addr ← on_vm_machine (ReadRegister 39);
      let vpn := u32 addr / PageSize in
      load big this vpn
  | _ => stop AssertFailed
  end.

(** ** Changes of the registers only *)

Definition regs_only (m m' : Machine) : Prop :=
  tlb m' = tlb m ∧ pageTable m' = pageTable m ∧ pageTableSize m' = pageTableSize m ∧ mainMemory m' = mainMemory m.

Lemma regs_only_set m i v : regs_only m (set_register i v m).
Proof. done. Qed.

Lemma regs_sim cur k m' : machine_wf m' → regs_only (vm_machine k) m' → vm_sim cur k (set_vm_machine m' k).
Proof.
  intros Hwf (E1 & E2 & E3 & E4). split; try done.
  - intros id v. change (entry_of (set_vm_machine m' k) id v) with (entry_of k id v).
    destruct (entry_of k id v); [| done]. repeat split; auto.
  - unfold TLB. simpl. by rewrite E1.
  - intros _. simpl. by rewrite E1.
Qed.

Lemma status_sim cur k st : vm_sim cur k (set_vm_status st k).
Proof.
  split; try done. intros id v. change (entry_of (set_vm_status st k) id v) with (entry_of k id v).
  destruct (entry_of k id v); [| done]. repeat split; auto.
Qed.

Lemma DelayedLoad_regs m r v : machine_wf m → 0 ≤ r < NumGPRegs → int_range v →
  wp (DelayedLoad r v)
     (λ _ m', machine_wf m' ∧ regs_only m m' ∧
              registers m' !! Z.to_nat BadVAddrReg = registers m !! Z.to_nat BadVAddrReg) m.
Proof.
  intros Hwf Hr Hv. destruct (mw_load m Hwf) as (lr & Hlr & Hlr').
  destruct (reg_lookup m LoadReg Hwf) as (lr' & Hlr2 & _ & R1); [done |]. simplify_eq.
  destruct (reg_lookup m LoadValueReg Hwf) as (lv & Hlv & Ilv & R2); [done |].
  unfold DelayedLoad. wp_step. eapply wp_run; [done |]. wp_step. eapply wp_run; [done |].
  assert (machine_wf (set_register lr lv m)) as W1 by eauto with nachos.
  assert (machine_wf (set_register LoadReg r (set_register lr lv m))) as W2
    by (apply set_register_wf; unfold int_range, NumGPRegs in *; done || lia).
  assert (machine_wf (set_register LoadValueReg v (set_register LoadReg r (set_register lr lv m)))) as W3
    by (by apply set_register_wf).
  wp_step. apply wp_set_reg; [done | unfold NumTotalRegs, NumGPRegs in *; lia |].
  wp_step. apply wp_set_reg; [done | done |].
  wp_step. apply wp_set_reg; [done | done |]. apply wp_set_reg; [done | done |].
  split; [by eapply set_gp_wf |]. split; [done |].
  unfold NumGPRegs in *. simpl.
  rewrite !list_lookup_insert_ne by (unfold BadVAddrReg, LoadReg, LoadValueReg; lia). done.
Qed.

(** ** A page fault raised by an access *)

Section faults.
Context (cur : Z).
Implicit Types k : VM.

Lemma FaultHandler_spec k addr e : vm_inv k cur None → swap_room k →
  registers (vm_machine k) !! Z.to_nat BadVAddrReg = Some addr →
  entry_of k cur (vpn_of addr) = Some e → no_slot k (vpn_of addr) →
  wp (FaultHandler false cur PageFaultException) (λ _ k', fault_served cur (vpn_of addr) k k') k.
Proof.
  intros Hinv Hroom Haddr He Hno. unfold FaultHandler. wp_step.
  eapply (wp_run _ _ addr k).
  - unfold on_vm_machine, zoom, ReadRegister, mbind, M_bind, get, ASSERT, lift. simpl.
    rewrite (rd_Done _ _ addr) by done. by destruct k.
  - fold (vpn_of addr). by apply (load_spec k cur (vpn_of addr) e).
Qed.

Lemma fault_served_sim k k1 v k' : vm_inv k cur None → vm_sim cur k k1 →
  fault_served cur v k1 k' → fault_served cur v k k'.
Proof.
  intros Hinv Hs (H1 & H2 & H3 & H4). split; [done |].
  split; [eapply bytes_kept_trans; [by eapply sim_bytes | done] |].
  split; [eapply same_shape_trans; [apply (vs_shape _ _ _ Hs) | done] | done].
Qed.

Lemma fault_served_sim_r k k1 v k' : fault_served cur v k k1 → vm_sim cur k1 k' →
  fault_served cur v k k'.
Proof.
  intros (H1 & H2 & H3 & (i & t & e & Ht & Hv & Hvp & Hro & He & Hve & Hp)) Hs.
  split; [by eapply sim_inv |]. split; [eapply bytes_kept_trans; [done | by eapply sim_bytes] |].
  split; [eapply same_shape_trans; [done | apply (vs_shape _ _ _ Hs)] |].
  destruct (sim_entry_r _ _ _ _ _ _ Hs He) as (e' & He' & _ & Hp' & Hve' & _).
  destruct (sim_tlb _ _ _ _ (eq_sym (vs_tlb _ _ _ Hs)) Ht) as (t' & Ht' & E1 & E2 & E3 & E4 & _).
  exists i, t', e'. repeat split; congruence.
Qed.

Lemma RaiseException_fault k addr e : vm_inv k cur None → swap_room k → int_range addr →
  entry_of k cur (vpn_of addr) = Some e → no_slot k (vpn_of addr) →
  wp (RaiseException (FaultHandler false cur) PageFaultException addr)
     (λ _ k', fault_served cur (vpn_of addr) k k') k.
Proof.
  intros Hinv Hroom Haddr He Hno. pose proof (vi_machine _ _ _ Hinv) as Hwf.
  pose proof (mw_registers _ Hwf) as Hlen.
  unfold RaiseException, on_machine. wp_step. apply wp_zoom. apply wp_set_reg; [done | done |].
  set (m1 := set_register BadVAddrReg addr (vm_machine k)).
  assert (machine_wf m1) as Hwf1 by (by apply set_register_wf).
  wp_step. apply wp_zoom. eapply wp_mono; [by apply (DelayedLoad_regs m1) |].
  intros [] m2 (Hwf2 & Honly & Hbad). wp_steps.
  change (set_machine m2 (set_machine m1 k)) with (set_vm_machine m2 k).
  assert (vm_sim cur k (set_vm_status SystemMode (set_vm_machine m2 k))) as Hs.
  { eapply vm_sim_trans; [| apply status_sim]. by apply regs_sim. }
  set (k2 := set_vm_status SystemMode (set_vm_machine m2 k)) in *.
  destruct (sim_entry_r _ _ _ _ _ _ Hs He) as (e2 & He2 & _).
  eapply wp_mono; [apply (FaultHandler_spec k2 addr e2) |].
  - by eapply sim_inv.
  - done.
  - change (registers m2 !! Z.to_nat BadVAddrReg = Some addr). rewrite Hbad. simpl.
    apply list_lookup_insert_eq. rewrite Hlen. unfold BadVAddrReg, NumTotalRegs. lia.
  - done.
  - by eapply sim_no_slot.
  - intros [] k3 Hf. wp_steps. eapply fault_served_sim_r; [| apply status_sim].
    by eapply fault_served_sim.
Qed.
End faults.

(** ** An access that hits the TLB *)

Section hits.
Context (cur : Z).
Implicit Types k : VM.

Lemma set_table_entry_tlb k i t : tlb (vm_machine k) = Some (TLB k) →
  set_table_entry i t (vm_machine k) = vm_machine (upd_tlb i t k).
Proof. intros E. unfold set_table_entry. rewrite E. done. Qed.

Lemma page_frame k v e : vm_inv k cur None → entry_of k cur v = Some e → valid e = true →
  u32 (physicalPage e) = physicalPage e ∧ 0 ≤ physicalPage e < NumPhysPages.
Proof.
  intros Hinv He Hv. destruct (vi_valid _ _ _ Hinv _ _ _ He Hv) as (Hr & _).
  split; [| done]. apply u32_small. unfold NumPhysPages in *. lia.
Qed.

Lemma TLB_translate k addr size w : vm_inv k cur None → tlb_maps k cur (vpn_of addr) →
  access_size size → misaligned addr size = false →
  ∃ i t e, 0 ≤ i < TLBSize ∧ TLB k !! Z.to_nat i = Some t ∧ valid t = true ∧ virtualPage t = vpn_of addr ∧
    entry_of k cur (vpn_of addr) = Some e ∧ valid e = true ∧
    Translate addr size w (vm_machine k) =
      Done (inl (physicalPage e * PageSize + offset_of addr), vm_machine (upd_tlb i (touch w t) k)).
Proof.
  intros Hinv (i0 & t0 & e0 & Ht0 & Hv0 & Hvp0 & Hro0 & He0 & Hve0 & Hp0) Hs Hal.
  pose proof (TLB_is_Some _ _ _ Ht0) as Etlb.
  assert (translation_table (vm_machine k) = TLB k) as Ett by (unfold translation_table; by rewrite Etlb).
  (* what a valid slot for the page looks like *)
  assert (∀ p e, translates (vm_machine k) (vpn_of addr) p e →
            p = InTLB (entry_index p) ∧ 0 ≤ entry_index p ∧ TLB k !! Z.to_nat (entry_index p) = Some e ∧
            valid e = true ∧ virtualPage e = vpn_of addr ∧ readOnly e = false ∧
            physicalPage e = physicalPage e0) as Hslot.
  { intros p e (Hv & Hi & He & Hp). rewrite Ett in He. destruct p as [i | i]; [| destruct Hp; congruence].
    destruct Hp as [_ Hvp]. rewrite s32_vpn in Hvp. simpl in *.
    destruct (vi_tlb_ok _ _ _ Hinv _ _ He Hv) as (e1 & He1 & _ & Hp1 & Hro1 & _).
    rewrite Hvp, He0 in He1. by simplify_eq. }
  destruct (page_frame k _ _ Hinv He0 Hve0) as [Eu Hfr].
  destruct (Translate_spec (vm_machine k) addr size w (vi_machine _ _ _ Hinv) Hs) as (r & m1 & Hrun & Hpost).
  destruct r as [pa | exc].
  - destruct Hpost as (_ & p & t & _ & Htr & _ & Hpa & _ & Hm1).
    destruct (Hslot p t Htr) as (_ & Hi & Ht & Hv & Hvp & _ & Hp).
    exists (entry_index p), t, e0. apply lookup_lt_Some in Ht as Hlt.
    destruct (vi_tlb _ _ _ Hinv) as (l & Hl & Hlen). unfold TLB in Hlt. rewrite Hl in Hlt. simpl in Hlt.
    split; [unfold TLBSize in *; lia |]. split; [done |]. split; [done |]. split; [done |]. split; [done |].
    split; [done |]. rewrite Hrun, Hpa, Hm1, Hp, Eu. by rewrite set_table_entry_tlb.
  - exfalso. destruct Hpost as [_ Hpost]. destruct exc; try done.
    + rewrite Etlb in Hpost. apply (Hpost t0); [by eapply list_elem_of_lookup_2 | done | done].
    + destruct Hpost as (_ & p & t & Htr & Hro). destruct (Hslot p t Htr) as (_ & _ & _ & _ & _ & ? & _). congruence.
    + destruct Hpost as (p & t & Htr & Hbus). destruct (Hslot p t Htr) as (_ & _ & _ & _ & _ & _ & Ep).
      rewrite Ep, Eu in Hbus. lia.
    + destruct Hpost as [? | [? _]]; congruence.
Qed.

(** The bytes of an access, in memory and in the virtual page. *)
Lemma block_of_page k addr size bs e : machine_wf (vm_machine k) → access_size size →
  misaligned addr size = false → 0 ≤ physicalPage e < NumPhysPages → length bs = Z.to_nat size →
  (∀ i b, bs !! i = Some b → mem_byte k (physicalPage e) (offset_of addr + Z.of_nat i) = Some b) →
  mem_block (vm_machine k) (physicalPage e * PageSize + offset_of addr) size = bs.
Proof.
  intros Hwf Hs Hal Hf Hlen Hbs. pose proof (aligned_offset addr size Hs Hal). pose proof (offset_range addr).
  pose proof (mw_memory _ Hwf) as Hml.
  assert (0 ≤ physicalPage e * PageSize + offset_of addr ∧
          physicalPage e * PageSize + offset_of addr + size ≤ MemorySize) as [Hpa Hend].
  { unfold MemorySize, NumPhysPages, PageSize, SectorSize in *. lia. }
  apply list_eq_same_length with (n := Z.to_nat size); [done | by apply length_mem_block |].
  intros i x y Hi Hx Hy. apply Hbs in Hy. unfold mem_block in Hx.
  rewrite lookup_take_lt, lookup_drop in Hx by done. unfold mem_byte in Hy.
  replace (Z.to_nat (physicalPage e * PageSize + offset_of addr) + i)%nat
    with (Z.to_nat (physicalPage e * PageSize + (offset_of addr + Z.of_nat i))) in Hx by lia. congruence.
Qed.

(** A byte of a mapped page is in its frame. *)
Lemma mapped_byte k v e j b : entry_of k cur v = Some e → valid e = true →
  page_byte k cur cur v j = Some b → mem_byte k (physicalPage e) j = Some b.
Proof.
  intros He Hv. unfold page_byte. rewrite He. simpl. case_decide; [| done]. rewrite Hv. by case_match.
Qed.

Lemma ReadMem_page k addr size bs : vm_inv k cur None → tlb_maps k cur (vpn_of addr) →
  access_size size → misaligned addr size = false → length bs = Z.to_nat size →
  (∀ i b, bs !! i = Some b → page_byte k cur cur (vpn_of addr) (offset_of addr + Z.of_nat i) = Some b) →
  wp (ReadMem (FaultHandler false cur) addr size)
     (λ r k', r = Some (loaded size (le_value bs)) ∧ vm_sim cur k k') k.
Proof.
  intros Hinv Hmaps Hs Hal Hlen Hbs.
  destruct (TLB_translate k addr size false Hinv Hmaps Hs Hal) as (i & t & e & Hi & Ht & Hv & Hvp & He & Hve & Hrun).
  eapply wp_run; [apply (@ReadMem_hit VM VM_host VM_host_laws _ k addr size _ _ (vi_machine _ _ _ Hinv) Hs Hrun) |].
  split.
  - do 3 f_equal. destruct (page_frame k _ _ Hinv He Hve) as [_ Hf].
    apply block_of_page; try done; [apply (vi_machine _ _ _ Hinv) |].
    intros n b Hn. eapply mapped_byte; eauto.
  - rewrite set_machine_twice. exact (upd_tlb_sim cur k i t true Ht).
Qed.
End hits.

(** ** A write that hits the TLB *)

Section write_hit.
Context (k : VM) (cur i : Z) (t e : TranslationEntry) (l : list Z).
Hypothesis Hinv : vm_inv k cur None.
Hypothesis Hi : 0 ≤ i < TLBSize.
Hypothesis Ht : TLB k !! Z.to_nat i = Some t.
Hypothesis Hv : valid t = true.
Hypothesis He : entry_of k cur (virtualPage t) = Some e.
Hypothesis Hve : valid e = true.
Hypothesis Hl : frame_only (physicalPage e) (mainMemory (vm_machine k)) l.
Let k' := with_mem l (upd_tlb i (touch true t) k).

Lemma write_lookup j : TLB k' !! j = if decide (j = Z.to_nat i) then Some (touch true t) else TLB k !! j.
Proof. exact (replace_lookup k cur None i (touch true t) Hinv Hi j). Qed.

Lemma write_dirty v : tlb_dirty k' v = bool_decide (v = virtualPage t) || tlb_dirty k v.
Proof.
  apply eq_bool_prop_intro. rewrite orb_True, !Is_true_true, bool_decide_eq_true, !tlb_dirty_spec.
  split.
  - intros (j & t' & Hj & Hv' & Hp & Hd). rewrite write_lookup in Hj. case_decide.
    + simplify_eq. by left.
    + right. by exists j, t'.
  - intros [-> | (j & t' & Hj & Hv' & Hp & Hd)].
    + exists (Z.to_nat i), (touch true t). rewrite write_lookup, decide_True by done. done.
    + destruct (decide (j = Z.to_nat i)) as [-> |].
      * exists (Z.to_nat i), (touch true t). rewrite write_lookup, decide_True by done. simplify_eq. done.
      * exists j, t'. by rewrite write_lookup, decide_False.
Qed.

Lemma write_other id v e0 : entry_of k id v = Some e0 → valid e0 = true → ~ (id = cur ∧ v = virtualPage t) →
  0 ≤ physicalPage e0 < NumPhysPages ∧ physicalPage e0 ≠ physicalPage e.
Proof.
  intros He0 Hv0 Hne. destruct (vi_valid _ _ _ Hinv _ _ _ He0 Hv0) as (? & HI0 & _). split; [done |].
  intros E. destruct (vi_valid _ _ _ Hinv _ _ _ He Hve) as (_ & HI & _).
  rewrite E, HI in HI0. simplify_eq. tauto.
Qed.

Lemma write_mem_byte f j : 0 ≤ f → f ≠ physicalPage e → 0 ≤ j < PageSize → mem_byte k' f j = mem_byte k f j.
Proof. intros. unfold mem_byte. simpl. by apply Hl. Qed.

Lemma write_inv : vm_inv k' cur None.
Proof.
  pose proof Hinv as [I1 I2 I3 I4 I5 I6 I7 I8 I9 I11 I12 I13 I14 I15 I16 I17 I18 I19].
  split; try done.
  - apply (with_mem_wf (upd_tlb i (touch true t) k) l (physicalPage e)); [by eapply upd_tlb_wf | exact Hl].
  - destruct I2 as (t0 & Ht0 & Hlen). exists (<[Z.to_nat i := touch true t]> (TLB k)). split; [done |].
    rewrite length_insert. unfold TLB. by rewrite Ht0.
  - intros id a. by apply (same_shape_space_wf k).
  - intros j t' Hj Hv'. rewrite write_lookup in Hj. case_decide; [| by eapply I17]. simplify_eq.
    destruct (I17 _ _ Ht Hv) as (e0 & He0 & Hrest). exists e0. simpl. split; [done |].
    destruct Hrest as (? & ? & ? & _). done.
  - intros j1 j2 t1 t2 H1 H2 Hv1 Hv2 Hvp. rewrite write_lookup in H1, H2.
    destruct (decide (j1 = Z.to_nat i)) as [-> |], (decide (j2 = Z.to_nat i)) as [-> |]; simplify_eq; [done | | |].
    + eapply (I18 _ _ t t2); eauto.
    + eapply (I18 _ _ t1 t); eauto.
    + by eapply I18.
  - intros id v e0 j b He0 Hv0 Hd0 Hcur Hj Hb. rewrite write_dirty in Hcur.
    assert (~ (id = cur ∧ v = virtualPage t)) as Hne.
    { intros [-> ->]. apply Hcur. split; [done |]. by rewrite bool_decide_true. }
    destruct (write_other _ _ _ He0 Hv0 Hne). rewrite write_mem_byte by (done || lia).
    apply (I19 id v e0 j b); try done. intros [-> Hd]. apply Hcur. split; [done |]. rewrite Hd. apply orb_true_r.
Qed.

(** The page that is written, and the others. *)
Lemma write_byte_here j : 0 ≤ j < PageSize →
  page_byte k' cur cur (virtualPage t) j = mem_byte k' (physicalPage e) j.
Proof.
  intros Hj. unfold page_byte. change (entry_of k' cur (virtualPage t)) with (entry_of k cur (virtualPage t)).
  rewrite He. simpl. rewrite decide_True, Hve, write_dirty by done. rewrite !bool_decide_true by done. simpl.
  by rewrite orb_true_r.
Qed.

Lemma write_byte_other id v j b : ~ (id = cur ∧ v = virtualPage t) →
  page_byte k cur id v j = Some b → page_byte k' cur id v j = Some b.
Proof.
  intros Hne. unfold page_byte. change (entry_of k' id v) with (entry_of k id v).
  destruct (entry_of k id v) as [e0 |] eqn:He0; [| done]. simpl. case_decide; [| done].
  destruct (valid e0) eqn:Hv0; [| done].
  destruct (write_other _ _ _ He0 Hv0 Hne). rewrite write_mem_byte by (done || lia).
  change (file_byte k' id v j) with (file_byte k id v j). rewrite write_dirty.
  destruct (dirty e0); [done |]. simpl. case_bool_decide; simpl; [| done]. subst id.
  destruct (tlb_dirty k v); [by rewrite orb_true_r |]. simpl.
  rewrite (bool_decide_false (v = virtualPage t)); [done |]. intros ->. by apply Hne.
Qed.
End write_hit.

(** A write changes the bytes of its access and no other byte of any page. *)
Record written (cur addr size x : Z) (k k' : VM) : Prop := {
  wn_here : ∀ i, 0 ≤ i < size → page_byte k' cur cur (vpn_of addr) (offset_of addr + i) =
              Some (le_bytes (Z.to_nat size) x !!! Z.to_nat i);
  wn_other : ∀ id v j b, ~ (id = cur ∧ v = vpn_of addr ∧ offset_of addr ≤ j < offset_of addr + size) →
               page_byte k cur id v j = Some b → page_byte k' cur id v j = Some b
}.

Lemma store_frame_only k addr size x e : machine_wf (vm_machine k) → access_size size →
  misaligned addr size = false → 0 ≤ physicalPage e < NumPhysPages →
  frame_only (physicalPage e) (mainMemory (vm_machine k))
    (splice (mainMemory (vm_machine k)) (Z.to_nat (physicalPage e * PageSize + offset_of addr)) (le_bytes (Z.to_nat size) x)).
Proof.
  intros Hwf Hs Hal Hf. pose proof (aligned_offset addr size Hs Hal). pose proof (offset_range addr).
  apply frame_only_splice; [done | apply (mw_memory _ Hwf) | lia | | apply le_bytes_range].
  rewrite length_le_bytes. unfold access_size in Hs. lia.
Qed.

Lemma WriteMem_page k cur addr size x : vm_inv k cur None → tlb_maps k cur (vpn_of addr) →
  access_size size → misaligned addr size = false →
  wp (WriteMem (FaultHandler false cur) addr size x)
     (λ r k', r = true ∧ vm_inv k' cur None ∧ same_shape k k' ∧ written cur addr size x k k') k.
Proof.
  intros Hinv Hmaps Hs Hal. pose proof (vi_machine _ _ _ Hinv) as Hwf.
  destruct (TLB_translate cur k addr size true Hinv Hmaps Hs Hal) as (i & t & e & Hi & Ht & Hv & Hvp & He & Hve & Hrun).
  destruct (page_frame cur k _ _ Hinv He Hve) as [_ Hf].
  eapply wp_run; [apply (@WriteMem_hit VM VM_host VM_host_laws _ k addr size x _ _ Hwf Hs Hrun) |].
  rewrite set_machine_twice.
  set (l := splice (mainMemory (vm_machine k)) (Z.to_nat (physicalPage e * PageSize + offset_of addr))
              (le_bytes (Z.to_nat size) x)).
  change (set_machine _ k) with (with_mem l (upd_tlb i (touch true t) k)).
  pose proof (store_frame_only k addr size x e Hwf Hs Hal Hf) as Hl. fold l in Hl.
  pose proof (aligned_offset addr size Hs Hal). pose proof (offset_range addr). pose proof (mw_memory _ Hwf) as Hml.
  rewrite <- Hvp in He. split; [done |]. split; [by apply (write_inv k cur i t e l) |]. split; [by split |].
  assert (∀ j, 0 ≤ j < PageSize → page_byte (with_mem l (upd_tlb i (touch true t) k)) cur cur (vpn_of addr) j =
            l !! Z.to_nat (physicalPage e * PageSize + j)) as Hhere.
  { intros j Hj. rewrite <- Hvp. by rewrite (write_byte_here k cur i t e l). }
  assert (0 < size ≤ 4) as Hsz by (unfold access_size in Hs; lia).
  unfold MemorySize, NumPhysPages, PageSize, SectorSize in *. split.
  - intros j Hj. rewrite Hhere by lia. unfold l. rewrite lookup_splice_in by (rewrite length_le_bytes; lia).
    replace (Z.to_nat (physicalPage e * 128 + (offset_of addr + j)) - Z.to_nat (physicalPage e * 128 + offset_of addr))%nat
      with (Z.to_nat j) by lia.
    apply list_lookup_lookup_total_lt. rewrite length_le_bytes. lia.
  - intros id v j b Hne Hb. destruct (decide (id = cur ∧ v = vpn_of addr)) as [[-> ->] | Hc].
    + assert (0 ≤ j < 128) as Hj.
      { unfold page_byte in Hb. destruct (entry_of k cur (vpn_of addr)); simpl in Hb; [| done].
        unfold PageSize, SectorSize in Hb. by case_decide. }
      rewrite Hhere by done. unfold l. rewrite lookup_splice_out by (rewrite length_le_bytes; lia).
      rewrite Hvp in He. apply (mapped_byte cur k (vpn_of addr) e j b He Hve Hb).
    + apply (write_byte_other k cur i t e l); try done. by rewrite Hvp.
Qed.

(** ** An access that faults is served and retried *)

Section retry.
Context (cur : Z).
Implicit Types k : VM.

Lemma slot_cases k v : vm_inv k cur None → is_Some (entry_of k cur v) → tlb_maps k cur v ∨ no_slot k v.
Proof.
  intros Hinv _. destruct (decide (Exists (λ t, valid t = true ∧ virtualPage t = v) (TLB k))) as [Hex | Hno].
  - left. apply Exists_exists in Hex as (t & Hin & Hv & Hvp).
    apply list_elem_of_lookup in Hin as [i Ht].
    destruct (vi_tlb_ok _ _ _ Hinv _ _ Ht Hv) as (e & He & Hve & Hp & Hro & _).
    exists i, t, e. rewrite <- Hvp. done.
  - right. intros i t Ht Hv Hvp. apply Hno, Exists_exists. exists t.
    split; [by eapply list_elem_of_lookup_2 | done].
Qed.

Lemma TLB_miss k addr size w : vm_inv k cur None → no_slot k (vpn_of addr) → access_size size →
  misaligned addr size = false →
  Translate addr size w (vm_machine k) = Done (inr PageFaultException, vm_machine k).
Proof.
  intros Hinv Hno Hs Hal. destruct (vi_tlb _ _ _ Hinv) as (t & Htlb & Hlen).
  assert (translation_table (vm_machine k) = TLB k) as Ett
    by (unfold translation_table, TLB; by rewrite Htlb).
  assert (∀ p e, ~ translates (vm_machine k) (vpn_of addr) p e) as Hnone.
  { intros p e (Hv & Hi & He & Hp). rewrite Ett in He. destruct p as [i | i]; [| destruct Hp; congruence].
    destruct Hp as [_ Hvp]. rewrite s32_vpn in Hvp. by apply (Hno _ _ He Hv). }
  destruct (Translate_spec (vm_machine k) addr size w (vi_machine _ _ _ Hinv) Hs) as (r & m1 & Hrun & Hpost).
  rewrite Hrun. destruct r as [pa | exc].
  - destruct Hpost as (_ & p & e & _ & Htr & _). by destruct (Hnone p e).
  - destruct Hpost as [-> Hpost]. destruct exc; try done.
    + destruct Hpost as (_ & p & e & Htr & _). by destruct (Hnone p e).
    + destruct Hpost as (p & e & Htr & _). by destruct (Hnone p e).
    + destruct Hpost as [? | [? _]]; congruence.
Qed.

Context (k : VM) (addr size : Z) (e : TranslationEntry).
Hypothesis Hinv : vm_inv k cur None.
Hypothesis Hroom : swap_room k.
Hypothesis Hs : access_size size.
Hypothesis Hal : misaligned addr size = false.
Hypothesis Hint : int_range addr.
Hypothesis He : entry_of k cur (vpn_of addr) = Some e.

Lemma ReadMem_miss : no_slot k (vpn_of addr) →
  wp (ReadMem (FaultHandler false cur) addr size)
     (λ r k', r = None ∧ fault_served cur (vpn_of addr) k k') k.
Proof.
  intros Hno. unfold ReadMem. wp_step.
  eapply wp_run; [apply (@on_machine_pure VM VM_host VM_host_laws); by apply TLB_miss |]. cbv beta iota.
  wp_step. eapply wp_mono; [by apply (RaiseException_fault cur k addr e) |]. intros [] k' Hk'. by wp_steps.
Qed.

Lemma WriteMem_miss x : no_slot k (vpn_of addr) →
  wp (WriteMem (FaultHandler false cur) addr size x)
     (λ r k', r = false ∧ fault_served cur (vpn_of addr) k k') k.
Proof.
  intros Hno. unfold WriteMem. wp_step.
  eapply wp_run; [apply (@on_machine_pure VM VM_host VM_host_laws); by apply TLB_miss |]. cbv beta iota.
  wp_step. eapply wp_mono; [by apply (RaiseException_fault cur k addr e) |]. intros [] k' Hk'. by wp_steps.
Qed.

Lemma SafeReadMem_spec bs : length bs = Z.to_nat size →
  (∀ i b, bs !! i = Some b → page_byte k cur cur (vpn_of addr) (offset_of addr + Z.of_nat i) = Some b) →
  wp (SafeReadMem (FaultHandler false cur) 2 addr size)
     (λ r k', r = loaded size (le_value bs) ∧ vm_inv k' cur None ∧ bytes_kept cur k k' ∧ same_shape k k') k.
Proof.
  intros Hlen Hbs. cbn [SafeReadMem]. destruct (slot_cases k (vpn_of addr) Hinv) as [Hmaps | Hno]; [by rewrite He | |].
  - wp_step. eapply wp_mono; [by apply (ReadMem_page cur k addr size bs) |].
    intros r k' [-> Hsim]. cbv beta iota. wp_steps. split; [done |].
    split; [by eapply sim_inv |]. split; [by eapply sim_bytes | apply (vs_shape _ _ _ Hsim)].
  - wp_step. eapply wp_mono; [by apply ReadMem_miss |].
    intros r k1 [-> (Hinv1 & Hb1 & Hss1 & Hmaps1)]. cbv beta iota.
    wp_step. eapply wp_mono; [apply (ReadMem_page cur k1 addr size bs); try done |].
    { intros i b Hi. by apply Hb1, Hbs. }
    intros r k' [-> Hsim]. cbv beta iota. wp_steps. split; [done |].
    split; [by eapply sim_inv |]. split; [eapply bytes_kept_trans; [done | by eapply sim_bytes] |].
    eapply same_shape_trans; [done | apply (vs_shape _ _ _ Hsim)].
Qed.

Lemma SafeWriteMem_spec x :
  wp (SafeWriteMem (FaultHandler false cur) 2 addr size x)
     (λ _ k', vm_inv k' cur None ∧ same_shape k k' ∧ written cur addr size x k k') k.
Proof.
  cbn [SafeWriteMem]. destruct (slot_cases k (vpn_of addr) Hinv) as [Hmaps | Hno]; [by rewrite He | |].
  - wp_step. eapply wp_mono; [by apply (WriteMem_page k cur addr size x) |].
    intros r k' (-> & H1 & H2 & H3). by wp_steps.
  - wp_step. eapply wp_mono; [by apply WriteMem_miss |].
    intros r k1 [-> (Hinv1 & Hb1 & Hss1 & Hmaps1)]. cbv beta iota.
    wp_step. eapply wp_mono; [by apply (WriteMem_page k1 cur addr size x) |].
    intros r k' (-> & H1 & H2 & [H3 H4]). wp_steps. split; [done |].
    split; [by eapply same_shape_trans |]. split; [done |].
    intros id v j b Hne Hb. apply H4; [done |]. by apply Hb1.
Qed.
End retry.
