(* ===== verification/VMClaims.v ===== *)
(** * What demand paging guarantees, and where it does not

    The theorems of the paging development, each with a concrete instance, and
    three executions that show defects of context switches and of [Fork]. *)

From stdpp Require Import base gmap list numbers strings list_numbers.
From Stdlib Require Import ZArith Lia.
From S2P Require Import Prelude BitMap FileStub Machine MachineFacts AddrSpace Mips MipsFacts VMInv VMClock VMPaging VMLoad VMSpaces VMAccess.

(** ** A small system: one program of 12 pages on 4 frames *)

(** Two pages of code, one of initialised and one of uninitialised data. *)
Definition sample_file : list Z :=
  concat (le_bytes 4 <$> [NOFFMAGIC; 0; 40; 256; 256; 296; 128; 384; 0; 128]) ++
  ((λ i, i mod 251) <$> seqZ 0 384).

Definition sample_fs : Unix := <["a.out" := sample_file]> (<[SWAPFILENAME := []]> ∅).

Definition zero_slot : TranslationEntry := mkEntry 0 0 false false false false.

Definition boot_machine : Machine :=
  mkMachine (replicate (Z.to_nat MemorySize) 0) (replicate (Z.to_nat NumTotalRegs) 0)
    (Some (replicate (Z.to_nat TLBSize) zero_slot)) None 0.

Definition sample_header : NoffHeader :=
  mkNoff NOFFMAGIC (mkSegment 0 40 256) (mkSegment 256 296 128) (mkSegment 384 0 128).

(** The kernel after [Initialize] and the load of the program as space 1. *)
Definition boot_vm : VM :=
  match VM_Initialize boot_machine [7] [0; 0] sample_fs with
  | Done k => k
  | Fault _ => mkVM boot_machine (mkBitMap 0 0 []) (mkBitMap 0 0 []) [] 0 0 0 0 true 0 ∅ ∅ SystemMode
  end.

Definition sample_vm : VM := state_of boot_vm (AddrSpace_new false 1 (mkOpenFile "a.out" 0) "a.out" boot_vm).

Lemma boot_machine_wf : machine_wf boot_machine.
Proof.
  split; [done | by apply Forall_replicate | done | by apply Forall_replicate | by exists 0 |].
  right. split; [done |]. by eexists.
Qed.

Lemma sample_bytes : Forall byte_range sample_file.
Proof.
  apply Forall_lookup. intros i b Hb.
  assert (forallb (λ b, bool_decide (0 ≤ b < 256)) sample_file = true) as H by (vm_compute; reflexivity).
  rewrite forallb_forall in H. apply list_elem_of_lookup_2, list_elem_of_In, H in Hb. by split_bool.
Qed.

Lemma sample_fs_bytes n f : sample_fs !! n = Some f → Forall byte_range f.
Proof.
  unfold sample_fs. destruct (decide (n = "a.out")) as [-> |].
  - rewrite lookup_insert_eq. intros ?; simplify_eq. apply sample_bytes.
  - rewrite lookup_insert_ne by done. destruct (decide (n = SWAPFILENAME)) as [-> |].
    + rewrite lookup_insert_eq. intros ?; simplify_eq. apply Forall_nil_2.
    + rewrite lookup_insert_ne, lookup_empty by done. done.
Qed.

Lemma boot_vm_ok : vm_inv boot_vm 1 None ∧ swap_room boot_vm ∧ TLB_empty boot_vm ∧
  spaces boot_vm = ∅ ∧ unix boot_vm = sample_fs.
Proof.
  destruct (Initialize_spec boot_machine [7] [0; 0] sample_fs 1 boot_machine_wf) as (k & E & H).
  - eexists. split; [done |]. split; [done |]. by apply Forall_replicate.
  - done.
  - by repeat constructor.
  - done.
  - by repeat constructor.
  - by exists [].
  - apply sample_fs_bytes.
  - unfold boot_vm. by rewrite E.
Qed.

Lemma sample_noff : noff_wf sample_file sample_header.
Proof.
  split; [by apply Nat.leb_le; vm_compute | by vm_compute | done | done | done].
Qed.

Lemma sample_vm_eq : sample_vm = set_spaces (<[1 := noff_space sample_header "a.out"]> (spaces boot_vm)) boot_vm.
Proof.
  unfold sample_vm. rewrite (AddrSpace_new_run boot_vm 1 "a.out" sample_file sample_header); [done | | apply sample_noff].
  by rewrite (proj2 (proj2 (proj2 (proj2 boot_vm_ok)))).
Qed.

Lemma sample_inv : vm_inv sample_vm 1 None.
Proof.
  rewrite sample_vm_eq. destruct boot_vm_ok as (Hinv & _ & _ & Hsp & Hu).
  apply (new_space_inv boot_vm 1 1 "a.out" sample_file sample_header Hinv).
  - by rewrite Hsp.
  - by rewrite Hu.
  - done.
  - apply sample_noff.
Qed.

Lemma sample_room : swap_room sample_vm.
Proof. rewrite sample_vm_eq. apply boot_vm_ok. Qed.

Lemma sample_TLB_empty : TLB_empty sample_vm.
Proof. rewrite sample_vm_eq. apply boot_vm_ok. Qed.

Lemma entry_of_new k id a v : 0 ≤ v →
  entry_of (set_spaces (<[id := a]> (spaces k)) k) id v = as_pageTable a !! Z.to_nat v.
Proof. intros Hv. unfold entry_of. simpl. rewrite lookup_insert_eq. simpl. by rewrite decide_True. Qed.

Lemma sample_pages : as_pageTable (noff_space sample_header "a.out") = fresh_entry <$> seqZ 0 12.
Proof. vm_compute. reflexivity. Qed.

Lemma sample_entry v : 0 ≤ v < 12 → entry_of sample_vm 1 v = Some (fresh_entry v).
Proof.
  intros Hv. rewrite sample_vm_eq, entry_of_new, sample_pages, list_lookup_fmap by lia.
  rewrite lookup_seqZ_lt by lia. cbn [fmap option_fmap option_map]. do 2 f_equal. lia.
Qed.

Lemma sample_no_slot v : no_slot sample_vm v.
Proof. intros i t Ht Hv. rewrite (sample_TLB_empty _ _ Ht) in Hv. done. Qed.

(** ** Claims *)

(** C1 A page fault is served: on any state that satisfies the paging
    invariant and has a free swap slot, [AddrSpace::load] for a page of the
    running space that the TLB does not map returns (no failed assertion, no
    illegal access, both second-chance loops end), keeps the invariant, leaves
    every defined byte of every virtual page of every address space as it was
    (evicted pages included), and the TLB then maps the page. *)
Theorem load_serves_fault k cur v e : vm_inv k cur None → swap_room k →
  entry_of k cur v = Some e → no_slot k v →
  ∃ k', load false cur v k = Done (tt, k') ∧ vm_inv k' cur None ∧ tlb_maps k' cur v ∧
    ∀ id v' j b, page_byte k cur id v' j = Some b → page_byte k' cur id v' j = Some b.
Proof.
  intros Hinv Hroom He Hno.
  destruct (load_spec k cur v e Hinv Hroom He Hno) as ([] & k' & Hrun & Hinv' & Hbytes & _ & Hmaps).
  by exists k'.
Qed.

Lemma load_serves_fault_witness :
  ∃ k', load false 1 2 sample_vm = Done (tt, k') ∧ tlb_maps k' 1 2.
Proof.
  destruct (load_serves_fault sample_vm 1 2 (fresh_entry 2)) as (k' & Hrun & _ & Hmaps & _).
  - exact sample_inv.
  - exact sample_room.
  - apply sample_entry. lia.
  - apply sample_no_slot.
  - exists k'. split; [exact Hrun | exact Hmaps].
Defined.

(** C2 A user program reads what it wrote: while the paging invariant holds and
    a slot of the swap file is free ([swap_room]), an aligned read of bytes that
    are defined returns their value after at most one page fault (two attempts of
    [ReadMem] are enough), wherever they live: in a frame, in the swap file or
    in the executable.  No defined byte changes and the invariant holds. *)
Theorem SafeReadMem_returns_page k cur addr size e bs : vm_inv k cur None → swap_room k →
  access_size size → misaligned addr size = false → int_range addr →
  entry_of k cur (vpn_of addr) = Some e → length bs = Z.to_nat size →
  (∀ i b, bs !! i = Some b → page_byte k cur cur (vpn_of addr) (offset_of addr + Z.of_nat i) = Some b) →
  ∃ k', SafeReadMem (FaultHandler false cur) 2 addr size k = Done (loaded size (le_value bs), k') ∧
    vm_inv k' cur None ∧ bytes_kept cur k k'.
Proof.
  intros Hinv Hroom Hs Hal Hint He Hlen Hbs.
  destruct (SafeReadMem_spec cur k addr size e Hinv Hroom Hs Hal Hint He bs Hlen Hbs)
    as (r & k' & Hrun & -> & Hinv' & Hbytes & _).
  by exists k'.
Qed.

Lemma sample_page_byte (i : nat) b : [0; 1; 2; 3] !! i = Some b →
  page_byte sample_vm 1 1 (vpn_of 0) (offset_of 0 + Z.of_nat i) = Some b.
Proof.
  intros Hb. destruct i as [| [| [| [| i]]]]; simpl in Hb; simplify_eq; vm_compute; reflexivity.
Qed.

Lemma SafeReadMem_returns_page_witness :
  ∃ k', SafeReadMem (FaultHandler false 1) 2 0 4 sample_vm = Done (0x03020100, k') ∧ vm_inv k' 1 None.
Proof.
  destruct (SafeReadMem_returns_page sample_vm 1 0 4 (fresh_entry 0) [0; 1; 2; 3]) as (k' & Hrun & Hinv & _).
  - exact sample_inv.
  - exact sample_room.
  - right. by right.
  - reflexivity.
  - done.
  - apply sample_entry. vm_compute. split; discriminate || reflexivity.
  - reflexivity.
  - apply sample_page_byte.
  - exists k'. split; [exact Hrun | exact Hinv].
Defined.

(** C3 A user program's write reaches its virtual page and nothing else: while
    the paging invariant holds and a slot of the swap file is free, an aligned
    write returns after at most one page fault, the bytes of the access then
    hold the value in little-endian order, and every other defined byte of every
    page of every address space is unchanged. *)
Theorem SafeWriteMem_updates_page k cur addr size e x : vm_inv k cur None → swap_room k →
  access_size size → misaligned addr size = false → int_range addr →
  entry_of k cur (vpn_of addr) = Some e →
  ∃ k', SafeWriteMem (FaultHandler false cur) 2 addr size x k = Done (tt, k') ∧ vm_inv k' cur None ∧
    (∀ i, 0 ≤ i < size → page_byte k' cur cur (vpn_of addr) (offset_of addr + i) =
       Some (le_bytes (Z.to_nat size) x !!! Z.to_nat i)) ∧
    ∀ id v j b, ~ (id = cur ∧ v = vpn_of addr ∧ offset_of addr ≤ j < offset_of addr + size) →
      page_byte k cur id v j = Some b → page_byte k' cur id v j = Some b.
Proof.
  intros Hinv Hroom Hs Hal Hint He.
  destruct (SafeWriteMem_spec cur k addr size e Hinv Hroom Hs Hal Hint He x)
    as ([] & k' & Hrun & Hinv' & _ & [Hhere Hother]).
  by exists k'.
Qed.

Lemma SafeWriteMem_updates_page_witness :
  ∃ k', SafeWriteMem (FaultHandler false 1) 2 512 4 77 sample_vm = Done (tt, k') ∧
        page_byte k' 1 1 4 0 = Some 77.
Proof.
  destruct (SafeWriteMem_updates_page sample_vm 1 512 4 (fresh_entry 4) 77) as (k' & Hrun & _ & Hhere & _).
  - exact sample_inv.
  - exact sample_room.
  - right. by right.
  - reflexivity.
  - done.
  - apply sample_entry. vm_compute. split; discriminate || reflexivity.
  - exists k'. split; [exact Hrun |]. exact (Hhere 0 ltac:(lia)).
Defined.

(** [getNextSCTLB] is second chance: it returns after at most one turn of
    the hand; the slot is an invalid one (and then nothing changed), or, when
    all are valid, the first from the hand on whose use bit is clear (the one
    at the hand when all are set); the page table then knows the dirty bit of
    the slot, so that the slot can be reused. *)
Theorem getNextSCTLB_second_chance k cur : vm_inv k cur None →
  ∃ r k', getNextSCTLB cur k = Done (r, k') ∧ 0 ≤ r < TLBSize ∧ vm_inv k' cur None ∧ slot_saved k' cur r ∧
    ((∃ t, TLB k !! Z.to_nat r = Some t ∧ valid t = false ∧ k' = k) ∨
     (TLB_full k ∧ second_chance TLBSize (TLB_use k) (indexTLBSndChc k) r)).
Proof.
  intros Hinv. destruct (getNextSCTLB_spec k cur None Hinv) as (r & k' & Hrun & Hs & Hr & Hsv & Hch).
  exists r, k'. split; [done |]. split; [done |]. split; [by eapply sim_inv |]. done.
Qed.

Lemma getNextSCTLB_second_chance_witness :
  ∃ r k', getNextSCTLB 1 sample_vm = Done (r, k') ∧ 0 ≤ r < TLBSize.
Proof.
  destruct (getNextSCTLB_second_chance sample_vm 1 sample_inv) as (r & k' & Hrun & Hr & _).
  exists r, k'. split; [exact Hrun | exact Hr].
Defined.

(** ** More states of the small system *)

(** A check, by evaluation, of what [load] needs. *)
Definition can_load (k : VM) (v : Z) : bool :=
  bool_decide (is_Some (entry_of k 1 v)) &&
  forallb (λ t, negb (valid t && bool_decide (virtualPage t = v))) (TLB k) &&
  negb (bit (SWAPBitMap k) 63).

Lemma can_load_inv k v : vm_inv k 1 None → can_load k v = true →
  vm_inv (state_of k (load false 1 v k)) 1 None.
Proof.
  intros Hinv Hc. unfold can_load in Hc. apply andb_true_iff in Hc as [Hc Hbit].
  apply andb_true_iff in Hc as [He Hslot]. split_bool. destruct He as [e He].
  apply negb_true_iff in Hbit. destruct (load_spec k 1 v e) as ([] & k' & Hrun & Hinv' & _).
  - done.
  - by exists 63.
  - done.
  - intros i t Ht Hv Hvp. rewrite forallb_forall in Hslot.
    assert (negb (valid t && bool_decide (virtualPage t = v)) = true) as Hneg
      by (apply Hslot, list_elem_of_In; by eapply list_elem_of_lookup_2).
    rewrite Hv, bool_decide_true in Hneg by done. done.
  - by rewrite Hrun.
Qed.

Fixpoint load_all (vs : list Z) (k : VM) : VM :=
  match vs with
  | [] => k
  | v :: vs' => load_all vs' (state_of k (load false 1 v k))
  end.

Fixpoint can_load_all (vs : list Z) (k : VM) : bool :=
  match vs with
  | [] => true
  | v :: vs' => can_load k v && can_load_all vs' (state_of k (load false 1 v k))
  end.

Lemma load_all_inv vs : ∀ k, vm_inv k 1 None → can_load_all vs k = true → vm_inv (load_all vs k) 1 None.
Proof.
  induction vs as [| v vs IH]; intros k Hinv Hc; [done |]. simpl in Hc. split_bool.
  apply IH; [by apply can_load_inv | done].
Qed.

(** Pages 0 to 3 are in the four frames and the four slots of the TLB. *)
Definition full_vm : VM := load_all [0; 1; 2; 3] sample_vm.

Lemma full_inv : vm_inv full_vm 1 None.
Proof. apply load_all_inv; [exact sample_inv | vm_compute; reflexivity]. Qed.

Lemma full_frames : frames_full full_vm.
Proof.
  intros f Hf. assert (f = 0 ∨ f = 1 ∨ f = 2 ∨ f = 3) as Hc by (unfold NumPhysPages in Hf; lia).
  destruct Hc as [-> | [-> | [-> | ->]]]; vm_compute; reflexivity.
Qed.

Lemma forallb_lookup {A} (p : A → bool) (l : list A) : forallb p l = true →
  ∀ i x, l !! i = Some x → p x = true.
Proof.
  rewrite forallb_forall. intros H i x Hx. apply H, list_elem_of_In. by eapply list_elem_of_lookup_2.
Qed.

Lemma full_TLB : TLB_full full_vm.
Proof. refine (forallb_lookup valid (TLB full_vm) _). vm_compute. reflexivity. Qed.

(** C32 [getNextSCSWAP] is second chance: when every frame is taken it returns
    after at most one turn of the hand, and the victim is the first frame from
    the hand on whose page has a clear use bit (the one at the hand when all are
    set).  The use bits of the frames that the hand has passed over are cleared,
    those of all other frames are as they were; the hand is behind the victim;
    nothing else of the state changes; the invariant of paging holds and no byte
    of a page is lost. *)
Theorem getNextSCSWAP_second_chance k cur : vm_inv k cur None → frames_full k →
  ∃ r k', getNextSCSWAP k = Done (r, k') ∧ 0 ≤ r < NumPhysPages ∧
    second_chance_turn NumPhysPages (IPT_use k) (IPT_use k') (indexSWAPSndChc k) (indexSWAPSndChc k') r ∧
    forget_use k' = forget_use k ∧ vm_inv k' cur None ∧ bytes_kept cur k k'.
Proof.
  intros Hinv Hfull. destruct (getNextSCSWAP_spec k cur Hinv Hfull) as (r & k' & Hrun & Hs & Hr & _ & Hsc & Hf).
  exists r, k'. split; [done |]. split; [done |]. split; [done |]. split; [done |].
  split; [by eapply sim_inv | by eapply sim_bytes].
Qed.

Lemma getNextSCSWAP_second_chance_witness :
  ∃ r k', getNextSCSWAP full_vm = Done (r, k') ∧
    second_chance_turn NumPhysPages (IPT_use full_vm) (IPT_use k') (indexSWAPSndChc full_vm) (indexSWAPSndChc k') r.
Proof.
  destruct (getNextSCSWAP_second_chance full_vm 1 full_inv full_frames) as (r & k' & Hrun & _ & Hsc & _).
  exists r, k'. split; [exact Hrun | exact Hsc].
Defined.

(** C33 A context switch away from a space whose TLB slots are all valid loses
    nothing: [SaveState] returns, afterwards the invariant holds whichever
    space runs next, every defined byte of every page is the same for it, and
    [RestoreState] of the next space keeps that. *)
Theorem context_switch_keeps_pages k cur next g g' : vm_inv k cur None → TLB_full k →
  length g = Z.to_nat TLBSize → length g' = Z.to_nat TLBSize →
  ∃ k', (SaveState cur g ;; RestoreState next g') k = Done (tt, k') ∧ vm_inv k' next None ∧ TLB_empty k' ∧
    ∀ id v j b, page_byte k cur id v j = Some b → page_byte k' next id v j = Some b.
Proof.
  intros Hinv Hfull Hg Hg'.
  destruct (SaveState_spec k cur g Hinv Hfull Hg) as ([] & k1 & Hrun1 & Hem & H1).
  destruct (H1 next) as [Hinv1 Hb1].
  destruct (RestoreState_spec k1 next g' Hinv1 Hem Hg') as ([] & k2 & Hrun2 & Hem2 & Hinv2 & Hb2 & _).
  exists k2. split; [unfold mbind, M_bind; by rewrite Hrun1 |]. split; [done |]. split; [done |].
  intros id v j b Hb. by apply Hb2, Hb1.
Qed.

Lemma context_switch_keeps_pages_witness :
  ∃ k', (SaveState 1 (replicate 4 zero_slot) ;; RestoreState 1 (replicate 4 zero_slot)) full_vm = Done (tt, k') ∧
        vm_inv k' 1 None.
Proof.
  destruct (context_switch_keeps_pages full_vm 1 1 (replicate 4 zero_slot) (replicate 4 zero_slot))
    as (k' & Hrun & Hinv & _).
  - exact full_inv.
  - exact full_TLB.
  - reflexivity.
  - reflexivity.
  - exists k'. split; [exact Hrun | exact Hinv].
Defined.

(** The construction of an address space from a well-formed executable
    returns, keeps the paging invariant, changes no byte of another space, and
    the pages of code and initialised data of the new space read as the bytes
    of the file. *)
Theorem new_space_ready k cur id fn f h : vm_inv k cur None → spaces k !! id = None →
  unix k !! fn = Some f → fn ≠ SWAPFILENAME → noff_wf f h →
  ∃ k', AddrSpace_new false id (mkOpenFile fn 0) fn k = Done (tt, k') ∧ vm_inv k' cur None ∧
    spaces k' !! id = Some (noff_space h fn) ∧ bytes_kept cur k k' ∧
    ∀ v j b, 0 ≤ v < numPages (noff_space h fn) → 0 ≤ j < PageSize → v < noInitData (noff_space h fn) →
      f !! Z.to_nat (inFileAddr (code h) + PageSize * v + j) = Some b → page_byte k' cur id v j = Some b.
Proof.
  intros Hinv Hid Hf Hfn Hnoff. eexists. split; [by apply (AddrSpace_new_run k id fn f h) |].
  split; [by apply (new_space_inv k cur id fn f h) |].
  split; [simpl; apply lookup_insert_eq |]. split; [by apply new_space_bytes |].
  intros v j b Hv Hj Hseg Hb. pose proof (noff_space_wf k f h fn Hf Hfn Hnoff) as Hsw.
  unfold page_byte. rewrite entry_of_new by lia.
  destruct (lookup_lt_is_Some_2 (as_pageTable (noff_space h fn)) (Z.to_nat v)) as [e He];
    [pose proof (sw_table _ _ Hsw); lia |].
  rewrite He. simpl. rewrite decide_True by done. rewrite (entry_fresh _ _ _ He). simpl.
  unfold file_byte. simpl. rewrite lookup_insert_eq. simpl. rewrite Hf. simpl. rewrite decide_True by done.
  destruct Hnoff as [N1 N2 N3 N4 N5]. unfold page_offset. rewrite N2.
  rewrite s32_small; [done |].
  pose proof (divRoundUp_spec (seg_size (code h) + seg_size (noff_initData h) + seg_size (uninitData h) + UserStackSize)
                PageSize) as D3.
  simpl in Hv. unfold UserStackSize, PageSize, SectorSize in *. lia.
Qed.

Lemma new_space_ready_witness :
  ∃ k', AddrSpace_new false 2 (mkOpenFile "a.out" 0) "a.out" sample_vm = Done (tt, k') ∧ vm_inv k' 1 None.
Proof.
  destruct (new_space_ready sample_vm 1 2 "a.out" sample_file sample_header) as (k' & Hrun & Hinv & _).
  - exact sample_inv.
  - rewrite sample_vm_eq. destruct boot_vm_ok as (_ & _ & _ & -> & _). reflexivity.
  - rewrite sample_vm_eq. destruct boot_vm_ok as (_ & _ & _ & _ & E). cbn [unix set_spaces]. rewrite E. reflexivity.
  - done.
  - exact sample_noff.
  - exists k'. split; [exact Hrun | exact Hinv].
Defined.

(** Start-up: whatever the memory of the two bitmaps held, [Initialize]
    gives a state that satisfies the paging invariant, with every frame and
    every swap slot free and no address space. *)
Theorem Initialize_ready m mg sg fs cur : machine_wf m →
  (∃ t, tlb m = Some t ∧ length t = Z.to_nat TLBSize ∧ Forall (λ e, valid e = false) t) →
  length mg = 1%nat → Forall (λ w, 0 ≤ w < 2 ^ 32) mg → length sg = 2%nat → Forall (λ w, 0 ≤ w < 2 ^ 32) sg →
  is_Some (fs !! SWAPFILENAME) → (∀ n f, fs !! n = Some f → Forall byte_range f) →
  ∃ k, VM_Initialize m mg sg fs = Done k ∧ vm_inv k cur None ∧ swap_room k ∧ TLB_empty k ∧
       spaces k = ∅ ∧ unix k = fs.
Proof. apply Initialize_spec. Qed.

Lemma Initialize_ready_witness : ∃ k, VM_Initialize boot_machine [7] [0; 0] sample_fs = Done k ∧ vm_inv k 1 None.
Proof.
  destruct (Initialize_ready boot_machine [7] [0; 0] sample_fs 1) as (k & Hrun & Hinv & _).
  - exact boot_machine_wf.
  - eexists. split; [reflexivity |]. split; [reflexivity |]. by apply Forall_replicate.
  - reflexivity.
  - by repeat constructor.
  - reflexivity.
  - by repeat constructor.
  - by exists [].
  - exact sample_fs_bytes.
  - exists k. split; [exact Hrun | exact Hinv].
Defined.

(** ** Executions that lose data *)

Definition user_read (id addr : Z) : M VM Z := SafeReadMem (FaultHandler false id) 2 addr 4.
Definition user_write (id addr x : Z) : M VM unit := SafeWriteMem (FaultHandler false id) 2 addr 4 x.
Definition user_reads (id : Z) (addrs : list Z) : M VM unit :=
  foldr (λ a c, user_read id a ;; c) (mret tt) addrs.

(** The program writes 77 to its first word, touches other pages, reads back;
    [middle] happens after the write. *)
Definition write_touch_read (middle : M VM unit) : M VM (Z * Z) :=
  user_write 1 0 77 ;;
  before ← user_read 1 0;
  middle ;;
  user_reads 1 [1000; 900; 800; 600; 400; 500] ;;
  after ← user_read 1 0;
  mret (before, after).

(** The slot of the TLB that [SaveState] comes to last for page [v], valid or not. *)
Definition slot_for (v : Z) (ts : list TranslationEntry) : option TranslationEntry :=
  last (filter (λ t, virtualPage t = v) ts).

(** The entry of page [v] with the bits of that slot. *)
Definition with_bits_of (slot : option TranslationEntry) (e : TranslationEntry) : TranslationEntry :=
  match slot with Some t => set_dirty (dirty t) (set_use (use t) e) | None => e end.

Lemma slot_for_snoc v ts t : slot_for v (ts ++ [t]) = if decide (virtualPage t = v) then Some t else slot_for v ts.
Proof.
  unfold slot_for. rewrite filter_app, filter_cons. destruct (decide (virtualPage t = v)) as [E | E].
  - apply last_snoc.
  - by rewrite app_nil_r.
Qed.

(** C34 [SaveState] trusts every slot, also those that are not valid: when the
    page numbers of all TLB slots are within the page table, it returns with an
    empty TLB and the same memory, and each entry of the page table has the use
    and dirty bits of the last slot that names its page, whether or not that
    slot is valid; entries that no slot names, and those of other spaces, are as
    they were.  (So a slot that was never filled, and reads as page 0, wipes out
    the dirty bit of page 0: see [context_switch_loses_write].) *)
Theorem SaveState_copies_every_slot k cur g ts : tlb (vm_machine k) = Some ts → length ts = Z.to_nat TLBSize →
  Forall (λ t, is_Some (entry_of k cur (virtualPage t))) ts → length g = Z.to_nat TLBSize →
  ∃ k', SaveState cur g k = Done (tt, k') ∧ TLB_empty k' ∧
    mainMemory (vm_machine k') = mainMemory (vm_machine k) ∧
    ∀ id v, entry_of k' id v =
      (if decide (id = cur) then with_bits_of (slot_for v ts) else λ e, e) <$> entry_of k id v.
Proof.
  intros Ht Hl Hts Hg. enough (wp (SaveState cur g) (λ _ k', TLB_empty k' ∧
    mainMemory (vm_machine k') = mainMemory (vm_machine k) ∧ ∀ id v, entry_of k' id v =
      (if decide (id = cur) then with_bits_of (slot_for v ts) else λ e, e) <$> entry_of k id v) k) as ([] & k' & H)
    by (by exists k').
  unfold SaveState. wp_step. eapply wp_mono; [apply (wp_for (λ n k1, vm_machine k1 = vm_machine k ∧ ∀ id v, entry_of k1 id v =
    (if decide (id = cur) then with_bits_of (slot_for v (take (Z.to_nat n) ts)) else λ e, e) <$> entry_of k id v)) |].
  - split; [done |]. intros id v. simpl. case_decide; by destruct (entry_of k id v).
  - intros i k1 Hi [Em He]. simpl in Hi.
    destruct (lookup_lt_is_Some_2 ts (Z.to_nat i)) as [t Hti]; [unfold TLBSize in *; lia |].
    assert (TLB k1 !! Z.to_nat i = Some t) as HT by (unfold TLB; by rewrite Em, Ht).
    rewrite Forall_lookup in Hts. destruct (Hts _ _ Hti) as [e0 He0].
    pose proof (He cur (virtualPage t)) as He1. rewrite decide_True, He0 in He1 by done. simpl in He1.
    set (e := with_bits_of _ e0) in He1.
    wp_step. eapply wp_run; [by apply tlb_get_run; [lia |] |].
    wp_step. eapply wp_run; [by apply pt_modify_run |]. set (k2 := upd_entry cur (virtualPage t) (set_use (use t) e) k1).
    assert (entry_of k2 cur (virtualPage t) = Some (set_use (use t) e)) as He2
      by (unfold k2; rewrite (entry_of_upd _ _ _ e) by done; by rewrite decide_True).
    eapply wp_run; [by apply pt_modify_run |].
    split; [by rewrite (proj1 (upd_entry_fields _ _ _ _)); unfold k2; rewrite (proj1 (upd_entry_fields _ _ _ _)) |].
    intros id v. unfold k2. rewrite (entry_of_upd2 k1 cur (virtualPage t) e) by done.
    replace (Z.to_nat (i + 1)) with (S (Z.to_nat i)) by lia. rewrite (take_S_r _ _ t), slot_for_snoc by done.
    case_decide as Hc.
    + destruct Hc as [-> ->]. rewrite !decide_True, He0 by done. simpl. f_equal. unfold e, with_bits_of. by case_match.
    + rewrite He. destruct (decide (id = cur)) as [-> |]; [| done].
      destruct (decide (virtualPage t = v)) as [<- |]; [by destruct Hc | done].
  - intros [] k1 [Em He]. eapply wp_mono; [by apply new_tlb_spec |]. intros [] k2 (t & -> & Hlt & Hem). split_and!.
    + intros j e Hj. unfold TLB in Hj. simpl in Hj. rewrite Forall_lookup in Hem. by apply (Hem j).
    + simpl. by rewrite Em.
    + intros id v. change (entry_of (with_tlb t k1) id v) with (entry_of k1 id v). rewrite He.
      rewrite take_ge by (simpl; lia). done.
Qed.

(** The system after the program has written its first word: slot 0 holds page
    0 with the dirty bit, the other slots are not filled. *)
Definition dirty_vm : VM := state_of sample_vm (user_write 1 0 77 sample_vm).

Lemma SaveState_copies_every_slot_witness : tlb_dirty dirty_vm 0 = true ∧
  ∃ k', SaveState 1 (replicate 4 zero_slot) dirty_vm = Done (tt, k') ∧ TLB_empty k' ∧
    (dirty <$> entry_of k' 1 0) = Some false.
Proof.
  split; [vm_compute; reflexivity |].
  destruct (SaveState_copies_every_slot dirty_vm 1 (replicate 4 zero_slot) (TLB dirty_vm)) as (k' & E & H & _ & He).
  - vm_compute. reflexivity.
  - vm_compute. reflexivity.
  - apply (bool_decide_unpack _). vm_compute. exact I.
  - reflexivity.
  - exists k'. split; [exact E |]. split; [exact H |]. rewrite He. vm_compute. reflexivity.
Defined.

(** A context switch can lose a write: [SaveState] copies the dirty bit of
    every slot, valid or not, into the page table.  With a TLB that was
    allocated but not yet filled (its unused slots read as zero), the dirty bit
    of page 0 is overwritten by an unused slot, the page is later dropped as
    clean, and the program reads the old word of the executable.  Without the
    switch the same program reads 77 back. *)
Lemma context_switch_loses_write :
  value_of (write_touch_read (mret tt) sample_vm) = Some (77, 77) ∧
  value_of (write_touch_read (SaveState 1 (replicate 4 zero_slot) ;;
                              RestoreState 1 (replicate 4 zero_slot)) sample_vm) = Some (77, 0x03020100).
Proof. split; vm_compute; reflexivity. Qed.

(** The parent reads its first word, forks, runs on, and the child reads the
    same word of the code it shares. *)
Definition fork_then_child_reads : M VM (Z * Z) :=
  parent ← user_read 1 0;
  AddrSpace_copy 2 1 ;;
  user_reads 1 [128; 256; 400; 1000; 600; 700; 500] ;;
  SaveState 1 (replicate 4 zero_slot) ;; RestoreState 2 (replicate 4 zero_slot) ;;
  child ← user_read 2 0;
  mret (parent, child).

(** After [Fork] the child can read a foreign frame: the copy constructor
    copies valid entries, but the inverted page table still points to the
    parent's entry, so that an eviction invalidates the parent's mapping only
    and the child's stays valid while the frame is given to another page. *)
Theorem fork_child_reads_foreign_frame :
  ∃ child, value_of (fork_then_child_reads sample_vm) = Some (0x03020100, child) ∧ child ≠ 0x03020100.
Proof. eexists. split; [vm_compute; reflexivity | done]. Qed.

(** A page fault outside of the address space is not refused: [load] does
    not check the page number before it indexes the page table, so that a wild
    address of a user program makes the kernel read outside of the table. *)
Theorem load_out_of_range big k id a v : spaces k !! id = Some a →
  Z.of_nat (length (as_pageTable a)) = numPages a → numPages a ≤ v →
  load big id v k = Fault OutOfBounds.
Proof.
  intros Ha Hlen Hv. unfold load, pt_get, mbind, M_bind. rewrite (space_run _ _ _ Ha).
  unfold lift. by rewrite rd_oob by lia.
Qed.

Lemma load_out_of_range_witness : load false 1 12 sample_vm = Fault OutOfBounds.
Proof.
  apply (load_out_of_range false sample_vm 1 (noff_space sample_header "a.out") 12).
  - rewrite sample_vm_eq. destruct boot_vm_ok as (_ & _ & _ & -> & _). reflexivity.
  - vm_compute. reflexivity.
  - vm_compute. discriminate.
Defined.
