(* ===== verification/Coff2Noff.v ===== *)
(** * From COFF to NOFF (bin/coff2noff.c, bin/coff.h)

    The tool reads a MIPS COFF executable and writes the NOFF file that
    [AddrSpace] loads.  It runs on UNIX: a process has the files of FileStub.v
    and open descriptors (a name and an offset), and it ends with [exit].  The
    host is the one of Makefile.dep, [HOST_x86_64]: little-endian, [DWORD] is
    [int].  What the tool prints on [stdout] is left out. *)

From stdpp Require Import base gmap list numbers strings list_numbers.
From Stdlib Require Import ZArith Lia.
From S2P Require Import Prelude FileStub Machine MachineFacts AddrSpace.

(** ** Processes *)

(** Descriptor [n] is entry [n] of [descriptors]; those of the terminal are not counted. *)
Record Process := mkProcess {
  files : Unix;
  descriptors : list (string * Z)
}.

(** A process goes on or has ended, with a status and a last message on [stderr]. *)
Inductive outcome_of (A : Type) :=
| Ret (a : A) (p : Process)
| Exit (status : Z) (message : string) (p : Process).
Arguments Ret {A} _ _.
Arguments Exit {A} _ _ _.

Definition Prog (A : Type) : Type := Process → outcome_of A.

#[export] Instance Prog_ret : MRet Prog := λ A a p, Ret a p.
#[export] Instance Prog_bind : MBind Prog := λ A B k m p,
  match m p with
  | Ret a p' => k a p'
  | Exit status message p' => Exit status message p'
  end.

Definition exit {A} (status : Z) (message : string) : Prog A := Exit status message.

(** ** System calls *)

(** [open(name, O_RDONLY, 0)] *)
Definition open_read (name : string) : Prog Z := λ p,
  match files p !! name with
  | Some _ => Ret (Z.of_nat (length (descriptors p))) (mkProcess (files p) (descriptors p ++ [(name, 0)]))
  | None => Ret (-1) p
  end.

(** [open(name, O_WRONLY|O_CREAT|O_TRUNC, 0666)]; a null name is refused, and
    [creatable] says where the process may create files. *)
Definition open_write (creatable : string → bool) (name : option string) : Prog Z := λ p,
  match name with
  | Some n =>
      if creatable n
      then Ret (Z.of_nat (length (descriptors p))) (mkProcess (<[n := []]> (files p)) (descriptors p ++ [(n, 0)]))
      else Ret (-1) p
  | None => Ret (-1) p
  end.

Definition descriptor (p : Process) (fd : Z) : option (string * Z) :=
  if decide (0 ≤ fd) then descriptors p !! Z.to_nat fd else None.

Definition set_offset (fd : Z) (name : string) (pos : Z) (p : Process) : Process :=
  mkProcess (files p) (<[Z.to_nat fd := (name, pos)]> (descriptors p)).

(** [lseek(fd, pos, 0)] *)
Definition lseek (fd pos : Z) : Prog unit := λ p,
  match descriptor p fd with
  | Some (name, _) => if decide (0 ≤ pos) then Ret tt (set_offset fd name pos p) else Ret tt p
  | None => Ret tt p
  end.

(** [read(fd, buf, nBytes)]: what it returns, and what is in the buffer.  A
    negative length is a huge [size_t], for which no buffer is accessible. *)
Definition read (fd nBytes : Z) : Prog (Z * list Z) := λ p,
  match descriptor p fd with
  | Some (name, pos) =>
      match files p !! name with
      | Some f =>
          if decide (nBytes < 0) then Ret (-1, []) p
          else
            let bs := pread_bytes f pos nBytes in
            Ret (Z.of_nat (length bs), bs) (set_offset fd name (pos + Z.of_nat (length bs)) p)
      | None => Ret (-1, []) p
      end
  | None => Ret (-1, []) p
  end.

(** [write(fd, buf, nBytes)], with the [nBytes] bytes of the buffer. *)
Definition write (fd nBytes : Z) (buf : list Z) : Prog Z := λ p,
  match descriptor p fd with
  | Some (name, pos) =>
      match files p !! name with
      | Some f =>
          if decide (nBytes < 0) then Ret (-1) p
          else Ret (Z.of_nat (length buf))
                 (set_offset fd name (pos + Z.of_nat (length buf))
                    (mkProcess (<[name := pwrite_bytes f pos buf]> (files p)) (descriptors p)))
      | None => Ret (-1) p
      end
  | None => Ret (-1) p
  end.

Definition unlink (name : option string) : Prog unit := λ p,
  match name with
  | Some n => Ret tt (mkProcess (delete n (files p)) (descriptors p))
  | None => Ret tt p
  end.

(** ** Headers (bin/coff.h) *)

Definition MIPSELMAGIC : Z := 0x0162.
Definition OMAGIC : Z := 263.                (* 0407 *)

Definition ushort_at (bs : list Z) (i : nat) : Z := le_value (take 2 (drop i bs)).
Definition dword_at (bs : list Z) (i : nat) : Z := s32 (le_value (take 4 (drop i bs))).

Record filehdr := mkFilehdr {
  f_magic : Z; f_nscns : Z; f_timdat : Z; f_symptr : Z; f_nsyms : Z; f_opthdr : Z; f_flags : Z
}.
Definition filehdr_size : Z := 20.
Definition filehdr_of (bs : list Z) : filehdr :=
  mkFilehdr (ushort_at bs 0) (ushort_at bs 2) (dword_at bs 4) (dword_at bs 8) (dword_at bs 12)
    (ushort_at bs 16) (ushort_at bs 18).

(** [struct aouthdr], of which only [magic] is used. *)
Definition aouthdr_size : Z := 56.
Definition aout_magic (bs : list Z) : Z := ushort_at bs 0.

Record scnhdr := mkScnhdr {
  s_name : list Z; s_paddr : Z; s_vaddr : Z; s_size : Z; s_scnptr : Z; s_relptr : Z; s_lnnoptr : Z;
  s_nreloc : Z; s_nlnno : Z; s_flags : Z
}.
Definition scnhdr_size : Z := 40.
Definition scnhdr_of (bs : list Z) : scnhdr :=
  mkScnhdr (take 8 bs) (dword_at bs 8) (dword_at bs 12) (dword_at bs 16) (dword_at bs 20) (dword_at bs 24)
    (dword_at bs 28) (ushort_at bs 32) (ushort_at bs 34) (dword_at bs 36).

(** The array [sections], of [n] entries. *)
Fixpoint scnhdrs_of (n : nat) (bs : list Z) : list scnhdr :=
  match n with
  | O => []
  | S n' => scnhdr_of (take 40 bs) :: scnhdrs_of n' (drop 40 bs)
  end.

(** [!strcmp(s_name, s)], for a literal [s] shorter than [s_name]. *)
Definition name_is (s : string) (sec : scnhdr) : bool :=
  bool_decide (take (S (String.length s)) (s_name sec) = chars s ++ [0]).

(** A NOFF header as the bytes of the object. *)
Definition segment_bytes (g : Segment) : list Z :=
  le_bytes 4 (seg_virtualAddr g) ++ le_bytes 4 (inFileAddr g) ++ le_bytes 4 (seg_size g).
Definition noff_bytes (h : NoffHeader) : list Z :=
  le_bytes 4 (noffMagic h) ++ segment_bytes (code h) ++ segment_bytes (noff_initData h) ++
  segment_bytes (uninitData h).

(** ** The tool *)

(** [WordToHost], [ShortToHost]: the host is little-endian. *)
Definition WordToHost (word : Z) : Z := word.
Definition ShortToHost (shortword : Z) : Z := shortword.

Section tool.
Context (creatable : string → bool) (noffFileName : option string).

(** The three last lines of every error. *)
Definition fail {A} (message : string) : Prog A := unlink noffFileName ;; exit 1 message.

Definition Read (fd nBytes : Z) : Prog (list Z) :=
  '(r, buf) ← read fd nBytes;
  if decide (r ≠ nBytes) then fail "File is too short" else mret buf.

Definition Write (fd : Z) (buf : list Z) (nBytes : Z) : Prog unit :=
  r ← write fd nBytes buf;
  if decide (r ≠ nBytes) then fail "Unable to write file" else mret tt.

(** From [lseek] to [free(buffer)]. *)
Definition copy_section (fdIn fdOut : Z) (sec : scnhdr) : Prog unit :=
  lseek fdIn (s_scnptr sec) ;;
  buffer ← Read fdIn (s_size sec);
  Write fdOut buffer (s_size sec).

(** One turn of the loop over the sections: [noffH] and [inNoffFile]. *)
Definition load_section (fdIn fdOut : Z) (sec : scnhdr) (l : NoffHeader * Z) : Prog (NoffHeader * Z) :=
  let '(noffH, inNoffFile) := l in
  if decide (s_size sec = 0) then mret l
  else if name_is ".text" sec then
    copy_section fdIn fdOut sec ;;
    mret (mkNoff (noffMagic noffH) (mkSegment (s_paddr sec) inNoffFile (s_size sec)) (noff_initData noffH)
            (uninitData noffH), s32 (inNoffFile + s_size sec))
  else if name_is ".data" sec || name_is ".rdata" sec then
    if decide (seg_size (noff_initData noffH) ≠ 0) then fail "Can't handle both data and rdata"
    else
      copy_section fdIn fdOut sec ;;
      mret (mkNoff (noffMagic noffH) (code noffH) (mkSegment (s_paddr sec) inNoffFile (s_size sec))
              (uninitData noffH), s32 (inNoffFile + s_size sec))
  else if name_is ".bss" sec || name_is ".sbss" sec then
    let u := uninitData noffH in
    if decide (seg_size u ≠ 0) then
      if decide (s_paddr sec = s32 (seg_virtualAddr u + seg_size u)) then fail "Can't handle both bss and sbss"
      else mret (mkNoff (noffMagic noffH) (code noffH) (noff_initData noffH)
                   (mkSegment (seg_virtualAddr u) (inFileAddr u) (s32 (seg_size u + s_size sec))), inNoffFile)
    else mret (mkNoff (noffMagic noffH) (code noffH) (noff_initData noffH)
                 (mkSegment (s_paddr sec) (inFileAddr u) (s_size sec)), inNoffFile)
  else fail "Unknown segment type".

Fixpoint load_sections (fdIn fdOut : Z) (secs : list scnhdr) (l : NoffHeader * Z) : Prog (NoffHeader * Z) :=
  match secs with
  | [] => mret l
  | sec :: secs' => l' ← load_section fdIn fdOut sec l; load_sections fdIn fdOut secs' l'
  end.

(** The conversion of [s_paddr], [s_size] and [s_scnptr]. *)
Definition scnhdr_to_host (sec : scnhdr) : scnhdr :=
  mkScnhdr (s_name sec) (WordToHost (s_paddr sec)) (s_vaddr sec) (WordToHost (s_size sec))
    (WordToHost (s_scnptr sec)) (s_relptr sec) (s_lnnoptr sec) (s_nreloc sec) (s_nlnno sec) (s_flags sec).

(** From the file header to the section headers. *)
Definition read_sections (fdIn : Z) : Prog (list scnhdr) :=
  b ← Read fdIn filehdr_size;
  let fileh := filehdr_of b in
  if decide (ShortToHost (f_magic fileh) ≠ MIPSELMAGIC) then fail "File is not a MIPSEL COFF file"
  else
    b ← Read fdIn aouthdr_size;
    if decide (ShortToHost (aout_magic b) ≠ OMAGIC) then fail "File is not a OMAGIC file"
    else
      let numsections := ShortToHost (f_nscns fileh) in
      b ← Read fdIn (numsections * scnhdr_size);
      mret (scnhdr_to_host <$> scnhdrs_of (Z.to_nat numsections) b).

(** What follows the two [open]s; [garbage] is [noffH] before it is initialised. *)
Definition convert (garbage : NoffHeader) (fdIn fdOut : Z) : Prog unit :=
  sections ← read_sections fdIn;
  let empty g := mkSegment (seg_virtualAddr g) (inFileAddr g) 0 in
  let noffH := mkNoff NOFFMAGIC (empty (code garbage)) (empty (noff_initData garbage)) (empty (uninitData garbage)) in
  lseek fdOut noff_size ;;
  '(noffH, _) ← load_sections fdIn fdOut sections (noffH, noff_size);
  lseek fdOut 0 ;;
  Write fdOut (noff_bytes noffH) noff_size ;;
  exit 0 "".
End tool.

(** [argv] of the process; the second [if] of the source tests [fdIn] again. *)
Definition main (creatable : string → bool) (garbage : NoffHeader) (argv : list string) : Prog unit :=
  match argv !! 1%nat with
  | None => exit 1 "Usage"
  | Some coffFileName =>
      fdIn ← open_read coffFileName;
      if decide (fdIn = -1) then exit 1 coffFileName
      else
        fdOut ← open_write creatable (argv !! 2%nat);
        if decide (fdIn = -1) then exit 1 (default "" (argv !! 2%nat))
        else convert (argv !! 2%nat) garbage fdIn fdOut
  end.

(** ** Reasoning about processes

    [ends m Q E p]: run from [p], [m] goes on with a value and a process in [Q],
    or exits with a status and a process in [E]. *)

Definition ends {A} (m : Prog A) (Q : A → Process → Prop) (E : Z → Process → Prop) (p : Process) : Prop :=
  match m p with
  | Ret a p' => Q a p'
  | Exit status _ p' => E status p'
  end.

Lemma outcome_seq {A B} (m : Prog A) (k : A → Prog B) Q E p :
  ends m (λ a p', ends (k a) Q E p') E p → ends (m ≫= k) Q E p.
Proof. unfold ends, mbind, Prog_bind. by destruct (m p). Qed.

Lemma outcome_mono {A} (m : Prog A) (Q Q' : A → Process → Prop) (E : Z → Process → Prop) p :
  ends m Q E p → (∀ a p', Q a p' → Q' a p') → ends m Q' E p.
Proof. unfold ends. destruct (m p); auto. Qed.

Lemma run_seq {A B} (m : Prog A) (k : A → Prog B) p a p' : m p = Ret a p' → (m ≫= k) p = k a p'.
Proof. intros E. unfold mbind, Prog_bind. by rewrite E. Qed.

Lemma bind_exits {A B} (m : Prog A) (k : A → Prog B) p b p' :
  (∀ a p1 b1 p2, k a p1 ≠ Ret b1 p2) → (m ≫= k) p ≠ Ret b p'.
Proof. intros Hk. unfold mbind, Prog_bind. destruct (m p); [apply Hk | done]. Qed.

(** The conversion ends the process. *)
Lemma convert_exits out garbage fdIn fdOut p a p' : convert out garbage fdIn fdOut p ≠ Ret a p'.
Proof.
  unfold convert. apply bind_exits. intros secs ? ? ?. apply bind_exits. intros ? ? ? ?. apply bind_exits.
  intros [] ? ? ?. do 2 (apply bind_exits; intros ? ? ? ?). done.
Qed.

(** ** Errors *)

Section errors.
Context (creatable : string → bool) (fs : Unix) (out : option string).

(** Only the output file differs from what there was. *)
Definition others_kept (p : Process) : Prop := ∀ n, Some n ≠ out → files p !! n = fs !! n.

(** The output descriptor is that of the output file, or none. *)
Definition writes_out (fdOut : Z) (p : Process) : Prop :=
  others_kept p ∧ ∀ n pos, descriptor p fdOut = Some (n, pos) → Some n = out.

(** The tool leaves its output, or no output and status 1. *)
Definition clean_end (status : Z) (p : Process) : Prop :=
  others_kept p ∧ (status = 0 ∨ status = 1 ∧ ∀ n, out = Some n → files p !! n = None).

Definition keeps {A} (fdOut : Z) (m : Prog A) : Prop :=
  ∀ p, writes_out fdOut p → ends m (λ _ p', writes_out fdOut p') clean_end p.

Lemma keeps_bind {A B} fdOut (m : Prog A) (k : A → Prog B) :
  keeps fdOut m → (∀ a, keeps fdOut (k a)) → keeps fdOut (m ≫= k).
Proof.
  intros Hm Hk p Hp. apply outcome_seq. eapply outcome_mono; [by apply Hm |]. intros a p' Hp'. by apply Hk.
Qed.

Lemma keeps_ret {A} fdOut (a : A) : keeps fdOut (mret a).
Proof. by intros p Hp. Qed.

Lemma keeps_fail {A} fdOut message : keeps fdOut (@fail out A message).
Proof.
  intros p [Hk _]. unfold fail, ends, mbind, Prog_bind, unlink, exit. unfold clean_end, others_kept in *.
  destruct out as [n |]; split; simpl.
  - intros n' Hn. rewrite lookup_delete_ne by congruence. by apply Hk.
  - right. split; [done |]. intros ? [= <-]. apply lookup_delete_eq.
  - done.
  - by right.
Qed.

Lemma descriptor_set_offset fd fd' name pos pos' p : descriptor p fd = Some (name, pos) →
  descriptor (set_offset fd name pos' p) fd' = if decide (fd' = fd) then Some (name, pos') else descriptor p fd'.
Proof.
  unfold descriptor, set_offset. simpl. case_decide as Hfd; [| done]. intros Hd. apply lookup_lt_Some in Hd as Hlt.
  destruct (decide (fd' = fd)) as [-> | Hne].
  - rewrite decide_True by done. by apply list_lookup_insert_eq.
  - case_decide; [| done]. apply list_lookup_insert_ne. lia.
Qed.

(** Moving a descriptor changes no file and renames nothing. *)
Lemma writes_out_offset fdOut fd name pos pos' p : descriptor p fd = Some (name, pos) →
  writes_out fdOut p → writes_out fdOut (set_offset fd name pos' p).
Proof.
  intros Hd [Hk Ho]. split; [exact Hk |]. intros n q. rewrite (descriptor_set_offset fd fdOut name pos pos' p Hd).
  case_decide; [| apply Ho]. intros [= <- <-]. subst fd. by eapply Ho.
Qed.

Lemma keeps_lseek fdOut fd pos : keeps fdOut (lseek fd pos).
Proof.
  intros p Hp. unfold ends, lseek. destruct (descriptor p fd) as [[name q] |] eqn:Hd; [| done].
  case_decide; [| done]. by eapply writes_out_offset.
Qed.

Lemma keeps_read fdOut fd n : keeps fdOut (read fd n).
Proof.
  intros p Hp. unfold ends, read. destruct (descriptor p fd) as [[name q] |] eqn:Hd; [| done].
  destruct (files p !! name); [| done]. case_decide; [done |]. by eapply writes_out_offset.
Qed.

Lemma keeps_write fdOut n buf : keeps fdOut (write fdOut n buf).
Proof.
  intros p Hp. unfold ends, write. destruct (descriptor p fdOut) as [[name q] |] eqn:Hd; [| done].
  destruct (files p !! name) as [f |]; [| done]. case_decide; [done |]. apply (writes_out_offset _ _ _ q); [done |].
  destruct Hp as [Hk Ho]. pose proof (Ho name q Hd) as Hname. split; [| exact Ho].
  intros n' Hn'. simpl. rewrite lookup_insert_ne by congruence. by apply Hk.
Qed.
#[local] Hint Resolve keeps_ret keeps_fail keeps_lseek keeps_read keeps_write : core.

(** Every part of the tool keeps the other files, by following its branches. *)
Ltac keeps_parts :=
  repeat first [ done | progress auto | apply keeps_bind; [| intros ?] | case_match | case_decide ].

Lemma keeps_Read fdOut fd n : keeps fdOut (Read out fd n).
Proof. unfold Read. keeps_parts. Qed.

Lemma keeps_Write fdOut buf n : keeps fdOut (Write out fdOut buf n).
Proof. unfold Write. keeps_parts. Qed.
#[local] Hint Resolve keeps_Read keeps_Write : core.

Lemma keeps_load_sections fdOut fdIn secs : ∀ l, keeps fdOut (load_sections out fdIn fdOut secs l).
Proof.
  induction secs as [| sec secs IH]; intros l; simpl; [auto |]. apply keeps_bind; [| auto].
  unfold load_section, copy_section. keeps_parts.
Qed.

Lemma keeps_read_sections fdOut fdIn : keeps fdOut (read_sections out fdIn).
Proof. unfold read_sections. keeps_parts. Qed.
#[local] Hint Resolve keeps_load_sections keeps_read_sections : core.

Lemma keeps_exit fdOut : keeps fdOut (exit (A := unit) 0 "").
Proof. intros p [Hk _]. split; [done | by left]. Qed.
#[local] Hint Resolve keeps_exit : core.

Lemma keeps_convert garbage fdOut fdIn : keeps fdOut (convert out garbage fdIn fdOut).
Proof. unfold convert. keeps_parts. Qed.
End errors.
