(* ===== verification/CoffClaims.v ===== *)
(** * What [coff2noff] guarantees

    A well-formed COFF file becomes a NOFF file whose header the loader of
    AddrSpace.v reads back, with the bytes of each section where the header
    says; the virtual memory of the program then holds the sections at their
    addresses.  An error leaves no output.  The check for adjacent [.bss] and
    [.sbss] sections is the wrong way round. *)

From stdpp Require Import base gmap list numbers strings list_numbers.
From Stdlib Require Import ZArith Lia.
From S2P Require Import Prelude FileStub Machine MachineFacts AddrSpace VMInv VMSpaces VMClaims Coff2Noff.

(** ** The sections of an executable *)

Inductive section_kind := Text | Data | Bss.

#[export] Instance section_kind_eq_dec : EqDecision section_kind.
Proof. solve_decision. Defined.

(** The kind of a section that is not empty and has a known name. *)
Definition kind_of (sec : scnhdr) : option section_kind :=
  if decide (s_size sec = 0) then None
  else if name_is ".text" sec then Some Text
  else if name_is ".data" sec || name_is ".rdata" sec then Some Data
  else if name_is ".bss" sec || name_is ".sbss" sec then Some Bss
  else None.

(** The bytes a section takes in the NOFF file. *)
Definition copied_size (sec : scnhdr) : Z :=
  match kind_of sec with
  | Some Text | Some Data => s_size sec
  | _ => 0
  end.
Definition copied_sizes (secs : list scnhdr) : Z := foldr (λ s n, copied_size s + n) 0 secs.

(** The first section of kind [k], and its place when the sections go to [pos] and after. *)
Fixpoint find_section (k : section_kind) (secs : list scnhdr) (pos : Z) : option (scnhdr * Z) :=
  match secs with
  | [] => None
  | s :: secs' => if decide (kind_of s = Some k) then Some (s, pos) else find_section k secs' (pos + copied_size s)
  end.

(** [c] begins as a COFF file does, with the section headers [secs]. *)
Record coff_head (c : list Z) (secs : list scnhdr) : Prop := {
  ch_bytes : Forall byte_range c;
  ch_magic : ushort_at c 0 = MIPSELMAGIC;
  ch_omagic : ushort_at (drop 20 c) 0 = OMAGIC;
  ch_sections : scnhdrs_of (Z.to_nat (ushort_at c 2)) (drop 76 c) = secs;
  ch_length : 76 + 40 * ushort_at c 2 ≤ Z.of_nat (length c)
}.

(** It has one section of each kind at most, inside of the file. *)
Record coff_wf (c : list Z) (secs : list scnhdr) : Prop := {
  cw_head : coff_head c secs;
  cw_known : ∀ s, s ∈ secs → s_size s ≠ 0 → is_Some (kind_of s);
  cw_distinct : NoDup (omap kind_of secs);
  cw_in_file : ∀ s, s ∈ secs → 0 ≤ s_size s ∧
    (copied_size s ≠ 0 → 0 ≤ s_scnptr s ∧ s_scnptr s + s_size s ≤ Z.of_nat (length c));
  cw_total : noff_size + copied_sizes secs < 2 ^ 31
}.

(** The segment [g] of the NOFF file [w] is section [s] of the COFF file [c]. *)
Definition placed (c w : list Z) (s : scnhdr) (a : Z) (g : Segment) : Prop :=
  g = mkSegment (s_paddr s) a (s_size s) ∧
  pread_bytes w a (s_size s) = pread_bytes c (s_scnptr s) (s_size s).

(** ** The bytes of the header *)

Lemma dword_range bs i : - 2 ^ 31 ≤ dword_at bs i < 2 ^ 31.
Proof. apply s32_range. Qed.

Lemma le_bytes_int v : s32 (le_value (le_bytes 4 v)) = s32 v.
Proof. rewrite le_value_bytes. change (256 ^ Z.of_nat 4) with (2 ^ 32). apply s32_u32. Qed.

Definition s32_segment (g : Segment) : Segment :=
  mkSegment (s32 (seg_virtualAddr g)) (s32 (inFileAddr g)) (s32 (seg_size g)).

Lemma s32_segment_small g : - 2 ^ 31 ≤ seg_virtualAddr g < 2 ^ 31 → - 2 ^ 31 ≤ inFileAddr g < 2 ^ 31 →
  - 2 ^ 31 ≤ seg_size g < 2 ^ 31 → s32_segment g = g.
Proof. intros. destruct g. unfold s32_segment. simpl in *. by rewrite !s32_small. Qed.

Lemma noff_of_noff_bytes h : noff_of_bytes false (noff_bytes h) =
  mkNoff (s32 (noffMagic h)) (s32_segment (code h)) (s32_segment (noff_initData h)) (s32_segment (uninitData h)).
Proof.
  unfold noff_of_bytes, int_at, s32_segment. cbn -[le_bytes le_value s32].
  rewrite <- (le_bytes_int (noffMagic h)).
  rewrite <- (le_bytes_int (seg_virtualAddr (code h))), <- (le_bytes_int (inFileAddr (code h))), <- (le_bytes_int (seg_size (code h))).
  rewrite <- (le_bytes_int (seg_virtualAddr (noff_initData h))), <- (le_bytes_int (inFileAddr (noff_initData h))),
    <- (le_bytes_int (seg_size (noff_initData h))).
  rewrite <- (le_bytes_int (seg_virtualAddr (uninitData h))), <- (le_bytes_int (inFileAddr (uninitData h))),
    <- (le_bytes_int (seg_size (uninitData h))). reflexivity.
Qed.

Lemma length_noff_bytes h : length (noff_bytes h) = 40%nat.
Proof. reflexivity. Qed.

(** ** The conversion, step by step *)

Section conversion.
Context (fs : Unix) (inn out : string) (c : list Z).
Hypothesis Hdiff : inn ≠ out.
Hypothesis Hc : fs !! inn = Some c.

(** The process with the input read up to [ip] and the output [w] written up to [op]. *)
Definition at_work (ip : Z) (w : list Z) (op : Z) : Process :=
  mkProcess (<[out := w]> fs) [(inn, ip); (out, op)].

Lemma input_file w : <[out := w]> fs !! inn = Some c.
Proof. by rewrite lookup_insert_ne. Qed.

Lemma descriptor_in ip w op : descriptor (at_work ip w op) 0 = Some (inn, ip).
Proof. reflexivity. Qed.

Lemma descriptor_out ip w op : descriptor (at_work ip w op) 1 = Some (out, op).
Proof. reflexivity. Qed.

Lemma Read_run nf ip w op n : 0 ≤ ip → 0 ≤ n → ip + n ≤ Z.of_nat (length c) →
  Read nf 0 n (at_work ip w op) = Ret (pread_bytes c ip n) (at_work (ip + n) w op).
Proof.
  intros Hip Hn Hlen. assert (length (pread_bytes c ip n) = Z.to_nat n) as Hl by (apply length_pread_full; lia).
  assert (read 0 n (at_work ip w op) = Ret (n, pread_bytes c ip n) (at_work (ip + n) w op)) as Hr.
  { unfold read. rewrite descriptor_in. cbn [files at_work]. rewrite input_file, decide_False by lia. rewrite Hl, Z2Nat.id by lia. done. }
  unfold Read. rewrite (run_seq _ _ _ _ _ Hr). by rewrite decide_False by auto.
Qed.

Lemma Write_run nf ip w op buf n : Z.of_nat (length buf) = n →
  Write nf 1 buf n (at_work ip w op) = Ret tt (at_work ip (pwrite_bytes w op buf) (op + n)).
Proof.
  intros Hl. assert (write 1 n buf (at_work ip w op) = Ret n (at_work ip (pwrite_bytes w op buf) (op + n))) as Hw.
  { unfold write. rewrite descriptor_out. cbn [files at_work descriptors]. rewrite lookup_insert_eq, decide_False by lia.
    rewrite Hl, insert_insert_eq. done. }
  unfold Write. rewrite (run_seq _ _ _ _ _ Hw). by rewrite decide_False by auto.
Qed.

Lemma lseek_in_run ip w op pos : 0 ≤ pos → lseek 0 pos (at_work ip w op) = Ret tt (at_work pos w op).
Proof. intros Hp. unfold lseek. rewrite descriptor_in. by rewrite decide_True. Qed.

Lemma lseek_out_run ip w op pos : 0 ≤ pos → lseek 1 pos (at_work ip w op) = Ret tt (at_work ip w pos).
Proof. intros Hp. unfold lseek. rewrite descriptor_out. by rewrite decide_True. Qed.

Lemma copy_section_run nf ip w op s : 0 ≤ s_scnptr s → 0 ≤ s_size s → s_scnptr s + s_size s ≤ Z.of_nat (length c) →
  copy_section nf 0 1 s (at_work ip w op) =
    Ret tt (at_work (s_scnptr s + s_size s) (pwrite_bytes w op (pread_bytes c (s_scnptr s) (s_size s))) (op + s_size s)).
Proof.
  intros H1 H2 H3. unfold copy_section. erewrite run_seq by (apply lseek_in_run; lia).
  erewrite run_seq by (apply Read_run; lia). apply Write_run. rewrite length_pread_full; lia.
Qed.

(** What the loop has written so far stays. *)
Definition extends (w : list Z) (pos : Z) (w' : list Z) : Prop :=
  ∀ j b, (j < Z.to_nat pos)%nat → w !! j = Some b → w' !! j = Some b.

Lemma extends_pread w pos w' a n : extends w pos w' → 0 ≤ a → 0 ≤ n → a + n ≤ pos → pos ≤ Z.of_nat (length w) →
  pread_bytes w' a n = pread_bytes w a n.
Proof.
  intros Hext Ha Hn Hp Hl. apply list_eq_same_length with (n := Z.to_nat n).
  - rewrite length_pread_full; lia.
  - destruct (decide (n = 0)) as [-> |]; [done |].
    destruct (lookup_lt_is_Some_2 w (Z.to_nat (a + n - 1))) as [b Hb]; [lia |].
    apply Hext, lookup_lt_Some in Hb; [| lia]. rewrite length_pread_full; lia.
  - intros j x y Hj. rewrite !lookup_pread by lia. intros Hx Hy.
    assert (w' !! (Z.to_nat a + j)%nat = Some y) by (apply Hext; [lia | done]). congruence.
Qed.

(** What the loop needs of a section. *)
Definition readable (s : scnhdr) : Prop :=
  0 ≤ s_size s ∧ (s_size s ≠ 0 → is_Some (kind_of s)) ∧
  (copied_size s ≠ 0 → 0 ≤ s_scnptr s ∧ s_scnptr s + s_size s ≤ Z.of_nat (length c)).

(** The effect of one turn on the header and on the output. *)
Record loaded (s : scnhdr) (h : NoffHeader) (w : list Z) (pos : Z) (h' : NoffHeader) (w' : list Z) : Prop := {
  ld_length : Z.of_nat (length w') ≤ pos + copied_size s;
  ld_extends : extends w pos w';
  ld_magic : noffMagic h' = noffMagic h;
  ld_copied : copied_size s ≠ 0 → Z.of_nat (length w') = pos + s_size s ∧
    pread_bytes w' pos (s_size s) = pread_bytes c (s_scnptr s) (s_size s);
  ld_code : code h' = if decide (kind_of s = Some Text) then mkSegment (s_paddr s) pos (s_size s) else code h;
  ld_data : noff_initData h' =
    if decide (kind_of s = Some Data) then mkSegment (s_paddr s) pos (s_size s) else noff_initData h;
  ld_bss : uninitData h' = if decide (kind_of s = Some Bss)
    then mkSegment (s_paddr s) (inFileAddr (uninitData h)) (s_size s) else uninitData h
}.

Lemma copied_nonneg s : readable s → 0 ≤ copied_size s.
Proof. intros (H & _). unfold copied_size. destruct (kind_of s) as [[] |]; lia. Qed.

Lemma extends_write w pos bs : 0 ≤ pos → extends w pos (pwrite_bytes w pos bs).
Proof. intros Hp j b Hj Hb. apply lookup_pwrite_out; [done | by left | done]. Qed.

Lemma copied_write s w pos : readable s → copied_size s = s_size s → s_size s ≠ 0 → 0 ≤ pos → Z.of_nat (length w) ≤ pos →
  let w' := pwrite_bytes w pos (pread_bytes c (s_scnptr s) (s_size s)) in
  Z.of_nat (length w') = pos + s_size s ∧ extends w pos w' ∧
  pread_bytes w' pos (s_size s) = pread_bytes c (s_scnptr s) (s_size s).
Proof.
  intros (H1 & H2 & H3) Hcs Hne Hp Hl w'. rewrite Hcs in H3. destruct (H3 Hne) as [H4 H5].
  assert (Z.of_nat (length (pread_bytes c (s_scnptr s) (s_size s))) = s_size s) as Hlen
    by (rewrite length_pread_full; lia).
  split; [unfold w'; rewrite length_pwrite; lia |]. split; [by apply extends_write |].
  unfold w'. pose proof (pread_pwrite_same w pos (pread_bytes c (s_scnptr s) (s_size s)) Hp) as Hsame.
  by rewrite Hlen in Hsame.
Qed.

Lemma load_section_run h pos ip w s : readable s → 0 ≤ pos → pos + copied_size s < 2 ^ 31 →
  Z.of_nat (length w) ≤ pos →
  (kind_of s = Some Data → seg_size (noff_initData h) = 0) → (kind_of s = Some Bss → seg_size (uninitData h) = 0) →
  ∃ h' ip' w', load_section (Some out) 0 1 s (h, pos) (at_work ip w pos) =
      Ret (h', pos + copied_size s) (at_work ip' w' (pos + copied_size s)) ∧ loaded s h w pos h' w'.
Proof.
  intros Hr Hpos Hmax Hl Hd Hb. pose proof Hr as (H1 & H2 & H3). pose proof (copied_write s w pos Hr) as Hw.
  unfold load_section, copied_size, kind_of in *.
  destruct (decide (s_size s = 0)) as [Hz | Hz].
  { exists h, ip, w. rewrite Z.add_0_r. split; [done |].
    split; unfold copied_size, kind_of; rewrite ?(decide_True _ _ Hz); try done; [lia | by intros j b]. }
  destruct (name_is ".text" s) eqn:Ht; [| destruct (name_is ".data" s || name_is ".rdata" s) eqn:Hda;
    [| destruct (name_is ".bss" s || name_is ".sbss" s) eqn:Hbs]].
  - destruct Hw as (Hw1 & Hw2 & Hw3); try done. destruct (H3 Hz).
    erewrite run_seq by (apply copy_section_run; lia). rewrite s32_small by lia.
    do 3 eexists. split; [reflexivity |]. split; unfold copied_size, kind_of; rewrite ?(decide_False _ _ Hz), ?Ht; try done; lia.
  - destruct Hw as (Hw1 & Hw2 & Hw3); try done. destruct (H3 Hz). rewrite decide_False by (rewrite Hd; auto).
    erewrite run_seq by (apply copy_section_run; lia). rewrite s32_small by lia.
    do 3 eexists. split; [reflexivity |].
    split; unfold copied_size, kind_of; rewrite ?(decide_False _ _ Hz), ?Ht, ?Hda; try done; lia.
  - rewrite decide_False by (rewrite Hb; auto). rewrite Z.add_0_r. do 3 eexists. split; [reflexivity |].
    split; unfold copied_size, kind_of; rewrite ?(decide_False _ _ Hz), ?Ht, ?Hda, ?Hbs; try done; [lia | by intros j b].
  - destruct (H2 Hz) as [? ?]. done.
Qed.

(** The segment of kind [k] after the loop, [g0] before it. *)
Definition seg_after (k : section_kind) (secs : list scnhdr) (pos : Z) (w : list Z) (g0 g : Segment) : Prop :=
  match find_section k secs pos with
  | Some (s, a) => placed c w s a g
  | None => g = g0
  end.
Definition bss_after (secs : list scnhdr) (pos : Z) (g0 g : Segment) : Prop :=
  match find_section Bss secs pos with
  | Some (s, _) => seg_virtualAddr g = s_paddr s ∧ seg_size g = s_size s
  | None => g = g0
  end.

Lemma find_absent k secs : ∀ pos, k ∉ omap kind_of secs → find_section k secs pos = None.
Proof.
  induction secs as [| s secs IH]; intros pos Hk; [done |]. simpl in *. destruct (kind_of s) as [k' |] eqn:Hks.
  - apply not_elem_of_cons in Hk as [Hne Hk]. rewrite decide_False by congruence. by apply IH.
  - rewrite decide_False by done. by apply IH.
Qed.

Lemma seg_after_cons k s secs pos h w h1 w1 w' (g0 g1 g : Segment) : readable s → k ∈ [Text; Data] →
  0 ≤ pos → NoDup (omap kind_of (s :: secs)) → loaded s h w pos h1 w1 →
  extends w1 (pos + copied_size s) w' →
  g1 = (if decide (kind_of s = Some k) then mkSegment (s_paddr s) pos (s_size s) else g0) →
  seg_after k secs (pos + copied_size s) w' g1 g → seg_after k (s :: secs) pos w' g0 g.
Proof.
  intros Hr Hk Hpos Hdup Hld Hext Hg1. unfold seg_after. simpl. simpl in Hdup.
  destruct (decide (kind_of s = Some k)) as [Hks | Hks]; [| by rewrite Hg1].
  rewrite Hks in Hdup. apply NoDup_cons in Hdup as [Hnot _]. rewrite find_absent by done. intros ->.
  assert (copied_size s = s_size s ∧ s_size s ≠ 0) as [Hcs Hne].
  { unfold copied_size. rewrite Hks. split; [by destruct k; try done; set_solver |].
    intros Hz. unfold kind_of in Hks. by rewrite decide_True in Hks. }
  destruct (ld_copied _ _ _ _ _ _ Hld) as [Hl Hp]; [congruence |]. split; [done |].
  rewrite <- Hp. apply (extends_pread w1 (pos + copied_size s)); try done; destruct Hr; lia.
Qed.

Lemma bss_after_cons s secs pos g0 g1 g : NoDup (omap kind_of (s :: secs)) →
  g1 = (if decide (kind_of s = Some Bss) then mkSegment (s_paddr s) (inFileAddr g0) (s_size s) else g0) →
  bss_after secs (pos + copied_size s) g1 g → bss_after (s :: secs) pos g0 g.
Proof.
  intros Hdup Hg1. unfold bss_after. simpl. simpl in Hdup.
  destruct (decide (kind_of s = Some Bss)) as [Hks | Hks]; [| by rewrite Hg1].
  rewrite Hks in Hdup. apply NoDup_cons in Hdup as [Hnot _]. rewrite find_absent by done. by intros -> ; subst.
Qed.

Lemma extends_trans w1 pos1 w2 pos2 w3 : pos1 ≤ pos2 → extends w1 pos1 w2 → extends w2 pos2 w3 → extends w1 pos1 w3.
Proof. intros Hp H1 H2 j b Hj Hb. apply H2; [lia |]. by apply H1. Qed.

Lemma load_sections_run secs : ∀ h pos ip w,
  (∀ s, s ∈ secs → readable s) → NoDup (omap kind_of secs) →
  (Data ∈ omap kind_of secs → seg_size (noff_initData h) = 0) →
  (Bss ∈ omap kind_of secs → seg_size (uninitData h) = 0) →
  0 ≤ pos → pos + copied_sizes secs < 2 ^ 31 → Z.of_nat (length w) ≤ pos →
  ∃ h' ip' w', load_sections (Some out) 0 1 secs (h, pos) (at_work ip w pos) =
      Ret (h', pos + copied_sizes secs) (at_work ip' w' (pos + copied_sizes secs)) ∧
    Z.of_nat (length w') ≤ pos + copied_sizes secs ∧ extends w pos w' ∧ noffMagic h' = noffMagic h ∧
    seg_after Text secs pos w' (code h) (code h') ∧
    seg_after Data secs pos w' (noff_initData h) (noff_initData h') ∧
    bss_after secs pos (uninitData h) (uninitData h').
Proof.
  induction secs as [| s secs IH]; intros h pos ip w Hr Hdup Hd Hb Hpos Hmax Hl.
  { exists h, ip, w. simpl. rewrite Z.add_0_r. repeat split; try done. by intros j b. }
  assert (0 ≤ copied_sizes secs) as Hpos'.
  { clear -Hr. induction secs as [| s' secs IH]; [done |]. simpl.
    assert (0 ≤ copied_size s') by (apply copied_nonneg, Hr; set_solver).
    assert (0 ≤ copied_sizes secs) by (apply IH; set_solver). unfold copied_sizes in *. lia. }
  assert (readable s) as Hrs by (apply Hr; set_solver). pose proof (copied_nonneg s Hrs) as Hcs.
  change (copied_sizes (s :: secs)) with (copied_size s + copied_sizes secs) in *.
  destruct (load_section_run h pos ip w s) as (h1 & ip1 & w1 & Hrun & Hld); try done; try lia.
  { intros E. apply Hd. simpl. rewrite E. set_solver. }
  { intros E. apply Hb. simpl. rewrite E. set_solver. }
  pose proof (ld_data _ _ _ _ _ _ Hld) as Hld1. pose proof (ld_bss _ _ _ _ _ _ Hld) as Hld2.
  destruct (IH h1 (pos + copied_size s) ip1 w1) as (h' & ip' & w' & Hrun' & Hl' & Hext & Hm & Ht & Hda & Hbs).
  { intros s' Hs'. apply Hr. set_solver. }
  { simpl in Hdup. destruct (kind_of s); [by apply NoDup_cons in Hdup as [_ ?] | done]. }
  { intros Hin. simpl in Hdup, Hd. rewrite Hld1. destruct (decide (kind_of s = Some Data)) as [E | E].
    - rewrite E in Hdup. by apply NoDup_cons in Hdup as [? _].
    - apply Hd. destruct (kind_of s); [by right | done]. }
  { intros Hin. simpl in Hdup, Hb. rewrite Hld2. destruct (decide (kind_of s = Some Bss)) as [E | E].
    - rewrite E in Hdup. by apply NoDup_cons in Hdup as [? _].
    - apply Hb. destruct (kind_of s); [by right | done]. }
  { lia. } { lia. } { apply Hld. }
  exists h', ip', w'. rewrite Z.add_assoc. split; [simpl; by rewrite (run_seq _ _ _ _ _ Hrun) |].
  split; [done |]. split; [eapply extends_trans; [| apply Hld | exact Hext]; lia |].
  split; [by rewrite Hm; apply Hld |].
  split; [apply (seg_after_cons Text s secs pos h w h1 w1 w' _ (code h1)); try done; [set_solver | apply Hld] |].
  split; [apply (seg_after_cons Data s secs pos h w h1 w1 w' _ (noff_initData h1)); try done; set_solver |]. by eapply bss_after_cons.
Qed.

(** *** Headers *)

Lemma part_of_take {A} (l : list A) (i a n : nat) : (i + a ≤ n)%nat → take a (drop i (take n l)) = take a (drop i l).
Proof.
  intros Hn. apply list_eq. intros j. destruct (decide (j < a)%nat).
  - rewrite !lookup_take_lt, !lookup_drop, lookup_take_lt by lia. done.
  - by rewrite !lookup_take_ge by lia.
Qed.

Lemma ushort_at_pread f pos n i : Z.of_nat i + 2 ≤ n → ushort_at (pread_bytes f pos n) i = ushort_at (drop (Z.to_nat pos) f) i.
Proof. intros. unfold ushort_at, pread_bytes. by rewrite part_of_take by lia. Qed.

Lemma scnhdrs_of_take n : ∀ bs, scnhdrs_of n (take (40 * n) bs) = scnhdrs_of n bs.
Proof.
  induction n as [| n IH]; intros bs; [done |]. cbn [scnhdrs_of]. f_equal.
  - rewrite take_take. by rewrite Nat.min_l by lia.
  - rewrite <- (IH (drop 40 bs)). f_equal. rewrite take_drop_commute. do 2 f_equal. lia.
Qed.

Lemma to_host_all (secs : list scnhdr) : scnhdr_to_host <$> secs = secs.
Proof. induction secs as [| [] secs IH]; [done |]. cbn. f_equal. exact IH. Qed.

Lemma ushort_range bs i : Forall byte_range bs → 0 ≤ ushort_at bs i < 2 ^ 16.
Proof.
  intros Hb. unfold ushort_at. pose proof (le_value_range (take 2 (drop i bs))) as Hr.
  destruct Hr as [H0 H1]; [by apply Forall_take, Forall_drop |]. split; [done |].
  eapply Z.lt_le_trans; [exact H1 |]. change (2 ^ 16) with (256 ^ 2).
  apply Z.pow_le_mono_r; [lia |]. rewrite length_take. lia.
Qed.

Lemma read_sections_run nf secs : coff_head c secs →
  ∃ ip, read_sections nf 0 (at_work 0 [] 0) = Ret secs (at_work ip [] 0).
Proof.
  intros [Hb Hm Hom Hs Hl]. pose proof (ushort_range c 2 Hb) as Hn.
  unfold read_sections, ShortToHost, filehdr_size, aouthdr_size, scnhdr_size.
  erewrite run_seq by (apply Read_run; lia). cbn [f_magic f_nscns filehdr_of]. rewrite !ushort_at_pread by lia.
  change (drop (Z.to_nat 0) c) with c. rewrite decide_False by (rewrite Hm; auto).
  erewrite run_seq by (apply Read_run; lia). unfold aout_magic. rewrite !ushort_at_pread by lia.
  change (Z.to_nat (0 + 20)) with 20%nat. rewrite decide_False by (rewrite Hom; auto).
  erewrite run_seq by (apply Read_run; lia). unfold mret, Prog_ret. rewrite to_host_all. eexists. f_equal.
  rewrite <- Hs. unfold pread_bytes. change (Z.to_nat (0 + 20 + 56)) with 76%nat.
  replace (Z.to_nat (ushort_at c 2 * 40)) with (40 * Z.to_nat (ushort_at c 2))%nat by lia. apply scnhdrs_of_take.
Qed.
End conversion.

(** ** The NOFF file *)

(** The NOFF file [w] holds the sections [secs] of the COFF file [c]. *)
Record holds_sections (c : list Z) (secs : list scnhdr) (w : list Z) (h : NoffHeader) : Prop := {
  hs_magic : noffMagic h = NOFFMAGIC;
  hs_code : match find_section Text secs noff_size with
            | Some (s, a) => placed c w s a (code h)
            | None => seg_size (code h) = 0
            end;
  hs_data : match find_section Data secs noff_size with
            | Some (s, a) => placed c w s a (noff_initData h)
            | None => seg_size (noff_initData h) = 0
            end;
  hs_bss : match find_section Bss secs noff_size with
           | Some (s, _) => seg_virtualAddr (uninitData h) = s_paddr s ∧ seg_size (uninitData h) = s_size s
           | None => seg_size (uninitData h) = 0
           end
}.

Lemma scnhdrs_of_elem n : ∀ bs s, s ∈ scnhdrs_of n bs → ∃ b, s = scnhdr_of b.
Proof.
  induction n as [| n IH]; intros bs s; simpl; [by intros ?%not_elem_of_nil |].
  intros [-> | Hs]%elem_of_cons; [by eexists |]. by eapply IH.
Qed.

Lemma scnhdr_fields s c secs : coff_wf c secs → s ∈ secs →
  - 2 ^ 31 ≤ s_paddr s < 2 ^ 31 ∧ - 2 ^ 31 ≤ s_size s < 2 ^ 31.
Proof.
  intros Hwf Hs. rewrite <- (ch_sections _ _ (cw_head _ _ Hwf)) in Hs. apply scnhdrs_of_elem in Hs as [b ->].
  split; apply dword_range.
Qed.

Lemma find_section_Some k secs s a : ∀ pos, (∀ s, s ∈ secs → 0 ≤ copied_size s) →
  find_section k secs pos = Some (s, a) → s ∈ secs ∧ kind_of s = Some k ∧ pos ≤ a ≤ pos + copied_sizes secs.
Proof.
  induction secs as [| s' secs IH]; intros pos Hn; [done |]. cbn [find_section].
  change (copied_sizes (s' :: secs)) with (copied_size s' + copied_sizes secs).
  assert (0 ≤ copied_sizes secs) as Hp.
  { clear -Hn. induction secs as [| s secs IH]; [done |]. simpl. assert (0 ≤ copied_size s) by (apply Hn; set_solver).
    assert (0 ≤ copied_sizes secs) by (apply IH; set_solver). unfold copied_sizes in *. lia. }
  assert (0 ≤ copied_size s') by (apply Hn; set_solver). case_decide as Hk.
  - intros [= <- <-]. split; [set_solver |]. split; [done | lia].
  - intros Hf. apply IH in Hf as (H1 & H2 & H3); [| set_solver]. split; [set_solver |]. split; [done | lia].
Qed.

Lemma pwrite_start w bs : pwrite_bytes w 0 bs = bs ++ drop (length bs) w.
Proof.
  unfold pwrite_bytes, splice. change (Z.to_nat 0) with 0%nat. simpl. f_equal.
  destruct (decide (length bs ≤ length w)%nat).
  - replace (length bs - length w)%nat with 0%nat by lia. by rewrite app_nil_r.
  - rewrite !drop_ge; rewrite ?length_app, ?length_replicate; try lia. done.
Qed.

Lemma pread_after_header w bs a n : Z.of_nat (length bs) ≤ a → pread_bytes (pwrite_bytes w 0 bs) a n = pread_bytes w a n.
Proof.
  intros Ha. rewrite pwrite_start. unfold pread_bytes. f_equal. rewrite drop_app_ge by lia.
  rewrite drop_drop. f_equal. lia.
Qed.

Lemma coff_readable c secs s : coff_wf c secs → s ∈ secs → readable c s.
Proof.
  intros Hwf Hs. destruct (cw_in_file _ _ Hwf s Hs) as [H1 H2]. split; [done |]. split; [by apply Hwf | done].
Qed.

Lemma placed_header c secs w h k s a g : coff_wf c secs → find_section k secs noff_size = Some (s, a) →
  placed c w s a g → placed c (pwrite_bytes w 0 (noff_bytes h)) s a (s32_segment g).
Proof.
  intros Hwf Hf [-> Hp]. pose proof (cw_total _ _ Hwf) as Ht. unfold noff_size in *.
  destruct (find_section_Some k secs s a 40) as (Hs & _ & Ha); [| done |].
  { intros s' Hs'. by apply (copied_nonneg c), (coff_readable c secs). }
  destruct (scnhdr_fields s c secs Hwf Hs). split.
  - apply s32_segment_small; simpl; lia.
  - rewrite <- Hp. apply pread_after_header. rewrite length_noff_bytes. lia.
Qed.

Lemma main_opens creatable garbage prog inn out fs c : fs !! inn = Some c → inn ≠ out → creatable out = true →
  main creatable garbage [prog; inn; out] (mkProcess fs []) = convert (Some out) garbage 0 1 (at_work fs inn out 0 [] 0).
Proof.
  intros Hc Hne Hcr. unfold main. simpl.
  erewrite run_seq by (unfold open_read; simpl; rewrite Hc; reflexivity). simpl.
  erewrite run_seq by (unfold open_write; rewrite Hcr; reflexivity). done.
Qed.

Lemma conversion_run creatable garbage prog inn out fs c secs : fs !! inn = Some c → inn ≠ out →
  creatable out = true → coff_wf c secs →
  ∃ w p, main creatable garbage [prog; inn; out] (mkProcess fs []) = Exit 0 "" p ∧ files p = <[out := w]> fs ∧
    (40 ≤ length w)%nat ∧ holds_sections c secs w (noff_of_bytes false (pread_bytes w 0 noff_size)).
Proof.
  intros Hc Hne Hcr Hwf. rewrite (main_opens _ _ _ _ _ _ c) by done. unfold convert.
  destruct (read_sections_run fs inn out c Hne Hc (Some out) secs (cw_head _ _ Hwf)) as [ip Hrun].
  erewrite run_seq by exact Hrun. erewrite run_seq by (by apply lseek_out_run).
  set (h0 := mkNoff _ _ _ _). pose proof (cw_total _ _ Hwf) as Hmax.
  destruct (load_sections_run fs inn out c Hne Hc secs h0 noff_size ip []) as (h & ip' & w & Hload & Hl & _ & Hm & Ht & Hd & Hb).
  { intros s Hs. by eapply coff_readable. }
  { apply Hwf. }
  { done. } { done. } { done. } { done. } { simpl. unfold noff_size. lia. }
  erewrite run_seq by exact Hload. cbv beta iota. erewrite run_seq by (by apply lseek_out_run).
  erewrite run_seq by (by apply Write_run). unfold exit.
  exists (pwrite_bytes w 0 (noff_bytes h)), (at_work fs inn out ip' (pwrite_bytes w 0 (noff_bytes h)) (0 + noff_size)).
  split; [done |]. split; [done |]. rewrite length_pwrite, length_noff_bytes by lia. split; [lia |].
  assert (pread_bytes (pwrite_bytes w 0 (noff_bytes h)) 0 noff_size = noff_bytes h) as ->.
  { rewrite pwrite_start. unfold pread_bytes. change (Z.to_nat noff_size) with (length (noff_bytes h)). apply take_app_length. }
  rewrite noff_of_noff_bytes. unfold seg_after, bss_after in *. split; cbn [noffMagic code noff_initData uninitData].
  - by rewrite Hm.
  - destruct (find_section Text secs noff_size) as [[s a] |] eqn:Hf; [by eapply placed_header | by rewrite Ht].
  - destruct (find_section Data secs noff_size) as [[s a] |] eqn:Hf; [by eapply placed_header | by rewrite Hd].
  - destruct (find_section Bss secs noff_size) as [[s a] |] eqn:Hf; [| by rewrite Hb].
    destruct Hb as [Hb1 Hb2]. apply find_section_Some in Hf as (Hs & _).
    + destruct (scnhdr_fields s c secs Hwf Hs). simpl. rewrite Hb1, Hb2, !s32_small by done. done.
    + intros s' Hs'. by apply (copied_nonneg c), (coff_readable c secs).
Qed.

(** ** The program in virtual memory *)

Definition size_of (k : section_kind) (secs : list scnhdr) : Z :=
  match find_section k secs noff_size with Some (s, _) => s_size s | None => 0 end.

(** The sections as [ld -N -T 0] lays them out: the code at 0 and first in the
    file, the initialised data right after it. *)
Record linked (secs : list scnhdr) (t : scnhdr) : Prop := {
  lk_text : find_section Text secs noff_size = Some (t, noff_size) ∧ s_paddr t = 0;
  lk_data : ∀ d a, find_section Data secs noff_size = Some (d, a) → a = noff_size + s_size t ∧ s_paddr d = s_size t;
  lk_total : noff_size + size_of Text secs + size_of Data secs + size_of Bss secs < 2 ^ 30
}.

Lemma find_Some_unique k secs s : ∀ pos, s ∈ secs → kind_of s = Some k → NoDup (omap kind_of secs) →
  ∃ a, find_section k secs pos = Some (s, a).
Proof.
  induction secs as [| s' secs IH]; intros pos Hs Hk Hdup; [by apply not_elem_of_nil in Hs |]. simpl in *.
  apply elem_of_cons in Hs as [-> | Hs]; [rewrite decide_True by done; by eexists |].
  destruct (decide (kind_of s' = Some k)) as [Hk' | Hk'].
  - rewrite Hk' in Hdup. apply NoDup_cons in Hdup as [Hn _]. destruct Hn. apply list_elem_of_omap. by exists s.
  - apply IH; try done. destruct (kind_of s'); [by apply NoDup_cons in Hdup as [_ ?] | done].
Qed.

Section in_memory.
Context (c : list Z) (secs : list scnhdr) (t : scnhdr) (w : list Z).
Let h := noff_of_bytes false (pread_bytes w 0 noff_size).
Hypothesis Hwf : coff_wf c secs.
Hypothesis Hlinked : linked secs t.
Hypothesis Hlen : (40 ≤ length w)%nat.
Hypothesis Hholds : holds_sections c secs w h.

Lemma find_size_nonneg k : 0 ≤ size_of k secs.
Proof.
  unfold size_of. destruct (find_section k secs noff_size) as [[s a] |] eqn:Hf; [| done].
  apply find_section_Some in Hf as (Hs & _); [by apply (coff_readable c secs) |].
  intros s' Hs'. by apply (copied_nonneg c), (coff_readable c secs).
Qed.

Lemma header_code : code h = mkSegment 0 noff_size (s_size t).
Proof.
  destruct (lk_text _ _ Hlinked) as [Hf Hp]. pose proof (hs_code _ _ _ _ Hholds) as Hcode. rewrite Hf in Hcode.
  destruct Hcode as [-> _]. by rewrite Hp.
Qed.

Lemma header_sizes : seg_size (code h) = size_of Text secs ∧ seg_size (noff_initData h) = size_of Data secs ∧
  seg_size (uninitData h) = size_of Bss secs.
Proof.
  destruct Hholds as [_ H1 H2 H3]. unfold size_of. split; [| split].
  - destruct (find_section Text secs noff_size) as [[s a] |]; [by destruct H1 as [-> _] | done].
  - destruct (find_section Data secs noff_size) as [[s a] |]; [by destruct H2 as [-> _] | done].
  - destruct (find_section Bss secs noff_size) as [[s a] |]; [by destruct H3 | done].
Qed.

Lemma converted_noff_wf : noff_wf w h.
Proof.
  destruct header_sizes as (H1 & H2 & H3).
  pose proof (find_size_nonneg Text). pose proof (find_size_nonneg Data). pose proof (find_size_nonneg Bss).
  pose proof (lk_total _ _ Hlinked) as Hmax. split.
  - exact Hlen.
  - done.
  - apply Hholds.
  - lia.
  - rewrite H1, H2, H3, header_code. simpl. unfold noff_size in *. lia.
Qed.

(** Where the bytes of the code and of the initialised data are in the file, by their addresses. *)
Lemma section_byte s x : s ∈ secs → kind_of s = Some Text ∨ kind_of s = Some Data → 0 ≤ x < s_size s →
  0 ≤ s_paddr s ∧ s_paddr s + x < size_of Text secs + size_of Data secs ∧
  w !! Z.to_nat (noff_size + (s_paddr s + x)) = c !! Z.to_nat (s_scnptr s + x).
Proof.
  intros Hs Hk Hx. destruct (lk_text _ _ Hlinked) as [Hft Hpt].
  assert (size_of Text secs = s_size t) as Ht by (unfold size_of; by rewrite Hft).
  pose proof (find_size_nonneg Text). pose proof (find_size_nonneg Data).
  assert (0 ≤ s_scnptr s) as Hptr.
  { destruct (coff_readable c secs s Hwf Hs) as (Hsz & _ & Hin). apply Hin. unfold copied_size. destruct Hk as [-> | ->]; lia. }
  assert (∀ a g, 0 ≤ a → placed c w s a g → w !! Z.to_nat (a + x) = c !! Z.to_nat (s_scnptr s + x)) as Hbyte.
  { intros a g Ha [_ Hp]. rewrite !Z2Nat.inj_add by lia.
    rewrite <- (lookup_pread w a (s_size s)), <- (lookup_pread c (s_scnptr s) (s_size s)) by lia. by rewrite Hp. }
  destruct Hk as [Hk | Hk]; destruct (find_Some_unique _ secs s noff_size Hs Hk (cw_distinct _ _ Hwf)) as [a Hf].
  - rewrite Hft in Hf. injection Hf as -> <-. rewrite Hpt. split; [done |]. split; [lia |].
    pose proof (hs_code _ _ _ _ Hholds) as Hcode. rewrite Hft in Hcode. by eapply Hbyte.
  - destruct (lk_data _ _ Hlinked s a Hf) as [-> Hpd]. rewrite Hpd.
    assert (size_of Data secs = s_size s) as Hd by (unfold size_of; by rewrite Hf).
    split; [lia |]. split; [lia |]. pose proof (hs_data _ _ _ _ Hholds) as Hdata. rewrite Hf in Hdata.
    rewrite Z.add_assoc. eapply Hbyte; [unfold noff_size; lia | exact Hdata].
Qed.

(** The page of a new address space that holds address [y] of code or data. *)
Lemma new_space_byte k cur id fn y : unix k !! fn = Some w → 0 ≤ y < size_of Text secs + size_of Data secs →
  page_byte (set_spaces (<[id := noff_space h fn]> (spaces k)) k) cur id (y / PageSize) (y mod PageSize) =
    w !! Z.to_nat (noff_size + y).
Proof.
  intros Hw Hy. destruct header_sizes as (H1 & H2 & H3).
  pose proof (find_size_nonneg Text). pose proof (find_size_nonneg Data). pose proof (find_size_nonneg Bss).
  pose proof (lk_total _ _ Hlinked) as Hmax.
  pose proof (divRoundUp_spec (size_of Text secs) PageSize) as D1. pose proof (divRoundUp_spec (size_of Data secs) PageSize) as D2.
  pose proof (divRoundUp_spec (size_of Text secs + size_of Data secs + size_of Bss secs + UserStackSize) PageSize) as D3.
  unfold PageSize, SectorSize, UserStackSize in D1, D2, D3. unfold noff_size in Hmax.
  assert (y / PageSize < divRoundUp (size_of Text secs) PageSize + divRoundUp (size_of Data secs) PageSize) as Hv
    by (unfold PageSize, SectorSize; dlia).
  assert (0 ≤ y / PageSize) as Hv0 by (apply Z.div_pos; [lia | done]).
  unfold page_byte. rewrite entry_of_new by done. unfold noff_space. rewrite H1, H2, H3. cbn [as_pageTable].
  rewrite list_lookup_fmap, lookup_seqZ_lt by (unfold PageSize, SectorSize, UserStackSize in *; dlia).
  cbn [fmap option_fmap option_map mbind option_bind valid dirty fresh_entry].
  rewrite decide_True by (unfold PageSize, SectorSize; dlia). unfold file_byte. cbn [spaces unix set_spaces].
  rewrite lookup_insert_eq. cbn [mbind option_bind filename noInitData].
  rewrite Hw. cbn [mbind option_bind]. rewrite decide_True by done. unfold page_offset. fold h. rewrite header_code. simpl.
  unfold noff_size, PageSize, SectorSize. rewrite s32_small by dlia. do 2 f_equal. dlia.
Qed.
End in_memory.

(** ** A small executable *)

Definition short_bytes (v : Z) : list Z := le_bytes 2 v.
Definition name_bytes (s : string) : list Z := chars s ++ replicate (8 - String.length s) 0.

Definition scnhdr_bytes (name : string) (paddr size scnptr : Z) : list Z :=
  name_bytes name ++ concat (le_bytes 4 <$> [paddr; paddr; size; scnptr; 0; 0; 0; 0]).

(** The headers of a COFF file, and the bytes after them. *)
Definition coff_bytes (sections : list (string * Z * Z * Z)) (contents : list Z) : list Z :=
  short_bytes MIPSELMAGIC ++ short_bytes (Z.of_nat (length sections)) ++ replicate 16 0 ++
  short_bytes OMAGIC ++ replicate 54 0 ++
  concat ((λ '(name, paddr, size, scnptr), scnhdr_bytes name paddr size scnptr) <$> sections) ++ contents.

(** Code of 8 bytes, data of 4, 16 bytes that are not initialised. *)
Definition sample_coff : list Z :=
  coff_bytes [(".text", 0, 8, 196); (".data", 8, 4, 204); (".bss", 12, 16, 0)] [1; 2; 3; 4; 5; 6; 7; 8; 91; 92; 93; 94].

Definition coff_fs : Unix := <["a.coff" := sample_coff]> (<[SWAPFILENAME := []]> ∅).
Definition no_header : NoffHeader := mkNoff 0 (mkSegment 0 0 0) (mkSegment 0 0 0) (mkSegment 0 0 0).
Definition sample_secs : list scnhdr := scnhdrs_of 3 (drop 76 sample_coff).

Lemma sample_coff_wf : coff_wf sample_coff sample_secs.
Proof.
  split; [split|..].
  - apply Forall_forall. intros b Hb.
    assert (forallb (λ b, bool_decide (0 ≤ b < 256)) sample_coff = true) as H by (vm_compute; reflexivity).
    rewrite forallb_forall in H. apply list_elem_of_In, H in Hb. by split_bool.
  - reflexivity.
  - reflexivity.
  - reflexivity.
  - by apply Z.leb_le; vm_compute.
  - intros s Hs _. assert (forallb (λ s, bool_decide (is_Some (kind_of s))) sample_secs = true) as H by (vm_compute; reflexivity).
    rewrite forallb_forall in H. apply list_elem_of_In, H in Hs. by split_bool.
  - apply (bool_decide_unpack _). by vm_compute.
  - intros s Hs. assert (forallb (λ s, bool_decide (0 ≤ s_size s) && bool_decide (0 ≤ s_scnptr s) &&
      bool_decide (s_scnptr s + s_size s ≤ Z.of_nat (length sample_coff))) sample_secs = true) as H by (vm_compute; reflexivity).
    rewrite forallb_forall in H. apply list_elem_of_In, H in Hs. by split_bool.
  - by apply Z.ltb_lt; vm_compute.
Qed.

Lemma sample_linked : linked sample_secs (scnhdr_of (take 40 (drop 76 sample_coff))).
Proof.
  split.
  - split; [by vm_compute | done].
  - intros d a. assert (find_section Data sample_secs noff_size = Some (scnhdr_of (take 40 (drop 116 sample_coff)), 48)) as ->
      by (vm_compute; reflexivity). by intros [= <- <-].
  - by apply Z.ltb_lt; vm_compute.
Qed.

(** ** Claims *)

(** C26 [coff2noff] converts: on a COFF file with at most one section of each
    kind, whose contents are in the file, the tool ends with status 0 and
    writes only its output; the header that the loader of address spaces reads
    from the output has the magic number, and for each kind of section its
    address, its size, and a place where the output has exactly the bytes of
    the section. *)
Theorem coff2noff_converts creatable garbage prog inn out fs c secs : fs !! inn = Some c → inn ≠ out →
  creatable out = true → coff_wf c secs →
  ∃ w p, main creatable garbage [prog; inn; out] (mkProcess fs []) = Exit 0 "" p ∧ files p = <[out := w]> fs ∧
    holds_sections c secs w (noff_of_bytes false (pread_bytes w 0 noff_size)).
Proof.
  intros Hc Hne Hcr Hwf. destruct (conversion_run creatable garbage prog inn out fs c secs) as (w & p & H1 & H2 & _ & H3); try done.
  by exists w, p.
Qed.

Lemma coff2noff_converts_witness : ∃ w p,
  main (λ _, true) no_header ["coff2noff"; "a.coff"; "a.noff"] (mkProcess coff_fs []) = Exit 0 "" p ∧
  files p = <["a.noff" := w]> coff_fs ∧
  holds_sections sample_coff sample_secs w (noff_of_bytes false (pread_bytes w 0 noff_size)).
Proof. apply coff2noff_converts; [reflexivity | done | done | apply sample_coff_wf]. Defined.

(** C11 From the linker to virtual memory: the output of [coff2noff] for an
    executable that was linked at address 0, loaded by [AddrSpace] into a new
    address space, gives every byte of code and of initialised data its
    linked address in virtual memory, and the invariant of paging holds. *)
Theorem coff_program_in_memory creatable garbage prog inn out fs c secs t : fs !! inn = Some c → inn ≠ out →
  creatable out = true → out ≠ SWAPFILENAME → coff_wf c secs → linked secs t →
  ∃ p, main creatable garbage [prog; inn; out] (mkProcess fs []) = Exit 0 "" p ∧
    ∀ k cur id, vm_inv k cur None → unix k = files p → spaces k !! id = None →
      ∃ k', AddrSpace_new false id (mkOpenFile out 0) out k = Done (tt, k') ∧ vm_inv k' cur None ∧
        ∀ s x, s ∈ secs → kind_of s = Some Text ∨ kind_of s = Some Data → 0 ≤ x < s_size s →
          page_byte k' cur id ((s_paddr s + x) / PageSize) ((s_paddr s + x) mod PageSize) =
            c !! Z.to_nat (s_scnptr s + x).
Proof.
  intros Hc Hne Hcr Hswap Hwf Hlinked.
  destruct (conversion_run creatable garbage prog inn out fs c secs) as (w & p & Hrun & Hp & Hlen & Hholds); try done.
  exists p. split; [done |]. intros k cur id Hinv Hunix Hid.
  assert (unix k !! out = Some w) as Hw by (rewrite Hunix, Hp; apply lookup_insert_eq).
  pose proof (converted_noff_wf c secs t w Hwf Hlinked Hlen Hholds) as Hnoff.
  eexists. split; [by apply (AddrSpace_new_run k id out w) |]. split; [by eapply new_space_inv |].
  intros s x Hs Hk Hx. destruct (section_byte c secs t w Hwf Hlinked Hlen Hholds s x Hs Hk Hx) as (H1 & H2 & H3).
  rewrite <- H3. apply (new_space_byte c secs t w Hwf Hlinked Hlen Hholds); [done | lia].
Qed.

(** The files after the conversion of the sample. *)
Definition noff_fs : Unix :=
  match main (λ _, true) no_header ["coff2noff"; "a.coff"; "a.noff"] (mkProcess coff_fs []) with
  | Exit _ _ p => files p
  | Ret _ p => files p
  end.

Lemma noff_fs_bytes n f : noff_fs !! n = Some f → Forall byte_range f.
Proof.
  intros Hf. apply Forall_forall. intros b Hb.
  assert (forallb (λ '(_, f), forallb (λ b, bool_decide (0 ≤ b < 256)) f) (map_to_list noff_fs) = true) as H
    by (vm_compute; reflexivity).
  rewrite forallb_forall in H. apply elem_of_map_to_list, list_elem_of_In, H in Hf. rewrite forallb_forall in Hf.
  apply list_elem_of_In, Hf in Hb. by split_bool.
Qed.

Lemma noff_vm : ∃ k, vm_inv k 1 None ∧ unix k = noff_fs ∧ spaces k = ∅.
Proof.
  destruct (Initialize_spec boot_machine [7] [0; 0] noff_fs 1 boot_machine_wf) as (k & E & H1 & _ & _ & H2 & H3).
  - eexists. split; [done |]. split; [done |]. by apply Forall_replicate.
  - done.
  - by repeat constructor.
  - done.
  - by repeat constructor.
  - exists []. vm_compute. reflexivity.
  - apply noff_fs_bytes.
  - exists k. exact (conj H1 (conj H3 H2)).
Qed.

(** The third byte of the data of the sample is at address 10. *)
Lemma coff_program_in_memory_witness : ∃ k k', unix k = noff_fs ∧
  AddrSpace_new false 1 (mkOpenFile "a.noff" 0) "a.noff" k = Done (tt, k') ∧ page_byte k' 1 1 0 10 = Some 93.
Proof.
  destruct (coff_program_in_memory (λ _, true) no_header "coff2noff" "a.coff" "a.noff" coff_fs sample_coff sample_secs
    (scnhdr_of (take 40 (drop 76 sample_coff)))) as (p & Hrun & Hload);
    [reflexivity | done | done | done | apply sample_coff_wf | apply sample_linked |].
  destruct noff_vm as (k & Hinv & Hunix & Hsp).
  destruct (Hload k 1 1) as (k' & Hnew & _ & Hbytes); [exact Hinv | | by rewrite Hsp |].
  { rewrite Hunix. unfold noff_fs. rewrite Hrun. reflexivity. }
  exists k, k'. split; [exact Hunix |]. split; [exact Hnew |].
  apply (Hbytes (scnhdr_of (take 40 (drop 116 sample_coff))) 2).
  - assert (sample_secs !! 1%nat = Some (scnhdr_of (take 40 (drop 116 sample_coff)))) as H by (vm_compute; reflexivity).
    exact (list_elem_of_lookup_2 _ _ _ H).
  - right. vm_compute. reflexivity.
  - by vm_compute.
Defined.

(** C27 Errors of [coff2noff] leave no output: whatever the arguments and the
    files are, the tool ends with status 0 or 1, changes no other file than its
    output, and after an error the output file does not exist or the files are
    as they were. *)
Theorem coff2noff_ends creatable garbage argv fs : ∃ status message p,
  main creatable garbage argv (mkProcess fs []) = Exit status message p ∧
  (∀ n, Some n ≠ argv !! 2%nat → files p !! n = fs !! n) ∧
  (status = 0 ∨ status = 1 ∧ (files p = fs ∨ ∀ n, argv !! 2%nat = Some n → files p !! n = None)).
Proof.
  unfold main. destruct (argv !! 1%nat) as [inn |]; [| do 3 eexists; split; [reflexivity | auto]].
  destruct (fs !! inn) as [c |] eqn:Hc.
  2: { erewrite run_seq by (unfold open_read; simpl; rewrite Hc; reflexivity). simpl.
       do 3 eexists. split; [reflexivity | auto]. }
  erewrite run_seq by (unfold open_read; simpl; rewrite Hc; reflexivity). simpl.
  destruct (open_write creatable (argv !! 2%nat) (mkProcess fs [(inn, 0)])) as [fdOut p |] eqn:Hopen;
    [| unfold open_write in Hopen; destruct (argv !! 2%nat) as [out |]; [destruct (creatable out) |]; done].
  erewrite run_seq by exact Hopen. simpl.
  assert (writes_out fs (argv !! 2%nat) fdOut p) as Hp.
  { unfold open_write in Hopen. destruct (argv !! 2%nat) as [out |]; [destruct (creatable out) |]; simplify_eq; simpl.
    - split; [intros n Hn; simpl; by rewrite lookup_insert_ne by congruence | by intros n pos [= <- <-]].
    - split; [done | done].
    - split; [done | done]. }
  pose proof (keeps_convert fs (argv !! 2%nat) garbage fdOut 0 p Hp) as Hends. unfold ends in Hends.
  destruct (convert (argv !! 2%nat) garbage 0 fdOut p) as [? p' | status message p'] eqn:Hrun.
  - destruct (convert_exits _ _ _ _ _ _ _ Hrun).
  - exists status, message, p'. split; [done |]. destruct Hends as [Hk [-> | [-> Hno]]]; auto.
Qed.

(** ** Two sections of uninitialised data *)

(** The status, the message, and the uninitialised data of the output. *)
Definition run_sections (sections : list (string * Z * Z * Z)) : option (Z * string * option Segment) :=
  match main (λ _, true) no_header ["coff2noff"; "a.coff"; "a.noff"]
          (mkProcess (<["a.coff" := coff_bytes sections [1; 2; 3; 4]]> ∅) []) with
  | Exit status message p =>
      Some (status, message, (λ w, uninitData (noff_of_bytes false (pread_bytes w 0 noff_size))) <$> files p !! "a.noff")
  | Ret _ _ => None
  end.

(** [.sbss] and [.bss] that are contiguous are refused; with a gap of 1000 bytes
    between them they are accepted, as one segment that does not reach the
    second. *)
Lemma bss_check_inverted :
  run_sections [(".text", 0, 4, 196); (".sbss", 4, 8, 0); (".bss", 12, 16, 0)] =
    Some (1, "Can't handle both bss and sbss", None) ∧
  run_sections [(".text", 0, 4, 196); (".sbss", 4, 8, 0); (".bss", 1012, 16, 0)] = Some (0, "", Some (mkSegment 4 0 24)).
Proof. split; vm_compute; reflexivity. Qed.
