(* ===== verification/Coff2Flat.v ===== *)
(** * From COFF to a flat file (bin/coff2flat.c)

    The tool writes the memory image of an executable: the sections one after
    the other, and a stack.  Processes, system calls and headers are those of
    Coff2Noff.v (the source takes the headers from the host's [filehdr.h],
    [aouthdr.h] and [scnhdr.h], of which bin/coff.h is the copy).  What the tool
    prints is left out. *)

From stdpp Require Import base gmap list numbers strings list_numbers.
From Stdlib Require Import ZArith Lia.
From S2P Require Import Prelude FileStub Machine MachineFacts AddrSpace Coff2Noff CoffClaims.

Module Flat.
(** ** The tool *)

Definition StackSize : Z := 1024.

Definition Read (fd nBytes : Z) : Prog (list Z) :=
  '(r, buf) ← read fd nBytes;
  if decide (r ≠ nBytes) then exit 1 "File is too short" else mret buf.

Definition Write (fd : Z) (buf : list Z) (nBytes : Z) : Prog unit :=
  r ← write fd nBytes buf;
  if decide (r ≠ nBytes) then exit 1 "Unable to write file" else mret tt.

(** From the file header to the section headers. *)
Definition read_headers (fdIn : Z) : Prog (list scnhdr) :=
  b ← Read fdIn filehdr_size;
  let fileh := filehdr_of b in
  if decide (f_magic fileh ≠ MIPSELMAGIC) then exit 1 "File is not a MIPSEL COFF file"
  else
    b ← Read fdIn aouthdr_size;
    if decide (aout_magic b ≠ OMAGIC) then exit 1 "File is not a OMAGIC file"
    else
      b ← Read fdIn (f_nscns fileh * scnhdr_size);
      mret (scnhdrs_of (Z.to_nat (f_nscns fileh)) b).

(** The test of the names: no need to copy if [.bss]. *)
Definition in_image (sec : scnhdr) : bool := negb (name_is ".bss" sec) && negb (name_is ".sbss" sec).

(** One turn of the loop, with the value of [top] after it. *)
Definition flat_section (fdIn fdOut : Z) (sec : scnhdr) (top : Z) : Prog Z :=
  let e := s32 (s_paddr sec + s_size sec) in
  let top' := if decide (top < e) then e else top in
  if in_image sec then
    lseek fdIn (s_scnptr sec) ;;
    buffer ← Read fdIn (s_size sec);
    Write fdOut buffer (s_size sec) ;;
    mret top'
  else mret top'.

Fixpoint flat_sections (fdIn fdOut : Z) (secs : list scnhdr) (top : Z) : Prog Z :=
  match secs with
  | [] => mret top
  | sec :: secs' => top' ← flat_section fdIn fdOut sec top; flat_sections fdIn fdOut secs' top'
  end.

(** What follows the two [open]s; [tmp] is an [int] of 4 bytes. *)
Definition flatten (fdIn fdOut : Z) : Prog unit :=
  sections ← read_headers fdIn;
  top ← flat_sections fdIn fdOut sections 0;
  lseek fdOut (s32 (top + StackSize - 4)) ;;
  Write fdOut (le_bytes 4 0) 4.

(** The second [if] of the source tests [fdIn] again. *)
Definition main (creatable : string → bool) (argv : list string) : Prog unit :=
  match argv !! 1%nat with
  | None => exit 1 "Usage"
  | Some coffFileName =>
      fdIn ← open_read coffFileName;
      if decide (fdIn = -1) then exit 1 coffFileName
      else
        fdOut ← open_write creatable (argv !! 2%nat);
        if decide (fdIn = -1) then exit 1 (default "" (argv !! 2%nat))
        else flatten fdIn fdOut
  end.

(** ** What the flat file should be *)

(** The bytes of the copied sections, in the order of the headers. *)
Definition image (c : list Z) (secs : list scnhdr) : list Z :=
  concat ((λ s, pread_bytes c (s_scnptr s) (s_size s)) <$> filter in_image secs).

(** The first address after all sections. *)
Definition top_of (secs : list scnhdr) (top : Z) : Z := foldl (λ t s, t `max` (s_paddr s + s_size s)) top secs.

(** The contents are in the file, and addresses and stack fit an [int]. *)
Definition flat_readable (c : list Z) (s : scnhdr) : Prop :=
  0 ≤ s_paddr s ∧ 0 ≤ s_size s ∧ s_paddr s + s_size s + StackSize < 2 ^ 31 ∧
  (in_image s = true → 0 ≤ s_scnptr s ∧ s_scnptr s + s_size s ≤ Z.of_nat (length c)).

(** Each copied section is linked right after the one before it. *)
Fixpoint packed (secs : list scnhdr) (pos : Z) : Prop :=
  match secs with
  | [] => True
  | s :: secs' => if in_image s then s_paddr s = pos ∧ packed secs' (pos + s_size s) else packed secs' pos
  end.

(** ** Lemmas *)

(** The errors are those of [coff2noff] without an output to remove. *)
Lemma read_headers_sections fd p : read_headers fd p = read_sections None fd p.
Proof.
  unfold read_headers, read_sections, ShortToHost, Read, Coff2Noff.Read, fail, unlink, mbind, Prog_bind.
  repeat (case_match; simplify_eq; try done). unfold mret, Prog_ret in *. simplify_eq. by rewrite to_host_all.
Qed.

Lemma pwrite_end w bs : pwrite_bytes w (Z.of_nat (length w)) bs = w ++ bs.
Proof.
  unfold pwrite_bytes, splice. rewrite Nat2Z.id, take_app_length. f_equal.
  rewrite drop_ge; [by rewrite app_nil_r |]. rewrite length_app, length_replicate. lia.
Qed.

(** A write of zeros past the end leaves a hole of zeros before it. *)
Lemma pwrite_zeros w (pos : Z) n : Z.of_nat (length w) ≤ pos →
  pwrite_bytes w pos (replicate n 0) = w ++ replicate (Z.to_nat pos + n - length w) 0.
Proof.
  intros Hp. unfold pwrite_bytes, splice. rewrite length_replicate. set (k := (Z.to_nat pos - length w)%nat).
  replace (Z.to_nat pos + n - length w)%nat with (k + n)%nat by lia.
  rewrite take_app_ge, take_replicate, (drop_ge (w ++ _)) by (rewrite ?length_app, ?length_replicate; lia).
  rewrite app_nil_r, <- app_assoc. f_equal. fold k. rewrite replicate_add.
  by replace (k `min` (k + n))%nat with k by lia.
Qed.

Lemma top_of_max secs : ∀ t, t ≤ top_of secs t ∧ ∀ s, s ∈ secs → s_paddr s + s_size s ≤ top_of secs t.
Proof.
  induction secs as [| s secs IH]; intros t; [split; [done | by intros s ?%not_elem_of_nil] |].
  change (top_of (s :: secs) t) with (top_of secs (t `max` (s_paddr s + s_size s))).
  destruct (IH (t `max` (s_paddr s + s_size s))) as [H1 H2]. split; [lia |].
  intros s' [-> | Hs]%elem_of_cons; [lia | by apply H2].
Qed.

Lemma top_of_bound secs b : ∀ t, t ≤ b → (∀ s, s ∈ secs → s_paddr s + s_size s ≤ b) → top_of secs t ≤ b.
Proof.
  induction secs as [| s secs IH]; intros t Ht Hs; [done |].
  apply IH; [assert (s_paddr s + s_size s ≤ b) by (apply Hs; set_solver); lia | set_solver].
Qed.

Section run.
Context (fs : Unix) (inn out : string) (c : list Z).
Hypothesis Hdiff : inn ≠ out.
Hypothesis Hc : fs !! inn = Some c.

Lemma flat_sections_run secs : ∀ top ip w, (∀ s, s ∈ secs → flat_readable c s) →
  ∃ ip', flat_sections 0 1 secs top (at_work fs inn out ip w (Z.of_nat (length w))) =
    Ret (top_of secs top)
      (at_work fs inn out ip' (w ++ image c secs) (Z.of_nat (length (w ++ image c secs)))).
Proof.
  induction secs as [| s secs IH]; intros top ip w Hr.
  { exists ip. by rewrite app_nil_r. }
  destruct (Hr s) as (H1 & H2 & H3 & H4); [set_solver |]. unfold StackSize in H3.
  assert (∀ s, s ∈ secs → flat_readable c s) as Hr' by set_solver.
  cbn [flat_sections]. unfold flat_section. rewrite s32_small by lia.
  assert ((if decide (top < s_paddr s + s_size s) then s_paddr s + s_size s else top) =
    top `max` (s_paddr s + s_size s)) as -> by (case_decide; lia).
  unfold image. rewrite filter_cons. destruct (in_image s) eqn:Him.
  - destruct (H4 eq_refl) as [H5 H6]. rewrite decide_True by done. cbn [fmap list_fmap concat].
    assert (Z.of_nat (length (pread_bytes c (s_scnptr s) (s_size s))) = s_size s) as Hl by (rewrite length_pread_full; lia).
    erewrite run_seq.
    2: { rewrite (run_seq _ _ _ tt _ (lseek_in_run fs inn out ip w _ _ H5)).
         rewrite (run_seq _ _ _ _ _ (Read_run fs inn out c Hdiff Hc None _ w _ _ H5 H2 H6)).
         rewrite (run_seq _ _ _ tt _ (Write_run fs inn out None _ w _ _ _ Hl)).
         reflexivity. }
    rewrite pwrite_end. destruct (IH (top `max` (s_paddr s + s_size s)) (s_scnptr s + s_size s)
      (w ++ pread_bytes c (s_scnptr s) (s_size s)) Hr') as [ip' Hrun].
    exists ip'. rewrite length_app, Nat2Z.inj_add, Hl in Hrun.
    rewrite Hrun, <- app_assoc. done.
  - rewrite decide_False by (by intros []). erewrite run_seq by reflexivity. by apply IH.
Qed.

Lemma flatten_run secs : coff_head c secs → (∀ s, s ∈ secs → flat_readable c s) →
  Z.of_nat (length (image c secs)) ≤ top_of secs 0 →
  ∃ p, flatten 0 1 (at_work fs inn out 0 [] 0) = Ret tt p ∧
    files p = <[out := image c secs ++ replicate (Z.to_nat (top_of secs 0 + StackSize) - length (image c secs)) 0]> fs.
Proof.
  intros Hh Hr Himg. unfold flatten.
  assert (top_of secs 0 ≤ 2 ^ 31 - 1025) as Hb.
  { apply top_of_bound; [lia |]. intros s Hs. destruct (Hr s Hs) as (_ & _ & H & _). unfold StackSize in H. lia. }
  destruct (top_of_max secs 0) as [H0 _].
  destruct (read_sections_run fs inn out c Hdiff Hc None secs Hh) as [ip Hhead]. rewrite <- read_headers_sections in Hhead.
  rewrite (run_seq _ _ _ _ _ Hhead). destruct (flat_sections_run secs 0 ip [] Hr) as [ip' Hrun].
  rewrite app_nil_l in Hrun. change (Z.of_nat (length [])) with 0 in Hrun.
  rewrite (run_seq _ _ _ _ _ Hrun). unfold StackSize. rewrite s32_small by lia.
  rewrite (run_seq _ _ _ tt _ (lseek_out_run fs inn out ip' _ _ (top_of secs 0 + 1024 - 4) ltac:(lia))).
  eexists. split; [apply (Write_run fs inn out None); reflexivity |]. cbn [files at_work].
  change (le_bytes 4 0) with (replicate 4 0). rewrite pwrite_zeros by lia. do 3 f_equal. lia.
Qed.
End run.

(** Packed sections are in the image at their addresses. *)
Lemma packed_image c secs : (∀ s, s ∈ secs → flat_readable c s) → ∀ pos w, 0 ≤ pos → Z.of_nat (length w) = pos →
  packed secs pos →
  (∀ s x, s ∈ secs → in_image s = true → 0 ≤ x < s_size s →
    (w ++ image c secs) !! Z.to_nat (s_paddr s + x) = c !! Z.to_nat (s_scnptr s + x)) ∧
  Z.of_nat (length (w ++ image c secs)) ≤ top_of secs pos.
Proof.
  intros Hr. induction secs as [| s secs IH]; intros pos w Hpos Hl Hp.
  { split; [by intros s x ?%not_elem_of_nil |]. rewrite app_nil_r. simpl. lia. }
  destruct (Hr s) as (H1 & H2 & H3 & H4); [set_solver |]. cbn [packed] in Hp.
  change (top_of (s :: secs) pos) with (top_of secs (pos `max` (s_paddr s + s_size s))).
  unfold image. rewrite filter_cons. destruct (in_image s) eqn:Him.
  - destruct Hp as [Ha Hp]. destruct (H4 eq_refl) as [H5 H6]. rewrite decide_True by done. cbn [fmap list_fmap concat].
    assert (Z.of_nat (length (pread_bytes c (s_scnptr s) (s_size s))) = s_size s) as Hls by (rewrite length_pread_full; lia).
    replace (pos `max` (s_paddr s + s_size s)) with (pos + s_size s) by lia. rewrite app_assoc.
    destruct (IH ltac:(set_solver) (pos + s_size s) (w ++ pread_bytes c (s_scnptr s) (s_size s))) as [IH1 IH2]; try done;
      [lia | rewrite length_app; lia |].
    split; [| done]. intros s' x Hs' Him' Hx. apply elem_of_cons in Hs' as [-> | Hs']; [| by apply IH1].
    rewrite <- app_assoc, lookup_app_r, lookup_app_l, lookup_pread by lia. f_equal. lia.
  - rewrite decide_False by (by intros []).
    destruct (IH ltac:(set_solver) pos w) as [IH1 IH2]; try done. split.
    + intros s' x Hs' Him' Hx. apply elem_of_cons in Hs' as [-> | Hs']; [congruence | by apply IH1].
    + etrans; [exact IH2 |]. apply top_of_bound.
      * destruct (top_of_max secs (pos `max` (s_paddr s + s_size s))). lia.
      * apply top_of_max.
Qed.

Lemma flat_main_opens creatable prog inn out fs c : fs !! inn = Some c → inn ≠ out → creatable out = true →
  main creatable [prog; inn; out] (mkProcess fs []) = flatten 0 1 (at_work fs inn out 0 [] 0).
Proof.
  intros Hc Hne Hcr. unfold main. simpl.
  erewrite run_seq by (unfold open_read; simpl; rewrite Hc; reflexivity). simpl.
  erewrite run_seq by (unfold open_write; rewrite Hcr; reflexivity). done.
Qed.
End Flat.

(** ** Claims *)

(** C28 [coff2flat] writes the memory image: for an executable whose copied
    sections are linked one after the other from address 0, the tool ends
    without an error and writes only its output; the output reaches to the end
    of the last section and the stack, has every byte of every copied section
    at the linked address of the byte, and 0 everywhere else. *)
Theorem coff2flat_image creatable prog inn out fs c secs : fs !! inn = Some c → inn ≠ out → creatable out = true →
  coff_head c secs → (∀ s, s ∈ secs → Flat.flat_readable c s) → Flat.packed secs 0 →
  ∃ w p, Flat.main creatable [prog; inn; out] (mkProcess fs []) = Ret tt p ∧ files p = <[out := w]> fs ∧
    Z.of_nat (length w) = Flat.top_of secs 0 + Flat.StackSize ∧
    (∀ s x, s ∈ secs → Flat.in_image s = true → 0 ≤ x < s_size s →
      w !! Z.to_nat (s_paddr s + x) = c !! Z.to_nat (s_scnptr s + x)) ∧
    (∀ i b, (length (Flat.image c secs) ≤ i)%nat → w !! i = Some b → b = 0).
Proof.
  intros Hc Hne Hcr Hh Hr Hp. destruct (Flat.packed_image c secs Hr 0 []) as [H1 H2]; try done. rewrite app_nil_l in H2.
  destruct (Flat.flatten_run fs inn out c Hne Hc secs Hh Hr H2) as (p & Hrun & Hf).
  eexists _, p. split; [by rewrite (Flat.flat_main_opens _ _ _ _ _ c) |]. split; [exact Hf |].
  destruct (Flat.top_of_max secs 0) as [H0 _]. unfold Flat.StackSize in *. split; [| split].
  - rewrite length_app, length_replicate. lia.
  - intros s x Hs Him Hx. specialize (H1 s x Hs Him Hx). rewrite app_nil_l in H1. rewrite <- H1.
    destruct (Hr s Hs) as (H3 & H4 & H5 & H6). destruct (H6 Him).
    apply lookup_app_l. rewrite <- lookup_lt_is_Some, H1. apply lookup_lt_is_Some. lia.
  - intros i b Hi. rewrite lookup_app_r by done. by intros [-> _]%lookup_replicate.
Qed.

(** The sample of CoffClaims.v: code at 0, data at 8, and 16 bytes after it. *)
Lemma coff2flat_image_witness : ∃ w p,
  Flat.main (λ _, true) ["coff2flat"; "a.coff"; "a.flat"] (mkProcess coff_fs []) = Ret tt p ∧
  files p = <["a.flat" := w]> coff_fs ∧ Z.of_nat (length w) = 28 + 1024 ∧
  (∀ s x, s ∈ sample_secs → Flat.in_image s = true → 0 ≤ x < s_size s →
    w !! Z.to_nat (s_paddr s + x) = sample_coff !! Z.to_nat (s_scnptr s + x)).
Proof.
  destruct (coff2flat_image (λ _, true) "coff2flat" "a.coff" "a.flat" coff_fs sample_coff sample_secs)
    as (w & p & H1 & H2 & H3 & H4 & _); [reflexivity | done | done | apply sample_coff_wf | | |].
  - intros s Hs. assert (forallb (λ s, bool_decide (0 ≤ s_paddr s) && bool_decide (0 ≤ s_size s) &&
      bool_decide (s_paddr s + s_size s + 1024 < 2 ^ 31) && bool_decide (0 ≤ s_scnptr s) &&
      bool_decide (s_scnptr s + s_size s ≤ Z.of_nat (length sample_coff))) sample_secs = true) as H by (vm_compute; reflexivity).
    rewrite forallb_forall in H. apply list_elem_of_In, H in Hs. unfold Flat.flat_readable, Flat.StackSize. by split_bool.
  - vm_compute. auto.
  - exists w, p. split; [exact H1 |]. split; [exact H2 |]. split; [exact H3 | exact H4].
Defined.

(** The output is never moved to [s_paddr]: data that is linked at address 16,
    8 bytes after the end of the code, is written right after the code. *)
Lemma coff2flat_gap : ∃ p,
  Flat.main (λ _, true) ["coff2flat"; "a.coff"; "a.flat"]
    (mkProcess (<["a.coff" := coff_bytes [(".text", 0, 8, 156); (".data", 16, 4, 164)] [1; 2; 3; 4; 5; 6; 7; 8; 91; 92; 93; 94]]> ∅) [])
    = Ret tt p ∧
  (take 20 <$> files p !! "a.flat") = Some [1; 2; 3; 4; 5; 6; 7; 8; 91; 92; 93; 94; 0; 0; 0; 0; 0; 0; 0; 0].
Proof. eexists. split; vm_compute; reflexivity. Qed.
