(* ===== verification/LinkedList.v ===== *)
(** * Singly linked lists (threads/list.h)

    The template class [List] at the level of its pointers: a heap of
    [ListElement]s, shared with the other lists of the kernel, and the [first]
    and [last] pointers.  [None] is [NULL].  [lrep s l F] says that the object
    [s] holds the sequence [l] of keyed items and that [F] is the rest of the
    heap; every operation is proved to be the operation on sequences named
    here ([List_insert] for [SortedInsert]), and to leave [F] alone.  The other
    components keep their queues as such sequences. *)

From stdpp Require Import base gmap list fin_sets numbers sorting.
From Stdlib Require Import ZArith Lia.
From S2P Require Import Prelude.

(** ** The class *)

Record ListElement (Item : Type) := mkElement {
  e_next : option Z;
  e_key : Z;
  e_item : Item
}.
Arguments mkElement {Item}.
Arguments e_next {Item}.
Arguments e_key {Item}.
Arguments e_item {Item}.

Record LinkedList (Item : Type) := mkLinkedList {
  heap : gmap Z (ListElement Item);
  l_first : option Z;
  l_last : option Z
}.
Arguments mkLinkedList {Item}.
Arguments heap {Item}.
Arguments l_first {Item}.
Arguments l_last {Item}.

Section operations.
Context {Item : Type}.
Notation LS := (LinkedList Item).

Definition set_first (p : option Z) (s : LS) : LS := mkLinkedList (heap s) p (l_last s).
Definition set_last (p : option Z) (s : LS) : LS := mkLinkedList (heap s) (l_first s) p.
Definition set_heap (h : gmap Z (ListElement Item)) (s : LS) : LS := mkLinkedList h (l_first s) (l_last s).

(** [*p], and [p->next = n]. *)
Definition deref (p : option Z) : M LS (ListElement Item) :=
  s ← get;
  match p ≫= (λ a, heap s !! a) with
  | Some e => mret e
  | None => stop NullPointer
  end.

Definition store_next (p n : option Z) : M LS unit :=
  e ← deref p;
  match p with
  | Some a => modify (λ s, set_heap (<[a := mkElement n (e_key e) (e_item e)]> (heap s)) s)
  | None => stop NullPointer
  end.

(** [new ListNode(item, sortKey)]: an address that is not in use. *)
Definition ListElement_new (anItem : Item) (sortKey : Z) : M LS Z :=
  s ← get;
  let a := fresh (dom (heap s) : gset Z) in
  put (set_heap (<[a := mkElement None sortKey anItem]> (heap s)) s) ;;
  mret a.

(** [delete element] *)
Definition ListElement_delete (p : option Z) : M LS unit :=
  _ ← deref p;
  match p with
  | Some a => modify (λ s, set_heap (delete a (heap s)) s)
  | None => stop NullPointer
  end.

(** [List()], in a heap that holds [h]. *)
Definition List_new (h : gmap Z (ListElement Item)) : LS := mkLinkedList h None None.

Definition List_IsEmpty : M LS bool := gets (λ s, bool_decide (l_first s = None)).

Definition List_Append (item : Item) : M LS unit :=
  element ← ListElement_new item 0;
  empty ← List_IsEmpty;
  if (empty : bool) then
    modify (set_first (Some element)) ;;
    modify (set_last (Some element))
  else
    s ← get;
    store_next (l_last s) (Some element) ;;
    modify (set_last (Some element)).

Definition List_Prepend (item : Item) : M LS unit :=
  element ← ListElement_new item 0;
  empty ← List_IsEmpty;
  if (empty : bool) then
    modify (set_first (Some element)) ;;
    modify (set_last (Some element))
  else
    s ← get;
    store_next (Some element) (l_first s) ;;
    modify (set_first (Some element)).

(** The value and the key of the removed element; [None] is [Item()]. *)
Definition List_SortedRemove : M LS (option (Z * Item)) :=
  s ← get;
  let element := l_first s in
  empty ← List_IsEmpty;
  if (empty : bool) then mret None
  else
    e ← deref (l_first s);
    (if decide (l_first s = l_last s) then
       modify (set_first None) ;; modify (set_last None)
     else modify (set_first (e_next e))) ;;
    ListElement_delete element ;;
    mret (Some (e_key e, e_item e)).

Definition List_Remove : M LS (option Item) :=
  r ← List_SortedRemove; mret (snd <$> r).

(** The [for] loop of [SortedInsert]: true when the element was inserted. *)
Fixpoint insert_walk (fuel : nat) (element ptr : Z) (sortKey : Z) : M LS bool :=
  match fuel with
  | O => stop OutOfFuel
  | S fuel' =>
      e ← deref (Some ptr);
      match e_next e with
      | None => mret false
      | Some n =>
          en ← deref (Some n);
          if decide (sortKey < e_key en) then
            store_next (Some element) (Some n) ;;
            store_next (Some ptr) (Some element) ;;
            mret true
          else insert_walk fuel' element n sortKey
      end
  end.

Definition List_SortedInsert (item : Item) (sortKey : Z) : M LS unit :=
  element ← ListElement_new item sortKey;
  s ← get;
  match l_first s with
  | None =>
      modify (set_first (Some element)) ;;
      modify (set_last (Some element))
  | Some f =>
      e ← deref (Some f);
      if decide (sortKey < e_key e) then
        store_next (Some element) (Some f) ;;
        modify (set_first (Some element))
      else
        inserted ← insert_walk (size (heap s)) element f sortKey;
        if (inserted : bool) then mret tt
        else
          store_next (l_last s) (Some element) ;;
          modify (set_last (Some element))
  end.

(** The items [func] is called with by [Apply], in order. *)
Fixpoint apply_walk (fuel : nat) (ptr : option Z) : M LS (list Item) :=
  match fuel with
  | O => stop OutOfFuel
  | S fuel' =>
      match ptr with
      | None => mret []
      | Some _ =>
          e ← deref ptr;
          rest ← apply_walk fuel' (e_next e);
          mret (e_item e :: rest)
      end
  end.

Definition List_Apply : M LS (list Item) :=
  s ← get; apply_walk (S (size (heap s))) (l_first s).

(** [~List()] *)
Fixpoint List_delete_loop (fuel : nat) : M LS unit :=
  match fuel with
  | O => stop OutOfFuel
  | S fuel' =>
      empty ← List_IsEmpty;
      if (empty : bool) then mret tt
      else
        _ ← List_Remove;
        List_delete_loop fuel'
  end.

Definition List_delete : M LS unit :=
  s ← get; List_delete_loop (S (size (heap s))).
End operations.

(** ** Sequences *)

Section sequences.
Context {Item : Type}.
Implicit Types (l : list (Z * Item)).

(** [SortedInsert] on the sequence: before the first element with a greater key. *)
Fixpoint List_insert (k : Z) (x : Item) l : list (Z * Item) :=
  match l with
  | [] => [(k, x)]
  | (k', y) :: t => if decide (k < k') then (k, x) :: l else (k', y) :: List_insert k x t
  end.

Definition key_le (a b : Z * Item) : Prop := a.1 ≤ b.1.

Lemma List_insert_at k x l j :
  (∀ i e, (i < j)%nat → l !! i = Some e → e.1 ≤ k) →
  (∀ e, l !! j = Some e → k < e.1) →
  List_insert k x l = take j l ++ (k, x) :: drop j l.
Proof.
  revert j. induction l as [| [k' y] t IH]; intros j Hle Hgt; simpl.
  - by rewrite take_nil, drop_nil.
  - destruct j as [| j]; simpl.
    + rewrite decide_True; [done |]. exact (Hgt (k', y) eq_refl).
    + rewrite decide_False.
      * f_equal. apply IH; [intros i e Hi; exact (Hle (S i) e ltac:(lia)) | exact Hgt].
      * specialize (Hle 0%nat (k', y) ltac:(lia) eq_refl). simpl in Hle. lia.
Qed.

Lemma List_insert_perm k x l : List_insert k x l ≡ₚ (k, x) :: l.
Proof.
  induction l as [| [k' y] t IH]; simpl; [done |].
  case_decide; [done |]. rewrite IH. by rewrite Permutation_swap.
Qed.

Lemma List_insert_sorted k x l : Sorted key_le l → Sorted key_le (List_insert k x l).
Proof.
  induction 1 as [| [k' y] t Ht IH Hhd]; simpl; [by repeat constructor |].
  destruct (decide (k < k')) as [Hk | Hk].
  - constructor; [by constructor |]. constructor. unfold key_le. simpl. lia.
  - constructor; [done |]. destruct t as [| [k'' z] t']; simpl; [constructor; unfold key_le; simpl; lia |].
    destruct (decide (k < k'')); constructor; unfold key_le; simpl; [lia |].
    inversion Hhd; subst. done.
Qed.

(** Items with the same key keep the order of their insertion. *)
Lemma List_insert_stable k x l j : Sorted key_le l →
  filter (λ e, e.1 = j) (List_insert k x l) =
  filter (λ e, e.1 = j) l ++ (if decide (k = j) then [(k, x)] else []).
Proof.
  intros Hs. apply Sorted_StronglySorted in Hs;
    [| intros [] [] []; unfold key_le; simpl; lia].
  induction Hs as [| [k' y] t Hs IH Hall]; simpl.
  - rewrite filter_cons, filter_nil. simpl. by destruct (decide (k = j)).
  - destruct (decide (k < k')) as [Hk | Hk].
    + rewrite filter_cons. simpl. destruct (decide (k = j)) as [-> | Hj]; [| by rewrite app_nil_r].
      assert (filter (λ e : Z * Item, e.1 = j) ((k', y) :: t) = []) as ->; [| done].
      apply elem_of_nil_inv. intros [a b] [Ea Hab]%list_elem_of_filter. simpl in Ea. subst a.
      apply elem_of_cons in Hab as [[= -> ->] | Hab]; [lia |].
      rewrite Forall_forall in Hall. specialize (Hall _ Hab). unfold key_le in Hall. simpl in Hall. lia.
    + rewrite !filter_cons. simpl. rewrite IH. by destruct (decide (k' = j)).
Qed.
End sequences.

(** ** Representation *)

Section representation.
Context {Item : Type}.
Implicit Types (s : LinkedList Item) (l : list (Z * Item)) (F : gmap Z (ListElement Item)) (ps : list Z).

(** The addresses [ps] hold [l], linked in order. *)
Record chain (h : gmap Z (ListElement Item)) ps l : Prop := {
  ch_nodup : NoDup ps;
  ch_length : length ps = length l;
  ch_node : ∀ i p kx, ps !! i = Some p → l !! i = Some kx →
    h !! p = Some (mkElement (ps !! S i) kx.1 kx.2)
}.

Record lrep_at s ps l F : Prop := {
  lr_chain : chain (heap s) ps l;
  lr_first : l_first s = ps !! 0%nat;
  lr_last : l_last s = last ps;
  lr_out : ∀ p, p ∉ ps → heap s !! p = F !! p;
  lr_in : ∀ p, p ∈ ps → F !! p = None
}.

Definition lrep s l F : Prop := ∃ ps, lrep_at s ps l F.

Lemma chain_item h ps l i p : chain h ps l → ps !! i = Some p → ∃ kx, l !! i = Some kx.
Proof.
  intros Hc Hp. apply lookup_lt_Some in Hp. rewrite (ch_length _ _ _ Hc) in Hp.
  by apply lookup_lt_is_Some_2.
Qed.

Lemma chain_lookup h ps l i kx : chain h ps l → l !! i = Some kx →
  ∃ p, ps !! i = Some p ∧ h !! p = Some (mkElement (ps !! S i) kx.1 kx.2).
Proof.
  intros Hc Hl. apply lookup_lt_Some in Hl as Hlt. rewrite <- (ch_length _ _ _ Hc) in Hlt.
  apply lookup_lt_is_Some_2 in Hlt as [p Hp]. exists p. split; [done |]. by eapply ch_node.
Qed.

Lemma chain_size h ps l : chain h ps l → (length ps ≤ size h)%nat.
Proof.
  intros Hc. assert ((list_to_set ps : gset Z) ⊆ dom h) as Hsub.
  { intros p Hp. apply elem_of_list_to_set in Hp. apply list_elem_of_lookup in Hp as [i Hi].
    destruct (chain_item _ _ _ _ _ Hc Hi) as [kx Hkx].
    apply elem_of_dom. rewrite (ch_node _ _ _ Hc _ _ _ Hi Hkx). by eexists. }
  apply subseteq_size in Hsub. rewrite size_dom in Hsub.
  rewrite size_list_to_set in Hsub; [done | exact (ch_nodup _ _ _ Hc)].
Qed.

Lemma lookup_insert_at {A} (l : list A) (j : nat) (x : A) i : (j ≤ length l)%nat →
  (take j l ++ x :: drop j l) !! i =
  if decide (i < j)%nat then l !! i else if decide (i = j) then Some x else l !! pred i.
Proof.
  intros Hj. destruct (decide (i < j)%nat) as [Hi | Hi].
  - rewrite lookup_app_l by (rewrite length_take; lia). by rewrite lookup_take_lt.
  - rewrite lookup_app_r by (rewrite length_take; lia). rewrite length_take, Nat.min_l by done.
    destruct (decide (i = j)) as [-> | Hij]; [by rewrite Nat.sub_diag |].
    destruct (i - j)%nat as [| n] eqn:En; [lia |]. simpl. rewrite lookup_drop. f_equal. lia.
Qed.

(** A node added at position [j]; the node before it points to it. *)
Lemma chain_insert h h' ps l j p kx :
  chain h ps l → (j ≤ length ps)%nat → p ∉ ps →
  h' !! p = Some (mkElement (ps !! j) kx.1 kx.2) →
  (∀ i q kx', ps !! i = Some q → l !! i = Some kx' → S i = j →
     h' !! q = Some (mkElement (Some p) kx'.1 kx'.2)) →
  (∀ i q, ps !! i = Some q → S i ≠ j → h' !! q = h !! q) →
  chain h' (take j ps ++ p :: drop j ps) (take j l ++ kx :: drop j l).
Proof.
  intros Hc Hj Hp Hnew Hpred Hsame. pose proof (ch_length _ _ _ Hc) as Hlen. split.
  - pose proof (ch_nodup _ _ _ Hc) as Hnd.
    rewrite <- Permutation_middle, take_drop. by constructor.
  - rewrite !length_app. simpl. rewrite !length_take, !length_drop. lia.
  - intros i q kx'. rewrite !lookup_insert_at by lia.
    destruct (decide (i < j)%nat) as [Hi | Hi].
    + intros Hq Hkx'. destruct (decide (S i = j)) as [Hij | Hij].
      * rewrite (Hpred i q kx' Hq Hkx' Hij). rewrite decide_False by lia. done.
      * rewrite (Hsame i q Hq Hij). rewrite decide_True by lia. by eapply ch_node.
    + rewrite (decide_False (P := (S i < j)%nat)), (decide_False (P := S i = j)) by lia. simpl.
      destruct (decide (i = j)) as [-> | Hij]; [by intros [= <-] [= <-] |].
      intros Hq Hkx'. rewrite (Hsame (pred i) q Hq ltac:(lia)).
      rewrite (ch_node _ _ _ Hc _ _ _ Hq Hkx'). replace (S (pred i)) with i by lia. done.
Qed.

Lemma chain_tail h ps l p kx : chain h (p :: ps) (kx :: l) → chain (delete p h) ps l.
Proof.
  intros Hc. pose proof (ch_nodup _ _ _ Hc) as [Hp Hnd]%NoDup_cons. split; [done | |].
  - pose proof (ch_length _ _ _ Hc) as E. simpl in E. lia.
  - intros i q kx' Hq Hkx'. rewrite lookup_delete_ne.
    + exact (ch_node _ _ _ Hc (S i) q kx' Hq Hkx').
    + intros ->. apply Hp. apply list_elem_of_lookup. by exists i.
Qed.

Lemma last_drop {A} (l : list A) j : (j < length l)%nat → last (drop j l) = last l.
Proof.
  intros Hj. rewrite <- (take_drop j l) at 2. rewrite last_app.
  destruct (last (drop j l)) eqn:E; [done |]. apply last_None in E.
  apply (f_equal length) in E. rewrite length_drop in E. simpl in E. lia.
Qed.

Lemma lrep_insert s s' ps l F j a kx :
  lrep_at s ps l F → (j ≤ length ps)%nat → heap s !! a = None →
  heap s' !! a = Some (mkElement (ps !! j) kx.1 kx.2) →
  (∀ i q kx', ps !! i = Some q → l !! i = Some kx' → S i = j →
     heap s' !! q = Some (mkElement (Some a) kx'.1 kx'.2)) →
  (∀ q, q ≠ a → (∀ i, ps !! i = Some q → S i ≠ j) → heap s' !! q = heap s !! q) →
  l_first s' = (if decide (j = 0%nat) then Some a else l_first s) →
  l_last s' = (if decide (j = length ps) then Some a else l_last s) →
  lrep s' (take j l ++ kx :: drop j l) F.
Proof.
  intros [Hc Hf Hl Hout Hin] Hj Ha Hnew Hpred Hsame Hf' Hl'.
  assert (a ∉ ps) as Hps.
  { intros [i Hi]%list_elem_of_lookup. destruct (chain_item _ _ _ _ _ Hc Hi) as [kx' Hkx'].
    rewrite (ch_node _ _ _ Hc _ _ _ Hi Hkx') in Ha. done. }
  exists (take j ps ++ a :: drop j ps). split.
  - eapply chain_insert; [done | done | done | done | done |].
    intros i q Hq Hij. apply Hsame.
    + intros ->. apply Hps, list_elem_of_lookup. by exists i.
    + intros i' Hi' E. pose proof (NoDup_lookup _ _ _ _ (ch_nodup _ _ _ Hc) Hq Hi'). lia.
  - rewrite Hf', Hf, lookup_insert_at by done.
    destruct (decide (j = 0%nat)) as [-> | Hj0]; [done |]. by rewrite decide_True by lia.
  - rewrite Hl', Hl. destruct (decide (j = length ps)) as [-> | Hjl].
    + by rewrite firstn_all, drop_all, last_snoc.
    + rewrite last_app_cons, last_cons, last_drop by lia.
      destruct (last ps) eqn:E; [done |]. apply last_None in E. subst ps. simpl in *. lia.
  - intros q Hq. rewrite <- Permutation_middle, take_drop, not_elem_of_cons in Hq. destruct Hq as [Hqa Hq].
    rewrite <- Hout by done. apply Hsame; [done |].
    intros i Hi. exfalso. apply Hq, list_elem_of_lookup. by exists i.
  - intros q Hq. rewrite <- Permutation_middle, take_drop, elem_of_cons in Hq. destruct Hq as [-> | Hq].
    + rewrite <- Hout by done. done.
    + by apply Hin.
Qed.

(** ** The operations *)

Lemma deref_run s a e : heap s !! a = Some e → deref (Some a) s = Done (e, s).
Proof. intros H. unfold deref, mbind, M_bind, get. simpl. by rewrite H. Qed.

Lemma store_next_run s a e n : heap s !! a = Some e →
  store_next (Some a) n s = Done (tt, set_heap (<[a := mkElement n (e_key e) (e_item e)]> (heap s)) s).
Proof. intros H. unfold store_next. unfold mbind, M_bind. by rewrite (deref_run s a e H). Qed.

Lemma new_run s x k : ∃ a, heap s !! a = None ∧
  ListElement_new x k s = Done (a, set_heap (<[a := mkElement None k x]> (heap s)) s).
Proof.
  exists (fresh (dom (heap s) : gset Z)). split; [| done].
  apply not_elem_of_dom, is_fresh.
Qed.

Lemma lrep_at_nil s l F : lrep_at s [] l F → l = [].
Proof. intros Hr. apply nil_length_inv. by rewrite <- (ch_length _ _ _ (lr_chain _ _ _ _ Hr)). Qed.

(** The node at the end. *)
Lemma lrep_last_node s ps l F : lrep_at s ps l F → ps ≠ [] →
  ∃ q kx, l_last s = Some q ∧ ps !! pred (length ps) = Some q ∧ l !! pred (length ps) = Some kx ∧
    heap s !! q = Some (mkElement None kx.1 kx.2).
Proof.
  intros [Hc Hf Hl _ _] Hne. destruct (last ps) as [q |] eqn:E; [| by apply last_None in E].
  rewrite last_lookup in E. destruct (chain_item _ _ _ _ _ Hc E) as [kx Hkx].
  exists q, kx. split_and!; [done | done | done |].
  rewrite (ch_node _ _ _ Hc _ _ _ E Hkx). rewrite lookup_ge_None_2; [done |].
  destruct ps; [done | simpl; lia].
Qed.

Lemma lrep_first_None s ps l F : lrep_at s ps l F → l_first s = None ↔ ps = [].
Proof. intros Hr. rewrite (lr_first _ _ _ _ Hr). by destruct ps. Qed.

Lemma IsEmpty_spec s l F : lrep s l F → List_IsEmpty s = Done (bool_decide (l = []), s).
Proof.
  intros [ps [Hc Hf _ _ _]]. unfold List_IsEmpty, gets. do 2 f_equal.
  apply bool_decide_ext. rewrite Hf. pose proof (ch_length _ _ _ Hc) as E.
  destruct ps, l; simpl in *; split; done || (intros; lia).
Qed.

(** The new element is the only one. *)
Lemma lrep_single s F a k x : lrep s [] F → heap s !! a = None →
  lrep (set_last (Some a) (set_first (Some a) (set_heap (<[a := mkElement None k x]> (heap s)) s)))
    [(k, x)] F.
Proof.
  intros [ps Hr] Ha. assert (ps = []) as ->.
  { apply nil_length_inv. by rewrite (ch_length _ _ _ (lr_chain _ _ _ _ Hr)). }
  apply (lrep_insert s _ [] [] F 0 a (k, x) Hr); simpl; try done.
  - by rewrite lookup_insert_eq.
  - intros q Hq _. by rewrite lookup_insert_ne.
Qed.

(** The new element goes to the front. *)
Lemma lrep_front s l F a f k x : lrep s l F → heap s !! a = None → l_first s = Some f →
  lrep (set_first (Some a) (set_heap (<[a := mkElement (Some f) k x]>
    (<[a := mkElement None k x]> (heap s))) s)) ((k, x) :: l) F.
Proof.
  intros [ps Hr] Ha Hf. rewrite insert_insert_eq.
  apply (lrep_insert s _ ps l F 0 a (k, x) Hr); simpl; try done; [lia | | |].
  - rewrite lookup_insert_eq, <- (lr_first _ _ _ _ Hr), Hf. done.
  - intros q Hq _. by rewrite lookup_insert_ne.
  - rewrite (lr_first _ _ _ _ Hr) in Hf. by destruct ps.
Qed.

(** The new element goes between [i] and [S i], or to the end. *)
Lemma lrep_after s ps l F a i q kq k x : lrep_at s ps l F → heap s !! a = None →
  ps !! i = Some q → l !! i = Some kq →
  ∀ s', heap s' = <[q := mkElement (Some a) kq.1 kq.2]> (<[a := mkElement (ps !! S i) k x]> (heap s)) →
  l_first s' = l_first s →
  l_last s' = (if decide (S i = length ps) then Some a else l_last s) →
  lrep s' (take (S i) l ++ (k, x) :: drop (S i) l) F.
Proof.
  intros Hr Ha Hq Hkq s' Hh Hf Hl. pose proof (lr_chain _ _ _ _ Hr) as Hc.
  assert (a ≠ q) as Haq.
  { intros ->. rewrite (ch_node _ _ _ Hc _ _ _ Hq Hkq) in Ha. done. }
  apply lookup_lt_Some in Hq as Hlt.
  apply (lrep_insert s s' ps l F (S i) a (k, x) Hr); try done; [ | |].
  - rewrite Hh, lookup_insert_ne, lookup_insert_eq by done. done.
  - intros j q' kx' Hq' Hkx' [= ->]. simplify_eq. by rewrite Hh, lookup_insert_eq.
  - intros q' Hqa Hno. rewrite Hh, !lookup_insert_ne; [done | congruence |].
    intros <-. by apply (Hno i).
Qed.

Lemma Append_spec s l F x : lrep s l F → wp (List_Append x) (λ _ s', lrep s' (l ++ [(0, x)]) F) s.
Proof.
  intros Hr. destruct (new_run s x 0) as (a & Ha & Hnew). unfold List_Append.
  apply wp_bind. eapply wp_run; [exact Hnew |]. cbv beta.
  unfold List_IsEmpty. wp_steps. simpl. case_bool_decide as Hf; wp_steps.
  - destruct Hr as [ps Hr]. apply (lrep_first_None _ _ _ _ Hr) in Hf as ->.
    pose proof (lrep_at_nil _ _ _ Hr); subst l. apply lrep_single; [by exists [] | done].
  - destruct Hr as [ps Hr]. assert (ps ≠ []) as Hne.
    { by rewrite <- (lrep_first_None _ _ _ _ Hr). }
    destruct (lrep_last_node _ _ _ _ Hr Hne) as (q & kq & Hl & Hq & Hkq & Hnode).
    assert (a ≠ q) as Haq by (intros ->; by rewrite Hnode in Ha). simpl. rewrite Hl.
    eapply wp_run; [apply store_next_run; simpl; by rewrite lookup_insert_ne |]. cbv beta.
    wp_steps. pose proof (ch_length _ _ _ (lr_chain _ _ _ _ Hr)) as Hlen.
    assert (S (pred (length ps)) = length l) as Ej by (destruct ps; [done | simpl in *; lia]).
    pose proof (lrep_after s ps l F a _ q kq 0 x Hr Ha Hq Hkq) as Hins.
    rewrite Ej, firstn_all, drop_all in Hins. apply Hins; simpl.
    + rewrite lookup_ge_None_2 by lia. done.
    + done.
    + by rewrite decide_True.
Qed.

Lemma Prepend_spec s l F x : lrep s l F → wp (List_Prepend x) (λ _ s', lrep s' ((0, x) :: l) F) s.
Proof.
  intros Hr. destruct (new_run s x 0) as (a & Ha & Hnew). unfold List_Prepend.
  apply wp_bind. eapply wp_run; [exact Hnew |]. cbv beta.
  unfold List_IsEmpty. wp_steps. simpl. case_bool_decide as Hf; wp_steps.
  - destruct Hr as [ps Hr]. apply (lrep_first_None _ _ _ _ Hr) in Hf as ->.
    pose proof (lrep_at_nil _ _ _ Hr); subst l. apply lrep_single; [by exists [] | done].
  - simpl. destruct (l_first s) as [f |] eqn:Ef; [| done].
    eapply wp_run; [apply store_next_run; simpl; by rewrite lookup_insert_eq |]. cbv beta.
    wp_steps. by apply (lrep_front s l F a f 0 x).
Qed.

Lemma lrep_remove s p ps e l F : lrep_at s (p :: ps) (e :: l) F →
  lrep_at (mkLinkedList (delete p (heap s)) (ps !! 0%nat) (last ps)) ps l F.
Proof.
  intros [Hc _ _ Hout Hin]. pose proof (ch_nodup _ _ _ Hc) as [Hp _]%NoDup_cons. split; simpl.
  - exact (chain_tail _ _ _ _ _ Hc).
  - done.
  - done.
  - intros q Hq. destruct (decide (q = p)) as [-> | Hqp].
    + rewrite lookup_delete_eq. symmetry. apply Hin. left.
    + rewrite lookup_delete_ne by done. apply Hout. by apply not_elem_of_cons.
  - intros q Hq. apply Hin. by right.
Qed.

Lemma SortedRemove_spec s l F : lrep s l F →
  wp List_SortedRemove (λ r s', r = head l ∧ lrep s' (tail l) F) s.
Proof.
  intros [ps Hr]. pose proof (lr_chain _ _ _ _ Hr) as Hc. pose proof (ch_length _ _ _ Hc) as Hlen.
  unfold List_SortedRemove, List_IsEmpty. wp_steps. rewrite (lr_first _ _ _ _ Hr).
  destruct ps as [| p ps], l as [| e l]; try (simpl in Hlen; lia); simpl.
  - wp_steps. split; [done | by exists []].
  - pose proof (ch_node _ _ _ Hc 0%nat p e eq_refl eq_refl) as Hp. simpl in Hp.
    apply wp_bind. eapply wp_run; [exact (deref_run _ _ _ Hp) |]. cbv beta.
    pose proof (lrep_remove _ _ _ _ _ _ Hr) as Hr'. rewrite (lr_last _ _ _ _ Hr). simpl in Hlen.
    apply wp_bind. apply (wp_mono _ (λ _ s', s' = mkLinkedList (heap s) (ps !! 0%nat) (last ps))).
    { destruct ps as [| q ps].
      - rewrite decide_True by done. wp_steps. done.
      - rewrite decide_False; [wp_steps; unfold set_first; by rewrite (lr_last _ _ _ _ Hr) |].
        intros E. symmetry in E. change (last (q :: ps) = Some p) in E.
        apply last_Some_elem_of in E. pose proof (ch_nodup _ _ _ Hc) as [Hn _]%NoDup_cons. done. }
    intros [] s' ->. apply wp_bind. eapply wp_run.
    { unfold ListElement_delete, mbind, M_bind. by rewrite (deref_run (mkLinkedList (heap s) _ _) p _ Hp). }
    cbv beta. wp_steps. simpl. split; [by destruct e |]. by exists ps.
Qed.

Lemma Remove_spec s l F : lrep s l F →
  wp List_Remove (λ r s', r = snd <$> head l ∧ lrep s' (tail l) F) s.
Proof.
  intros Hr. unfold List_Remove. wp_step. eapply wp_mono; [exact (SortedRemove_spec _ _ _ Hr) |].
  intros r s' [-> Hr']. wp_steps. done.
Qed.

Lemma delete_spec s l F fuel : lrep s l F → (length l < fuel)%nat →
  wp (List_delete_loop fuel) (λ _ s', lrep s' [] F) s.
Proof.
  revert s l. induction fuel as [| fuel IH]; intros s l Hr Hf; [lia |]. simpl.
  apply wp_bind. eapply wp_run; [exact (IsEmpty_spec _ _ _ Hr) |]. cbv beta.
  case_bool_decide as El; [subst l; by wp_steps |]. wp_step.
  eapply wp_mono; [exact (Remove_spec _ _ _ Hr) |]. intros r s' [_ Hr']. apply (IH _ _ Hr').
  destruct l; [done |]. simpl in *. lia.
Qed.

(** The destructor frees every node and nothing else. *)
Lemma List_delete_spec s l F : lrep s l F → wp List_delete (λ _ s', heap s' = F) s.
Proof.
  intros Hr. unfold List_delete. wp_steps. destruct Hr as [ps Hr].
  pose proof (chain_size _ _ _ (lr_chain _ _ _ _ Hr)) as Hsz.
  rewrite (ch_length _ _ _ (lr_chain _ _ _ _ Hr)) in Hsz.
  eapply wp_mono; [apply (delete_spec s l F); [by exists ps | lia] |].
  intros [] s' [qs Hr']. assert (qs = []) as ->.
  { apply nil_length_inv. by rewrite (ch_length _ _ _ (lr_chain _ _ _ _ Hr')). }
  apply map_eq. intros q. apply (lr_out _ _ _ _ Hr'). apply not_elem_of_nil.
Qed.

Lemma apply_walk_spec s ps l F fuel i : lrep_at s ps l F → (length l - i < fuel)%nat →
  apply_walk fuel (ps !! i) s = Done (snd <$> drop i l, s).
Proof.
  intros Hr. pose proof (lr_chain _ _ _ _ Hr) as Hc. pose proof (ch_length _ _ _ Hc) as Hlen.
  revert i. induction fuel as [| fuel IH]; intros i Hi; simpl.
  - exfalso. lia.
  - destruct (ps !! i) as [p |] eqn:Hp.
    + destruct (chain_item _ _ _ _ _ Hc Hp) as [kx Hkx].
      apply lookup_lt_Some in Hkx as Hlt.
      unfold mbind, M_bind. rewrite (deref_run _ _ _ (ch_node _ _ _ Hc _ _ _ Hp Hkx)). simpl.
      rewrite (IH (S i)) by lia. by rewrite (drop_S _ _ _ Hkx).
    + apply lookup_ge_None_1 in Hp. rewrite drop_ge by lia. done.
Qed.

(** The state after [new ListNode(item, sortKey)]. *)
Definition with_new (a k : Z) (x : Item) s : LinkedList Item :=
  set_heap (<[a := mkElement None k x]> (heap s)) s.

Lemma with_new_node s ps l F a k x i p e : lrep_at s ps l F → heap s !! a = None →
  ps !! i = Some p → l !! i = Some e → heap (with_new a k x s) !! p = Some (mkElement (ps !! S i) e.1 e.2).
Proof.
  intros Hr Ha Hp He. pose proof (ch_node _ _ _ (lr_chain _ _ _ _ Hr) _ _ _ Hp He) as Hn.
  simpl. rewrite lookup_insert_ne; [done |]. intros ->. by rewrite Hn in Ha.
Qed.

Lemma insert_walk_spec s ps l F a k x fuel : lrep_at s ps l F → heap s !! a = None →
  ∀ i p, ps !! i = Some p → (length ps - i < S fuel)%nat →
  (∀ j e, (j ≤ i)%nat → l !! j = Some e → e.1 ≤ k) →
  wp (insert_walk fuel a p k) (λ b s',
    (b = true ∧ lrep s' (List_insert k x l) F) ∨
    (b = false ∧ s' = with_new a k x s ∧ ∀ j e, l !! j = Some e → e.1 ≤ k)) (with_new a k x s).
Proof.
  intros Hr Ha. pose proof (lr_chain _ _ _ _ Hr) as Hc. pose proof (ch_length _ _ _ Hc) as Hlen.
  induction fuel as [| fuel IH]; intros i p Hp Hfuel Hle.
  { apply lookup_lt_Some in Hp. lia. }
  destruct (chain_item _ _ _ _ _ Hc Hp) as [e He]. simpl.
  apply wp_bind. eapply wp_run; [apply deref_run, (with_new_node _ _ _ _ _ _ _ _ _ _ Hr Ha Hp He) |]. simpl.
  destruct (ps !! S i) as [q |] eqn:Hq.
  2:{ wp_steps. right. split_and!; [done | done |]. intros j e' He'. apply (Hle j e'); [| done].
      apply lookup_lt_Some in He'. apply lookup_ge_None_1 in Hq. lia. }
  destruct (chain_item _ _ _ _ _ Hc Hq) as [eq Heq].
  pose proof (with_new_node _ _ _ _ _ k x _ _ _ Hr Ha Hq Heq) as Hqn.
  pose proof (with_new_node _ _ _ _ _ k x _ _ _ Hr Ha Hp He) as Hpn.
  assert (a ≠ p) as Hap. { intros ->. by rewrite (ch_node _ _ _ Hc _ _ _ Hp He) in Ha. }
  apply wp_bind. eapply wp_run; [exact (deref_run _ _ _ Hqn) |]. simpl.
  destruct (decide (k < eq.1)) as [Hk | Hk].
  - apply wp_bind. eapply wp_run; [apply store_next_run; simpl; by rewrite lookup_insert_eq |]. simpl.
    apply wp_bind. eapply wp_run.
    { apply store_next_run. simpl. rewrite lookup_insert_ne by done. exact Hpn. }
    wp_steps. left. split; [done |].
    rewrite (List_insert_at k x l (S i)).
    + apply (lrep_after s ps l F a i p e k x Hr Ha Hp He); simpl.
      * by rewrite Hq, insert_insert_eq.
      * done.
      * apply lookup_lt_Some in Hq. by rewrite decide_False by lia.
    + intros j e' Hj. apply Hle. lia.
    + intros e' He'. by simplify_eq.
  - apply (IH (S i) q Hq).
    + apply lookup_lt_Some in Hq. lia.
    + intros j e' Hj He'. destruct (decide (j = S i)) as [-> | Hji]; [simplify_eq; lia |].
      apply (Hle j e'); [lia | done].
Qed.

Lemma SortedInsert_spec s l F x k : lrep s l F →
  wp (List_SortedInsert x k) (λ _ s', lrep s' (List_insert k x l) F) s.
Proof.
  intros [ps Hr]. destruct (new_run s x k) as (a & Ha & Hnew).
  pose proof (lr_chain _ _ _ _ Hr) as Hc. pose proof (ch_length _ _ _ Hc) as Hlen. unfold List_SortedInsert.
  apply wp_bind. eapply wp_run; [exact Hnew |]. cbv beta. wp_steps. simpl l_first.
  destruct ps as [| p ps].
  { rewrite (lr_first _ _ _ _ Hr). pose proof (lrep_at_nil _ _ _ Hr); subst l. simpl. wp_steps.
    apply lrep_single; [by exists [] | done]. }
  pose proof (lr_first _ _ _ _ Hr) as Hfst. rewrite Hfst. simpl.
  destruct l as [| e l]; [done |].
  pose proof (with_new_node _ _ _ _ _ k x 0%nat p e Hr Ha eq_refl eq_refl) as Hp.
  apply wp_bind. eapply wp_run; [exact (deref_run _ _ _ Hp) |]. cbv beta. simpl e_key.
  destruct (decide (k < e.1)) as [Hk | Hk].
  - apply wp_bind. eapply wp_run; [apply store_next_run; simpl; by rewrite lookup_insert_eq |]. wp_steps.
    destruct e as [ke xe]. simpl in *. rewrite decide_True by done.
    apply (lrep_front s ((ke, xe) :: l) F a p k x); [by exists (p :: ps) | done | done].
  - apply wp_bind. eapply wp_mono.
    { apply (insert_walk_spec s (p :: ps) (e :: l) F a k x _ Hr Ha 0%nat p eq_refl).
      - pose proof (chain_size _ _ _ Hc). simpl heap. rewrite map_size_insert_None by done. simpl in *. lia.
      - intros j e' Hj He'. destruct j; [simpl in He'; simplify_eq; lia | lia]. }
    intros b s' [[-> Hins] | (-> & -> & Hall)]; [by wp_steps |].
    destruct (lrep_last_node _ _ _ _ Hr ltac:(done)) as (q & kq & Hl & Hq & Hkq & Hnode).
    pose proof (with_new_node _ _ _ _ _ k x _ _ _ Hr Ha Hq Hkq) as Hqn. rewrite Hl.
    apply wp_bind. eapply wp_run; [exact (store_next_run _ _ _ _ Hqn) |]. cbv beta. wp_steps.
    rewrite (List_insert_at k x (e :: l) (S (pred (length (p :: ps))))).
    + apply (lrep_after s (p :: ps) (e :: l) F a _ q kq k x Hr Ha Hq Hkq); simpl.
      * rewrite lookup_ge_None_2 by done. done.
      * done.
      * by rewrite decide_True.
    + intros j e' _. apply Hall.
    + intros e' He'. apply lookup_lt_Some in He'. simpl in *. lia.
Qed.
End representation.

(** ** Sequences of calls *)

Section scripts.
Context {Item : Type}.

Inductive list_op :=
| OpAppend (x : Item)
| OpPrepend (x : Item)
| OpSortedInsert (x : Item) (k : Z)
| OpSortedRemove
| OpIsEmpty
| OpApply.

Inductive list_result :=
| RUnit
| RItem (r : option (Z * Item))
| RBool (b : bool)
| RItems (l : list Item).

Definition list_call (o : list_op) : M (LinkedList Item) list_result :=
  match o with
  | OpAppend x => List_Append x ;; mret RUnit
  | OpPrepend x => List_Prepend x ;; mret RUnit
  | OpSortedInsert x k => List_SortedInsert x k ;; mret RUnit
  | OpSortedRemove => r ← List_SortedRemove; mret (RItem r)
  | OpIsEmpty => b ← List_IsEmpty; mret (RBool b)
  | OpApply => l ← List_Apply; mret (RItems l)
  end.

(** The same call on the sequence. *)
Definition seq_call (o : list_op) (l : list (Z * Item)) : list_result * list (Z * Item) :=
  match o with
  | OpAppend x => (RUnit, l ++ [(0, x)])
  | OpPrepend x => (RUnit, (0, x) :: l)
  | OpSortedInsert x k => (RUnit, List_insert k x l)
  | OpSortedRemove => (RItem (head l), tail l)
  | OpIsEmpty => (RBool (bool_decide (l = [])), l)
  | OpApply => (RItems (snd <$> l), l)
  end.

Fixpoint list_calls (os : list list_op) : M (LinkedList Item) (list list_result) :=
  match os with
  | [] => mret []
  | o :: os' => r ← list_call o; rs ← list_calls os'; mret (r :: rs)
  end.

Fixpoint seq_calls (os : list list_op) (l : list (Z * Item)) : list list_result * list (Z * Item) :=
  match os with
  | [] => ([], l)
  | o :: os' =>
      let '(r, l') := seq_call o l in
      let '(rs, l'') := seq_calls os' l' in (r :: rs, l'')
  end.

Lemma list_call_spec o s l F : lrep s l F →
  wp (list_call o) (λ r s', r = (seq_call o l).1 ∧ lrep s' (seq_call o l).2 F) s.
Proof.
  intros Hr. destruct o; simpl; apply wp_bind.
  - eapply wp_mono; [exact (Append_spec _ _ _ x Hr) |]. intros [] s' H. by wp_steps.
  - eapply wp_mono; [exact (Prepend_spec _ _ _ x Hr) |]. intros [] s' H. by wp_steps.
  - eapply wp_mono; [exact (SortedInsert_spec _ _ _ x k Hr) |]. intros [] s' H. by wp_steps.
  - eapply wp_mono; [exact (SortedRemove_spec _ _ _ Hr) |]. intros r s' [-> H]. by wp_steps.
  - eapply wp_run; [exact (IsEmpty_spec _ _ _ Hr) |]. by wp_steps.
  - destruct Hr as [ps Hr]. unfold List_Apply. wp_steps.
    pose proof (chain_size _ _ _ (lr_chain _ _ _ _ Hr)) as Hsz.
    rewrite (ch_length _ _ _ (lr_chain _ _ _ _ Hr)) in Hsz. rewrite (lr_first _ _ _ _ Hr).
    eapply wp_run; [apply (apply_walk_spec _ _ _ _ _ 0 Hr); lia |]. wp_steps. split; [done | by exists ps].
Qed.

Lemma list_calls_spec os : ∀ s l F, lrep s l F →
  wp (list_calls os) (λ rs s', rs = (seq_calls os l).1 ∧ lrep s' (seq_calls os l).2 F) s.
Proof.
  induction os as [| o os IH]; intros s l F Hr; simpl; [by wp_steps |].
  apply wp_bind. eapply wp_mono; [exact (list_call_spec o _ _ _ Hr) |].
  intros r s' [-> Hr']. destruct (seq_call o l) as [r l'] eqn:Eo. simpl in *.
  apply wp_bind. eapply wp_mono; [exact (IH _ _ _ Hr') |].
  intros rs s'' [-> Hr'']. destruct (seq_calls os l') as [rs l''] eqn:Eos. by wp_steps.
Qed.

Lemma List_new_rep (h : gmap Z (ListElement Item)) : lrep (List_new h) [] h.
Proof. exists []. split; simpl; try done; [split; [apply NoDup_nil_2 | done | done] | set_solver]. Qed.
End scripts.
Arguments list_op : clear implicits.
Arguments list_result : clear implicits.

(** C35 [List] is a sequence: whatever else the heap holds, any series of calls
    of [Append], [Prepend], [SortedInsert], [SortedRemove], [IsEmpty] and
    [Apply] on a new list runs without an access through a null or dangling
    pointer, returns what the same series returns on a sequence of keyed
    items, and the destructor then frees every element of the list and leaves
    the rest of the heap as it was. *)
Theorem List_refines_sequence {Item} (os : list (list_op Item)) (h : gmap Z (ListElement Item)) :
  ∃ s s', list_calls os (List_new h) = Done ((seq_calls os []).1, s) ∧
    List_delete s = Done (tt, s') ∧ heap s' = h.
Proof.
  destruct (list_calls_spec os _ _ _ (List_new_rep h)) as (rs & s & Hrun & -> & Hr).
  destruct (List_delete_spec _ _ _ Hr) as ([] & s' & Hdel & Hh). by exists s, s'.
Qed.

(** [SortedInsert] keeps a list sorted by key, adds the item and loses
    none, and keeps the order of arrival among equal keys: the new item comes
    after those that were there. *)
Theorem SortedInsert_sorted_stable {Item} (x : Item) (k : Z) (s : LinkedList Item) l F :
  lrep s l F → Sorted key_le l →
  ∃ s' l', List_SortedInsert x k s = Done (tt, s') ∧ lrep s' l' F ∧
    Sorted key_le l' ∧ l' ≡ₚ (k, x) :: l ∧
    (∀ j, filter (λ e, e.1 = j) l' =
          filter (λ e, e.1 = j) l ++ (if decide (k = j) then [(k, x)] else [])).
Proof.
  intros Hr Hs. destruct (SortedInsert_spec _ _ _ x k Hr) as ([] & s' & Hrun & Hr').
  exists s', (List_insert k x l). split_and!; [done | done | | |].
  - by apply List_insert_sorted.
  - apply List_insert_perm.
  - intros j. by apply List_insert_stable.
Qed.

Lemma SortedInsert_sorted_stable_witness :
  let s := state_of (List_new ∅) (list_calls [OpSortedInsert 7 5; OpSortedInsert 8 3] (List_new ∅)) in
  lrep s [(3, 8); (5, 7)] ∅ ∧
  ∃ s' l', List_SortedInsert 9 5 s = Done (tt, s') ∧ lrep s' l' ∅ ∧
    Sorted key_le l' ∧ l' ≡ₚ (5, 9) :: [(3, 8); (5, 7)] ∧
    (∀ j, filter (λ e, e.1 = j) l' =
          filter (λ e, e.1 = j) [(3, 8); (5, 7)] ++ (if decide (5 = j) then [(5, 9)] else [])).
Proof.
  intros s. assert (lrep s [(3, 8); (5, 7)] ∅) as Hr.
  { pose proof (list_calls_spec [OpSortedInsert 7 5; OpSortedInsert 8 3] _ _ _
      (List_new_rep (∅ : gmap Z (ListElement Z)))) as (rs & s0 & Hrun & _ & Hr0).
    unfold s. rewrite Hrun. exact Hr0. }
  split; [exact Hr |].
  apply (SortedInsert_sorted_stable 9 5 s [(3, 8); (5, 7)] ∅ Hr).
  repeat constructor. unfold key_le. simpl. lia.
Defined.
