(* ===== verification/Interrupt.v ===== *)
(** * Simulated hardware interrupts (machine/interrupt.{h,cc})

    The simulation is written against the state [S] of the whole kernel through
    the classes [IrqHost] and [InterruptHost]: the record [Irq] (the fields of [Interrupt] and
    the tick counters of [stats]), the machine status, the effect of
    [machine->DelayedLoad(0, 0)], and the call of a device handler.  The list
    [pending] is the sequence of list.h, sorted by time.  Where the source calls
    [currentThread->Yield()] the function returns the machine status to restore
    afterwards: the thread component makes that call. *)

From stdpp Require Import base gmap list numbers sorting.
From Stdlib Require Import ZArith Lia.
From S2P Require Import Prelude Machine LinkedList.

Inductive IntStatus := IntOff | IntOn.
Inductive IntType := TimerInt | DiskInt | ConsoleWriteInt | ConsoleReadInt | NetworkSendInt | NetworkRecvInt.

#[export] Instance IntStatus_eq_dec : EqDecision IntStatus.
Proof. solve_decision. Defined.
#[export] Instance IntType_eq_dec : EqDecision IntType.
Proof. solve_decision. Defined.
#[export] Instance MachineStatus_eq_dec : EqDecision MachineStatus.
Proof. solve_decision. Defined.

(** [H] is the type of handlers (function and argument). *)
Record PendingInterrupt (H : Type) := mkPending {
  handler : H;
  when : Z;
  type : IntType
}.
Arguments mkPending {H}.
Arguments handler {H}.
Arguments when {H}.
Arguments type {H}.

Definition UserTick : Z := 1.
Definition SystemTick : Z := 10.
Definition TimerTicks : Z := 100.

Record Irq (H : Type) := mkIrq {
  level : IntStatus;
  pending : list (Z * PendingInterrupt H);
  inHandler : bool;
  yieldOnReturn : bool;
  totalTicks : Z;
  idleTicks : Z;
  systemTicks : Z;
  userTicks : Z
}.
Arguments mkIrq {H}.
Arguments level {H}.
Arguments pending {H}.
Arguments inHandler {H}.
Arguments yieldOnReturn {H}.
Arguments totalTicks {H}.
Arguments idleTicks {H}.
Arguments systemTicks {H}.
Arguments userTicks {H}.

Section fields.
Context {H : Type}.
Implicit Types i : Irq H.

Definition set_level (l : IntStatus) i : Irq H :=
  mkIrq l (pending i) (inHandler i) (yieldOnReturn i) (totalTicks i) (idleTicks i) (systemTicks i) (userTicks i).
Definition set_pending (p : list (Z * PendingInterrupt H)) i : Irq H :=
  mkIrq (level i) p (inHandler i) (yieldOnReturn i) (totalTicks i) (idleTicks i) (systemTicks i) (userTicks i).
Definition set_inHandler (b : bool) i : Irq H :=
  mkIrq (level i) (pending i) b (yieldOnReturn i) (totalTicks i) (idleTicks i) (systemTicks i) (userTicks i).
Definition set_yieldOnReturn (b : bool) i : Irq H :=
  mkIrq (level i) (pending i) (inHandler i) b (totalTicks i) (idleTicks i) (systemTicks i) (userTicks i).
Definition advance_idle (t : Z) i : Irq H :=
  mkIrq (level i) (pending i) (inHandler i) (yieldOnReturn i) t
    (s32 (idleTicks i + (t - totalTicks i))) (systemTicks i) (userTicks i).
Definition tick_system i : Irq H :=
  mkIrq (level i) (pending i) (inHandler i) (yieldOnReturn i) (s32 (totalTicks i + SystemTick))
    (idleTicks i) (s32 (systemTicks i + SystemTick)) (userTicks i).
Definition tick_user i : Irq H :=
  mkIrq (level i) (pending i) (inHandler i) (yieldOnReturn i) (s32 (totalTicks i + UserTick))
    (idleTicks i) (systemTicks i) (s32 (userTicks i + UserTick)).

(** [Interrupt::Interrupt], with the counters of [Statistics::Statistics]. *)
Definition Interrupt_new : Irq H := mkIrq IntOff [] false false 0 0 0 0.
End fields.

Class IrqHost (S H : Type) := {
  irq : S → Irq H;
  set_irq : Irq H → S → S;
  irq_status : S → MachineStatus;
  set_irq_status : MachineStatus → S → S
}.

Class IrqHostLaws (S H : Type) `{IrqHost S H} := {
  irq_set : ∀ i (s : S), irq (set_irq i s) = i;
  irq_set_status : ∀ st (s : S), irq (set_irq_status st s) = irq s;
  status_set : ∀ st (s : S), irq_status (set_irq_status st s) = st;
  status_set_irq : ∀ i (s : S), irq_status (set_irq i s) = irq_status s
}.

(** What the simulation calls. *)
Class InterruptHost (S H : Type) `{IrqHost S H} := {
  delayed_load : M S unit;               (* machine->DelayedLoad(0, 0) *)
  call_handler : H → M S unit            (* ( *handler)(arg) *)
}.

Section registers.
Context {S H : Type} `{IrqHost S H}.

Definition modify_irq (f : Irq H → Irq H) : M S unit := modify (λ s, set_irq (f (irq s)) s).

Definition ChangeLevel (old now : IntStatus) : M S unit := modify_irq (set_level now).

Definition YieldOnReturn : M S unit := modify_irq (set_yieldOnReturn true).

Definition Schedule (h : H) (fromNow : Z) (t : IntType) : M S unit :=
  s ← get;
  let whn := s32 (totalTicks (irq s) + fromNow) in
  ASSERT (bool_decide (fromNow > 0)) ;;
  modify_irq (λ i, set_pending (List_insert whn (mkPending h whn t) (pending i)) i).
End registers.

Section interrupt.
Context {S H : Type} `{InterruptHost S H}.

(** The decision of [CheckIfDue] on the removed interrupt: go on and fire it? *)
Definition due (advanceClock : bool) (whn : Z) (toOccur : PendingInterrupt H) : M S bool :=
  s ← get;
  if advanceClock && bool_decide (whn > totalTicks (irq s)) then
    modify_irq (advance_idle whn) ;; mret true
  else if bool_decide (whn > totalTicks (irq s)) then
    modify_irq (λ i, set_pending (List_insert whn toOccur (pending i)) i) ;; mret false
  else mret true.

Definition fire (toOccur : PendingInterrupt H) : M S unit :=
  s ← get;
  let old := irq_status s in
  delayed_load ;;
  modify_irq (set_inHandler true) ;;
  modify (set_irq_status SystemMode) ;;
  call_handler (handler toOccur) ;;
  modify (set_irq_status old) ;;
  modify_irq (set_inHandler false).

Definition CheckIfDue (advanceClock : bool) : M S bool :=
  s ← get;
  ASSERT (bool_decide (level (irq s) = IntOff)) ;;
  match pending (irq s) with
  | [] => mret false
  | (whn, toOccur) :: rest =>
      modify_irq (set_pending rest) ;;
      go ← due advanceClock whn toOccur;
      if (go : bool) then
        s ← get;
        if bool_decide (irq_status s = IdleMode) && bool_decide (type toOccur = TimerInt)
           && bool_decide (pending (irq s) = []) then
          modify_irq (λ i, set_pending (List_insert whn toOccur (pending i)) i) ;;
          mret false
        else fire toOccur ;; mret true
      else mret false
  end.

(** [while (CheckIfDue(false)) ;] *)
Fixpoint check_all (fuel : nat) : M S unit :=
  match fuel with
  | O => stop OutOfFuel
  | Datatypes.S fuel' =>
      fired ← CheckIfDue false;
      if (fired : bool) then check_all fuel' else mret tt
  end.

Definition check_pending : M S unit :=
  s ← get; check_all (Datatypes.S (length (pending (irq s)))).

(** [Some old]: the caller must [Yield] and then set the status back to [old]. *)
Definition OneTick : M S (option MachineStatus) :=
  s ← get;
  let old := irq_status s in
  (if decide (old = SystemMode) then modify_irq tick_system else modify_irq tick_user) ;;
  ChangeLevel IntOn IntOff ;;
  check_pending ;;
  ChangeLevel IntOff IntOn ;;
  s ← get;
  if yieldOnReturn (irq s) then
    modify_irq (set_yieldOnReturn false) ;;
    modify (set_irq_status SystemMode) ;;
    mret (Some old)
  else mret None.

Definition Halt : M S unit := stop MachineHalted.

Definition Idle : M S unit :=
  modify (set_irq_status IdleMode) ;;
  fired ← CheckIfDue true;
  if (fired : bool) then
    check_pending ;;
    modify_irq (set_yieldOnReturn false) ;;
    modify (set_irq_status SystemMode)
  else Halt.
End interrupt.

(** ** Properties *)

Section facts.
Context {S H : Type} `{HL : IrqHostLaws S H} `{!InterruptHost S H}.
Implicit Types (s : S) (i : Irq H).

Definition future i (e : Z * PendingInterrupt H) : Prop := totalTicks i < e.1.

#[local] Instance future_dec i e : Decision (future i e).
Proof. unfold future. apply _. Defined.

(** The pending interrupts that are due, and how many they are. *)
Definition due_now i : list (Z * PendingInterrupt H) := filter (λ e, ¬ future i e) (pending i).
Definition due_count i : nat := length (due_now i).

Record irq_ok i : Prop := {
  ok_sorted : Sorted key_le (pending i);
  ok_handler : inHandler i = false
}.

(** The clock is an [int]: far enough from overflow to schedule the timer. *)
Definition time_limit : Z := 2 ^ 31 - 2 * TimerTicks - 1.
Definition clock_ok i : Prop := 0 ≤ totalTicks i < time_limit.

(** What the simulation asks of the rest of the kernel: [I] is kept, a handler
    leaves level, clock and status alone and only schedules in the future.
    [calls] observes in a state which handlers were called up to now. *)
Record handlers_ok (I : S → Prop) (calls : S → list H) : Prop := {
  ho_irq : ∀ i s, I s → I (set_irq i s);
  ho_status : ∀ st s, I s → I (set_irq_status st s);
  ho_calls_irq : ∀ i s, calls (set_irq i s) = calls s;
  ho_calls_status : ∀ st s, calls (set_irq_status st s) = calls s;
  ho_delayed : ∀ s, I s → wp delayed_load
    (λ _ s', I s' ∧ irq s' = irq s ∧ irq_status s' = irq_status s ∧ calls s' = calls s) s;
  ho_handler : ∀ h s, I s → Sorted key_le (pending (irq s)) → level (irq s) = IntOff →
    clock_ok (irq s) →
    wp (call_handler h) (λ _ s', I s' ∧ calls s' = calls s ++ [h] ∧ level (irq s') = IntOff ∧
      totalTicks (irq s') = totalTicks (irq s) ∧ Sorted key_le (pending (irq s')) ∧
      ∃ new, pending (irq s') ≡ₚ new ++ pending (irq s) ∧ Forall (future (irq s)) new) s
}.

Lemma Sorted_tail (e : Z * PendingInterrupt H) l : Sorted key_le (e :: l) → Sorted key_le l.
Proof. by inversion 1. Qed.

Lemma future_mono i i' e : totalTicks i' = totalTicks i → future i e ↔ future i' e.
Proof. unfold future. intros ->. done. Qed.

Lemma due_count_perm i i' l : totalTicks i' = totalTicks i → pending i' ≡ₚ l →
  due_count i' = length (filter (λ e, ¬ future i e) l).
Proof.
  intros Ht Hp. unfold due_count, due_now. rewrite Hp. f_equal. apply list_filter_iff.
  intros e. by rewrite (future_mono i i').
Qed.

Lemma due_count_new i new l : Forall (future i) new →
  length (filter (λ e, ¬ future i e) (new ++ l)) = length (filter (λ e, ¬ future i e) l).
Proof.
  intros Hn. rewrite filter_app. induction Hn as [| e new He _ IH]; [done |].
  rewrite filter_cons_False by tauto. exact IH.
Qed.

(** When the first is in the future, all are. *)
Lemma sorted_future i e l : Sorted key_le (e :: l) → future i e → Forall (future i) (e :: l).
Proof.
  intros Hs He. apply Sorted_StronglySorted in Hs; [| intros [] [] []; unfold key_le; simpl; lia].
  inversion Hs as [| ? ? _ Hall]; subst. constructor; [done |].
  eapply Forall_impl; [exact Hall |]. intros x Hx. unfold key_le, future in *. lia.
Qed.

Lemma due_count_zero i : due_count i = 0%nat ↔ Forall (future i) (pending i).
Proof.
  unfold due_count, due_now. rewrite length_zero_iff_nil. split.
  - intros E. apply Forall_forall. intros e He. destruct (decide (future i e)) as [? | Hn]; [done |].
    exfalso. assert (e ∈ filter (λ e, ¬ future i e) (pending i)) as Hin by (by apply list_elem_of_filter).
    rewrite E in Hin. by apply not_elem_of_nil in Hin.
  - intros Hall. apply elem_of_nil_inv. intros e [Hn He]%list_elem_of_filter.
    rewrite Forall_forall in Hall. by apply Hn, Hall.
Qed.

(** *** What a check of the pending interrupts does *)

Context (I : S → Prop) (calls : S → list H) (HO : handlers_ok I calls).

(** The interrupts that are due in [s] are served: their handlers have been
    called, one after the other by time; what is pending in [s'] is what was not
    due, and what the handlers have scheduled. *)
Definition served s s' : Prop := ∃ es new, es ≡ₚ due_now (irq s) ∧ Sorted key_le es ∧
  calls s' = calls s ++ ((λ e, handler e.2) <$> es) ∧
  pending (irq s') ≡ₚ new ++ filter (future (irq s)) (pending (irq s)) ∧ Forall (future (irq s)) new.

(** One interrupt, the first, has been served. *)
Definition served_first s s' : Prop := ∃ w p rest new, pending (irq s) = (w, p) :: rest ∧ ¬ future (irq s) (w, p) ∧
  calls s' = calls s ++ [handler p] ∧ pending (irq s') ≡ₚ new ++ rest ∧ Forall (future (irq s)) new.

(** The state in which pending interrupts are checked. *)
Record checking s : Prop := {
  ck_I : I s;
  ck_level : level (irq s) = IntOff;
  ck_ok : irq_ok (irq s);
  ck_clock : clock_ok (irq s)
}.

Lemma served_none s s' : Forall (future (irq s)) (pending (irq s)) → calls s' = calls s →
  pending (irq s') ≡ₚ pending (irq s) → served s s'.
Proof.
  intros Hf Hc Hp. exists [], []. split_and!; [| constructor | by rewrite app_nil_r | | constructor].
  - apply due_count_zero in Hf. unfold due_count in Hf. by apply length_zero_iff_nil in Hf as ->.
  - rewrite Hp. simpl. clear -Hf. induction Hf as [| e l He _ IH]; [done |]. by rewrite filter_cons_True, <- IH.
Qed.

Lemma filter_same_clock i i' (l : list (Z * PendingInterrupt H)) : totalTicks i' = totalTicks i →
  filter (future i') l = filter (future i) l ∧ filter (λ e, ¬ future i' e) l = filter (λ e, ¬ future i e) l.
Proof. intros Ht. split; apply list_filter_iff; intros e; by rewrite (future_mono i i'). Qed.

Lemma filter_new i new l : Forall (future i) new → filter (λ e, ¬ future i e) (new ++ l) = filter (λ e, ¬ future i e) l ∧
  filter (future i) (new ++ l) = new ++ filter (future i) l.
Proof.
  intros Hn. rewrite !filter_app. induction Hn as [| e new He _ [IH1 IH2]]; [done |].
  rewrite filter_cons_False, filter_cons_True by tauto. simpl. by rewrite IH2.
Qed.

(** The first and then the others: all in order. *)
Lemma served_cons s s1 s' : Sorted key_le (pending (irq s)) → totalTicks (irq s1) = totalTicks (irq s) →
  served_first s s1 → served s1 s' → served s s'.
Proof.
  intros Hs Ht (w & p & rest & new1 & Ep & Hdue & Hc1 & Hp1 & Hn1) (es & new & Hes & Hsort & Hc & Hp & Hn).
  destruct (filter_same_clock (irq s) (irq s1) (pending (irq s1)) Ht) as [Ef1 Ef2].
  unfold due_now in Hes. rewrite Ef2, Hp1 in Hes. rewrite Ef1, Hp1 in Hp.
  destruct (filter_new (irq s) new1 rest Hn1) as [En1 En2]. rewrite En1 in Hes. rewrite En2 in Hp.
  exists ((w, p) :: es), (new ++ new1). split_and!.
  - unfold due_now. rewrite Ep, filter_cons_True by done. by constructor.
  - constructor; [done |]. rewrite Ep in Hs. apply Sorted_StronglySorted in Hs; [| intros [] [] []; unfold key_le; simpl; lia].
    inversion Hs as [| ? ? _ Hall]; subst. rewrite Forall_forall in Hall. destruct es as [| e es]; constructor.
    apply Hall. assert (e ∈ filter (λ e, ¬ future (irq s) e) rest) as He by (rewrite <- Hes; set_solver).
    by apply list_elem_of_filter in He as [_ ?].
  - rewrite Hc, Hc1, <- app_assoc. done.
  - rewrite Ep, filter_cons_False by done. by rewrite <- app_assoc.
  - apply Forall_app. split; [| done]. eapply Forall_impl; [exact Hn |]. intros e. by apply future_mono.
Qed.

(** [served] looks at the clock, what is pending, and the calls only. *)
Lemma served_same s0 s1 s s' : served s0 s → totalTicks (irq s1) = totalTicks (irq s0) →
  pending (irq s1) = pending (irq s0) → calls s1 = calls s0 → pending (irq s') = pending (irq s) →
  calls s' = calls s → served s1 s'.
Proof.
  intros (es & new & H1 & H2 & H3 & H4 & H5) Ht Hp Hc Hp' Hc'. exists es, new.
  destruct (filter_same_clock (irq s0) (irq s1) (pending (irq s0)) Ht) as [Ef1 Ef2]. unfold due_now in *.
  rewrite Hp, Hp', Hc, Hc', Ef1, Ef2. split_and!; try done. eapply Forall_impl; [exact H5 |]. intros e. by apply future_mono.
Qed.

Lemma fire_spec p s : checking s →
  wp (fire p) (λ _ s', checking s' ∧ irq_status s' = irq_status s ∧
    totalTicks (irq s') = totalTicks (irq s) ∧ calls s' = calls s ++ [handler p] ∧
    ∃ new, pending (irq s') ≡ₚ new ++ pending (irq s) ∧ Forall (future (irq s)) new) s.
Proof.
  intros [HI Hlv [Hs Hh] Hck]. unfold fire, modify_irq. wp_steps.
  eapply wp_mono; [exact (ho_delayed _ _ HO _ HI) |]. intros [] s1 (HI1 & Hirq1 & Hst1 & Hc1). wp_steps.
  eapply wp_mono.
  { apply (ho_handler _ _ HO).
    - by apply (ho_status _ _ HO), (ho_irq _ _ HO).
    - by rewrite irq_set_status, irq_set, Hirq1.
    - by rewrite irq_set_status, irq_set, Hirq1.
    - by rewrite irq_set_status, irq_set, Hirq1. }
  intros [] s2 (HI2 & Hc2 & Hlv2 & Ht2 & Hs2 & new & Hp2 & Hnew). wp_steps.
  rewrite !(ho_calls_irq _ _ HO), !(ho_calls_status _ _ HO), Hc2, !(ho_calls_status _ _ HO), !(ho_calls_irq _ _ HO), Hc1.
  rewrite irq_set_status, irq_set, Hirq1 in Ht2, Hp2, Hnew. simpl in *.
  rewrite status_set_irq, status_set, !irq_set, !irq_set_status. split_and!; simpl; try done.
  - split; rewrite ?irq_set, ?irq_set_status; [by apply (ho_irq _ _ HO), (ho_status _ _ HO) | done | by split |].
    unfold clock_ok. simpl. by rewrite Ht2.
  - exists new. split; [done |]. eapply Forall_impl; [exact Hnew |]. done.
Qed.

Lemma put_back_sorted k (x : PendingInterrupt H) l : Sorted key_le ((k, x) :: l) →
  Sorted key_le (List_insert k x l) ∧ List_insert k x l ≡ₚ (k, x) :: l.
Proof. intros Hs. split; [by eapply List_insert_sorted, Sorted_tail | apply List_insert_perm]. Qed.

(** [CheckIfDue(false)]: fires one due interrupt, or nothing is due (or only
    the timer is left of an idle machine). *)
Lemma CheckIfDue_spec s : checking s →
  wp (CheckIfDue false) (λ b s', checking s' ∧ irq_status s' = irq_status s ∧
    totalTicks (irq s') = totalTicks (irq s) ∧
    if (b : bool) then served_first s s'
    else pending (irq s') ≡ₚ pending (irq s) ∧ calls s' = calls s ∧
      (irq_status s = IdleMode ∨ Forall (future (irq s)) (pending (irq s)))) s.
Proof.
  intros Hc. pose proof Hc as [HI Hlv [Hs Hh] Hck]. unfold CheckIfDue, due, modify_irq. wp_steps.
  { by apply bool_decide_eq_true. }
  destruct (pending (irq s)) as [| [w p] rest] eqn:Ep.
  { wp_steps. split_and!; [done | done | done | by rewrite Ep | done | right; constructor]. }
  wp_steps. rewrite !irq_set. simpl.
  pose proof (put_back_sorted w p rest Hs) as [Hback Hperm]. pose proof (Sorted_tail _ _ Hs) as Hrest.
  set (s1 := set_irq (set_pending rest (irq s)) s).
  assert (checking s1) as Hc1.
  { split; unfold s1; rewrite ?irq_set; [by apply (ho_irq _ _ HO) | done | by split | done]. }
  assert (checking (set_irq (set_pending (List_insert w p rest) (irq s)) s1)) as Hcb.
  { unfold s1. split; rewrite ?irq_set; [by apply (ho_irq _ _ HO), (ho_irq _ _ HO) | done | by split | done]. }
  destruct (decide (w > totalTicks (irq s))) as [Hw | Hw].
  - rewrite bool_decide_eq_true_2 by done. simpl. wp_steps.
    unfold s1 in *. rewrite !irq_set in *. simpl in *.
    rewrite ?status_set_irq, ?(ho_calls_irq _ _ HO). split_and!; try done.
    right. apply sorted_future; [done |]. unfold future. simpl. lia.
  - rewrite bool_decide_eq_false_2 by done. simpl. wp_steps.
    destruct (bool_decide (irq_status s1 = IdleMode) && bool_decide (type p = TimerInt)
      && bool_decide (pending (irq s1) = [])) eqn:Eb.
    + wp_steps. unfold s1 in *. rewrite !irq_set in *. simpl in *. rewrite ?status_set_irq in *.
      rewrite ?(ho_calls_irq _ _ HO). split_bool. split_and!; try done. by left.
    + wp_step. eapply wp_mono; [exact (fire_spec p s1 Hc1) |].
      intros [] s2 (Hc2 & Hst2 & Ht2 & Hcalls & new & Hp2 & Hnew). wp_steps.
      unfold s1 in *. rewrite !irq_set in *. simpl in *. rewrite ?status_set_irq in *.
      split_and!; try done.
      rewrite (ho_calls_irq _ _ HO) in Hcalls. exists w, p, rest, new.
      split_and!; [done | unfold future; simpl; lia | done | done | by eapply Forall_impl].
Qed.

Lemma served_first_count s s' : served_first s s' → totalTicks (irq s') = totalTicks (irq s) →
  (due_count (irq s') < due_count (irq s))%nat.
Proof.
  intros (w & p & rest & new & Ep & Hdue & _ & Hp & Hn) Ht. rewrite (due_count_perm (irq s) (irq s') (new ++ rest)) by done.
  rewrite due_count_new by done. unfold due_count, due_now. rewrite Ep, filter_cons_True by done. simpl. lia.
Qed.

Lemma check_all_spec fuel : ∀ s, checking s → (due_count (irq s) < fuel)%nat →
  wp (check_all fuel) (λ _ s', checking s' ∧ irq_status s' = irq_status s ∧
    totalTicks (irq s') = totalTicks (irq s) ∧
    (irq_status s = IdleMode ∨ Forall (future (irq s')) (pending (irq s')) ∧ served s s')) s.
Proof.
  induction fuel as [| fuel IH]; intros s Hc Hf; [lia |]. simpl.
  wp_step. eapply wp_mono; [exact (CheckIfDue_spec s Hc) |].
  intros b s' (Hc' & Hst & Ht & Hb). destruct b.
  - eapply wp_mono; [apply IH; [done | pose proof (served_first_count s s' Hb Ht); lia] |].
    intros [] s'' (Hc'' & Hst' & Ht' & Hd). rewrite <- Hst. split_and!; [done | congruence | congruence |].
    destruct Hd as [? | [Hfut Hsv]]; [by left | right]. split; [done |]. eapply served_cons; try done. apply Hc.
  - wp_steps. split_and!; try done. destruct Hb as (Hp & Hcalls & [? | Hall]); [by left | right]. split.
    + rewrite Hp. eapply Forall_impl; [exact Hall |]. intros e. by apply future_mono.
    + by apply served_none.
Qed.

Lemma check_pending_spec s : checking s →
  wp check_pending (λ _ s', checking s' ∧ irq_status s' = irq_status s ∧
    totalTicks (irq s') = totalTicks (irq s) ∧
    (irq_status s = IdleMode ∨ Forall (future (irq s')) (pending (irq s')) ∧ served s s')) s.
Proof.
  intros Hc. unfold check_pending. wp_steps. apply check_all_spec; [done |].
  unfold due_count, due_now. pose proof (length_filter (λ e, ¬ future (irq s) e) (pending (irq s))). lia.
Qed.

Definition tick_length (st : MachineStatus) : Z :=
  if decide (st = SystemMode) then SystemTick else UserTick.

(** The state when the interrupts of a tick are checked: time has advanced. *)
Definition ticked s : S :=
  set_irq (set_level IntOff (if decide (irq_status s = SystemMode) then tick_system (irq s) else tick_user (irq s))) s.

Lemma OneTick_spec s : I s → irq_ok (irq s) → irq_status s ≠ IdleMode →
  0 ≤ totalTicks (irq s) < time_limit - SystemTick →
  wp OneTick (λ r s', I s' ∧ irq_ok (irq s') ∧ level (irq s') = IntOn ∧
    yieldOnReturn (irq s') = false ∧ Forall (future (irq s')) (pending (irq s')) ∧
    totalTicks (irq s') = totalTicks (irq s) + tick_length (irq_status s) ∧ served (ticked s) s' ∧
    match r with
    | None => irq_status s' = irq_status s
    | Some old => old = irq_status s ∧ irq_status s' = SystemMode
    end) s.
Proof.
  intros HI [Hs Hh] Hst Hlim. unfold OneTick, ChangeLevel, modify_irq. wp_step. wp_step. wp_step.
  set (i1 := if decide (irq_status s = SystemMode) then tick_system (irq s) else tick_user (irq s)).
  apply (wp_mono _ (λ _ s1, s1 = set_irq i1 s)).
  { unfold i1. destruct (decide (irq_status s = SystemMode)); by wp_steps. }
  intros [] s1 ->.
  assert (totalTicks i1 = totalTicks (irq s) + tick_length (irq_status s) ∧ pending i1 = pending (irq s) ∧
    inHandler i1 = false) as (Ht1 & Hp1 & Hh1).
  { unfold i1, tick_length, time_limit, SystemTick, UserTick, TimerTicks in *.
    case_decide; simpl; split_and!; try done; apply s32_small; unfold SystemTick, UserTick; lia. }
  wp_steps. rewrite irq_set. set (s1 := set_irq (set_level IntOff i1) (set_irq i1 s)).
  assert (irq s1 = set_level IntOff i1 ∧ irq_status s1 = irq_status s ∧ calls s1 = calls s) as (Ei1 & Est1 & Ec1).
  { unfold s1. by rewrite irq_set, !status_set_irq, !(ho_calls_irq _ _ HO). }
  eapply wp_mono.
  { apply (check_pending_spec s1). split; rewrite ?Ei1; [by apply (ho_irq _ _ HO), (ho_irq _ _ HO) | done | |].
    - split; simpl; [by rewrite Hp1 | done].
    - unfold clock_ok. simpl. rewrite Ht1. unfold tick_length, SystemTick, UserTick in *. case_decide; lia. }
  intros [] s2 ([HI2 Hlv2 [Hs2 Hh2] _] & Hst2 & Ht2 & Hfut).
  destruct Hfut as [? | [Hfut Hsv]]; [congruence |]. rewrite Ei1 in Ht2. simpl in Ht2.
  assert (∀ s', pending (irq s') = pending (irq s2) → calls s' = calls s2 → served (ticked s) s') as Hserved.
  { intros s' Hp' Hc'. apply (served_same s1 (ticked s) s2 s' Hsv); try done;
      unfold ticked; rewrite ?(ho_calls_irq _ _ HO), ?irq_set, ?Ei1; done. }
  wp_steps. rewrite !irq_set. simpl.
  destruct (yieldOnReturn (irq s2)) eqn:Ey; wp_steps;
    rewrite ?irq_set_status, ?status_set, ?status_set_irq, ?irq_set; simpl; split_and!;
    try done; try congruence; try (by split);
    repeat first [apply (ho_status _ _ HO) | apply (ho_irq _ _ HO)]; try done;
    apply Hserved; rewrite ?(ho_calls_status _ _ HO), ?(ho_calls_irq _ _ HO), ?irq_set_status, ?irq_set; done.
Qed.

Definition idle_stops i : bool :=
  match pending i with
  | [] => true
  | [(_, p)] => bool_decide (type p = TimerInt)
  | _ => false
  end.

(** [CheckIfDue(true)] of an idle machine: the clock jumps to the first
    interrupt, which is fired unless it is the last one and the timer's. *)
Lemma CheckIfDue_idle s w p rest : checking s → irq_status s = IdleMode →
  pending (irq s) = (w, p) :: rest → w < time_limit →
  wp (CheckIfDue true) (λ b s', if idle_stops (irq s) then b = false
    else b = true ∧ checking s' ∧ irq_status s' = IdleMode ∧
      totalTicks (irq s') = Z.max (totalTicks (irq s)) w) s.
Proof.
  intros Hc Hst Ep Hlim. pose proof Hc as [HI Hlv [Hs Hh] Hck]. rewrite Ep in Hs.
  pose proof (Sorted_tail _ _ Hs) as Hrest.
  unfold CheckIfDue, due, modify_irq. wp_steps; [by apply bool_decide_eq_true |].
  rewrite Ep. wp_steps. rewrite !irq_set. simpl. set (s1 := set_irq (set_pending rest (irq s)) s).
  assert (irq s1 = set_pending rest (irq s)) as E1 by apply irq_set.
  assert (irq_status s1 = IdleMode) as Est by (unfold s1; by rewrite status_set_irq).
  apply (wp_mono _ (λ b s2, b = true ∧ checking s2 ∧ irq_status s2 = IdleMode ∧
    pending (irq s2) = rest ∧ totalTicks (irq s2) = Z.max (totalTicks (irq s)) w)).
  - assert (I s1) as HI1 by (by apply (ho_irq _ _ HO)).
    destruct (decide (w > totalTicks (irq s))) as [Hw | Hw].
    + rewrite bool_decide_eq_true_2 by done. simpl. wp_steps. rewrite status_set_irq, !irq_set, E1.
      split_and!; try done; [| simpl; lia].
      split; rewrite ?irq_set, ?E1; [by apply (ho_irq _ _ HO) | done | by split |].
      unfold clock_ok in *. simpl. lia.
    + rewrite bool_decide_eq_false_2 by done. simpl. wp_steps. rewrite E1.
      split_and!; try done; [| simpl; lia]. split; rewrite ?E1; [done | done | by split | done].
  - intros b s2 (-> & Hc2 & Hst2 & Hp2 & Ht2). wp_steps. rewrite Hst2, Hp2. simpl.
    assert (bool_decide (type p = TimerInt) && bool_decide (rest = []) = idle_stops (irq s)) as ->.
    { unfold idle_stops. rewrite Ep.
      destruct rest; simpl; [by rewrite andb_true_r | by rewrite andb_false_r]. }
    destruct (idle_stops (irq s)); [by wp_steps |].
    wp_step. eapply wp_mono; [exact (fire_spec p s2 Hc2) |].
    intros [] s3 (Hc3 & Hst3 & Ht3 & _). wp_steps. split_and!; [done | done | congruence | congruence].
Qed.

Lemma Idle_spec s : checking s → Forall (λ e, e.1 < time_limit) (pending (irq s)) →
  if idle_stops (irq s) then Idle s = Fault MachineHalted
  else wp Idle (λ _ s', checking s' ∧ irq_status s' = SystemMode ∧
    totalTicks (irq s') = Z.max (totalTicks (irq s)) (default 0 (fst <$> head (pending (irq s))))) s.
Proof.
  intros [HI Hlv Hok Hck] Hlim. set (s0 := set_irq_status IdleMode s).
  assert (irq s0 = irq s) as E0 by apply irq_set_status.
  assert (checking s0) as Hc0 by (split; [by apply (ho_status _ _ HO) | by rewrite E0 | by rewrite E0 | by rewrite E0]).
  destruct (pending (irq s)) as [| [w p] rest] eqn:Ep.
  { unfold idle_stops. rewrite Ep. unfold Idle, CheckIfDue, Halt, mbind, M_bind, modify, get, ASSERT.
    fold s0. rewrite E0, Hlv, Ep. done. }
  rewrite <- E0 in Ep. apply Forall_cons_1 in Hlim as [Hw _].
  pose proof (CheckIfDue_idle s0 w p rest Hc0 (status_set _ _) Ep Hw) as HC.
  rewrite E0 in HC, Ep. destruct (idle_stops (irq s)) eqn:Ei.
  - destruct HC as (b & s1 & Hrun & ->). unfold Idle, Halt, mbind, M_bind, modify. fold s0. by rewrite Hrun.
  - unfold Idle, modify_irq. wp_steps. eapply wp_mono; [exact HC |].
    intros b s1 (-> & Hc1 & Hst1 & Ht1). wp_step.
    eapply wp_mono; [exact (check_pending_spec s1 Hc1) |]. intros [] s2 ([HI2 Hlv2 Hok2 Hck2] & Hst2 & Ht2 & _).
    wp_steps. rewrite status_set. split_and!; [| done | by rewrite irq_set_status, irq_set; simpl; congruence].
    split; rewrite ?irq_set_status, ?irq_set; [by apply (ho_status _ _ HO), (ho_irq _ _ HO) | done | | done].
    destruct Hok2. by split.
Qed.
End facts.
