(* ===== verification/Kernel.v ===== *)
(** * The kernel state, the scheduler, threads and synchronisation
    (threads/{thread,scheduler,synch}.cc, machine/timer.cc)

    A kernel thread is a C++ stack.  [SWITCH] saves the stack of the old thread
    and continues the new one, so a thread is modelled by the list of the
    statements it has still to execute ([t_stack], innermost first).  A function
    that ends in a call which may switch pushes what follows the call and then
    makes it; the step of Step.v takes the first statement of the running
    thread.  Everything between two switch points is one atomic statement, as in
    the source, where interrupts are off or no interrupt can occur there:
    simulated time advances in [OneTick], which is a statement of its own, and
    with interrupts off in [Idle], within the loop of [Sleep]. *)

From stdpp Require Import base gmap list numbers strings.
From Stdlib Require Import ZArith Lia.
From S2P Require Import Prelude BitMap HandleTables FileStub Machine AddrSpace LinkedList Interrupt.

(** ** Data *)

Inductive ThreadStatus := JUST_CREATED | RUNNING | READY | BLOCKED.

#[export] Instance ThreadStatus_eq_dec : EqDecision ThreadStatus.
Proof. solve_decision. Defined.

(** The functions threads are forked with; [ClientThread] is kernel code that
    uses the synchronisation primitives (see [client_call] of Step.v). *)
Inductive thread_func :=
| NachosForkThread (dir : Z)
| NachosExecThread (id : Z)
| MainProgram (file : string)          (* main: StartProcess(file) *)
| ClientThread.

(** What remains to be executed on the stack of a thread. *)
Inductive stmt :=
| WhileP (s : Z)                     (* Semaphore::P, from the while on, without SetLevel *)
| SetLevelTo (l : IntStatus)         (* interrupt->SetLevel(l) *)
| Tick                               (* interrupt->OneTick() *)
| SetStatusTo (st : MachineStatus)   (* status = st *)
| YieldNow                           (* currentThread->Yield() *)
| SleepWhile                         (* Thread::Sleep, from the while on *)
| AfterSwitch                        (* Scheduler::Run, after SWITCH *)
| EnableInt                          (* ThreadRoot: InterruptEnable() *)
| CallFunc (f : thread_func)         (* ThreadRoot: ( *func)(arg) *)
| CallFinish                         (* ThreadRoot: ThreadFinish() *)
| CallP (s : Z)
| CallAcquire (l : Z)
| SetHolder (l : Z)                  (* lockHolder = currentThread *)
| DeleteSem (s : Z)                  (* delete waiter *)
| BroadcastWhile (c l : Z)
| Client
| RunUser                            (* one turn of the loop of Machine::Run *)
| Syscall                            (* ExceptionHandler(SyscallException) *)
| WriteR2 (v : Z)                    (* machine->WriteRegister(2, v) *)
| ReturnFromSyscall
| WriteSwitch (id : Z) (buffer : list Z) (size : Z)   (* Nachos_Write, after Console->P() *)
| JoinDone (id : Z)                  (* Nachos_Join, after joinSem->P() *)
| AssertFalse.

Record Thread := mkThread {
  t_status : ThreadStatus;
  t_stack : list stmt;
  t_space : option Z;
  t_userRegisters : list Z;
  t_mytable : Z;
  t_mySems : Z
}.

Record Semaphore := mkSemaphore { value : Z; queue : list Z }.
Record Lock := mkLock { lockHolder : option Z; mutex : Z }.
Record Condition := mkCondition { waitQueue : list Z }.

(** The only interrupt handler of this build is the timer's. *)
Inductive IntHandler := TimerHandler.

Record Timer := mkTimer { randomize : bool; draws : Z }.

(** threads/scheduler.cc, [currentThread] and [threadToBeDestroyed] *)
Record Sched := mkSched {
  threads : gmap Z Thread;
  currentThread : Z;
  threadToBeDestroyed : option Z;
  readyList : list Z
}.

Record Synch := mkSynch {
  sems : gmap Z Semaphore;
  locks : gmap Z Lock;
  conds : gmap Z Condition
}.

(** exception.cc: [joinS]; [s] is the semaphore the joiner waits on. *)
Record joinS := mkJoin { threadId : Z; fileName : string; join_s : option Z }.

(** UNIX: the open descriptors of the process (file and offset), what is typed
    on standard input, and what has been printed. *)
Inductive printed := PrintString (bs : list Z) | PrintInt (v : Z).

Record IO := mkIO {
  tables : gmap Z NachosOpenFilesTable;
  semTables : gmap Z NachosSems;
  execFiles : list (option joinS);
  execFilesMap : BitMap;
  Console : Z;                           (* the semaphore *)
  fds : gmap Z (string * Z);
  input : list Z;
  output : list printed;
  numConsoleCharsRead : Z;
  numConsoleCharsWritten : Z;
  next_id : Z                            (* the next address [new] returns *)
}.

Record Kernel := mkKernel {
  k_vm : VM;
  k_irq : Irq IntHandler;
  k_timer : option Timer;                (* NULL without -rs *)
  k_sched : Sched;
  k_synch : Synch;
  k_io : IO
}.

Definition set_k_vm (x : VM) (k : Kernel) : Kernel :=
  mkKernel x (k_irq k) (k_timer k) (k_sched k) (k_synch k) (k_io k).
Definition set_k_irq (x : Irq IntHandler) (k : Kernel) : Kernel :=
  mkKernel (k_vm k) x (k_timer k) (k_sched k) (k_synch k) (k_io k).
Definition set_k_timer (x : option Timer) (k : Kernel) : Kernel :=
  mkKernel (k_vm k) (k_irq k) x (k_sched k) (k_synch k) (k_io k).
Definition set_k_sched (x : Sched) (k : Kernel) : Kernel :=
  mkKernel (k_vm k) (k_irq k) (k_timer k) x (k_synch k) (k_io k).
Definition set_k_synch (x : Synch) (k : Kernel) : Kernel :=
  mkKernel (k_vm k) (k_irq k) (k_timer k) (k_sched k) x (k_io k).
Definition set_k_io (x : IO) (k : Kernel) : Kernel :=
  mkKernel (k_vm k) (k_irq k) (k_timer k) (k_sched k) (k_synch k) x.

Definition set_threads (x : gmap Z Thread) (s : Sched) : Sched :=
  mkSched x (currentThread s) (threadToBeDestroyed s) (readyList s).
Definition set_currentThread (x : Z) (s : Sched) : Sched :=
  mkSched (threads s) x (threadToBeDestroyed s) (readyList s).
Definition set_toBeDestroyed (x : option Z) (s : Sched) : Sched :=
  mkSched (threads s) (currentThread s) x (readyList s).
Definition set_readyList (x : list Z) (s : Sched) : Sched :=
  mkSched (threads s) (currentThread s) (threadToBeDestroyed s) x.

Definition set_status (x : ThreadStatus) (t : Thread) : Thread :=
  mkThread x (t_stack t) (t_space t) (t_userRegisters t) (t_mytable t) (t_mySems t).
Definition set_stack (x : list stmt) (t : Thread) : Thread :=
  mkThread (t_status t) x (t_space t) (t_userRegisters t) (t_mytable t) (t_mySems t).
Definition set_space (x : option Z) (t : Thread) : Thread :=
  mkThread (t_status t) (t_stack t) x (t_userRegisters t) (t_mytable t) (t_mySems t).
Definition set_userRegisters (x : list Z) (t : Thread) : Thread :=
  mkThread (t_status t) (t_stack t) (t_space t) x (t_mytable t) (t_mySems t).
Definition set_mytable (x : Z) (t : Thread) : Thread :=
  mkThread (t_status t) (t_stack t) (t_space t) (t_userRegisters t) x (t_mySems t).
Definition set_mySems (x : Z) (t : Thread) : Thread :=
  mkThread (t_status t) (t_stack t) (t_space t) (t_userRegisters t) (t_mytable t) x.

Definition set_sems (x : gmap Z Semaphore) (s : Synch) : Synch := mkSynch x (locks s) (conds s).
Definition set_locks (x : gmap Z Lock) (s : Synch) : Synch := mkSynch (sems s) x (conds s).
Definition set_conds (x : gmap Z Condition) (s : Synch) : Synch := mkSynch (sems s) (locks s) x.

(** ** Accesses *)

Definition on_vm {A} (c : M VM A) : M Kernel A := zoom k_vm set_k_vm c.
Definition modify_sched (f : Sched → Sched) : M Kernel unit := modify (λ k, set_k_sched (f (k_sched k)) k).
Definition modify_synch (f : Synch → Synch) : M Kernel unit := modify (λ k, set_k_synch (f (k_synch k)) k).

(** [*p] for a pointer into a map of objects. *)
Definition object {A} (m : Kernel → gmap Z A) (p : Z) : M Kernel A :=
  k ← get;
  match m k !! p with
  | Some x => mret x
  | None => stop NullPointer
  end.

Definition the_thread (t : Z) : M Kernel Thread := object (λ k, threads (k_sched k)) t.
Definition the_sem (s : Z) : M Kernel Semaphore := object (λ k, sems (k_synch k)) s.
Definition the_lock (l : Z) : M Kernel Lock := object (λ k, locks (k_synch k)) l.
Definition the_cond (c : Z) : M Kernel Condition := object (λ k, conds (k_synch k)) c.

Definition current : M Kernel Z := gets (λ k, currentThread (k_sched k)).

Definition modify_thread (t : Z) (f : Thread → Thread) : M Kernel unit :=
  x ← the_thread t; modify_sched (λ s, set_threads (<[t := f x]> (threads s)) s).
Definition put_sem (s : Z) (x : Semaphore) : M Kernel unit :=
  modify_synch (λ y, set_sems (<[s := x]> (sems y)) y).
Definition put_lock (l : Z) (x : Lock) : M Kernel unit :=
  modify_synch (λ y, set_locks (<[l := x]> (locks y)) y).
Definition put_cond (c : Z) (x : Condition) : M Kernel unit :=
  modify_synch (λ y, set_conds (<[c := x]> (conds y)) y).

(** The running thread is to execute [ss] first. *)
Definition push (ss : list stmt) : M Kernel unit :=
  t ← current; modify_thread t (λ x, set_stack (ss ++ t_stack x) x).

(** An address no object has. *)
Definition set_next_id (x : Z) (i : IO) : IO :=
  mkIO (tables i) (semTables i) (execFiles i) (execFilesMap i) (Console i) (fds i) (input i) (output i)
    (numConsoleCharsRead i) (numConsoleCharsWritten i) x.

Definition alloc : M Kernel Z :=
  k ← get;
  modify (set_k_io (set_next_id (next_id (k_io k) + 1) (k_io k))) ;;
  mret (next_id (k_io k)).

(** ** The timer (machine/timer.cc, threads/system.cc) *)

(** What the program does not determine: [Random()] (the n-th value of the
    generator), what [new TranslationEntry[TLBSize]] holds, and what the
    allocations of a new [Thread] and of its two tables hold. *)
Record Env := mkEnv {
  Random : Z → Z;
  tlb_garbage : list TranslationEntry;
  g_files : list Z;
  g_files_map : list Z;
  g_usage : Z;
  g_sems : list Z;
  g_sems_map : list Z;
  g_registers : list Z
}.

Section environment.
Variable env : Env.

Definition TimeOfNextInterrupt (t : Timer) : Z :=
  if randomize t then 1 + cmod (Random env (draws t)) (TimerTicks * 2) else TimerTicks.

#[export] Instance Kernel_irq : IrqHost Kernel IntHandler := {|
  irq := k_irq;
  set_irq := set_k_irq;
  irq_status k := vm_status (k_vm k);
  set_irq_status st k := set_k_vm (set_vm_status st (k_vm k)) k
|}.

Definition TimerInterruptHandler : M Kernel unit :=
  k ← get;
  if decide (irq_status k ≠ IdleMode) then YieldOnReturn else mret tt.

Definition TimerExpired : M Kernel unit :=
  k ← get;
  match k_timer k with
  | None => stop NullPointer
  | Some t =>
      modify (set_k_timer (Some (mkTimer (randomize t) (draws t + 1)))) ;;
      Schedule TimerHandler (TimeOfNextInterrupt t) TimerInt ;;
      TimerInterruptHandler
  end.

#[export] Instance Kernel_interrupts : InterruptHost Kernel IntHandler := {|
  delayed_load := on_vm (on_vm_machine (DelayedLoad 0 0));
  call_handler h := match h with TimerHandler => TimerExpired end
|}.

(** ** Interrupt level *)

Definition SetLevel (now : IntStatus) : M Kernel IntStatus :=
  k ← get;
  let old := level (k_irq k) in
  ASSERT (bool_decide (now = IntOff) || negb (inHandler (k_irq k))) ;;
  ChangeLevel old now ;;
  (if decide (now = IntOn ∧ old = IntOff) then push [Tick] else mret tt) ;;
  mret old.

(** [OneTick], with the [Yield] of a time slice pushed. *)
Definition tick : M Kernel unit :=
  r ← OneTick;
  match r with
  | Some old => push [YieldNow; SetStatusTo old]
  | None => mret tt
  end.

(** ** Scheduler *)

Definition ReadyToRun (t : Z) : M Kernel unit :=
  modify_thread t (set_status READY) ;;
  modify_sched (λ s, set_readyList (readyList s ++ [t]) s).

Definition FindNextToRun : M Kernel (option Z) :=
  k ← get;
  match readyList (k_sched k) with
  | [] => mret None
  | t :: rest => modify_sched (set_readyList rest) ;; mret (Some t)
  end.

Definition SaveUserState (t : Z) : M Kernel unit :=
  k ← get;
  rs ← lift (rd_block (registers (vm_machine (k_vm k))) 0 NumTotalRegs);
  modify_thread t (set_userRegisters rs).

Definition RestoreUserState (t : Z) : M Kernel unit :=
  x ← the_thread t;
  for_range 0 (Z.to_nat NumTotalRegs) (λ i,
    v ← lift (rd (t_userRegisters x) i);
    on_vm (on_vm_machine (WriteRegister i v))).

(** Up to [SWITCH]; the stack contents of the host are not modelled, so
    neither is [CheckOverflow]. *)
Definition Scheduler_Run (nextThread : Z) : M Kernel unit :=
  oldThread ← current;
  x ← the_thread oldThread;
  (match t_space x with
   | Some space => SaveUserState oldThread ;; on_vm (SaveState space (tlb_garbage env))
   | None => mret tt
   end) ;;
  push [AfterSwitch] ;;
  modify_sched (set_currentThread nextThread) ;;
  modify_thread nextThread (set_status RUNNING).

Definition modify_io (f : IO → IO) : M Kernel unit := modify (λ k, set_k_io (f (k_io k)) k).
Definition set_tables (x : gmap Z NachosOpenFilesTable) (i : IO) : IO :=
  mkIO x (semTables i) (execFiles i) (execFilesMap i) (Console i) (fds i) (input i) (output i)
    (numConsoleCharsRead i) (numConsoleCharsWritten i) (next_id i).
Definition set_semTables (x : gmap Z NachosSems) (i : IO) : IO :=
  mkIO (tables i) x (execFiles i) (execFilesMap i) (Console i) (fds i) (input i) (output i)
    (numConsoleCharsRead i) (numConsoleCharsWritten i) (next_id i).

(** A call on the table of open files, or of semaphores, at an address. *)
Definition on_table {A} (p : Z) (c : M NachosOpenFilesTable A) : M Kernel A :=
  t ← object (λ k, tables (k_io k)) p;
  match c t with
  | Done (a, t') => modify_io (λ i, set_tables (<[p := t']> (tables i)) i) ;; mret a
  | Fault f => stop f
  end.
Definition on_sems {A} (p : Z) (c : M NachosSems A) : M Kernel A :=
  t ← object (λ k, semTables (k_io k)) p;
  match c t with
  | Done (a, t') => modify_io (λ i, set_semTables (<[p := t']> (semTables i)) i) ;; mret a
  | Fault f => stop f
  end.

(** [delete thread] *)
Definition Thread_delete (t : Z) : M Kernel unit :=
  x ← the_thread t;
  on_table (t_mytable x) OpenFilesTable_delThread ;;
  on_sems (t_mySems x) NachosSems_delSem ;;
  c ← current;
  ASSERT (bool_decide (t ≠ c)) ;;
  modify_sched (λ s, set_threads (delete t (threads s)) s).

(** [Scheduler::Run] after [SWITCH], on the stack of the thread switched to. *)
Definition after_switch : M Kernel unit :=
  k ← get;
  (match threadToBeDestroyed (k_sched k) with
   | Some t => Thread_delete t ;; modify_sched (set_toBeDestroyed None)
   | None => mret tt
   end) ;;
  c ← current;
  x ← the_thread c;
  match t_space x with
  | Some space => RestoreUserState c ;; on_vm (RestoreState space (tlb_garbage env))
  | None => mret tt
  end.

(** ** Threads *)

Definition Thread_new : M Kernel Z :=
  t ← alloc; pt ← alloc; ps ← alloc;
  files ← lift (OpenFilesTable_new (g_files_map env) (g_files env) (g_usage env));
  modify_io (λ i, set_tables (<[pt := files]> (tables i)) i) ;;
  on_table pt OpenFilesTable_addThread ;;
  semtable ← lift (NachosSems_new (g_sems_map env) (g_sems env));
  modify_io (λ i, set_semTables (<[ps := semtable]> (semTables i)) i) ;;
  on_sems ps NachosSems_addSem ;;
  modify_sched (λ s, set_threads (<[t := mkThread JUST_CREATED [] None (g_registers env) pt ps]> (threads s)) s) ;;
  mret t.

(** [StackAllocate] leaves the stack of [ThreadRoot]. *)
Definition Thread_Fork (t : Z) (func : thread_func) : M Kernel unit :=
  modify_thread t (set_stack [EnableInt; CallFunc func; CallFinish]) ;;
  oldLevel ← SetLevel IntOff;
  ReadyToRun t ;;
  _ ← SetLevel oldLevel;
  mret tt.

Definition Thread_Yield : M Kernel unit :=
  oldLevel ← SetLevel IntOff;
  nextThread ← FindNextToRun;
  match nextThread with
  | Some n =>
      push [SetLevelTo oldLevel] ;;
      this ← current;
      ReadyToRun this ;;
      Scheduler_Run n
  | None => _ ← SetLevel oldLevel; mret tt
  end.

Definition Thread_Sleep : M Kernel unit :=
  k ← get;
  ASSERT (bool_decide (level (k_irq k) = IntOff)) ;;
  this ← current;
  modify_thread this (set_status BLOCKED) ;;
  push [SleepWhile].

Definition sleep_while : M Kernel unit :=
  nextThread ← FindNextToRun;
  match nextThread with
  | Some n => Scheduler_Run n
  | None => push [SleepWhile] ;; Idle
  end.

Definition Thread_Finish : M Kernel unit :=
  _ ← SetLevel IntOff;
  this ← current;
  modify_sched (set_toBeDestroyed (Some this)) ;;
  Thread_Sleep.

(** ** Semaphores, locks and conditions *)

Definition Semaphore_new (initialValue : Z) : M Kernel Z :=
  s ← alloc; put_sem s (mkSemaphore initialValue []) ;; mret s.

Definition Semaphore_P (s : Z) : M Kernel unit :=
  oldLevel ← SetLevel IntOff;
  push [WhileP s; SetLevelTo oldLevel].

(** The result of [value++] or [value--]; the overflow of an [int] is undefined. *)
Definition checked_int (v : Z) : outcome Z :=
  if decide (- 2 ^ 31 ≤ v < 2 ^ 31) then Done v else Fault ArithmeticTrap.

Definition while_P (s : Z) : M Kernel unit :=
  x ← the_sem s;
  if decide (value x = 0) then
    this ← current;
    put_sem s (mkSemaphore (value x) (queue x ++ [this])) ;;
    push [WhileP s] ;;
    Thread_Sleep
  else
    v ← lift (checked_int (value x - 1));
    put_sem s (mkSemaphore v (queue x)).

(** The body of [V], with interrupts off. *)
Definition V_body (s : Z) : M Kernel unit :=
  x ← the_sem s;
  (match queue x with
   | thread :: rest => put_sem s (mkSemaphore (value x) rest) ;; ReadyToRun thread
   | [] => mret tt
   end) ;;
  x ← the_sem s;
  v ← lift (checked_int (value x + 1));
  put_sem s (mkSemaphore v (queue x)).

Definition Semaphore_V (s : Z) : M Kernel unit :=
  oldLevel ← SetLevel IntOff;
  V_body s ;;
  _ ← SetLevel oldLevel;
  mret tt.

(** [while ((thread = queue->Remove()) != NULL) scheduler->ReadyToRun(thread)] *)
Fixpoint destroy_loop (fuel : nat) (s : Z) : M Kernel unit :=
  match fuel with
  | O => stop OutOfFuel
  | S fuel' =>
      x ← the_sem s;
      match queue x with
      | thread :: rest =>
          put_sem s (mkSemaphore (value x) rest) ;; ReadyToRun thread ;; destroy_loop fuel' s
      | [] => mret tt
      end
  end.

Definition Semaphore_Destroy (s : Z) : M Kernel unit :=
  oldLevel ← SetLevel IntOff;
  x ← the_sem s;
  destroy_loop (S (length (queue x))) s ;;
  _ ← SetLevel oldLevel;
  mret tt.

Definition Semaphore_delete (s : Z) : M Kernel unit :=
  _ ← the_sem s;
  modify_synch (λ y, set_sems (delete s (sems y)) y).

Definition Lock_new : M Kernel Z :=
  l ← alloc; m ← Semaphore_new 1; put_lock l (mkLock None m) ;; mret l.

Definition Lock_delete (l : Z) : M Kernel unit :=
  x ← the_lock l;
  Semaphore_delete (mutex x) ;;
  modify_synch (λ y, set_locks (delete l (locks y)) y).

Definition Lock_Acquire (l : Z) : M Kernel unit :=
  x ← the_lock l;
  push [SetHolder l] ;;
  Semaphore_P (mutex x).

Definition set_holder (l : Z) : M Kernel unit :=
  x ← the_lock l; this ← current; put_lock l (mkLock (Some this) (mutex x)).

Definition isHeldByCurrentThread (l : Z) : M Kernel bool :=
  x ← the_lock l; this ← current; mret (bool_decide (lockHolder x = Some this)).

Definition Lock_Release (l : Z) : M Kernel unit :=
  held ← isHeldByCurrentThread l;
  ASSERT held ;;
  x ← the_lock l;
  put_lock l (mkLock None (mutex x)) ;;
  Semaphore_V (mutex x).

Definition Condition_new : M Kernel Z := c ← alloc; put_cond c (mkCondition []) ;; mret c.

Definition Condition_delete (c : Z) : M Kernel unit :=
  _ ← the_cond c;
  modify_synch (λ y, set_conds (delete c (conds y)) y).

Definition Condition_Wait (c l : Z) : M Kernel unit :=
  held ← isHeldByCurrentThread l;
  ASSERT held ;;
  waiter ← Semaphore_new 0;
  x ← the_cond c;
  put_cond c (mkCondition (waitQueue x ++ [waiter])) ;;
  push [CallP waiter; CallAcquire l; DeleteSem waiter] ;;
  Lock_Release l.

Definition Condition_Signal (c l : Z) : M Kernel unit :=
  held ← isHeldByCurrentThread l;
  ASSERT held ;;
  x ← the_cond c;
  match waitQueue x with
  | waiter :: rest => put_cond c (mkCondition rest) ;; Semaphore_V waiter
  | [] => mret tt
  end.

Definition Condition_Broadcast (c l : Z) : M Kernel unit :=
  x ← the_cond c;
  match waitQueue x with
  | [] => mret tt
  | _ :: _ => push [BroadcastWhile c l] ;; Condition_Signal c l
  end.
End environment.
