(* ===== verification/Syscalls.v ===== *)
(** * System calls (userprog/exception.cc, userprog/progtest.cc)

    Each [Nachos_*] function is a computation over the kernel state.  Where the
    source calls something that may switch threads, the rest of the function is
    pushed on the stack of the running thread (see Kernel.v).  Arrays on the
    kernel stack keep their size: a write beyond them is the fault
    [OutOfBounds].  The UNIX calls [open], [read], [write], [close] and [creat]
    are modelled on a table of descriptors and the files of FileStub.v; what
    [printf] prints is recorded in [output] where it is the effect of a system
    call. *)

From stdpp Require Import base gmap list numbers strings list_numbers.
From Stdlib Require Import ZArith Lia.
From S2P Require Import Prelude BitMap HandleTables FileStub Machine AddrSpace Mips VMAccess LinkedList Interrupt Kernel.

Definition SC_Halt : Z := 0.
Definition SC_Exit : Z := 1.
Definition SC_Exec : Z := 2.
Definition SC_Join : Z := 3.
Definition SC_Create : Z := 4.
Definition SC_Open : Z := 5.
Definition SC_Read : Z := 6.
Definition SC_Write : Z := 7.
Definition SC_Close : Z := 8.
Definition SC_Fork : Z := 9.
Definition SC_Yield : Z := 10.
Definition SC_SemCreate : Z := 11.
Definition SC_SemDestroy : Z := 12.
Definition SC_SemSignal : Z := 13.
Definition SC_SemWait : Z := 14.

Definition ConsoleInput : Z := 0.
Definition ConsoleOutput : Z := 1.
Definition ConsoleError : Z := 2.

(** ** Registers and user memory *)

Definition on_cpu {A} (c : M Machine A) : M Kernel A := on_vm (on_vm_machine c).
Definition read_reg (r : Z) : M Kernel Z := on_cpu (ReadRegister r).
Definition write_reg (r v : Z) : M Kernel unit := on_cpu (WriteRegister r v).

(** [currentThread->space]; [NULL] is a fault where it is used. *)
Definition current_thread : M Kernel Thread := t ← current; the_thread t.
Definition current_space : M Kernel Z :=
  x ← current_thread;
  match t_space x with Some sp => mret sp | None => stop NullPointer end.

(** [machine->SafeReadMem(addr, 1, &c)] and [SafeWriteMem]: two attempts are
    enough (see VMClaims.v). *)
Definition safe_read (addr : Z) : M Kernel Z :=
  sp ← current_space; on_vm (SafeReadMem (FaultHandler false sp) 2 addr 1).
Definition safe_write (addr v : Z) : M Kernel unit :=
  sp ← current_space; on_vm (SafeWriteMem (FaultHandler false sp) 2 addr 1 v).

Definition returnFromSystemCall : M Kernel unit :=
  pc ← read_reg PCReg;
  npc ← read_reg NextPCReg;
  write_reg PrevPCReg pc ;;
  write_reg PCReg npc ;;
  write_reg NextPCReg (s32 (npc + 4)).

(** The do-while loops that copy a string into a [char] array with [room]
    bytes left; the result is the string without its final 0. *)
Fixpoint read_string (room : nat) (r4 : Z) : M Kernel (list Z) :=
  c ← safe_read r4;
  match room with
  | O => stop OutOfBounds
  | S room' =>
      if decide (c = 0) then mret []
      else rest ← read_string room' (s32 (r4 + 1)); mret (u8 c :: rest)
  end.

(** [n] bytes of user memory. *)
Fixpoint read_bytes (n : nat) (r4 : Z) : M Kernel (list Z) :=
  match n with
  | O => mret []
  | S n' => c ← safe_read r4; rest ← read_bytes n' (s32 (r4 + 1)); mret (u8 c :: rest)
  end.

Fixpoint write_bytes (r4 : Z) (bs : list Z) : M Kernel unit :=
  match bs with
  | [] => mret tt
  | b :: bs' => safe_write r4 (s8 b) ;; write_bytes (s32 (r4 + 1)) bs'
  end.

(** The C string in an array: [strlen] runs off the array without a 0. *)
Fixpoint c_string (bs : list Z) : outcome (list Z) :=
  match bs with
  | [] => Fault OutOfBounds
  | b :: bs' =>
      if decide (b = 0) then Done []
      else match c_string bs' with Done r => Done (b :: r) | Fault f => Fault f end
  end.

Definition string_of (bs : list Z) : string :=
  foldr (λ b s, String (Ascii.ascii_of_N (Z.to_N b)) s) EmptyString bs.

(** ** UNIX *)

Definition set_fds (x : gmap Z (string * Z)) (i : IO) : IO :=
  mkIO (tables i) (semTables i) (execFiles i) (execFilesMap i) (Console i) x (input i) (output i)
    (numConsoleCharsRead i) (numConsoleCharsWritten i) (next_id i).
Definition set_input (x : list Z) (n : Z) (i : IO) : IO :=
  mkIO (tables i) (semTables i) (execFiles i) (execFilesMap i) (Console i) (fds i) x (output i)
    n (numConsoleCharsWritten i) (next_id i).
Definition set_output (x : list printed) (n : Z) (i : IO) : IO :=
  mkIO (tables i) (semTables i) (execFiles i) (execFilesMap i) (Console i) (fds i) (input i) x
    (numConsoleCharsRead i) n (next_id i).
Definition set_execFiles (x : list (option joinS)) (i : IO) : IO :=
  mkIO (tables i) (semTables i) x (execFilesMap i) (Console i) (fds i) (input i) (output i)
    (numConsoleCharsRead i) (numConsoleCharsWritten i) (next_id i).
Definition set_execFilesMap (x : BitMap) (i : IO) : IO :=
  mkIO (tables i) (semTables i) (execFiles i) x (Console i) (fds i) (input i) (output i)
    (numConsoleCharsRead i) (numConsoleCharsWritten i) (next_id i).

(** The lowest descriptor that is not in use. *)
Fixpoint lowest_fd (m : gmap Z (string * Z)) (n : nat) (i : Z) : Z :=
  match n with
  | O => i
  | S n' => match m !! i with None => i | Some _ => lowest_fd m n' (i + 1) end
  end.

(** [open(name, O_RDWR)] *)
Definition unix_open (name : string) : M Kernel Z :=
  k ← get;
  match unix (k_vm k) !! name with
  | None => mret (-1)
  | Some _ =>
      let fd := lowest_fd (fds (k_io k)) (size (fds (k_io k))) 0 in
      modify_io (λ i, set_fds (<[fd := (name, 0)]> (fds i)) i) ;; mret fd
  end.

(** [creat(name, mode)] *)
Definition unix_creat (name : string) : M Kernel Z :=
  k ← get;
  let fd := lowest_fd (fds (k_io k)) (size (fds (k_io k))) 0 in
  on_vm (on_unix (modify (λ u, <[name := []]> u))) ;;
  modify_io (λ i, set_fds (<[fd := (name, 0)]> (fds i)) i) ;; mret fd.

Definition unix_close (fd : Z) : M Kernel Z :=
  k ← get;
  match fds (k_io k) !! fd with
  | None => mret (-1)
  | Some _ => modify_io (λ i, set_fds (delete fd (fds i)) i) ;; mret 0
  end.

(** [read(fd, buf, n)]: the bytes, or [None] for -1. *)
Definition unix_read (fd n : Z) : M Kernel (option (list Z)) :=
  k ← get;
  match fds (k_io k) !! fd with
  | None => mret None
  | Some (name, offset) =>
      match unix (k_vm k) !! name with
      | None => mret None
      | Some f =>
          let bs := pread_bytes f offset n in
          modify_io (λ i, set_fds (<[fd := (name, offset + Z.of_nat (length bs))]> (fds i)) i) ;;
          mret (Some bs)
      end
  end.

(** [write(fd, buf, n)] *)
Definition unix_write (fd : Z) (bs : list Z) : M Kernel Z :=
  k ← get;
  match fds (k_io k) !! fd with
  | None => mret (-1)
  | Some (name, offset) =>
      match unix (k_vm k) !! name with
      | None => mret (-1)
      | Some f =>
          on_vm (on_unix (modify (λ u, <[name := pwrite_bytes f offset bs]> u))) ;;
          modify_io (λ i, set_fds (<[fd := (name, offset + Z.of_nat (length bs))]> (fds i)) i) ;;
          mret (Z.of_nat (length bs))
      end
  end.

(** [n] calls of [getchar()]; at the end of the input it returns EOF, which is
    stored as the [char] 255. *)
Fixpoint get_chars (n : nat) (l : list Z) : list Z * list Z :=
  match n with
  | O => ([], l)
  | S n' =>
      let '(bs, rest) := get_chars n' (tail l) in (default 255 (head l) :: bs, rest)
  end.

Definition print (p : printed) (chars : Z) : M Kernel unit :=
  modify_io (λ i, set_output (output i ++ [p]) (s32 (numConsoleCharsWritten i + chars)) i).
Definition count_written (n : Z) : M Kernel unit :=
  modify_io (λ i, set_output (output i) (s32 (numConsoleCharsWritten i + n)) i).

(** ** Files *)

Definition Nachos_Open : M Kernel unit :=
  r4 ← read_reg 4;
  name ← read_string 128 r4;
  unixOpenFileId ← unix_open (string_of name);
  (if decide (unixOpenFileId ≠ -1) then
     x ← current_thread;
     nachosOpenFileId ← on_table (t_mytable x) (OpenFilesTable_Open unixOpenFileId);
     if decide (nachosOpenFileId ≠ -1) then write_reg 2 nachosOpenFileId else mret tt
   else mret tt) ;;
  returnFromSystemCall.

Definition Nachos_Read : M Kernel unit :=
  r4 ← read_reg 4;
  size ← read_reg 5;
  fileId ← read_reg 6;
  (if decide (size < 0) then stop OutOfBounds
   else if decide (fileId = ConsoleOutput) then mret tt
   else if decide (fileId = ConsoleError) then mret tt
   else if decide (fileId = ConsoleInput) then
     k ← get;
     let '(buffer, rest) := get_chars (Z.to_nat size) (input (k_io k)) in
     bs ← lift (c_string (buffer ++ [0]));
     let readBytes := Z.of_nat (length bs) in
     modify_io (λ i, set_input rest (s32 (numConsoleCharsRead i + readBytes)) i) ;;
     write_bytes r4 bs ;;
     write_reg 2 readBytes
   else
     x ← current_thread;
     opened ← on_table (t_mytable x) (OpenFilesTable_isOpened fileId);
     if (opened : bool) then
       handle ← on_table (t_mytable x) (OpenFilesTable_getUnixHandle fileId);
       bs ← unix_read handle size;
       match bs with
       | Some bs => write_bytes r4 bs ;; write_reg 2 (Z.of_nat (length bs))
       | None => write_reg 2 (-1)
       end
     else write_reg 2 (-1)) ;;
  returnFromSystemCall.

(** The buffer of [size + 1] bytes that [Nachos_Write] fills, and then waits
    for the console. *)
Definition Nachos_Write : M Kernel unit :=
  r4 ← read_reg 4;
  size ← read_reg 5;
  if decide (size < 0) then stop OutOfBounds
  else
    bs ← read_bytes (Z.to_nat (Z.max 1 size)) r4;
    let buffer := if decide (size = 0) then bs else bs ++ [0] in
    id ← read_reg 6;
    k ← get;
    push [WriteSwitch id buffer size] ;;
    Semaphore_P (Console (k_io k)).

(** From the [switch] on.  A file that is not open returns from here. *)
Definition write_switch (id : Z) (buffer : list Z) (size : Z) : M Kernel unit :=
  let finish (size : Z) : M Kernel unit :=
    count_written size ;;
    k ← get;
    push [ReturnFromSyscall] ;;
    Semaphore_V (Console (k_io k)) in
  if decide (id = ConsoleInput) then write_reg 2 (-1) ;; finish 0
  else if decide (id = ConsoleOutput) then
    s ← lift (c_string buffer);
    print (PrintString s) (Z.of_nat (length s)) ;;
    finish size
  else if decide (id = ConsoleError) then
    r4 ← read_reg 4;
    print (PrintInt r4) 0 ;;
    finish 1
  else
    x ← current_thread;
    opened ← on_table (t_mytable x) (OpenFilesTable_isOpened id);
    if negb opened then write_reg 2 (-1)
    else
      unixOpenFileId ← on_table (t_mytable x) (OpenFilesTable_getUnixHandle id);
      charCounter ← unix_write unixOpenFileId (take (Z.to_nat size) buffer);
      write_reg 2 charCounter ;;
      finish size.

Definition Nachos_Create : M Kernel unit :=
  r4 ← read_reg 4;
  name ← read_string 256 r4;
  createResult ← unix_creat (string_of name);
  _ ← unix_close createResult;
  returnFromSystemCall.

Definition Nachos_Close : M Kernel unit :=
  id ← read_reg 4;
  x ← current_thread;
  unixOpenFileId ← on_table (t_mytable x) (OpenFilesTable_getUnixHandle id);
  nachosResult ← on_table (t_mytable x) (OpenFilesTable_Close id);
  unixResult ← unix_close unixOpenFileId;
  returnFromSystemCall.

(** ** Semaphores *)

Definition Nachos_SemCreate : M Kernel unit :=
  initValue ← read_reg 4;
  sem ← Semaphore_new initValue;
  x ← current_thread;
  nachosSemIdentfier ← on_sems (t_mySems x) (NachosSems_registerSem sem);
  write_reg 2 nachosSemIdentfier ;;
  returnFromSystemCall.

Definition Nachos_SemWait : M Kernel unit :=
  semId ← read_reg 4;
  x ← current_thread;
  pointer ← on_sems (t_mySems x) (NachosSems_getNachosPointer semId);
  if decide (pointer ≠ -1) then
    push [WriteR2 0; ReturnFromSyscall] ;;
    Semaphore_P pointer
  else write_reg 2 (-1) ;; returnFromSystemCall.

Definition Nachos_SemSignal : M Kernel unit :=
  semId ← read_reg 4;
  x ← current_thread;
  pointer ← on_sems (t_mySems x) (NachosSems_getNachosPointer semId);
  if decide (pointer ≠ -1) then
    push [WriteR2 0; ReturnFromSyscall] ;;
    Semaphore_V pointer
  else write_reg 2 (-1) ;; returnFromSystemCall.

Definition Nachos_SemDestroy : M Kernel unit :=
  semId ← read_reg 4;
  x ← current_thread;
  sem ← on_sems (t_mySems x) (NachosSems_unRegisterSem semId);
  if decide (sem ≠ -1) then
    push [WriteR2 0; ReturnFromSyscall] ;;
    Semaphore_Destroy sem
  else write_reg 2 (-1) ;; returnFromSystemCall.

(** ** Processes *)

Definition on_execMap {A} (c : M BitMap A) : M Kernel A :=
  zoom (λ k, execFilesMap (k_io k)) (λ b k, set_k_io (set_execFilesMap b (k_io k)) k) c.

(** [execFiles[ind]]; an entry that was never set or was deleted is [None]. *)
Definition exec_entry (ind : Z) : M Kernel joinS :=
  k ← get;
  e ← lift (rd (execFiles (k_io k)) ind);
  match e with Some j => mret j | None => stop NullPointer end.
Definition put_exec (ind : Z) (e : option joinS) : M Kernel unit :=
  k ← get;
  l ← lift (wr (execFiles (k_io k)) ind e);
  modify_io (set_execFiles l).

Section environment.
Variable env : Env.

Definition Nachos_Fork : M Kernel unit :=
  newT ← Thread_new env;
  x ← current_thread;
  y ← the_thread newT;
  modify_io (λ i, set_semTables (delete (t_mySems y) (semTables i)) i) ;;
  modify_thread newT (set_mySems (t_mySems x)) ;;
  on_sems (t_mySems x) NachosSems_addSem ;;
  modify_io (λ i, set_tables (delete (t_mytable y) (tables i)) i) ;;
  modify_thread newT (set_mytable (t_mytable x)) ;;
  on_table (t_mytable x) OpenFilesTable_addThread ;;
  other ← current_space;
  sp ← alloc;
  on_vm (AddrSpace_copy sp other) ;;
  modify_thread newT (set_space (Some sp)) ;;
  r4 ← read_reg 4;
  push [YieldNow; ReturnFromSyscall] ;;
  Thread_Fork newT (NachosForkThread r4).

(** [Machine::Run] of a new process. *)
Definition run_user : list stmt := [SetStatusTo UserMode; RunUser; AssertFalse].

Definition fork_thread (dir : Z) : M Kernel unit :=
  sp ← current_space;
  on_vm (InitRegisters sp) ;;
  on_vm (RestoreState sp (tlb_garbage env)) ;;
  write_reg RetAddrReg 4 ;;
  write_reg PCReg dir ;;
  write_reg NextPCReg (s32 (dir + 4)) ;;
  push run_user.

(** The loop of [Nachos_Exit] over the table of executed programs. *)
Definition exit_entry (ind : Z) : M Kernel unit :=
  marked ← on_execMap (BitMap_Test ind);
  if (marked : bool) then
    j ← exec_entry ind;
    this ← current;
    if decide (this = threadId j) then
      match join_s j with
      | Some s => Semaphore_V s
      | None => put_exec ind None ;; on_execMap (BitMap_Clear ind)
      end
    else mret tt
  else mret tt.

Definition Nachos_Exit : M Kernel unit :=
  oldLevel ← SetLevel IntOff;
  for_range 0 128 exit_entry ;;
  r4 ← read_reg 4;
  write_reg 2 r4 ;;
  nextThread ← FindNextToRun;
  push [SetLevelTo oldLevel] ;;
  match nextThread with
  | Some n => Scheduler_Run env n
  | None => Thread_Finish
  end.

Definition exec_thread (id : Z) : M Kernel unit :=
  info ← exec_entry id;
  executable ← on_vm (on_unix (FileSystem_Open (fileName info)));
  match executable with
  | None => mret tt
  | Some executable =>
      sp ← alloc;
      on_vm (AddrSpace_new false sp executable (fileName info)) ;;
      this ← current;
      x ← current_thread;
      (match t_space x with Some old => on_vm (AddrSpace_delete old) | None => mret tt end) ;;
      modify_thread this (set_space (Some sp)) ;;
      on_vm (InitRegisters sp) ;;
      on_vm (RestoreState sp (tlb_garbage env)) ;;
      push run_user
  end.

Definition Nachos_Exec : M Kernel unit :=
  r4 ← read_reg 4;
  name ← read_string 256 r4;
  newT ← Thread_new env;
  fileToExec ← on_execMap BitMap_Find;
  if decide (fileToExec = -1) then write_reg 2 fileToExec
  else
    put_exec fileToExec (Some (mkJoin newT (string_of name) None)) ;;
    push [WriteR2 fileToExec; ReturnFromSyscall] ;;
    Thread_Fork newT (NachosExecThread fileToExec).

Definition Nachos_Join : M Kernel unit :=
  id ← read_reg 4;
  marked ← on_execMap (BitMap_Test id);
  if (marked : bool) then
    joinSem ← Semaphore_new 0;
    j ← exec_entry id;
    put_exec id (Some (mkJoin (threadId j) (fileName j) (Some joinSem))) ;;
    push [JoinDone id] ;;
    Semaphore_P joinSem
  else write_reg 2 (-1) ;; returnFromSystemCall.

Definition join_done (id : Z) : M Kernel unit :=
  _ ← exec_entry id;
  put_exec id None ;;
  on_execMap (BitMap_Clear id) ;;
  write_reg 2 0 ;;
  returnFromSystemCall.

(** [StartProcess] of progtest.cc, on the main thread. *)
Definition StartProcess (filename : string) : M Kernel unit :=
  executable ← on_vm (on_unix (FileSystem_Open filename));
  match executable with
  | None => stop AssertFailed
  | Some executable =>
      sp ← alloc;
      on_vm (AddrSpace_new false sp executable filename) ;;
      this ← current;
      modify_thread this (set_space (Some sp)) ;;
      on_vm (InitRegisters sp) ;;
      on_vm (RestoreState sp (tlb_garbage env)) ;;
      push run_user
  end.

(** ** Dispatch *)

Definition syscall : M Kernel unit :=
  type ← read_reg 2;
  if decide (type = SC_Halt) then stop MachineHalted
  else if decide (type = SC_Exit) then Nachos_Exit
  else if decide (type = SC_Exec) then Nachos_Exec
  else if decide (type = SC_Join) then Nachos_Join
  else if decide (type = SC_Create) then Nachos_Create
  else if decide (type = SC_Open) then Nachos_Open
  else if decide (type = SC_Read) then Nachos_Read
  else if decide (type = SC_Write) then Nachos_Write
  else if decide (type = SC_Close) then Nachos_Close
  else if decide (type = SC_Fork) then Nachos_Fork
  else if decide (type = SC_Yield) then push [ReturnFromSyscall] ;; Thread_Yield env
  else if decide (type = SC_SemCreate) then Nachos_SemCreate
  else if decide (type = SC_SemDestroy) then Nachos_SemDestroy
  else if decide (type = SC_SemSignal) then Nachos_SemSignal
  else if decide (type = SC_SemWait) then Nachos_SemWait
  else stop AssertFailed.
End environment.

#[export] Instance Kernel_host : MachineHost Kernel := {|
  machine k := vm_machine (k_vm k);
  set_machine m k := set_k_vm (set_vm_machine m (k_vm k)) k;
  setStatus st k := set_k_vm (set_vm_status st (k_vm k)) k;
  host_big_endian := false
|}.

(** [ExceptionHandler]: a system call runs as the next statement, in system
    mode; the status is user mode again after it ([RaiseException]). *)
Definition ExceptionHandler (which : ExceptionType) : M Kernel unit :=
  match which with
  | SyscallException => push [Syscall; SetStatusTo UserMode]
  | _ => sp ← current_space; on_vm (FaultHandler false sp which)
  end.

(** One turn of [Machine::Run]. *)
Definition run_turn : M Kernel unit :=
  push [Tick; RunUser] ;; OneInstruction ExceptionHandler.
