(* ===== verification/Step.v ===== *)
(** * The kernel as a state machine

    [exec st] executes one statement; [kernel_step] takes the first statement
    of the running thread.  A thread that stands at [Client] is kernel code that
    may call any operation of the synchronisation classes at any time: what it
    calls is chosen by the step, so that the properties hold for every client. *)

From stdpp Require Import base gmap list numbers strings.
From Stdlib Require Import ZArith Lia.
From S2P Require Import Prelude Machine AddrSpace LinkedList Interrupt Kernel Syscalls.

(** The calls of a client.  [ClientReturn] ends the function of the thread. *)
Inductive client_op :=
| ClientNewSemaphore (v : Z)
| ClientNewLock
| ClientNewCondition
| ClientDeleteSemaphore (s : Z)
| ClientDeleteLock (l : Z)
| ClientDeleteCondition (c : Z)
| ClientP (s : Z)
| ClientV (s : Z)
| ClientDestroy (s : Z)
| ClientAcquire (l : Z)
| ClientRelease (l : Z)
| ClientWait (c l : Z)
| ClientSignal (c l : Z)
| ClientBroadcast (c l : Z)
| ClientYield
| ClientFork
| ClientReturn.

Section environment.
Variable env : Env.

Definition client_call (op : client_op) : M Kernel unit :=
  match op with
  | ClientReturn => mret tt
  | _ =>
      push [Client] ;;
      match op with
      | ClientNewSemaphore v => _ ← Semaphore_new v; mret tt
      | ClientNewLock => _ ← Lock_new; mret tt
      | ClientNewCondition => _ ← Condition_new; mret tt
      | ClientDeleteSemaphore s => Semaphore_delete s
      | ClientDeleteLock l => Lock_delete l
      | ClientDeleteCondition c => Condition_delete c
      | ClientP s => Semaphore_P s
      | ClientV s => Semaphore_V s
      | ClientDestroy s => Semaphore_Destroy s
      | ClientAcquire l => Lock_Acquire l
      | ClientRelease l => Lock_Release l
      | ClientWait c l => Condition_Wait c l
      | ClientSignal c l => Condition_Signal c l
      | ClientBroadcast c l => Condition_Broadcast c l
      | ClientYield => Thread_Yield env
      | ClientFork => t ← Thread_new env; Thread_Fork t ClientThread
      | ClientReturn => mret tt
      end
  end.

Definition call_func (f : thread_func) : M Kernel unit :=
  match f with
  | NachosForkThread dir => fork_thread env dir
  | NachosExecThread id => exec_thread env id
  | MainProgram file => StartProcess env file
  | ClientThread => push [Client]
  end.

Definition exec_stmt (op : client_op) (st : stmt) : M Kernel unit :=
  match st with
  | WhileP s => while_P s
  | SetLevelTo l => _ ← SetLevel l; mret tt
  | Tick => tick env
  | SetStatusTo st => modify (set_irq_status st)
  | YieldNow => Thread_Yield env
  | SleepWhile => sleep_while env
  | AfterSwitch => after_switch env
  | EnableInt => _ ← SetLevel IntOn; mret tt
  | CallFunc f => call_func f
  | CallFinish => Thread_Finish
  | CallP s => Semaphore_P s
  | CallAcquire l => Lock_Acquire l
  | SetHolder l => set_holder l
  | DeleteSem s => Semaphore_delete s
  | BroadcastWhile c l => Condition_Broadcast c l
  | Client => client_call op
  | RunUser => run_turn
  | Syscall => modify (set_irq_status SystemMode) ;; syscall env
  | WriteR2 v => write_reg 2 v
  | ReturnFromSyscall => returnFromSystemCall
  | WriteSwitch id buffer size => write_switch id buffer size
  | JoinDone id => join_done id
  | AssertFalse => stop AssertFailed
  end.

(** The first statement of the running thread. *)
Definition pop : M Kernel stmt :=
  t ← current;
  x ← the_thread t;
  match t_stack x with
  | [] => stop NullPointer
  | st :: rest => modify_thread t (set_stack rest) ;; mret st
  end.

Definition kernel_step (op : client_op) : M Kernel unit := st ← pop; exec_stmt op st.
End environment.

(** One step, whatever the environment and the clients do. *)
Definition kstep (k k' : Kernel) : Prop := ∃ env op, kernel_step env op k = Done (tt, k').

Inductive ksteps (k : Kernel) : Kernel → Prop :=
| ksteps_refl : ksteps k k
| ksteps_step k' k'' : ksteps k k' → kstep k' k'' → ksteps k k''.
