(* ===== verification/Places.v ===== *)
(** * Where the threads are: the invariant of scheduling and waiting

    [AS] keeps of the kernel what scheduling depends on: for each thread its
    status and the statements it has still to execute, the running thread, the
    thread to be destroyed, the ready list, the semaphores and the interrupt
    level.  [ainv] is the invariant; each lemma of this file is a transition the
    kernel code makes (Kernel.v, Syscalls.v), and ThreadInv.v shows that the
    code makes no other. *)

From stdpp Require Import base gmap list numbers fin_sets.
From Stdlib Require Import ZArith Lia.
From S2P Require Import Prelude Interrupt Kernel.

Record AS := mkAS {
  a_th : gmap Z (ThreadStatus * list stmt);
  a_cur : Z;
  a_dead : option Z;
  a_ready : list Z;
  a_sems : gmap Z Semaphore;
  a_lv : IntStatus;
  a_next : Z
}.

(** The statements can be run from interrupt level [lv] on: what runs with
    interrupts off is only reached with interrupts off. *)
Fixpoint fits (lv : IntStatus) (ss : list stmt) : bool :=
  match ss with
  | [] => true
  | st :: r =>
      match st with
      | SleepWhile => false
      | WhileP _ | AfterSwitch => bool_decide (lv = IntOff) && fits IntOff r
      | EnableInt => bool_decide (lv = IntOff) && fits IntOn r
      | SetLevelTo l => fits l r
      | Tick | RunUser | CallFunc _ => bool_decide (lv = IntOn) && fits IntOn r
      | CallFinish => match r with [] => true | _ => false end
      | AssertFalse => true
      | _ => fits lv r
      end
  end.

(** The running thread can also stand in the loop of [Sleep]. *)
Definition runs (lv : IntStatus) (ss : list stmt) : bool :=
  match ss with
  | SleepWhile :: r => bool_decide (lv = IntOff) && fits IntOff r
  | _ => fits lv ss
  end.

(** A thread that does not run stands behind [SWITCH], or at the start of
    [ThreadRoot]; a thread that was not forked yet has no stack. *)
Definition parked (ss : list stmt) : bool :=
  match ss with [] | AfterSwitch :: _ | EnableInt :: _ => true | _ => false end.
Definition suspended (ss : list stmt) : bool := parked ss && fits IntOff ss.

(** The thread stands in the while loop of [P] on semaphore [s]. *)
Definition waits (s : Z) (ss : list stmt) : bool :=
  match ss with
  | WhileP s' :: _ | AfterSwitch :: WhileP s' :: _ | SleepWhile :: WhileP s' :: _ => bool_decide (s = s')
  | _ => false
  end.

Definition asleep (ss : list stmt) : bool :=
  match ss with SleepWhile :: _ => true | _ => false end.

Definition queued (a : AS) (s t : Z) : Prop := ∃ x, a_sems a !! s = Some x ∧ t ∈ queue x.
Definition placed (a : AS) (t : Z) : Prop := t ∈ a_ready a ∨ ∃ s, queued a s t.

#[export] Instance queued_dec a s t : Decision (queued a s t).
Proof.
  unfold queued. destruct (a_sems a !! s) as [x |].
  - destruct (decide (t ∈ queue x)); [left; eauto | right; intros (y & [= <-] & ?); done].
  - right. by intros (y & ? & _).
Defined.

(** The threads in the loop of [P] on [s] that are not in its queue: they have
    been woken up, or have just called. *)
Definition wakers (a : AS) (s : Z) : gset Z :=
  filter (λ t, (waits s <$> (snd <$> a_th a !! t)) = Some true ∧ ¬ queued a s t) (dom (a_th a)).

Record ainv (a : AS) : Prop := {
  ai_cur : is_Some (a_th a !! a_cur a);
  ai_fits : ∀ t st ss, a_th a !! t = Some (st, ss) →
    if decide (t = a_cur a) then runs (a_lv a) ss = true else suspended ss = true;
  ai_ready_nd : NoDup (a_ready a);
  ai_queue_nd : ∀ s x, a_sems a !! s = Some x → NoDup (queue x);
  ai_apart : ∀ s t, queued a s t → t ∉ a_ready a;
  ai_one_queue : ∀ s s' t, queued a s t → queued a s' t → s = s';
  ai_ready : ∀ t, t ∈ a_ready a → ∃ ss, a_th a !! t = Some (READY, ss);
  ai_queue : ∀ s t, queued a s t → ∃ ss, a_th a !! t = Some (BLOCKED, ss) ∧ waits s ss = true;
  ai_running : ∀ st ss, a_th a !! a_cur a = Some (st, ss) → placed a (a_cur a) → asleep ss = true;
  ai_dead : ∀ d, a_dead a = Some d → ¬ placed a d ∧ ∃ st ss, a_th a !! d = Some (st, ss) ∧
    (∀ s, waits s ss = false) ∧ (d = a_cur a → asleep ss = true);
  ai_wake : ∀ s x, a_sems a !! s = Some x → queue x ≠ [] → value x ≤ Z.of_nat (size (wakers a s));
  ai_waiters : ∀ s t st ss, a_th a !! t = Some (st, ss) → waits s ss = true →
    (t = a_cur a ∧ asleep ss = false) ∨ (s < a_next a ∧ (is_Some (a_sems a !! s) → t ∈ a_ready a ∨ queued a s t));
  ai_fresh : ∀ t, a_next a ≤ t → a_th a !! t = None ∧ a_sems a !! t = None
}.

Lemma elem_of_wakers a s t : t ∈ wakers a s ↔
  ∃ st ss, a_th a !! t = Some (st, ss) ∧ waits s ss = true ∧ ¬ queued a s t.
Proof.
  unfold wakers. rewrite elem_of_filter, elem_of_dom. split.
  - intros [[Hw Hq] [[st ss] Ht]]. rewrite Ht in Hw. simpl in Hw. simplify_eq. eauto 10.
  - intros (st & ss & Ht & Hw & Hq). rewrite Ht. simpl. rewrite Hw. split; [done | by eexists].
Qed.

(** ** Consequences *)

Lemma fits_awake lv ss : fits lv ss = true → asleep ss = false.
Proof. by destruct ss as [| [] ?]. Qed.
Lemma fits_runs lv ss : fits lv ss = true → runs lv ss = true.
Proof. by destruct ss as [| [] ?]. Qed.
Lemma runs_fits lv ss : runs lv ss = true → asleep ss = false → fits lv ss = true.
Proof. by destruct ss as [| [] ?]. Qed.

Lemma suspended_fits ss : suspended ss = true → fits IntOff ss = true.
Proof. unfold suspended. intros H. by apply andb_true_iff in H as [_ ?]. Qed.

Section consequences.
Context (a : AS) (Ha : ainv a).

Lemma not_placed st p : a_th a !! a_cur a = Some (st, p) → asleep p = false →
  (a_cur a ∉ a_ready a) ∧ ∀ s, ¬ queued a s (a_cur a).
Proof.
  intros Hc Hp. split.
  - intros Hr. assert (asleep p = true) by (eapply (ai_running a Ha); [done | by left]). congruence.
  - intros s Hq. assert (asleep p = true) by (eapply (ai_running a Ha); [done | right; eauto]). congruence.
Qed.

Lemma not_dead st p : a_th a !! a_cur a = Some (st, p) → asleep p = false → a_dead a ≠ Some (a_cur a).
Proof.
  intros Hc Hp Hd. destruct (ai_dead a Ha _ Hd) as (_ & st' & ss & Hc' & _ & Hs).
  specialize (Hs eq_refl). congruence.
Qed.

Lemma placed_thread t : placed a t → ∃ st ss, a_th a !! t = Some (st, ss).
Proof.
  intros [Hr | [s Hq]].
  - destruct (ai_ready a Ha t Hr) as [ss Hs]. eauto.
  - destruct (ai_queue a Ha s t Hq) as (ss & Hs & _). eauto.
Qed.

Lemma dead_thread d : a_dead a = Some d → ∃ st ss, a_th a !! d = Some (st, ss).
Proof. intros Hd. destruct (ai_dead a Ha d Hd) as (_ & st & ss & Hs & _). eauto. Qed.

Lemma suspended_off t st ss : a_th a !! t = Some (st, ss) → t ≠ a_cur a → suspended ss = true.
Proof. intros Ht Hn. pose proof (ai_fits a Ha _ _ _ Ht) as Hf. by rewrite decide_False in Hf. Qed.

Lemma fits_off t st ss : a_th a !! t = Some (st, ss) → t ≠ a_cur a → fits IntOff ss = true.
Proof. intros Ht Hn. by apply (suspended_fits ss), (suspended_off t st). Qed.

Lemma runs_cur st ss : a_th a !! a_cur a = Some (st, ss) → runs (a_lv a) ss = true.
Proof. intros Ht. pose proof (ai_fits a Ha _ _ _ Ht) as Hf. by rewrite decide_True in Hf. Qed.

Lemma fits_cur st ss : a_th a !! a_cur a = Some (st, ss) → asleep ss = false → fits (a_lv a) ss = true.
Proof. intros Ht. by apply runs_fits, (runs_cur st). Qed.

(** A thread in the loop of [P] that is not running is ready or in the queue. *)
Lemma waiter_place s t st ss x : a_th a !! t = Some (st, ss) → waits s ss = true → t ≠ a_cur a →
  a_sems a !! s = Some x → t ∈ a_ready a ∨ queued a s t.
Proof.
  intros Ht Hw Hn Hs. destruct (ai_waiters a Ha s t st ss Ht Hw) as [[? _] | [_ Hin]]; [done |].
  apply Hin. by eexists.
Qed.

(** A semaphore with a positive value whose queue is not empty: somebody that is
    running or ready is about to look at the value. *)
Lemma no_lost_wakeup s x : a_sems a !! s = Some x → 0 < value x → queue x ≠ [] →
  ∃ t st ss, a_th a !! t = Some (st, ss) ∧ waits s ss = true ∧ ¬ queued a s t ∧ (t = a_cur a ∨ t ∈ a_ready a).
Proof.
  intros Hs Hv Hq. pose proof (ai_wake a Ha s x Hs Hq) as Hw.
  destruct (size_pos_elem_of (wakers a s)) as [t (st & ss & Ht & Hws & Hnq)%elem_of_wakers]; [lia |].
  exists t, st, ss. split_and!; [done | done | done |].
  destruct (decide (t = a_cur a)) as [? | Hn]; [by left | right].
  by destruct (waiter_place s t st ss x Ht Hws Hn Hs).
Qed.
End consequences.

(** More wakers, and the bound of [ai_wake] still holds. *)
Lemma wake_mono a a' s x : ainv a → a_sems a !! s = Some x → queue x ≠ [] →
  (∀ t, t ∈ wakers a s → t ∈ wakers a' s) → value x ≤ Z.of_nat (size (wakers a' s)).
Proof.
  intros Ha Hs Hq Hsub. pose proof (ai_wake a Ha s x Hs Hq).
  assert (size (wakers a s) ≤ size (wakers a' s))%nat; [| lia]. by apply subseteq_size.
Qed.

Ltac wakers_sub :=
  let t := fresh "t" in let Ht := fresh "Ht" in let st := fresh "st" in let ss := fresh "ss" in
  let Hw := fresh "Hw" in let Hq := fresh "Hq" in
  intros t (st & ss & Ht & Hw & Hq)%elem_of_wakers; apply elem_of_wakers.

(** ** Transitions *)

(** The running thread goes on to other statements. *)
Definition a_local (q : list stmt) (st : ThreadStatus) (lv : IntStatus) (a : AS) : AS :=
  mkAS (<[a_cur a := (st, q)]> (a_th a)) (a_cur a) (a_dead a) (a_ready a) (a_sems a) lv (a_next a).

Lemma ainv_local_gen a st p q lv : ainv a → a_th a !! a_cur a = Some (st, p) → asleep p = false →
  fits lv q = true →
  (∀ s x, a_sems a !! s = Some x → queue x ≠ [] →
     value x ≤ Z.of_nat (size (wakers (a_local q st lv a) s))) →
  ainv (a_local q st lv a).
Proof.
  intros Ha Hc Hp Hf Hwake. pose proof (fits_awake lv q Hf) as Hsq. destruct (not_placed a Ha st p Hc Hp) as [Hr Hq].
  pose proof (not_dead a Ha st p Hc Hp) as Hd. unfold a_local in *. split; simpl.
  - rewrite lookup_insert_eq. by eexists.
  - intros t st' ss. destruct (decide (t = a_cur a)) as [-> | Hn].
    + rewrite lookup_insert_eq. intros [= <- <-]. by apply fits_runs.
    + rewrite lookup_insert_ne by done. intros Ht. by eapply suspended_off.
  - exact (ai_ready_nd a Ha).
  - exact (ai_queue_nd a Ha).
  - exact (ai_apart a Ha).
  - exact (ai_one_queue a Ha).
  - intros t Ht. rewrite lookup_insert_ne by (intros <-; done). exact (ai_ready a Ha t Ht).
  - intros s t Ht. rewrite lookup_insert_ne by (intros <-; by eapply Hq). exact (ai_queue a Ha s t Ht).
  - intros st' ss _ [Hr' | [s Hs]]; [done | by apply Hq in Hs].
  - intros d Hd'. destruct (ai_dead a Ha d Hd') as (Hpl & st' & ss & Hss & Hws & _).
    split; [done |]. assert (d ≠ a_cur a) as Hne by congruence.
    exists st', ss. rewrite lookup_insert_ne by done. done.
  - exact Hwake.
  - intros s t st' ss. destruct (decide (t = a_cur a)) as [-> | Hn].
    + rewrite lookup_insert_eq. intros [= <- <-] _. by left.
    + rewrite lookup_insert_ne by done. intros Ht Hw.
      destruct (ai_waiters a Ha s t st' ss Ht Hw) as [[? _] | Hin]; [done | by right].
  - intros t Ht. destruct (ai_fresh a Ha t Ht) as [Hth Hse]. split; [| done].
    rewrite lookup_insert_ne; [done |]. intros <-. congruence.
Qed.

Lemma ainv_local a st p q lv : ainv a → a_th a !! a_cur a = Some (st, p) → asleep p = false →
  (∀ s, waits s p = true → waits s q = true) → fits lv q = true → ainv (a_local q st lv a).
Proof.
  intros Ha Hc Hp Hw Hf. apply (ainv_local_gen a st p); try done.
  intros s x Hs Hqx. apply (wake_mono a); try done. wakers_sub. simpl.
  destruct (decide (t = a_cur a)) as [-> | Hn].
  - rewrite lookup_insert_eq. exists st, q. simplify_eq. split_and!; [done | by apply Hw | done].
  - rewrite lookup_insert_ne by done. eauto 10.
Qed.

(** [value--] of [P]. *)
Definition a_set_sem (s : Z) (x : Semaphore) (a : AS) : AS :=
  mkAS (a_th a) (a_cur a) (a_dead a) (a_ready a) (<[s := x]> (a_sems a)) (a_lv a) (a_next a).

Lemma queued_set_sem a s x v t s' : a_sems a !! s = Some x →
  queued (a_set_sem s (mkSemaphore v (queue x)) a) s' t ↔ queued a s' t.
Proof.
  intros Hs. unfold queued, a_set_sem. simpl. destruct (decide (s' = s)) as [-> | Hn].
  - rewrite lookup_insert_eq, Hs. split; intros (y & [= <-] & Hy); eauto.
  - by rewrite lookup_insert_ne.
Qed.

Lemma wakers_set_sem a s x v s' : a_sems a !! s = Some x →
  wakers (a_set_sem s (mkSemaphore v (queue x)) a) s' = wakers a s'.
Proof.
  intros Hs. apply set_eq. intros t. rewrite !elem_of_wakers. pose proof (queued_set_sem a s x v t s' Hs) as Hq.
  split; intros (st & ss & Ht & Hw & Hn); exists st, ss; (split_and!; [done | done | tauto]).
Qed.

(** A new value that the wakers still bound. *)
Lemma ainv_value a s x v : ainv a → a_sems a !! s = Some x →
  (queue x ≠ [] → v ≤ Z.of_nat (size (wakers a s))) →
  ainv (a_set_sem s (mkSemaphore v (queue x)) a).
Proof.
  intros Ha Hs Hv. pose proof (λ s' t, queued_set_sem a s x v t s' Hs) as Hq. split; simpl.
  - exact (ai_cur a Ha).
  - exact (ai_fits a Ha).
  - exact (ai_ready_nd a Ha).
  - intros s' y Hy. apply lookup_insert_Some in Hy as [[<- <-] | [_ Hy]];
      [exact (ai_queue_nd a Ha s x Hs) | exact (ai_queue_nd a Ha s' y Hy)].
  - intros s' t Ht. apply (ai_apart a Ha s'). by apply Hq.
  - intros s1 s2 t H1 H2. apply (ai_one_queue a Ha s1 s2 t); by apply Hq.
  - exact (ai_ready a Ha).
  - intros s' t Ht. apply (ai_queue a Ha s'). by apply Hq.
  - intros st ss Hc [Hr | [s' Hs']]; apply (ai_running a Ha st ss Hc); [by left | right]. exists s'. by apply Hq.
  - intros d Hd. destruct (ai_dead a Ha d Hd) as (Hp & Hrest). split; [| done].
    intros [Hr | [s' Hs']]; apply Hp; [by left | right]. exists s'. by apply Hq.
  - intros s' y Hy Hne. rewrite wakers_set_sem by done.
    apply lookup_insert_Some in Hy as [[<- <-] | [Hn Hy]]; [by apply Hv | by apply (ai_wake a Ha)].
  - intros s' t st ss Ht Hw. destruct (ai_waiters a Ha s' t st ss Ht Hw) as [? | [Hlt Hin]]; [by left | right].
    split; [done |]. intros Hsome. destruct Hin as [? | ?]; [| by left | right; by apply Hq].
    destruct (decide (s' = s)) as [-> | Hne]; [by exists x |]. by rewrite lookup_insert_ne in Hsome.
  - intros t Ht. destruct (ai_fresh a Ha t Ht) as [Hth Hse]. split; [done |].
    rewrite lookup_insert_ne; [done | congruence].
Qed.

Lemma ainv_take a st s r x : ainv a → a_th a !! a_cur a = Some (st, WhileP s :: r) → a_sems a !! s = Some x →
  ainv (a_local r st IntOff (a_set_sem s (mkSemaphore (value x - 1) (queue x)) a)).
Proof.
  intros Ha Hc Hs. pose proof (fits_cur a Ha _ _ Hc eq_refl) as Hf. simpl in Hf. split_bool.
  destruct (not_placed a Ha _ _ Hc eq_refl) as [Hr Hq].
  assert (ainv (a_set_sem s (mkSemaphore (value x - 1) (queue x)) a)) as Ha1.
  { apply ainv_value; [done | done |]. intros Hne. pose proof (ai_wake a Ha s x Hs Hne). lia. }
  apply (ainv_local_gen _ st (WhileP s :: r)); try done.
  intros s' y Hy Hne. set (a1 := a_set_sem s _ a) in *.
  assert (∀ t, t ∈ wakers a s' → t ≠ a_cur a → t ∈ wakers (a_local r st IntOff a1) s') as Hsub.
  { intros t (st0 & ss & Ht & Hw & Hqt)%elem_of_wakers Hn. apply elem_of_wakers. simpl.
    rewrite lookup_insert_ne by done. exists st0, ss. split_and!; try done.
    change (¬ queued a1 s' t). unfold a1. by rewrite queued_set_sem. }
  simpl in Hy. destruct (decide (s' = s)) as [-> | Hns].
  - rewrite lookup_insert_eq in Hy. injection Hy as <-. simpl in *.
    pose proof (ai_wake a Ha s x Hs Hne) as Hw.
    assert (a_cur a ∈ wakers a s) as Hin.
    { apply elem_of_wakers. exists st, (WhileP s :: r). split_and!; [done | | apply Hq]. by apply bool_decide_eq_true. }
    assert (wakers a s ∖ {[a_cur a]} ⊆ wakers (a_local r st IntOff a1) s) as Hss%subseteq_size.
    { intros t [Ht Hn]%elem_of_difference. apply Hsub; [done | set_solver]. }
    rewrite size_difference, size_singleton in Hss by set_solver.
    assert (size (wakers a s) ≠ 0%nat) by (apply size_non_empty_iff; set_solver). lia.
  - rewrite lookup_insert_ne in Hy by done. apply (wake_mono a); [done | done | done |].
    intros t Ht. apply Hsub; [done |]. intros ->. apply elem_of_wakers in Ht as (st' & ss & Hc' & Hw & _).
    simplify_eq. simpl in Hw. split_bool. done.
Qed.

(** The running thread joins the queue and falls asleep. *)
Definition a_block (s : Z) (x : Semaphore) (r : list stmt) (a : AS) : AS :=
  mkAS (<[a_cur a := (BLOCKED, SleepWhile :: WhileP s :: r)]> (a_th a)) (a_cur a) (a_dead a) (a_ready a)
    (<[s := mkSemaphore (value x) (queue x ++ [a_cur a])]> (a_sems a)) IntOff (a_next a).

Lemma queued_block a s x r s' t : a_sems a !! s = Some x →
  queued (a_block s x r a) s' t ↔ queued a s' t ∨ (s' = s ∧ t = a_cur a).
Proof.
  intros Hs. unfold queued, a_block. simpl. destruct (decide (s' = s)) as [-> | Hn].
  - rewrite lookup_insert_eq, Hs. split.
    + intros (y & [= <-] & [Hy | ->%list_elem_of_singleton]%elem_of_app); [left; eauto | by right].
    + intros [(y & [= <-] & Hy) | [_ ->]]; eexists; (split; [reflexivity |]); simpl; apply elem_of_app;
        [by left | right; by apply list_elem_of_singleton].
  - rewrite lookup_insert_ne by done. split; [by left |]. intros [? | [? _]]; done.
Qed.

Lemma ainv_block a st s r x : ainv a → a_th a !! a_cur a = Some (st, WhileP s :: r) →
  a_sems a !! s = Some x → value x = 0 → ainv (a_block s x r a).
Proof.
  intros Ha Hc Hs Hv. pose proof (fits_cur a Ha _ _ Hc eq_refl) as Hf. simpl in Hf. split_bool.
  destruct (not_placed a Ha _ _ Hc eq_refl) as [Hr Hq]. pose proof (not_dead a Ha _ _ Hc eq_refl) as Hd.
  pose proof (λ s' t, queued_block a s x r s' t Hs) as Hqb. split; simpl.
  - rewrite lookup_insert_eq. by eexists.
  - intros t st' ss. destruct (decide (t = a_cur a)) as [-> | Hn].
    + rewrite lookup_insert_eq. intros [= <- <-]. done.
    + rewrite lookup_insert_ne by done. intros Ht. by eapply suspended_off.
  - exact (ai_ready_nd a Ha).
  - intros s' y Hy. apply lookup_insert_Some in Hy as [[<- <-] | [_ Hy]]; [| by eapply (ai_queue_nd a Ha)].
    simpl. apply NoDup_app. split_and!; [exact (ai_queue_nd a Ha s x Hs) | | apply NoDup_singleton].
    intros t Ht ->%list_elem_of_singleton. apply (Hq s). by exists x.
  - intros s' t [Ht | [-> ->]]%Hqb; [exact (ai_apart a Ha s' t Ht) | done].
  - intros s1 s2 t [H1 | [-> ->]]%Hqb [H2 | [-> E]]%Hqb;
      [by eapply (ai_one_queue a Ha) | subst t; by apply Hq in H1 | by apply Hq in H2 | done].
  - intros t Ht. rewrite lookup_insert_ne by (intros <-; done). exact (ai_ready a Ha t Ht).
  - intros s' t [Ht | [-> ->]]%Hqb.
    + rewrite lookup_insert_ne by (intros <-; by eapply Hq). exact (ai_queue a Ha s' t Ht).
    + rewrite lookup_insert_eq. eexists. split; [done |]. by apply bool_decide_eq_true.
  - intros st' ss. rewrite lookup_insert_eq. by intros [= <- <-].
  - intros d Hd'. destruct (ai_dead a Ha d Hd') as (Hpl & st' & ss & Hss & Hws & _).
    assert (d ≠ a_cur a) as Hne by congruence. split.
    + intros [Hdr | [s' [Hdq | [-> ->]]%Hqb]]; [apply Hpl; by left | apply Hpl; right; eauto | done].
    + exists st', ss. by rewrite lookup_insert_ne.
  - intros s' y Hy Hne. apply lookup_insert_Some in Hy as [[<- <-] | [Hns Hy]]; simpl; [lia |].
    apply (wake_mono a); try done. wakers_sub. simpl.
    assert (t ≠ a_cur a) as Hn. { intros ->. simplify_eq. simpl in Hw. split_bool. done. }
    rewrite lookup_insert_ne by done. exists st0, ss. split_and!; [done | done |].
    intros [? | [? _]]%Hqb; congruence.
  - intros s' t st' ss. destruct (decide (t = a_cur a)) as [-> | Hn].
    + rewrite lookup_insert_eq. intros [= <- <-] Hw. simpl in Hw. split_bool. subst s'. right. split.
      * destruct (decide (a_next a ≤ s)) as [Hle | ?]; [| lia]. destruct (ai_fresh a Ha s Hle). congruence.
      * intros _. right. apply Hqb. by right.
    + rewrite lookup_insert_ne by done. intros Ht Hw.
      destruct (ai_waiters a Ha s' t st' ss Ht Hw) as [[? _] | [Hlt Hin]]; [done | right]. split; [done |].
      intros Hsome. destruct Hin as [? | ?]; [| by left | right; apply Hqb; by left].
      destruct (decide (s' = s)) as [-> | Hne]; [by exists x |]. by rewrite lookup_insert_ne in Hsome.
  - intros t Ht. destruct (ai_fresh a Ha t Ht) as [Hth Hse].
    rewrite !lookup_insert_ne; [done | congruence | congruence].
Qed.

(** The first thread of a queue becomes ready. *)
Definition a_wake_up (s : Z) (x : Semaphore) (t : Z) (rest : list Z) (ss : list stmt) (a : AS) : AS :=
  mkAS (<[t := (READY, ss)]> (a_th a)) (a_cur a) (a_dead a) (a_ready a ++ [t])
    (<[s := mkSemaphore (value x) rest]> (a_sems a)) (a_lv a) (a_next a).

Section wake_up.
Context (a : AS) (s t : Z) (x : Semaphore) (rest : list Z) (st : ThreadStatus) (ss : list stmt).
Context (Ha : ainv a) (Hs : a_sems a !! s = Some x) (Hx : queue x = t :: rest)
  (Ht : a_th a !! t = Some (st, ss)).

Lemma head_queued : queued a s t.
Proof using Hs Hx. exists x. split; [done |]. rewrite Hx. left. Qed.

Lemma queued_wake_up s' u : queued (a_wake_up s x t rest ss a) s' u ↔ queued a s' u ∧ u ≠ t.
Proof using Ha Hs Hx.
  pose proof (ai_queue_nd a Ha s x Hs) as Hnd. rewrite Hx in Hnd. apply NoDup_cons in Hnd as [Hni _].
  unfold a_wake_up, queued at 1. simpl. destruct (decide (s' = s)) as [-> | Hn].
  - rewrite lookup_insert_eq. split.
    + intros (y & [= <-] & Hy). simpl in Hy. split; [exists x; split; [done |]; rewrite Hx; by right |].
      by intros ->.
    + intros [(y & Hy & Hu) Hut]. rewrite Hs in Hy. injection Hy as <-. rewrite Hx in Hu.
      apply elem_of_cons in Hu as [? | Hu]; [done |]. eexists. split; [done | exact Hu].
  - rewrite lookup_insert_ne by done. split; [| by intros [? _]]. intros Hu. split; [done |].
    intros ->. apply Hn, (ai_one_queue a Ha s' s t); [exact Hu | exact head_queued].
Qed.

Lemma wake_up_placed u : placed (a_wake_up s x t rest ss a) u → placed a u.
Proof using Ha Hs Hx.
  intros [[Hr | ->%list_elem_of_singleton]%elem_of_app | [s' [Hq _]%queued_wake_up]];
    [by left | right; exists s; exact head_queued | right; eauto].
Qed.

Lemma wakers_wake_up_other s' : s' ≠ s → ∀ u, u ∈ wakers a s' → u ∈ wakers (a_wake_up s x t rest ss a) s'.
Proof using Ha Hs Hx Ht.
  intros Hn. wakers_sub. simpl. destruct (decide (t0 = t)) as [-> | Hne].
  - rewrite lookup_insert_eq. exists READY, ss. simplify_eq. split_and!; [done | done |].
    by intros [Hq' _]%queued_wake_up.
  - rewrite lookup_insert_ne by done. exists st0, ss0. split_and!; [done | done |].
    by intros [Hq' _]%queued_wake_up.
Qed.

Lemma wakers_wake_up : wakers (a_wake_up s x t rest ss a) s = wakers a s ∪ {[t]}.
Proof using Ha Hs Hx Ht.
  destruct (ai_queue a Ha s t head_queued) as (ss' & Ht' & Hw). simplify_eq.
  apply set_eq. intros u. rewrite elem_of_union, elem_of_singleton, !elem_of_wakers. simpl.
  destruct (decide (u = t)) as [-> | Hne].
  - rewrite lookup_insert_eq. split; [by right |]. intros _. exists READY, ss. split_and!; [done | done |].
    by intros [_ ?]%queued_wake_up.
  - rewrite lookup_insert_ne by done. split.
    + intros (st' & ss' & ? & ? & Hn). left. exists st', ss'. split_and!; [done | done |].
      intros Hq. apply Hn. by apply queued_wake_up.
    + intros [(st' & ss' & ? & ? & Hn) | ->]; [| done]. exists st', ss'. split_and!; [done | done |].
      by intros [Hq _]%queued_wake_up.
Qed.

Lemma wakers_wake_up_size :
  size (wakers (a_wake_up s x t rest ss a) s) = (size (wakers a s) + 1)%nat.
Proof using Ha Hs Hx Ht.
  rewrite wakers_wake_up, size_union, size_singleton; [done |].
  apply disjoint_singleton_r. intros (? & ? & _ & _ & Hn)%elem_of_wakers. apply Hn, head_queued.
Qed.

Lemma ainv_wake_up : ainv (a_wake_up s x t rest ss a).
Proof using Ha Hs Hx Ht.
  pose proof (ai_apart a Ha s t head_queued) as Hnr. split; simpl.
  - destruct (decide (a_cur a = t)) as [<- | Hn]; [rewrite lookup_insert_eq; by eexists |].
    rewrite lookup_insert_ne by done. exact (ai_cur a Ha).
  - intros u st' ss'. destruct (decide (u = t)) as [-> | Hn].
    + rewrite lookup_insert_eq. intros [= <- <-]. exact (ai_fits a Ha t st ss Ht).
    + rewrite lookup_insert_ne by done. exact (ai_fits a Ha u st' ss').
  - apply NoDup_app. split_and!; [exact (ai_ready_nd a Ha) | | apply NoDup_singleton].
    by intros u Hu ->%list_elem_of_singleton.
  - intros s' y Hy. apply lookup_insert_Some in Hy as [[<- <-] | [_ Hy]]; [| by eapply (ai_queue_nd a Ha)].
    pose proof (ai_queue_nd a Ha s x Hs) as Hnd. rewrite Hx in Hnd. by apply NoDup_cons in Hnd as [_ Hnd].
  - intros s' u [Hu Hn]%queued_wake_up [Hr | ->%list_elem_of_singleton]%elem_of_app; [| done].
    by apply (ai_apart a Ha s' u).
  - intros s1 s2 u [H1 _]%queued_wake_up [H2 _]%queued_wake_up. by eapply (ai_one_queue a Ha).
  - intros u Hu. destruct (decide (u = t)) as [-> | Hn]; [rewrite lookup_insert_eq; eauto |].
    rewrite lookup_insert_ne by done. apply elem_of_app in Hu as [Hu | ->%list_elem_of_singleton]; [| done].
    exact (ai_ready a Ha u Hu).
  - intros s' u [Hu Hn]%queued_wake_up. rewrite lookup_insert_ne by done. exact (ai_queue a Ha s' u Hu).
  - intros st' ss' Hc Hp%wake_up_placed. destruct (decide (a_cur a = t)) as [E | Hn].
    + rewrite E, lookup_insert_eq in Hc. injection Hc as <- <-. apply (ai_running a Ha st ss); by rewrite E in *.
    + rewrite lookup_insert_ne in Hc by done. by eapply (ai_running a Ha).
  - intros d Hd. destruct (ai_dead a Ha d Hd) as (Hpl & st' & ss' & Hss & Hws & Hcd). split.
    + by intros Hp%wake_up_placed.
    + exists st', ss'. rewrite lookup_insert_ne; [done |]. intros <-. apply Hpl. right. exists s. exact head_queued.
  - intros s' y Hy Hne. apply lookup_insert_Some in Hy as [[<- <-] | [Hns Hy]]; simpl.
    + rewrite wakers_wake_up_size. pose proof (ai_wake a Ha s x Hs ltac:(by rewrite Hx)). lia.
    + apply (wake_mono a); try done. by apply wakers_wake_up_other.
  - intros s' u st' ss' Hu Hw. destruct (decide (u = t)) as [-> | Hn].
    + rewrite lookup_insert_eq in Hu. injection Hu as <- <-.
      destruct (ai_waiters a Ha s' t st ss Ht Hw) as [? | [Hlt _]]; [by left | right]. split; [done |].
      intros _. left. apply elem_of_app. right. by apply list_elem_of_singleton.
    + rewrite lookup_insert_ne in Hu by done.
      destruct (ai_waiters a Ha s' u st' ss' Hu Hw) as [? | [Hlt Hin]]; [by left | right]. split; [done |].
      intros Hsome. destruct Hin as [Hr | Hq].
      * destruct (decide (s' = s)) as [-> | Hne]; [by exists x |]. by rewrite lookup_insert_ne in Hsome.
      * left. apply elem_of_app. by left.
      * right. by apply queued_wake_up.
  - intros u Hu. destruct (ai_fresh a Ha u Hu) as [Hth Hse].
    rewrite !lookup_insert_ne; [done | congruence | congruence].
Qed.
End wake_up.

(** New objects have fresh addresses. *)
Definition a_alloc (n : Z) (a : AS) : AS :=
  mkAS (a_th a) (a_cur a) (a_dead a) (a_ready a) (a_sems a) (a_lv a) n.

Lemma ainv_alloc a n : ainv a → a_next a ≤ n → ainv (a_alloc n a).
Proof.
  intros Ha Hn. split; simpl; try (by destruct Ha).
  - intros s t st ss Ht Hw. destruct (ai_waiters a Ha s t st ss Ht Hw) as [? | [Hlt Hin]]; [by left | right].
    split; [lia | done].
  - intros t Ht. apply (ai_fresh a Ha). lia.
Qed.

Definition a_new_sem (v : Z) (a : AS) : AS :=
  mkAS (a_th a) (a_cur a) (a_dead a) (a_ready a) (<[a_next a := mkSemaphore v []]> (a_sems a)) (a_lv a)
    (a_next a + 1).

Lemma ainv_new_sem a v : ainv a → ainv (a_new_sem v a).
Proof.
  intros Ha. destruct (ai_fresh a Ha (a_next a) ltac:(lia)) as [_ Hs]. set (s := a_next a) in *.
  assert (∀ s' t, queued (a_new_sem v a) s' t ↔ queued a s' t) as Hq.
  { intros s' t. unfold queued. simpl. destruct (decide (s' = s)) as [-> | Hne].
    - rewrite lookup_insert_eq, Hs. split; [| by intros (? & ? & _)].
      intros (y & [= <-] & Hy). by apply not_elem_of_nil in Hy.
    - by rewrite lookup_insert_ne. }
  assert (∀ t, placed (a_new_sem v a) t → placed a t) as Hp.
  { intros t [? | [s' ?%Hq]]; [by left | right; eauto]. }
  split; simpl; try (by destruct Ha).
  - intros s' y Hy. apply lookup_insert_Some in Hy as [[<- <-] | [_ Hy]]; [apply NoDup_nil_2 |].
    by eapply (ai_queue_nd a Ha).
  - intros s' t Ht%Hq. by eapply (ai_apart a Ha).
  - intros s1 s2 t H1%Hq H2%Hq. by eapply (ai_one_queue a Ha).
  - intros s' t Ht%Hq. exact (ai_queue a Ha s' t Ht).
  - intros st ss Hc Hpl%Hp. by eapply (ai_running a Ha).
  - intros d Hd. destruct (ai_dead a Ha d Hd) as (Hpl & Hrest). split; [| done]. by intros ?%Hp.
  - intros s' y Hy Hne. apply lookup_insert_Some in Hy as [[<- <-] | [_ Hy]]; [done |].
    apply (wake_mono a); try done. wakers_sub. exists st, ss. split_and!; [done | done |]. by intros ?%Hq.
  - intros s' t st ss Ht Hw. destruct (ai_waiters a Ha s' t st ss Ht Hw) as [? | [Hlt Hin]]; [by left | right].
    split; [lia |]. fold s in Hlt. rewrite lookup_insert_ne by lia. intros [? | ?]%Hin; [by left | right; by apply Hq].
  - intros t Ht. destruct (ai_fresh a Ha t ltac:(lia)) as [Hth Hse].
    rewrite lookup_insert_ne; [done |]. unfold s. lia.
Qed.

Definition a_del_sem (s : Z) (a : AS) : AS :=
  mkAS (a_th a) (a_cur a) (a_dead a) (a_ready a) (delete s (a_sems a)) (a_lv a) (a_next a).

Lemma ainv_del_sem a s : ainv a → ainv (a_del_sem s a).
Proof.
  intros Ha.
  assert (∀ s' t, queued (a_del_sem s a) s' t → queued a s' t ∧ s' ≠ s) as Hq.
  { intros s' t (y & Hy & Ht). simpl in Hy. apply lookup_delete_Some in Hy as [Hn Hy].
    split; [by exists y | done]. }
  assert (∀ t, placed (a_del_sem s a) t → placed a t) as Hp.
  { intros t [? | [s' [? _]%Hq]]; [by left | right; eauto]. }
  split; simpl; try (by destruct Ha).
  - intros s' y Hy. apply lookup_delete_Some in Hy as [_ Hy]. by eapply (ai_queue_nd a Ha).
  - intros s' t [Ht _]%Hq. by eapply (ai_apart a Ha).
  - intros s1 s2 t [H1 _]%Hq [H2 _]%Hq. by eapply (ai_one_queue a Ha).
  - intros s' t [Ht _]%Hq. exact (ai_queue a Ha s' t Ht).
  - intros st ss Hc Hpl%Hp. by eapply (ai_running a Ha).
  - intros d Hd. destruct (ai_dead a Ha d Hd) as (Hpl & Hrest). split; [| done]. by intros ?%Hp.
  - intros s' y Hy Hne. apply lookup_delete_Some in Hy as [_ Hy].
    apply (wake_mono a); try done. wakers_sub. exists st, ss. split_and!; [done | done |]. by intros [? _]%Hq.
  - intros s' t st ss Ht Hw. destruct (ai_waiters a Ha s' t st ss Ht Hw) as [? | [Hlt Hin]]; [by left | right].
    split; [done |]. destruct (decide (s' = s)) as [-> | Hne]; [rewrite lookup_delete_eq; by intros [] |].
    rewrite lookup_delete_ne by done. intros [? | (x & Hx & Hu)]%Hin; [by left | right]. exists x. split; [| done].
    simpl. by rewrite lookup_delete_ne.
  - intros t Ht. destruct (ai_fresh a Ha t Ht) as [Hth Hse]. split; [done |].
    apply lookup_delete_None. by right.
Qed.

(** A thread that is not the running one, is nowhere, and does not wait. *)
Record idle_thread (a : AS) (t : Z) : Prop := {
  it_cur : t ≠ a_cur a;
  it_placed : ¬ placed a t;
  it_dead : a_dead a ≠ Some t;
  it_waits : ∀ s st ss, a_th a !! t = Some (st, ss) → waits s ss = false;
  it_next : t < a_next a
}.

(** Such a thread is created, or gets another stack; with [extra = [t]] it
    becomes ready. *)
Definition a_put_thread (t : Z) (st : ThreadStatus) (ss : list stmt) (extra : list Z) (a : AS) : AS :=
  mkAS (<[t := (st, ss)]> (a_th a)) (a_cur a) (a_dead a) (a_ready a ++ extra) (a_sems a) (a_lv a) (a_next a).

Lemma ainv_put_thread a t st ss extra : ainv a → idle_thread a t → suspended ss = true →
  (∀ s, waits s ss = false) → extra = [] ∨ (extra = [t] ∧ st = READY) → ainv (a_put_thread t st ss extra a).
Proof.
  intros Ha [Hc Hp Hd Hw Hn] Hf Hws Hx.
  assert (∀ u, u ∈ a_ready a ++ extra → u ∈ a_ready a ∨ (u = t ∧ st = READY)) as Hin.
  { intros u [Hu | Hu]%elem_of_app; [by left |]. destruct Hx as [-> | [-> Hst]].
    - by apply not_elem_of_nil in Hu.
    - apply list_elem_of_singleton in Hu as ->. by right. }
  assert (∀ s u, queued a s u → u ≠ t) as Hqn. { intros s u Hq ->. apply Hp. right. eauto. }
  split; simpl; try (by destruct Ha).
  - rewrite lookup_insert_ne by done. exact (ai_cur a Ha).
  - intros u st' ss'. destruct (decide (u = t)) as [-> | Hne].
    + rewrite lookup_insert_eq. intros [= <- <-]. by rewrite decide_False.
    + rewrite lookup_insert_ne by done. exact (ai_fits a Ha u st' ss').
  - destruct Hx as [-> | [-> _]]; [rewrite app_nil_r; exact (ai_ready_nd a Ha) |].
    apply NoDup_app. split_and!; [exact (ai_ready_nd a Ha) | | apply NoDup_singleton].
    intros u Hu ->%list_elem_of_singleton. apply Hp. by left.
  - intros s u Hq [Hu | [-> _]]%Hin; [by eapply (ai_apart a Ha) | by eapply Hqn].
  - intros u [Hu | [-> ->]]%Hin; [| rewrite lookup_insert_eq; eauto].
    rewrite lookup_insert_ne by (intros <-; apply Hp; by left). exact (ai_ready a Ha u Hu).
  - intros s u Hq. rewrite lookup_insert_ne by (intros <-; by eapply Hqn). exact (ai_queue a Ha s u Hq).
  - intros st' ss'. rewrite lookup_insert_ne by done. intros Hcs [[Hu | [? _]]%Hin | [s Hq]]; [| done |];
      apply (ai_running a Ha st' ss' Hcs); [by left | right; eauto].
  - intros d Hdd. destruct (ai_dead a Ha d Hdd) as (Hpl & st' & ss' & Hss & Hrest). split.
    + intros [[Hu | [-> _]]%Hin | [s Hq]]; [apply Hpl; by left | done | apply Hpl; right; eauto].
    + exists st', ss'. rewrite lookup_insert_ne; [done | congruence].
  - intros s y Hy Hne. apply (wake_mono a); try done. wakers_sub. simpl. exists st0, ss0.
    rewrite lookup_insert_ne; [done |]. intros <-. by rewrite (Hw s _ _ Ht) in Hw0.
  - intros s u st' ss'. destruct (decide (u = t)) as [-> | Hne].
    + rewrite lookup_insert_eq. intros [= <- <-] Hwt. by rewrite Hws in Hwt.
    + rewrite lookup_insert_ne by done. intros Ht Hwt.
      destruct (ai_waiters a Ha s u st' ss' Ht Hwt) as [? | [Hlt Hiu]]; [by left | right]. split; [done |].
      intros [? | ?]%Hiu; [left; apply elem_of_app; by left | by right].
  - intros u Hu. destruct (ai_fresh a Ha u Hu) as [Hth Hse]. split; [| done].
    rewrite lookup_insert_ne; [done |]. intros <-. lia.
Qed.

(** The destroyed thread is removed. *)
Definition a_reap (d : Z) (a : AS) : AS :=
  mkAS (delete d (a_th a)) (a_cur a) None (a_ready a) (a_sems a) (a_lv a) (a_next a).

Lemma ainv_reap a d : ainv a → a_dead a = Some d → d ≠ a_cur a → ainv (a_reap d a).
Proof.
  intros Ha Hd Hc. destruct (ai_dead a Ha d Hd) as (Hp & st & ss & Hss & Hw & _).
  split; simpl; try (by destruct Ha).
  - rewrite lookup_delete_ne by done. exact (ai_cur a Ha).
  - intros t st' ss' Ht. apply lookup_delete_Some in Ht as [_ Ht]. by eapply (ai_fits a Ha).
  - intros t Ht. rewrite lookup_delete_ne by (intros <-; apply Hp; by left). exact (ai_ready a Ha t Ht).
  - intros s t Ht. rewrite lookup_delete_ne by (intros <-; apply Hp; right; eauto). exact (ai_queue a Ha s t Ht).
  - intros st' ss' Ht Hpl. apply lookup_delete_Some in Ht as [_ Ht]. by eapply (ai_running a Ha).
  - intros s y Hy Hne. apply (wake_mono a); try done. wakers_sub. simpl. exists st0, ss0.
    rewrite lookup_delete_ne; [done |]. intros <-. simplify_eq. by rewrite Hw in Hw0.
  - intros s t st' ss' Ht. apply lookup_delete_Some in Ht as [_ Ht]. by apply (ai_waiters a Ha s t st').
  - intros t Ht. destruct (ai_fresh a Ha t Ht) as [Hth Hse]. split; [| done]. apply lookup_delete_None. by right.
Qed.

(** [Finish]: the running thread is to be destroyed, and sleeps. *)
Definition a_finish (q : list stmt) (a : AS) : AS :=
  mkAS (<[a_cur a := (BLOCKED, SleepWhile :: q)]> (a_th a)) (a_cur a) (Some (a_cur a)) (a_ready a) (a_sems a)
    IntOff (a_next a).

Lemma ainv_finish a st p q : ainv a → a_th a !! a_cur a = Some (st, p) → asleep p = false →
  (∀ s, waits s p = false) → (∀ s, waits s (SleepWhile :: q) = false) → fits IntOff q = true →
  ainv (a_finish q a).
Proof.
  intros Ha Hc Hp Hw Hwq Hf. destruct (not_placed a Ha st p Hc Hp) as [Hr Hq].
  split; simpl; try (by destruct Ha).
  - rewrite lookup_insert_eq. by eexists.
  - intros t st' ss. destruct (decide (t = a_cur a)) as [-> | Hn].
    + rewrite lookup_insert_eq. intros [= <- <-]. done.
    + rewrite lookup_insert_ne by done. intros Ht. by eapply suspended_off.
  - intros t Ht. rewrite lookup_insert_ne by (intros <-; done). exact (ai_ready a Ha t Ht).
  - intros s t Ht. rewrite lookup_insert_ne by (intros <-; by eapply Hq). exact (ai_queue a Ha s t Ht).
  - intros st' ss. rewrite lookup_insert_eq. by intros [= <- <-].
  - intros d [= <-]. rewrite lookup_insert_eq. split; [| eauto 10].
    intros [? | [s ?]]; [done | by eapply Hq].
  - intros s y Hy Hne. apply (wake_mono a); try done. wakers_sub. simpl. exists st0, ss.
    rewrite lookup_insert_ne; [done |]. intros <-. simplify_eq. by rewrite Hw in Hw0.
  - intros s t st' ss. destruct (decide (t = a_cur a)) as [-> | Hn].
    + rewrite lookup_insert_eq. intros [= <- <-] Hws. by rewrite Hwq in Hws.
    + rewrite lookup_insert_ne by done. intros Ht Hws.
      destruct (ai_waiters a Ha s t st' ss Ht Hws) as [[? _] | ?]; [done | by right].
  - intros t Ht. destruct (ai_fresh a Ha t Ht) as [Hth Hse]. split; [| done].
    rewrite lookup_insert_ne; [done | congruence].
Qed.

(** [Scheduler::Run]: the processor goes to [n]; the old thread is left with
    the stack [q] under [AfterSwitch].  With [extra] it is ready again. *)
Definition a_switch (stc : ThreadStatus) (q : list stmt) (n : Z) (rest extra : list Z) (a : AS) : AS :=
  let th := <[a_cur a := (stc, AfterSwitch :: q)]> (a_th a) in
  mkAS (<[n := (RUNNING, default [] (snd <$> th !! n))]> th) n (a_dead a) (rest ++ extra) (a_sems a)
    IntOff (a_next a).

Section switch.
Context (a : AS) (st stc : ThreadStatus) (p q : list stmt) (n : Z) (rest extra : list Z).
Context (Ha : ainv a) (Hc : a_th a !! a_cur a = Some (st, p)) (Hr : a_ready a = n :: rest)
  (Hf : fits IntOff q = true) (Hw : ∀ s, waits s (AfterSwitch :: q) = waits s p)
  (Hx : (asleep p = true ∧ extra = [] ∧ stc = st) ∨
        ((asleep p = false ∧ ∀ s, waits s p = false) ∧ (extra = [] ∨ (extra = [a_cur a] ∧ stc = READY)))).

Lemma next_ready : n ∈ a_ready a ∧ (n ∉ rest) ∧ (∀ s, ¬ queued a s n) ∧ a_dead a ≠ Some n.
Proof.
  pose proof (ai_ready_nd a Ha) as Hnd. rewrite Hr in Hnd. apply NoDup_cons in Hnd as [Hn _].
  assert (n ∈ a_ready a) as Hin by (rewrite Hr; left). split_and!; [done | done | |].
  - intros s Hq. by apply (ai_apart a Ha s n).
  - intros Hd. destruct (ai_dead a Ha n Hd) as [Hp _]. apply Hp. by left.
Qed.

(** The stack of every other thread, and the stack of the old one. *)
Lemma switch_lookup t : a_th (a_switch stc q n rest extra a) !! t =
  if decide (t = n) then
    Some (RUNNING, if decide (n = a_cur a) then AfterSwitch :: q else default [] (snd <$> a_th a !! n))
  else if decide (t = a_cur a) then Some (stc, AfterSwitch :: q) else a_th a !! t.
Proof.
  unfold a_switch. simpl. destruct (decide (t = n)) as [-> | Hn].
  - rewrite lookup_insert_eq. destruct (decide (n = a_cur a)) as [-> | Hnc].
    + by rewrite lookup_insert_eq.
    + by rewrite lookup_insert_ne by done.
  - rewrite lookup_insert_ne by done. destruct (decide (t = a_cur a)) as [-> | Htc].
    + by rewrite lookup_insert_eq.
    + by rewrite lookup_insert_ne.
Qed.

Lemma switch_ready t : t ∈ rest ++ extra →
  t ≠ n ∧ ((t ∈ a_ready a ∧ (t = a_cur a → stc = st ∧ asleep p = true)) ∨ (t = a_cur a ∧ stc = READY ∧ asleep p = false)).
Proof.
  destruct next_ready as (Hin & Hnr & _ & _). intros [Ht | Ht]%elem_of_app.
  - assert (t ∈ a_ready a) as Hta by (rewrite Hr; by right). split; [by intros -> |]. left.
    split; [done |]. intros ->. assert (asleep p = true) as Hp by (eapply (ai_running a Ha); [done | by left]).
    destruct Hx as [(_ & _ & ->) | [[? _] _]]; [done | congruence].
  - destruct Hx as [(_ & -> & _) | [[Hp _] [-> | [-> Hst]]]]; [by apply not_elem_of_nil in Ht .. |].
    apply list_elem_of_singleton in Ht as ->. split; [| by right].
    intros <-. by destruct (not_placed a Ha st p Hc Hp).
Qed.

Lemma switch_wakers s t : t ∈ wakers a s → t ∈ wakers (a_switch stc q n rest extra a) s.
Proof.
  intros (st' & ss & Ht & Hws & Hq)%elem_of_wakers. apply elem_of_wakers. rewrite switch_lookup.
  destruct (decide (t = n)) as [-> | Hn].
  - eexists _, _. split; [done |]. split; [| done]. destruct (decide (n = a_cur a)) as [-> | Hnc].
    + simplify_eq. by rewrite Hw.
    + by rewrite Ht.
  - destruct (decide (t = a_cur a)) as [-> | Htc]; [| eauto 10].
    simplify_eq. eexists _, _. split; [done |]. by rewrite Hw.
Qed.

Lemma switch_suspended : ∀ t st' ss, a_th (a_switch stc q n rest extra a) !! t = Some (st', ss) → suspended ss = true.
Proof.
  destruct next_ready as (Hin & _). destruct (ai_ready a Ha n Hin) as [ssn Hssn].
  intros t st' ss Ht. rewrite switch_lookup in Ht.
  destruct (decide (t = n)) as [-> | Hn].
  - injection Ht as <- <-. destruct (decide (n = a_cur a)) as [-> | Hnc]; [done |].
    rewrite Hssn. by eapply suspended_off.
  - destruct (decide (t = a_cur a)) as [-> | Htc]; [by injection Ht as <- <- | by eapply suspended_off].
Qed.

Lemma switch_placed t : placed (a_switch stc q n rest extra a) t →
  t ≠ n ∧ (placed a t ∨ (t = a_cur a ∧ asleep p = false)).
Proof.
  destruct next_ready as (Hin & Hnr & Hnq & Hnd).
  intros [[Hn [[Ht _] | (-> & _ & Hp)]]%switch_ready | [s Hq]].
  - split; [done |]. left. by left.
  - split; [done |]. by right.
  - split; [intros ->; by eapply Hnq | left; right; by exists s].
Qed.

Lemma switch_waiters s t st' ss : a_th (a_switch stc q n rest extra a) !! t = Some (st', ss) → waits s ss = true →
  (t = n ∧ asleep ss = false) ∨
  (s < a_next a ∧ (is_Some (a_sems a !! s) → t ∈ rest ++ extra ∨ queued a s t)).
Proof.
  intros Ht Hws. pose proof (fits_awake _ _ (suspended_fits _ (switch_suspended t st' ss Ht))) as Hs. rewrite switch_lookup in Ht.
  destruct (decide (t = n)) as [-> | Hn]; [by left | right].
  destruct (decide (t = a_cur a)) as [-> | Htc].
  - injection Ht as <- <-. rewrite Hw in Hws.
    destruct (ai_waiters a Ha s _ _ _ Hc Hws) as [[_ Hp] | [Hlt Hin]].
    + destruct Hx as [(? & _) | [[_ Hnw] _]]; [congruence | by rewrite Hnw in Hws].
    + split; [done |]. intros [Hr' | ?]%Hin; [| by right]. left. rewrite Hr in Hr'.
      apply elem_of_cons in Hr' as [? | ?]; [done | apply elem_of_app; by left].
  - destruct (ai_waiters a Ha s t st' ss Ht Hws) as [[? _] | [Hlt Hin]]; [done |]. split; [done |].
    intros [Hr' | ?]%Hin; [| by right]. left. rewrite Hr in Hr'.
    apply elem_of_cons in Hr' as [? | ?]; [done | apply elem_of_app; by left].
Qed.

Lemma ainv_switch : ainv (a_switch stc q n rest extra a).
Proof.
  destruct next_ready as (Hin & Hnr & Hnq & Hnd). split; try rewrite switch_lookup; simpl.
  - rewrite decide_True by done. by eexists.
  - intros t st' ss Ht. pose proof (switch_suspended t st' ss Ht). case_decide; [by apply fits_runs, suspended_fits | done].
  - pose proof (ai_ready_nd a Ha) as Hd. rewrite Hr in Hd. apply NoDup_cons in Hd as [_ Hd].
    destruct Hx as [(_ & -> & _) | [[Hp _] [-> | [-> Hst]]]]; [by rewrite app_nil_r .. |].
    apply NoDup_app. split_and!; [done | | apply NoDup_singleton].
    intros t Ht ->%list_elem_of_singleton. destruct (not_placed a Ha st p Hc Hp) as [Hn _].
    apply Hn. rewrite Hr. by right.
  - exact (ai_queue_nd a Ha).
  - intros s t Hq [_ [[Ht _] | (-> & _ & Hp)]]%switch_ready; [by eapply (ai_apart a Ha) |].
    destruct (not_placed a Ha st p Hc Hp) as [_ Hn]. by eapply Hn.
  - exact (ai_one_queue a Ha).
  - intros t [Hn Ht]%switch_ready. rewrite switch_lookup, decide_False by done.
    destruct (decide (t = a_cur a)) as [-> | Htc].
    + destruct Ht as [[Ht Hst] | (_ & -> & _)]; [| eauto]. destruct (Hst eq_refl) as [-> _].
      destruct (ai_ready a Ha _ Ht) as [ss Hss]. simplify_eq. eauto.
    + destruct Ht as [[Ht _] | [? _]]; [exact (ai_ready a Ha t Ht) | done].
  - intros s t Hq. rewrite switch_lookup, decide_False by (intros ->; by eapply Hnq).
    destruct (ai_queue a Ha s t Hq) as (ss & Hss & Hws).
    destruct (decide (t = a_cur a)) as [-> | Htc]; [| eauto]. simplify_eq.
    assert (asleep p = true) as Hp by (eapply (ai_running a Ha); [done | right; eauto]).
    destruct Hx as [(_ & _ & ->) | [[? _] _]]; [| congruence]. eexists. split; [done |]. by rewrite Hw.
  - intros st' ss _ [? _]%switch_placed. done.
  - intros d Hd. destruct (ai_dead a Ha d Hd) as (Hp & st' & ss & Hss & Hws & Hcd).
    assert (d = a_cur a → asleep p = true) as Hdp by (intros ->; rewrite Hc in Hss; simplify_eq; by apply Hcd).
    split.
    + intros [_ [? | [E ?]]]%switch_placed; [done |]. rewrite (Hdp E) in *. done.
    + assert (d ≠ n) as Hdn by congruence. rewrite switch_lookup, decide_False by done.
      destruct (decide (d = a_cur a)) as [-> | Hdc]; [| by eauto 10].
      simplify_eq. eexists _, _. split; [done |]. split; [| done]. intros s. by rewrite Hw.
  - intros s y Hy Hne. apply (wake_mono a); try done. apply switch_wakers.
  - exact switch_waiters.
  - intros t Ht. destruct (ai_fresh a Ha t Ht) as [Hth Hse]. split; [| done].
    rewrite !lookup_insert_ne; [done | congruence |].
    intros <-. destruct (ai_ready a Ha n Hin) as [ss Hss]. congruence.
Qed.
End switch.
