(* ===== verification/ThreadInv.v ===== *)
(** * The kernel code keeps the scheduling invariant

    [abs k] is the view of Places.v of a kernel state.  [inv p a] is the
    invariant of a state in which the running thread is in the middle of a
    statement: [p] stands for what is left of it, on top of its stack.  A
    computation is [quiet] when it leaves the view alone. *)

From stdpp Require Import base gmap list numbers strings.
From Stdlib Require Import ZArith Lia.
From S2P Require Import Prelude BitMap HandleTables FileStub Machine AddrSpace Mips VMAccess LinkedList Interrupt Kernel Syscalls Step Places.

Definition abs (k : Kernel) : AS :=
  mkAS ((λ x, (t_status x, t_stack x)) <$> threads (k_sched k)) (currentThread (k_sched k))
    (threadToBeDestroyed (k_sched k)) (readyList (k_sched k)) (sems (k_synch k)) (level (k_irq k))
    (next_id (k_io k)).

(** ** Partial correctness *)

Definition wlp {S A} (m : M S A) (Q : A → S → Prop) (s : S) : Prop := ∀ a s', m s = Done (a, s') → Q a s'.

Section wlp.
Context {S : Type}.

Lemma wlp_ret {A} (a : A) (Q : A → S → Prop) s : Q a s → wlp (mret a) Q s.
Proof. intros HQ b s' [= <- <-]. done. Qed.

Lemma wlp_bind {A B} (m : M S A) (f : A → M S B) Q s :
  wlp m (λ a s', wlp (f a) Q s') s → wlp (m ≫= f) Q s.
Proof.
  intros Hm b s' Hrun. unfold mbind, M_bind in Hrun.
  destruct (m s) as [[a s1] | e] eqn:E; [| done]. exact (Hm a s1 E b s' Hrun).
Qed.

Lemma wlp_mono {A} (m : M S A) (P Q : A → S → Prop) s :
  wlp m P s → (∀ a s', P a s' → Q a s') → wlp m Q s.
Proof. intros Hm HPQ a s' Hrun. by apply HPQ, Hm. Qed.

Lemma wlp_get (Q : S → S → Prop) s : Q s s → wlp get Q s.
Proof. intros HQ b s' [= <- <-]. done. Qed.
Lemma wlp_gets {A} (f : S → A) (Q : A → S → Prop) s : Q (f s) s → wlp (gets f) Q s.
Proof. intros HQ b s' [= <- <-]. done. Qed.
Lemma wlp_put s0 (Q : unit → S → Prop) s : Q tt s0 → wlp (put s0) Q s.
Proof. intros HQ b s' [= <- <-]. done. Qed.
Lemma wlp_modify (f : S → S) (Q : unit → S → Prop) s : Q tt (f s) → wlp (modify f) Q s.
Proof. intros HQ b s' [= <- <-]. done. Qed.
Lemma wlp_stop {A} e (Q : A → S → Prop) s : wlp (stop e) Q s.
Proof. intros b s' [=]. Qed.
Lemma wlp_ASSERT b (Q : unit → S → Prop) s : (b = true → Q tt s) → wlp (ASSERT b) Q s.
Proof. intros HQ u s'. destruct b; [intros [= <- <-]; by apply HQ | intros [=]]. Qed.
Lemma wlp_lift {A} (o : outcome A) (Q : A → S → Prop) s : (∀ a, o = Done a → Q a s) → wlp (lift o) Q s.
Proof. intros HQ a s'. unfold lift. destruct o; [intros [= <- <-]; by apply HQ | intros [=]]. Qed.
Lemma wlp_elim {A} (m : M S A) Q s a s' : wlp m Q s → m s = Done (a, s') → Q a s'.
Proof. intros Hm Hrun. by apply Hm. Qed.
End wlp.

Ltac wlp_step :=
  lazymatch goal with
  | |- wlp (mbind _ _) _ _ => apply wlp_bind
  | |- wlp (mret _) _ _ => apply wlp_ret
  | |- wlp get _ _ => apply wlp_get
  | |- wlp (gets _) _ _ => apply wlp_gets
  | |- wlp (put _) _ _ => apply wlp_put
  | |- wlp (modify _) _ _ => apply wlp_modify
  | |- wlp (stop _) _ _ => apply wlp_stop
  | |- wlp (ASSERT _) _ _ => apply wlp_ASSERT; intros ?
  | |- wlp (lift _) _ _ => apply wlp_lift; intros ? ?
  | |- wlp (match ?b with _ => _ end) _ _ => destruct b eqn:?
  end.
Ltac wlp_steps := repeat (wlp_step; cbv beta).

(** ** Quiet computations *)

Definition quiet {A} (c : M Kernel A) : Prop := ∀ k, wlp c (λ _ k', abs k' = abs k) k.

Create HintDb quiet.

Lemma quiet_ret {A} (a : A) : quiet (mret a).
Proof. intros k. by wlp_steps. Qed.
Lemma quiet_bind {A B} (m : M Kernel A) (f : A → M Kernel B) : quiet m → (∀ a, quiet (f a)) → quiet (m ≫= f).
Proof.
  intros Hm Hf k. wlp_step. eapply wlp_mono; [apply Hm |]. intros a k1 E1.
  eapply wlp_mono; [apply Hf |]. cbv beta. congruence.
Qed.
Lemma quiet_get : quiet get.
Proof. intros k. by wlp_steps. Qed.
Lemma quiet_gets {A} (f : Kernel → A) : quiet (gets f).
Proof. intros k. by wlp_steps. Qed.
Lemma quiet_stop {A} e : quiet (stop e : M Kernel A).
Proof. intros k. by wlp_steps. Qed.
Lemma quiet_ASSERT b : quiet (ASSERT b).
Proof. intros k. by wlp_steps. Qed.
Lemma quiet_lift {A} (o : outcome A) : quiet (lift o).
Proof. intros k. by wlp_steps. Qed.
Lemma quiet_modify f : (∀ k, abs (f k) = abs k) → quiet (modify f).
Proof. intros Hf k. wlp_steps. apply Hf. Qed.
Lemma quiet_on_vm {A} (c : M VM A) : quiet (on_vm c).
Proof. intros k a k'. unfold on_vm, zoom. destruct (c (k_vm k)) as [[b v] |]; [by intros [= <- <-] | done]. Qed.
Lemma quiet_object {A} m p : quiet (object m p : M Kernel A).
Proof. intros k. unfold object. by wlp_steps. Qed.
Lemma quiet_modify_io f : (∀ i, next_id (f i) = next_id i) → quiet (modify_io f).
Proof. intros Hf. apply quiet_modify. intros k. unfold abs. simpl. by rewrite Hf. Qed.
Lemma quiet_modify_irq f : (∀ i, level (f i) = level i) → quiet (modify_irq f : M Kernel unit).
Proof. intros Hf. apply quiet_modify. intros k. unfold abs. simpl. by rewrite Hf. Qed.
Lemma quiet_status st : quiet (modify (set_irq_status st) : M Kernel unit).
Proof. by apply quiet_modify. Qed.
Lemma quiet_modify_thread t f :
  (∀ x, t_status (f x) = t_status x ∧ t_stack (f x) = t_stack x) → quiet (modify_thread t f).
Proof.
  intros Hf k. unfold modify_thread, the_thread, object, modify_sched. wlp_steps.
  unfold abs. simpl. f_equal. rewrite fmap_insert.
  destruct (Hf t0) as [-> ->]. by rewrite insert_id; [| rewrite lookup_fmap, Heqo].
Qed.
Lemma quiet_for n : ∀ lo (body : Z → M Kernel unit), (∀ i, quiet (body i)) → quiet (for_range lo n body).
Proof.
  induction n as [| n IH]; intros lo body Hb; simpl; [apply quiet_ret |].
  apply quiet_bind; [apply Hb |]. intros _. by apply IH.
Qed.

#[export] Hint Resolve quiet_ret quiet_get quiet_gets quiet_stop quiet_ASSERT quiet_lift quiet_on_vm
  quiet_object quiet_status : quiet.

(** Decompose a computation into quiet parts. *)
Ltac solve_quiet :=
  repeat first
  [ solve [auto with quiet]
  | apply quiet_modify_thread; done
  | apply quiet_bind; [| intros ?]
  | apply quiet_modify_io; reflexivity
  | apply quiet_modify_irq; reflexivity
  | apply quiet_modify; reflexivity
  | apply quiet_for; intros ?
  | match goal with |- quiet (match ?b with _ => _ end) => destruct b eqn:? end ].

Lemma quiet_on_table {A} p (c : M NachosOpenFilesTable A) : quiet (on_table p c).
Proof. unfold on_table. solve_quiet. Qed.
Lemma quiet_on_sems {A} p (c : M NachosSems A) : quiet (on_sems p c).
Proof. unfold on_sems. solve_quiet. Qed.
Lemma quiet_on_execMap {A} (c : M BitMap A) : quiet (on_execMap c).
Proof.
  intros k a k'. unfold on_execMap, zoom. destruct (c (execFilesMap (k_io k))) as [[b v] |]; [| done].
  by intros [= <- <-].
Qed.
Lemma quiet_current : quiet current.
Proof. unfold current. solve_quiet. Qed.
Lemma quiet_thread t : quiet (the_thread t).
Proof. unfold the_thread. solve_quiet. Qed.
Lemma quiet_sem s : quiet (the_sem s).
Proof. unfold the_sem. solve_quiet. Qed.
Lemma quiet_lock l : quiet (the_lock l).
Proof. unfold the_lock. solve_quiet. Qed.
Lemma quiet_cond c : quiet (the_cond c).
Proof. unfold the_cond. solve_quiet. Qed.
Lemma quiet_put_lock l x : quiet (put_lock l x).
Proof. unfold put_lock, modify_synch. solve_quiet. Qed.
Lemma quiet_put_cond c x : quiet (put_cond c x).
Proof. unfold put_cond, modify_synch. solve_quiet. Qed.
#[export] Hint Resolve quiet_on_table quiet_on_sems quiet_on_execMap quiet_current quiet_thread quiet_sem
  quiet_lock quiet_cond quiet_put_lock quiet_put_cond : quiet.

Lemma quiet_current_thread : quiet current_thread.
Proof. unfold current_thread. solve_quiet. Qed.
#[export] Hint Resolve quiet_current_thread : quiet.
Lemma quiet_current_space : quiet current_space.
Proof. unfold current_space. solve_quiet. Qed.
Lemma quiet_read_reg r : quiet (read_reg r).
Proof. unfold read_reg, on_cpu. solve_quiet. Qed.
Lemma quiet_write_reg r v : quiet (write_reg r v).
Proof. unfold write_reg, on_cpu. solve_quiet. Qed.
#[export] Hint Resolve quiet_current_space quiet_read_reg quiet_write_reg : quiet.
Lemma quiet_return : quiet returnFromSystemCall.
Proof. unfold returnFromSystemCall. solve_quiet. Qed.
Lemma quiet_safe_read addr : quiet (safe_read addr).
Proof. unfold safe_read. solve_quiet. Qed.
Lemma quiet_safe_write addr v : quiet (safe_write addr v).
Proof. unfold safe_write. solve_quiet. Qed.
#[export] Hint Resolve quiet_return quiet_safe_read quiet_safe_write : quiet.
Lemma quiet_read_string room : ∀ r4, quiet (read_string room r4).
Proof. induction room; intros r4; simpl; solve_quiet. Qed.
Lemma quiet_read_bytes n : ∀ r4, quiet (read_bytes n r4).
Proof. induction n; intros r4; simpl; solve_quiet. Qed.
Lemma quiet_write_bytes bs : ∀ r4, quiet (write_bytes r4 bs).
Proof. induction bs; intros r4; simpl; solve_quiet. Qed.
#[export] Hint Resolve quiet_read_string quiet_read_bytes quiet_write_bytes : quiet.
Lemma quiet_unix_open name : quiet (unix_open name).
Proof. unfold unix_open. solve_quiet. Qed.
Lemma quiet_unix_creat name : quiet (unix_creat name).
Proof. unfold unix_creat. solve_quiet. Qed.
Lemma quiet_unix_close fd : quiet (unix_close fd).
Proof. unfold unix_close. solve_quiet. Qed.
Lemma quiet_unix_read fd n : quiet (unix_read fd n).
Proof. unfold unix_read. solve_quiet. Qed.
Lemma quiet_unix_write fd bs : quiet (unix_write fd bs).
Proof. unfold unix_write. solve_quiet. Qed.
Lemma quiet_print p n : quiet (print p n).
Proof. unfold print. solve_quiet. Qed.
Lemma quiet_count n : quiet (count_written n).
Proof. unfold count_written. solve_quiet. Qed.
Lemma quiet_exec_entry i : quiet (exec_entry i).
Proof. unfold exec_entry. solve_quiet. Qed.
Lemma quiet_put_exec i e : quiet (put_exec i e).
Proof. unfold put_exec. solve_quiet. Qed.
#[export] Hint Resolve quiet_unix_open quiet_unix_creat quiet_unix_close quiet_unix_read quiet_unix_write
  quiet_print quiet_count quiet_exec_entry quiet_put_exec : quiet.

Section interrupts.
Variable env : Env.

Lemma quiet_timer : quiet (TimerExpired env).
Proof. unfold TimerExpired, Schedule, TimerInterruptHandler, YieldOnReturn. solve_quiet. Qed.
Lemma quiet_check adv : quiet (@CheckIfDue _ _ _ (Kernel_interrupts env) adv).
Proof.
  unfold CheckIfDue, due, fire. solve_quiet; simpl; try apply quiet_on_vm.
  destruct (handler _). apply quiet_timer.
Qed.
Lemma quiet_check_all fuel : quiet (@check_all _ _ _ (Kernel_interrupts env) fuel).
Proof.
  induction fuel as [| fuel IH]; simpl; [apply quiet_stop |].
  apply quiet_bind; [apply quiet_check | intros []; [exact IH | apply quiet_ret]].
Qed.
Lemma quiet_check_pending : quiet (@check_pending _ _ _ (Kernel_interrupts env)).
Proof. unfold check_pending. apply quiet_bind; [apply quiet_get | intros k; apply quiet_check_all]. Qed.
Lemma quiet_Idle : quiet (@Idle _ _ _ (Kernel_interrupts env)).
Proof.
  unfold Idle, Halt. apply quiet_bind; [apply quiet_status | intros _].
  apply quiet_bind; [apply quiet_check | intros []; [| apply quiet_stop]].
  apply quiet_bind; [apply quiet_check_pending | intros _]. solve_quiet.
Qed.

Definition a_set_lv (lv : IntStatus) (a : AS) : AS :=
  mkAS (a_th a) (a_cur a) (a_dead a) (a_ready a) (a_sems a) lv (a_next a).

(** [OneTick] ends with interrupts on and changes nothing else of the view. *)
Lemma OneTick_abs k : wlp (@OneTick _ _ _ (Kernel_interrupts env)) (λ _ k', abs k' = a_set_lv IntOn (abs k)) k.
Proof.
  unfold OneTick, ChangeLevel, modify_irq. wlp_step. wlp_step. wlp_step.
  apply (wlp_mono _ (λ _ k1, abs k1 = abs k)).
  { destruct (decide (irq_status k = SystemMode)); by wlp_steps. }
  intros [] k1 E1. wlp_steps. eapply wlp_mono; [apply quiet_check_pending |].
  intros [] k2 E2. assert (abs k2 = a_set_lv IntOff (abs k)) as E3 by (rewrite E2, <- E1; done).
  assert (abs (set_irq (set_level IntOn (irq k2)) k2) = a_set_lv IntOn (abs k)) as E4.
  { change (a_set_lv IntOn (abs k2) = a_set_lv IntOn (abs k)). by rewrite E3. }
  wlp_steps; exact E4.
Qed.
End interrupts.

(** ** In the middle of a statement *)

Definition inv (p : list stmt) (a : AS) : Prop :=
  ∃ st r, a_th a !! a_cur a = Some (st, r) ∧ ainv (a_local (p ++ r) st (a_lv a) a).

Lemma local_local q st lv q' st' lv' a : a_local q' st' lv' (a_local q st lv a) = a_local q' st' lv' a.
Proof. unfold a_local. simpl. by rewrite insert_insert_eq. Qed.

Lemma local_id a st r : a_th a !! a_cur a = Some (st, r) → a_local r st (a_lv a) a = a.
Proof. intros Hc. unfold a_local. rewrite insert_id by done. by destruct a. Qed.

Lemma inv_nil a : inv [] a ↔ ainv a.
Proof.
  split.
  - intros (st & r & Hc & Ha). simpl in Ha. by rewrite local_id in Ha.
  - intros Ha. destruct (ai_cur a Ha) as [[st r] Hc]. exists st, r. split; [done |]. simpl. by rewrite local_id.
Qed.

(** What is left of the statement becomes something else. *)
Lemma inv_change p q lv a : inv p a → (∀ r, asleep (p ++ r) = false) →
  (∀ s r, waits s (p ++ r) = true → waits s (q ++ r) = true) →
  (∀ r, fits (a_lv a) (p ++ r) = true → fits lv (q ++ r) = true) →
  inv q (a_set_lv lv a).
Proof.
  intros (st & r & Hc & Ha) Hsl Hw Hf. exists st, r. split; [done |]. simpl.
  assert (a_th (a_local (p ++ r) st (a_lv a) a) !! a_cur a = Some (st, p ++ r)) as Hc'.
  { simpl. by rewrite lookup_insert_eq. }
  pose proof (ainv_local _ st (p ++ r) (q ++ r) lv Ha Hc' (Hsl r) (λ s, Hw s r)) as H.
  rewrite local_local in H. change (ainv (a_local (q ++ r) st lv a)). apply H, Hf.
  pose proof (fits_cur _ Ha _ _ Hc' (Hsl r)) as Hfit. exact Hfit.
Qed.

Lemma set_lv_id a : a_set_lv (a_lv a) a = a.
Proof. by destruct a. Qed.

Lemma inv_change_same p q a : inv p a → (∀ r, asleep (p ++ r) = false) →
  (∀ s r, waits s (p ++ r) = true → waits s (q ++ r) = true) →
  (∀ r, fits (a_lv a) (p ++ r) = true → fits (a_lv a) (q ++ r) = true) → inv q a.
Proof. intros Hi Hsl Hw Hf. rewrite <- (set_lv_id a). by apply (inv_change p). Qed.

Lemma abs_current k x : threads (k_sched k) !! currentThread (k_sched k) = Some x →
  a_th (abs k) !! a_cur (abs k) = Some (t_status x, t_stack x).
Proof. intros Hx. simpl. by rewrite lookup_fmap, Hx. Qed.

Lemma push_spec v b k : inv (v ++ b) (abs k) →
  wlp (push b) (λ _ k', inv v (abs k') ∧ a_lv (abs k') = a_lv (abs k)) k.
Proof.
  intros (st & r & Hc & Ha). unfold push, current, modify_thread, the_thread, object, modify_sched. wlp_steps.
  split; [| done]. rewrite (abs_current _ _ Heqo) in Hc. injection Hc as <- <-.
  exists (t_status t), (b ++ t_stack t). split; [simpl; by rewrite lookup_fmap, lookup_insert_eq |].
  rewrite app_assoc.
  assert (abs (set_k_sched (set_threads (<[currentThread (k_sched k) := set_stack (b ++ t_stack t) t]>
    (threads (k_sched k))) (k_sched k)) k) = a_local (b ++ t_stack t) (t_status t) (a_lv (abs k)) (abs k)) as ->.
  { unfold abs, a_local. simpl. by rewrite fmap_insert. }
  by rewrite local_local.
Qed.

(** The running thread executes kernel code, to go on with its stack. *)
Definition busy (a : AS) : Prop := inv [Client] a.

(** The same between [SetLevel(IntOff)] and [SetLevel(old)]. *)
Definition off (old : IntStatus) (a : AS) : Prop := inv [SetLevelTo old] a ∧ a_lv a = IntOff.

(** Statements that keep the interrupt level. *)
Definition keeps (b : list stmt) : Prop := ∀ lv r, fits lv (b ++ r) = fits lv r.

Lemma busy_of st a : inv [st] a → keeps [st] → asleep [st] = false → (∀ s r, waits s (st :: r) = false) → busy a.
Proof.
  intros Hi Hk Hs Hw. apply (inv_change_same [st]); [done | | |].
  - intros r. exact Hs.
  - intros s r Hws. change (waits s (st :: r) = true) in Hws. by rewrite Hw in Hws.
  - intros r Hf. by rewrite Hk in Hf.
Qed.

Lemma busy_done a : busy a → inv [] a.
Proof. intros Hi. by apply (inv_change_same [Client]). Qed.

Lemma quiet_wlp {A} (c : M Kernel A) (P : AS → Prop) k : quiet c → P (abs k) → wlp c (λ _ k', P (abs k')) k.
Proof. intros Hc HP. eapply wlp_mono; [apply Hc |]. by intros a k' ->. Qed.

Lemma busy_push b k : busy (abs k) → keeps b →
  wlp (push b) (λ _ k', busy (abs k') ∧ a_lv (abs k') = a_lv (abs k)) k.
Proof.
  intros Hi Hk. apply (push_spec [Client]). apply (inv_change_same [Client]); try done.
  intros r Hf. simpl in *. by rewrite Hk.
Qed.

Lemma SetLevel_off_abs k :
  wlp (SetLevel IntOff) (λ old k', old = a_lv (abs k) ∧ abs k' = a_set_lv IntOff (abs k)) k.
Proof.
  unfold SetLevel, ChangeLevel, modify_irq. wlp_step. wlp_step. wlp_step. wlp_step. wlp_step. wlp_step.
  rewrite decide_False by (by intros [? _]). by wlp_steps.
Qed.

Lemma SetLevel_off k : busy (abs k) →
  wlp (SetLevel IntOff) (λ old k', old = a_lv (abs k) ∧ off old (abs k')) k.
Proof.
  intros Hi. eapply wlp_mono; [apply SetLevel_off_abs |]. intros old k1 [-> ->]. split; [done |].
  split; [| done]. by apply (inv_change [Client]).
Qed.

(** Inside of a section with interrupts off. *)
Lemma SetLevel_nested old k : off old (abs k) → wlp (SetLevel IntOff) (λ l k', l = IntOff ∧ off old (abs k')) k.
Proof.
  intros [Hi Hlv]. eapply wlp_mono; [apply SetLevel_off_abs |]. intros l k1 [-> ->]. split; [done |].
  rewrite <- Hlv, set_lv_id. by split.
Qed.

Lemma SetLevel_to l k : inv [SetLevelTo l] (abs k) → wlp (SetLevel l) (λ _ k', inv [] (abs k')) k.
Proof.
  intros Hi. unfold SetLevel, ChangeLevel, modify_irq. wlp_step. wlp_step. wlp_step. wlp_step. wlp_step. wlp_step.
  set (k1 := set_irq _ k). assert (abs k1 = a_set_lv l (abs k)) as E1 by done.
  wlp_step. destruct (decide (l = IntOn ∧ level (k_irq k) = IntOff)) as [[-> _] | Hn].
  - eapply wlp_mono; [apply (push_spec []) |].
    + rewrite E1. by apply (inv_change [SetLevelTo IntOn]).
    + intros [] k2 [Hi2 _]. by wlp_steps.
  - wlp_steps. rewrite E1. apply (inv_change [SetLevelTo l]); done.
Qed.

Lemma SetLevel_restore old k : off old (abs k) → wlp (SetLevel old) (λ _ k', inv [] (abs k')) k.
Proof. intros [Hi _]. by apply SetLevel_to. Qed.

(** ** Semaphores *)

Lemma abs_sem k s x : sems (k_synch k) !! s = Some x → a_sems (abs k) !! s = Some x.
Proof. done. Qed.

Lemma ReadyToRun_abs t k : wlp (ReadyToRun t) (λ _ k', ∃ st ss, a_th (abs k) !! t = Some (st, ss) ∧
  abs k' = mkAS (<[t := (READY, ss)]> (a_th (abs k))) (a_cur (abs k)) (a_dead (abs k)) (a_ready (abs k) ++ [t])
    (a_sems (abs k)) (a_lv (abs k)) (a_next (abs k))) k.
Proof.
  unfold ReadyToRun, modify_thread, the_thread, object, modify_sched. wlp_steps.
  exists (t_status t0), (t_stack t0). split; [simpl; by rewrite lookup_fmap, Heqo |].
  unfold abs. simpl. by rewrite fmap_insert.
Qed.

Lemma put_sem_abs s x k : wlp (put_sem s x) (λ _ k', abs k' = a_set_sem s x (abs k)) k.
Proof. unfold put_sem, modify_synch. by wlp_steps. Qed.

Lemma wlp_the_sem s k (Q : Semaphore → Kernel → Prop) :
  (∀ x, a_sems (abs k) !! s = Some x → Q x k) → wlp (the_sem s) Q k.
Proof. intros HQ. unfold the_sem, object. wlp_steps. by apply HQ. Qed.

Lemma wake_up_local s x t rest ss q st a : t ≠ a_cur a →
  a_wake_up s x t rest ss (a_local q st (a_lv a) a) = a_local q st (a_lv a) (a_wake_up s x t rest ss a).
Proof. intros Hn. unfold a_wake_up, a_local. simpl. by rewrite insert_insert_ne. Qed.

(** A thread in a queue is not the one that executes kernel code. *)
Lemma queued_not_current o a s x t : off o a → a_sems a !! s = Some x → t ∈ queue x → t ≠ a_cur a.
Proof.
  intros [(st & r & Hc & Ha) _] Hs Ht ->.
  destruct (not_placed _ Ha st ([SetLevelTo o] ++ r)) as [_ Hq]; [simpl; by rewrite lookup_insert_eq | done |].
  apply (Hq s). by exists x.
Qed.

Lemma off_wake_up o a s x t rest st ss : off o a → a_sems a !! s = Some x → queue x = t :: rest →
  a_th a !! t = Some (st, ss) →
  off o (a_wake_up s x t rest ss a) ∧
  off o (a_set_sem s (mkSemaphore (value x + 1) rest) (a_wake_up s x t rest ss a)).
Proof.
  intros Hoff Hs Hx Ht.
  assert (t ≠ a_cur a) as Hn by (eapply queued_not_current; [done | done | rewrite Hx; left]).
  destruct Hoff as [(st0 & r & Hc & Ha) Hlv].
  set (A := a_local ([SetLevelTo o] ++ r) st0 (a_lv a) a) in *.
  assert (a_th A !! t = Some (st, ss)) as HtA by (simpl; by rewrite lookup_insert_ne).
  pose proof (ainv_wake_up A s t x rest st ss Ha Hs Hx HtA) as Hw.
  pose proof (wakers_wake_up_size A s t x rest st ss Ha Hs Hx HtA) as Hsz.
  assert (a_sems (a_wake_up s x t rest ss A) !! s = Some (mkSemaphore (value x) rest)) as Hs'.
  { simpl. by rewrite lookup_insert_eq. }
  pose proof (ainv_value _ s _ (value x + 1) Hw Hs') as Hv. simpl queue in Hv.
  unfold A in Hw, Hv. rewrite wake_up_local in Hw, Hv by done.
  assert (a_th (a_wake_up s x t rest ss a) !! a_cur a = Some (st0, r)) as Hc'.
  { simpl. by rewrite lookup_insert_ne. }
  split; (split; [| done]); exists st0, r; (split; [exact Hc' |]); [exact Hw |]. apply Hv.
  intros _. unfold A in Hsz. rewrite wake_up_local in Hsz by done. rewrite Hsz.
  pose proof (ai_wake A Ha s x Hs ltac:(by rewrite Hx)) as Hle. unfold A in Hle. lia.
Qed.

Lemma off_value o a s x v : off o a → a_sems a !! s = Some x → queue x = [] →
  off o (a_set_sem s (mkSemaphore v (queue x)) a).
Proof.
  intros [(st & r & Hc & Ha) Hlv] Hs Hx. split; [| done]. exists st, r. split; [done |].
  exact (ainv_value _ s x v Ha Hs (λ H, False_ind _ (H Hx))).
Qed.

(** Remove the first thread of the queue and make it ready. *)
Lemma off_ready o s x thread rest k : off o (abs k) → a_sems (abs k) !! s = Some x → queue x = thread :: rest →
  wlp (put_sem s (mkSemaphore (value x) rest) ;; ReadyToRun thread) (λ _ k',
    off o (abs k') ∧ off o (a_set_sem s (mkSemaphore (value x + 1) rest) (abs k')) ∧
    a_sems (abs k') !! s = Some (mkSemaphore (value x) rest)) k.
Proof.
  intros Hoff Hs Hx. wlp_step. eapply wlp_mono; [apply put_sem_abs |]. intros [] k1 E1.
  eapply wlp_mono; [apply ReadyToRun_abs |]. intros [] k2 (st & ss & Ht & E2). rewrite E1 in E2, Ht.
  change (abs k2 = a_wake_up s x thread rest ss (abs k)) in E2. rewrite E2.
  destruct (off_wake_up o (abs k) s x thread rest st ss Hoff Hs Hx Ht) as [H1 H2].
  split_and!; [done | done | simpl; by rewrite lookup_insert_eq].
Qed.

Lemma V_body_spec o s k : off o (abs k) → wlp (V_body s) (λ _ k', off o (abs k')) k.
Proof.
  intros Hoff. unfold V_body. wlp_step. apply wlp_the_sem. intros x Hs. wlp_step.
  apply (wlp_mono _ (λ _ k1, ∃ q, a_sems (abs k1) !! s = Some (mkSemaphore (value x) q) ∧
    off o (a_set_sem s (mkSemaphore (value x + 1) q) (abs k1)))).
  - destruct (queue x) as [| thread rest] eqn:Hq.
    + wlp_steps. exists []. split; [rewrite Hs; by destruct x; simpl in *; subst |].
      rewrite <- Hq. by apply off_value.
    + eapply wlp_mono; [by eapply off_ready |]. intros [] k1 (_ & H1 & H2). eauto.
  - intros [] k1 (q & Hs1 & H1). wlp_step. apply wlp_the_sem. intros y Hy. simplify_eq. simpl. wlp_steps.
    unfold checked_int in *. simplify_option_eq.
    eapply wlp_mono; [apply put_sem_abs |]. by intros [] k2 ->.
Qed.

Lemma Semaphore_V_spec s k : busy (abs k) → wlp (Semaphore_V s) (λ _ k', inv [] (abs k')) k.
Proof.
  intros Hb. unfold Semaphore_V. wlp_step. eapply wlp_mono; [by apply SetLevel_off |]. intros old k1 [_ Ho].
  wlp_step. eapply wlp_mono; [by apply V_body_spec |]. intros [] k2 Ho2.
  wlp_step. eapply wlp_mono; [by apply SetLevel_restore |]. intros l k3 H3. by wlp_steps.
Qed.

(** [V] inside of a section with interrupts off. *)
Lemma Semaphore_V_nested o s k : off o (abs k) → wlp (Semaphore_V s) (λ _ k', off o (abs k')) k.
Proof.
  intros Ho. unfold Semaphore_V. wlp_step. eapply wlp_mono; [by apply (SetLevel_nested o) |].
  intros old k1 [-> Ho1]. wlp_step. eapply wlp_mono; [by apply (V_body_spec o) |]. intros [] k2 Ho2.
  wlp_step. eapply wlp_mono; [by apply (SetLevel_nested o) |]. intros l k3 [_ H3]. by wlp_steps.
Qed.

Lemma destroy_loop_spec o s fuel : ∀ k, off o (abs k) → wlp (destroy_loop fuel s) (λ _ k', off o (abs k')) k.
Proof.
  induction fuel as [| fuel IH]; intros k Ho; simpl; [apply wlp_stop |].
  wlp_step. apply wlp_the_sem. intros x Hs. destruct (queue x) as [| thread rest] eqn:Hq; [by wlp_steps |].
  intros a k' Hrun. destruct (put_sem s (mkSemaphore (value x) rest) k) as [[[] k1] |] eqn:E1;
    unfold mbind, M_bind in Hrun; rewrite E1 in Hrun; [| done].
  destruct (ReadyToRun thread k1) as [[[] k2] |] eqn:E2; [| done].
  assert (off o (abs k2)) as Ho2.
  { eapply (wlp_elim (put_sem s (mkSemaphore (value x) rest) ;; ReadyToRun thread)
      (λ _ k', off o (abs k')) k tt k2).
    - eapply wlp_mono; [by eapply off_ready |]. by intros [] k3 (H3 & _).
    - unfold mbind, M_bind. by rewrite E1. }
  exact (IH k2 Ho2 a k' Hrun).
Qed.

Lemma Destroy_spec s k : busy (abs k) → wlp (Semaphore_Destroy s) (λ _ k', inv [] (abs k')) k.
Proof.
  intros Hb. unfold Semaphore_Destroy. wlp_step. eapply wlp_mono; [by apply SetLevel_off |]. intros old k1 [_ Ho].
  wlp_step. apply wlp_the_sem. intros x Hs. wlp_step.
  eapply wlp_mono; [by apply destroy_loop_spec |]. intros [] k2 Ho2.
  wlp_step. eapply wlp_mono; [by apply SetLevel_restore |]. intros l k3 H3. by wlp_steps.
Qed.

Lemma push_abs b k : wlp (push b) (λ _ k', ∃ st r, a_th (abs k) !! a_cur (abs k) = Some (st, r) ∧
  abs k' = a_local (b ++ r) st (a_lv (abs k)) (abs k)) k.
Proof.
  unfold push, current, modify_thread, the_thread, object, modify_sched. wlp_steps.
  exists (t_status t), (t_stack t). split; [by apply abs_current |].
  unfold abs, a_local. simpl. by rewrite fmap_insert.
Qed.

Lemma Semaphore_P_spec s k : busy (abs k) → wlp (Semaphore_P s) (λ _ k', inv [] (abs k')) k.
Proof.
  intros Hb. unfold Semaphore_P. wlp_step. eapply wlp_mono; [by apply SetLevel_off |]. intros old k1 [_ [Hi Hlv]].
  eapply wlp_mono; [apply (push_spec []) |]; [| by intros [] k2 [? _]].
  apply (inv_change_same [SetLevelTo old]); try done.
  intros r. rewrite Hlv. done.
Qed.

Lemma Sleep_abs k : wlp Thread_Sleep (λ _ k', ∃ st r, a_th (abs k) !! a_cur (abs k) = Some (st, r) ∧
  a_lv (abs k) = IntOff ∧ abs k' = a_local (SleepWhile :: r) BLOCKED IntOff (abs k)) k.
Proof.
  unfold Thread_Sleep, current. wlp_step. wlp_step. wlp_step. wlp_step. split_bool. wlp_step. wlp_step. wlp_step.
  unfold modify_thread, the_thread, object, modify_sched. wlp_steps.
  set (k1 := set_k_sched _ k). eapply wlp_mono; [apply push_abs |]. intros [] k2 (st & r & Hc & E).
  assert (abs k1 = a_local (t_stack t) BLOCKED IntOff (abs k)) as E1.
  { unfold k1, abs, a_local. simpl. rewrite fmap_insert. by rewrite H. }
  rewrite E1 in Hc, E. simpl in Hc. rewrite lookup_insert_eq in Hc. injection Hc as <- <-.
  exists (t_status t), (t_stack t). split_and!; [by apply abs_current | done |].
  rewrite E. by rewrite local_local.
Qed.

Lemma while_P_spec s k : inv [WhileP s] (abs k) → wlp (while_P s) (λ _ k', inv [] (abs k')) k.
Proof.
  intros (st & r & Hc & Ha). unfold while_P. wlp_step. apply wlp_the_sem. intros x Hs.
  set (A := a_local ([WhileP s] ++ r) st (a_lv (abs k)) (abs k)) in *.
  assert (a_th A !! a_cur A = Some (st, WhileP s :: r)) as HcA by (simpl; by rewrite lookup_insert_eq).
  destruct (decide (value x = 0)) as [Hv | Hv].
  - unfold current. wlp_step. wlp_step. wlp_step. eapply wlp_mono; [apply put_sem_abs |]. intros [] k1 E1.
    wlp_step. eapply wlp_mono; [apply push_abs |]. intros [] k2 (st2 & r2 & Hc2 & E2).
    eapply wlp_mono; [apply Sleep_abs |]. intros [] k3 (st3 & r3 & Hc3 & Hlv & E3).
    rewrite E1 in Hc2, E2. simpl in Hc2. rewrite lookup_fmap in *. assert (st2 = st ∧ r2 = r) as [-> ->].
    { simpl in Hc. rewrite lookup_fmap in Hc. rewrite Hc2 in Hc. by simplify_eq. }
    rewrite E2 in Hc3, E3. simpl in Hc3. rewrite lookup_insert_eq in Hc3. injection Hc3 as <- <-.
    apply inv_nil. pose proof (ainv_block A st s r x Ha HcA Hs Hv) as Hb.
    rewrite E3, local_local. unfold A, a_block, a_local, a_set_sem in Hb |- *. simpl in Hb |- *.
    by rewrite insert_insert_eq in Hb.
  - wlp_steps. unfold checked_int in *. simplify_option_eq.
    eapply wlp_mono; [apply put_sem_abs |]. intros [] k1 E1. apply inv_nil.
    pose proof (ainv_take A st s r x Ha HcA Hs) as Ht.
    pose proof (fits_cur A Ha _ _ HcA eq_refl) as Hf. simpl in Hf.
    apply andb_true_iff in Hf as [Hl%bool_decide_eq_true _].
    rewrite E1. unfold A, a_local, a_set_sem in Ht |- *. simpl in Ht |- *.
    rewrite insert_insert_eq, insert_id in Ht by done. by rewrite Hl.
Qed.

(** ** Switching *)

Section switching.
Variable env : Env.

Lemma wlp_the_thread t k (Q : Thread → Kernel → Prop) :
  (∀ x, threads (k_sched k) !! t = Some x → Q x k) → wlp (the_thread t) Q k.
Proof. intros HQ. unfold the_thread, object. wlp_steps. by apply HQ. Qed.

Lemma Run_abs n k : wlp (Scheduler_Run env n) (λ _ k', ∃ st r,
  a_th (abs k) !! a_cur (abs k) = Some (st, r) ∧
  let th := <[a_cur (abs k) := (st, AfterSwitch :: r)]> (a_th (abs k)) in
  abs k' = mkAS (<[n := (RUNNING, default [] (snd <$> th !! n))]> th) n (a_dead (abs k)) (a_ready (abs k))
    (a_sems (abs k)) (a_lv (abs k)) (a_next (abs k))) k.
Proof.
  unfold Scheduler_Run. unfold current at 1. wlp_step. wlp_step. wlp_step.
  apply wlp_the_thread. intros t Ht. wlp_step.
  apply (wlp_mono _ (λ _ k1, abs k1 = abs k)).
  { assert (quiet match t_space t with
      | Some space => SaveUserState (currentThread (k_sched k)) ;; on_vm (SaveState space (tlb_garbage env))
      | None => mret tt end) as Hq; [| apply Hq].
    unfold SaveUserState. solve_quiet. }
  intros [] k1 E1. wlp_step. eapply wlp_mono; [apply push_abs |]. intros [] k2 (st & r & Hc & E2).
  unfold modify_sched at 1. wlp_step. wlp_step. unfold modify_thread. wlp_step. apply wlp_the_thread. intros t0 Ht0. unfold modify_sched. wlp_steps.
  exists st, r. rewrite E1 in Hc, E2. split; [done |]. cbv zeta.
  match goal with |- abs ?k3 = _ => assert (abs k3 = mkAS (<[n := (RUNNING, t_stack t0)]> (a_th (abs k2))) n
    (a_dead (abs k2)) (a_ready (abs k2)) (a_sems (abs k2)) (a_lv (abs k2)) (a_next (abs k2))) as -> end.
  { unfold abs. simpl. by rewrite fmap_insert. }
  assert (a_th (abs k2) !! n = Some (t_status t0, t_stack t0)) as Hn.
  { simpl in Ht0 |- *. by rewrite lookup_fmap, Ht0. }
  rewrite E2 in Hn |- *. simpl in Hn |- *. by rewrite Hn.
Qed.

Lemma FindNext_abs k : wlp FindNextToRun (λ o k',
  match o with
  | None => abs k' = abs k ∧ a_ready (abs k) = []
  | Some n => ∃ rest, a_ready (abs k) = n :: rest ∧
      abs k' = mkAS (a_th (abs k)) (a_cur (abs k)) (a_dead (abs k)) rest (a_sems (abs k)) (a_lv (abs k)) (a_next (abs k))
  end) k.
Proof.
  unfold FindNextToRun, modify_sched. wlp_step. wlp_step.
  destruct (readyList (k_sched k)) as [| n rest] eqn:E; wlp_steps; [done |]. by exists rest.
Qed.

Lemma sleep_while_spec k : inv [SleepWhile] (abs k) → wlp (sleep_while env) (λ _ k', inv [] (abs k')) k.
Proof.
  intros Hi. pose proof Hi as (st & r & Hc & Ha). unfold sleep_while. wlp_step.
  eapply wlp_mono; [apply FindNext_abs |]. intros [n |] k1.
  - intros (rest & Hr & E1). eapply wlp_mono; [apply Run_abs |]. intros [] k2 (st2 & r2 & Hc2 & E2).
    rewrite E1 in Hc2, E2. simpl in Hc2, E2. simpl in Hc. rewrite Hc2 in Hc. injection Hc as -> ->.
    set (A := a_local ([SleepWhile] ++ r) st (a_lv (abs k)) (abs k)) in *.
    assert (a_th A !! a_cur A = Some (st, SleepWhile :: r)) as HcA by (simpl; by rewrite lookup_insert_eq).
    pose proof (runs_cur A Ha _ _ HcA) as Hf. simpl in Hf. apply andb_true_iff in Hf as [Hl%bool_decide_eq_true Hf].
    apply inv_nil.
    assert (ainv (a_switch st r n rest [] A)) as Hs.
    { apply (ainv_switch A st st (SleepWhile :: r)); try done. by left. }
    unfold A, a_switch in Hs. simpl in Hs. rewrite insert_insert_eq, app_nil_r in Hs.
    cbv zeta in E2. rewrite E2. simpl. by rewrite Hl.
  - intros [E1 _]. wlp_step. eapply wlp_mono; [apply (push_spec []) |]; [by rewrite E1 |].
    intros [] k2 [Hi2 _]. apply (quiet_wlp _ (inv [])); [apply quiet_Idle | done].
Qed.

Lemma Yield_spec k : busy (abs k) → wlp (Thread_Yield env) (λ _ k', inv [] (abs k')) k.
Proof.
  intros Hb. unfold Thread_Yield. wlp_step. eapply wlp_mono; [by apply SetLevel_off |]. intros old k1 [_ Hoff].
  wlp_step. eapply wlp_mono; [apply FindNext_abs |]. intros [n |] k2.
  - intros (rest & Hr & E2). wlp_step. eapply wlp_mono; [apply push_abs |]. intros [] k3 (st & r & Hc3 & E3).
    unfold current. wlp_step. wlp_step. wlp_step. eapply wlp_mono; [apply ReadyToRun_abs |].
    intros [] k4 (st4 & ss4 & Hc4 & E4). eapply wlp_mono; [apply Run_abs |]. intros [] k5 (st5 & r5 & Hc5 & E5).
    destruct Hoff as [(st1 & r1 & Hc1 & Ha) Hlv].
    rewrite E2 in Hc3, E3. simpl in Hc3, Hc1. rewrite Hc1 in Hc3. injection Hc3 as <- <-.
    assert (currentThread (k_sched k3) = a_cur (abs k1)) as Ecur.
    { change (a_cur (abs k3) = a_cur (abs k1)). by rewrite E3. }
    rewrite Ecur in Hc4, E4. rewrite E3 in Hc4, E4. simpl in Hc4, E4. rewrite lookup_insert_eq in Hc4. injection Hc4 as <- <-.
    rewrite E4 in Hc5, E5. simpl in Hc5, E5. rewrite lookup_insert_eq in Hc5. injection Hc5 as <- <-.
    set (A := a_local ([SetLevelTo old] ++ r1) st1 (a_lv (abs k1)) (abs k1)) in *.
    assert (a_th A !! a_cur A = Some (st1, SetLevelTo old :: r1)) as HcA by (simpl; by rewrite lookup_insert_eq).
    pose proof (fits_cur A Ha _ _ HcA eq_refl) as Hf. simpl in Hf.
    assert (ainv (a_switch READY (SetLevelTo old :: r1) n rest [a_cur A] A)) as Hs.
    { apply (ainv_switch A st1 READY (SetLevelTo old :: r1)); try done. right. split; [done | by right]. }
    apply inv_nil. unfold A, a_switch in Hs. simpl in Hs. rewrite insert_insert_eq in Hs.
    cbv zeta in E5. rewrite E5. rewrite !insert_insert_eq. simpl in Hlv. rewrite Hlv. exact Hs.
  - intros [E2 _]. wlp_step. eapply wlp_mono; [apply SetLevel_restore; by rewrite E2 |].
    intros l k3 H3. by wlp_steps.
Qed.

(** [Finish] after the interrupts are off: with [q] left on the stack. *)
Lemma finish_tail p k : (∃ st r, a_th (abs k) !! a_cur (abs k) = Some (st, r) ∧
    ainv (a_local (p ++ r) st (a_lv (abs k)) (abs k)) ∧ asleep (p ++ r) = false ∧
    (∀ s, waits s (p ++ r) = false) ∧ (∀ s, waits s (SleepWhile :: r) = false) ∧ fits IntOff r = true) →
  wlp (this ← current; modify_sched (set_toBeDestroyed (Some this)) ;; Thread_Sleep) (λ _ k', inv [] (abs k')) k.
Proof.
  intros (st & r & Hc & Ha & Hsl & Hw & Hwq & Hf). unfold current, modify_sched. wlp_steps.
  eapply wlp_mono; [apply Sleep_abs |]. intros [] k2 (st2 & r2 & Hc2 & Hlv & E2).
  simpl in Hc, Hc2. rewrite Hc in Hc2. injection Hc2 as <- <-.
  pose proof (ainv_finish _ st (p ++ r) r Ha ltac:(simpl; by rewrite lookup_insert_eq) Hsl Hw Hwq Hf) as Hfin.
  apply inv_nil. rewrite E2. unfold a_finish, a_local in Hfin |- *. simpl in Hfin |- *.
  by rewrite insert_insert_eq in Hfin.
Qed.

Lemma call_finish_spec k : inv [CallFinish] (abs k) → wlp Thread_Finish (λ _ k', inv [] (abs k')) k.
Proof.
  intros (st & r & Hc & Ha). unfold Thread_Finish.
  pose proof (fits_cur _ Ha st (CallFinish :: r) ltac:(simpl; by rewrite lookup_insert_eq) eq_refl) as Hf. simpl in Hf.
  destruct r; [| done].
  wlp_step. eapply wlp_mono; [apply SetLevel_off_abs |]. intros l k1 [_ E1].
  apply (finish_tail [CallFinish]). exists st, []. rewrite E1. split_and!; try done.
  change (ainv (a_local [CallFinish] st IntOff (abs k))).
  pose proof (ainv_local _ st [CallFinish] [CallFinish] IntOff Ha ltac:(simpl; by rewrite lookup_insert_eq)) as H.
  rewrite local_local in H. by apply H.
Qed.

Lemma reap_local d q st a : d ≠ a_cur a →
  a_reap d (a_local q st (a_lv a) a) = a_local q st (a_lv a) (a_reap d a).
Proof. intros Hn. unfold a_reap, a_local. simpl. by rewrite delete_insert_ne. Qed.

Lemma after_switch_spec k : inv [AfterSwitch] (abs k) → wlp (after_switch env) (λ _ k', inv [] (abs k')) k.
Proof.
  intros Hi. unfold after_switch. wlp_step. wlp_step. wlp_step.
  apply (wlp_mono _ (λ _ k1, inv [AfterSwitch] (abs k1))).
  - destruct (threadToBeDestroyed (k_sched k)) as [d |] eqn:Ed; [| by wlp_steps].
    unfold Thread_delete. wlp_step. wlp_step. apply wlp_the_thread. intros x Hx.
    wlp_step. eapply wlp_mono; [apply quiet_on_table |]. intros [] k1 E1.
    wlp_step. eapply wlp_mono; [apply quiet_on_sems |]. intros [] k2 E2.
    unfold current, modify_sched. wlp_step. wlp_step. wlp_step. wlp_step. split_bool. wlp_steps.
    set (k3 := set_k_sched _ _). assert (abs k3 = a_reap d (abs k)) as ->.
    { transitivity (a_reap d (abs k2)); [| by rewrite E2, E1].
      unfold k3, abs, a_reap. simpl. by rewrite fmap_delete. }
    assert (d ≠ a_cur (abs k)) as Hn. { rewrite <- E1, <- E2. done. }
    destruct Hi as (st & r & Hc & Ha). exists st, r.
    split; [simpl; rewrite lookup_delete_ne by (simpl in Hn; congruence); exact Hc |].
    pose proof (ainv_reap _ d Ha Ed Hn) as Hr. by rewrite reap_local in Hr.
  - intros [] k1 Hi1. unfold current, RestoreUserState. apply (quiet_wlp _ (inv [])); [solve_quiet |].
    apply (inv_change_same [AfterSwitch]); try done.
    + intros s r Hw. simpl in *. by destruct r as [| [] ?].
    + intros r Hf. simpl in Hf. apply andb_true_iff in Hf as [Hl%bool_decide_eq_true Hf]. simpl. by rewrite Hl.
Qed.
End switching.

(** ** New objects *)

Lemma inv_alloc p n a : inv p a → a_next a ≤ n → inv p (a_alloc n a).
Proof.
  intros (st & r & Hc & Ha) Hn. exists st, r. split; [done |]. exact (ainv_alloc _ n Ha Hn).
Qed.

Lemma alloc_abs k : wlp alloc (λ r k', r = a_next (abs k) ∧ abs k' = a_alloc (a_next (abs k) + 1) (abs k)) k.
Proof. unfold alloc. by wlp_steps. Qed.

Lemma alloc_spec p k : inv p (abs k) → wlp alloc (λ _ k', inv p (abs k') ∧ a_lv (abs k') = a_lv (abs k)) k.
Proof.
  intros Hi. eapply wlp_mono; [apply alloc_abs |]. intros r k1 [_ ->]. split; [| done]. apply inv_alloc; [done | lia].
Qed.

Lemma Semaphore_new_spec p v k : inv p (abs k) →
  wlp (Semaphore_new v) (λ _ k', inv p (abs k') ∧ a_lv (abs k') = a_lv (abs k)) k.
Proof.
  intros Hi. unfold Semaphore_new. wlp_step. eapply wlp_mono; [apply alloc_abs |]. intros s k1 [-> E1].
  wlp_step. eapply wlp_mono; [apply put_sem_abs |]. intros [] k2 E2. wlp_steps. rewrite E2, E1. split; [| done].
  destruct Hi as (st & r & Hc & Ha). exists st, r. split; [done |].
  exact (ainv_new_sem _ v Ha).
Qed.

Lemma Semaphore_delete_spec p s k : inv p (abs k) → wlp (Semaphore_delete s) (λ _ k', inv p (abs k')) k.
Proof.
  intros (st & r & Hc & Ha). unfold Semaphore_delete, modify_synch. wlp_step. apply wlp_the_sem. intros x Hx.
  wlp_steps. exists st, r. split; [done |]. exact (ainv_del_sem _ s Ha).
Qed.

Lemma idle_fresh p a t n : inv p a → a_next a ≤ t < n → idle_thread (a_alloc n a) t.
Proof.
  intros (st & r & Hc & Ha) [Ht Hn]. set (A := a_local _ st _ a) in *.
  destruct (ai_fresh A Ha t Ht) as [Hth _]. split; simpl.
  - intros ->. simpl in Hth. by rewrite lookup_insert_eq in Hth.
  - intros Hp. destruct (placed_thread A Ha t Hp) as (? & ? & ?). congruence.
  - intros Hd. destruct (dead_thread A Ha t Hd) as (? & ? & ?). congruence.
  - intros s st' ss Hl. simpl in Hth. apply lookup_insert_None in Hth as [Hth _]. congruence.
  - done.
Qed.

Lemma idle_local a t q st lv : idle_thread a t → idle_thread (a_local q st lv a) t.
Proof.
  intros [Hc Hp Hd Hw Hn]. split; try done. intros s st' ss. simpl. rewrite lookup_insert_ne by done. apply Hw.
Qed.

Lemma inv_put_thread p a t st ss extra : inv p a → idle_thread a t → suspended ss = true → (∀ s, waits s ss = false) →
  extra = [] ∨ (extra = [t] ∧ st = READY) → inv p (a_put_thread t st ss extra a).
Proof.
  intros (st0 & r & Hc & Ha) Hi Hf Hws Hx. exists st0, r.
  pose proof (it_cur _ _ Hi) as Hn. split; [simpl; by rewrite lookup_insert_ne |].
  pose proof (ainv_put_thread _ t st ss extra Ha (idle_local _ _ _ _ _ Hi) Hf Hws Hx) as H.
  unfold a_put_thread, a_local in H |- *. simpl in H |- *. by rewrite insert_insert_ne in H.
Qed.

Lemma idle_put a t st ss : idle_thread a t → (∀ s, waits s ss = false) → idle_thread (a_put_thread t st ss [] a) t.
Proof.
  intros [Hc Hp Hd Hw Hn] Hws. split; simpl; try done.
  - unfold placed. simpl. by rewrite app_nil_r.
  - intros s st' ss'. rewrite lookup_insert_eq. intros [= <- <-]. apply Hws.
Qed.

(** A quiet computation first: what is known of the view carries over. *)
Ltac quiet_step :=
  apply wlp_bind;
  match goal with
  | |- wlp ?c _ ?k =>
      let Hq := fresh "Hq" in
      assert (quiet c) as Hq by solve_quiet;
      eapply wlp_mono; [apply (Hq k) |]; clear Hq;
      let a := fresh "a" in let k1 := fresh "k" in let E := fresh "E" in
      intros a k1 E; cbv beta; try rewrite <- E in *; clear E
  end.

Section creation.
Variable env : Env.

Lemma Thread_new_abs k : wlp (Thread_new env) (λ t k', t = a_next (abs k) ∧
  abs k' = a_put_thread t JUST_CREATED [] [] (a_alloc (t + 3) (abs k))) k.
Proof.
  unfold Thread_new.
  wlp_step. eapply wlp_mono; [apply alloc_abs |]. intros t k1 [-> E1].
  wlp_step. eapply wlp_mono; [apply alloc_abs |]. intros pt k2 [-> E2].
  wlp_step. eapply wlp_mono; [apply alloc_abs |]. intros ps k3 [-> E3].
  set (t := a_next (abs k)) in *.
  assert (a_alloc (t + 3) (abs k) = abs k3) as E4.
  { rewrite E3, E2, E1. unfold a_alloc. simpl. f_equal. unfold t. simpl. lia. }
  clearbody t. clear E1 E2 E3. do 6 quiet_step.
  unfold modify_sched. wlp_step. wlp_step. wlp_step. split; [done |]. rewrite E4.
  unfold abs, a_put_thread. simpl. by rewrite fmap_insert, app_nil_r.
Qed.

Lemma Thread_new_spec p k : inv p (abs k) →
  wlp (Thread_new env) (λ t k', inv p (abs k') ∧ a_lv (abs k') = a_lv (abs k) ∧ idle_thread (abs k') t) k.
Proof.
  intros Hi. eapply wlp_mono; [apply Thread_new_abs |]. intros t k1 [-> ->]. set (t := a_next (abs k)).
  assert (idle_thread (a_alloc (t + 3) (abs k)) t) as Hid by (apply (idle_fresh p); [done | unfold t; lia]).
  split_and!; [| done | by apply idle_put].
  apply inv_put_thread; [apply inv_alloc; [done | unfold t; lia] | done | done | done | by left].
Qed.

Lemma Fork_spec t f k : busy (abs k) → idle_thread (abs k) t → wlp (Thread_Fork t f) (λ _ k', inv [] (abs k')) k.
Proof.
  intros Hb Hid. unfold Thread_Fork. unfold modify_thread at 1. wlp_step. wlp_step. apply wlp_the_thread.
  intros x Hx. unfold modify_sched. wlp_step. set (k1 := set_k_sched _ _).
  set (F := [EnableInt; CallFunc f; CallFinish]) in *.
  assert (abs k1 = a_put_thread t (t_status x) F [] (abs k)) as E1.
  { unfold k1, abs, a_put_thread. simpl. by rewrite fmap_insert, app_nil_r. }
  assert (busy (abs k1)) as Hb1 by (rewrite E1; apply inv_put_thread; [done | done | done | done | by left]).
  assert (idle_thread (abs k1) t) as Hid1 by (rewrite E1; by apply idle_put).
  assert (a_th (abs k1) !! t = Some (t_status x, F)) as Ht1 by (rewrite E1; simpl; by rewrite lookup_insert_eq).
  clearbody k1. wlp_step. eapply wlp_mono; [apply SetLevel_off_abs |]. intros old k2 [-> E2].
  assert (off (a_lv (abs k1)) (abs k2)) as [Hi2 Hlv2].
  { rewrite E2. split; [| done]. by apply (inv_change [Client]). }
  wlp_step. eapply wlp_mono; [apply ReadyToRun_abs |]. intros [] k3 (st & ss & Ht & E3).
  rewrite E2 in Ht. simpl in Ht, Ht1. rewrite Ht1 in Ht. injection Ht as <- <-.
  change (abs k3 = a_put_thread t READY F [t] (abs k2)) in E3.
  wlp_step. eapply wlp_mono; [apply SetLevel_restore |].
  - rewrite E3. split; [| done]. apply inv_put_thread; [done | | done | done | by right].
    rewrite E2. by destruct Hid1.
  - intros l k4 H4. by wlp_steps.
Qed.
End creation.

(** ** System calls and statements *)

Ltac push_step :=
  apply wlp_bind; eapply wlp_mono; [apply busy_push; [eassumption | by intros ? ?] |];
  let k1 := fresh "k" in let Hb := fresh "Hb" in let Hl := fresh "Hl" in
  intros [] k1 [Hb Hl]; cbv beta.

Lemma busy_quiet {A} (c : M Kernel A) k : quiet c → busy (abs k) → wlp c (λ _ k', inv [] (abs k')) k.
Proof. intros Hq Hb. apply (quiet_wlp _ (inv [])); [done |]. by apply busy_done. Qed.

Lemma Nachos_Open_quiet : quiet Nachos_Open.
Proof. unfold Nachos_Open. solve_quiet. Qed.
Lemma Nachos_Read_quiet : quiet Nachos_Read.
Proof. unfold Nachos_Read. solve_quiet. Qed.
Lemma Nachos_Create_quiet : quiet Nachos_Create.
Proof. unfold Nachos_Create. solve_quiet. Qed.
Lemma Nachos_Close_quiet : quiet Nachos_Close.
Proof. unfold Nachos_Close. solve_quiet. Qed.
Lemma join_done_quiet id : quiet (join_done id).
Proof. unfold join_done. solve_quiet. Qed.

Lemma Nachos_Write_spec k : busy (abs k) → wlp Nachos_Write (λ _ k', inv [] (abs k')) k.
Proof.
  intros Hb. unfold Nachos_Write. do 2 quiet_step. destruct (decide (a0 < 0)); [apply wlp_stop |].
  do 3 quiet_step. push_step. by apply Semaphore_P_spec.
Qed.

Lemma write_switch_spec id buffer size k : busy (abs k) →
  wlp (write_switch id buffer size) (λ _ k', inv [] (abs k')) k.
Proof.
  assert (∀ n k, busy (abs k) → wlp (count_written n ;; k ← get; push [ReturnFromSyscall] ;; Semaphore_V (Console (k_io k)))
    (λ _ k', inv [] (abs k')) k) as Hfin.
  { intros n k' Hb. do 2 quiet_step. push_step. by apply Semaphore_V_spec. }
  intros Hb. unfold write_switch. cbv zeta.
  destruct (decide (id = ConsoleInput)); [quiet_step; by apply Hfin |].
  destruct (decide (id = ConsoleOutput)); [do 2 quiet_step; by apply Hfin |].
  destruct (decide (id = ConsoleError)); [do 2 quiet_step; by apply Hfin |].
  do 2 quiet_step. destruct a0; simpl; [| apply busy_quiet; [solve_quiet | done]].
  do 3 quiet_step. by apply Hfin.
Qed.

Lemma SemCreate_spec k : busy (abs k) → wlp Nachos_SemCreate (λ _ k', inv [] (abs k')) k.
Proof.
  intros Hb. unfold Nachos_SemCreate. quiet_step. wlp_step.
  eapply wlp_mono; [by apply (Semaphore_new_spec [Client]) |]. intros s k1 [Hb1 _].
  apply busy_quiet; [solve_quiet | done].
Qed.

Lemma SemWait_spec k : busy (abs k) → wlp Nachos_SemWait (λ _ k', inv [] (abs k')) k.
Proof.
  intros Hb. unfold Nachos_SemWait. do 3 quiet_step.
  destruct (decide (a1 ≠ -1)); [push_step; by apply Semaphore_P_spec | apply busy_quiet; [solve_quiet | done]].
Qed.
Lemma SemSignal_spec k : busy (abs k) → wlp Nachos_SemSignal (λ _ k', inv [] (abs k')) k.
Proof.
  intros Hb. unfold Nachos_SemSignal. do 3 quiet_step.
  destruct (decide (a1 ≠ -1)); [push_step; by apply Semaphore_V_spec | apply busy_quiet; [solve_quiet | done]].
Qed.
Lemma SemDestroy_spec k : busy (abs k) → wlp Nachos_SemDestroy (λ _ k', inv [] (abs k')) k.
Proof.
  intros Hb. unfold Nachos_SemDestroy. do 3 quiet_step.
  destruct (decide (a1 ≠ -1)); [push_step; by apply Destroy_spec | apply busy_quiet; [solve_quiet | done]].
Qed.

Lemma Join_spec k : busy (abs k) → wlp Nachos_Join (λ _ k', inv [] (abs k')) k.
Proof.
  intros Hb. unfold Nachos_Join. do 2 quiet_step. destruct a0; [| apply busy_quiet; [solve_quiet | done]].
  wlp_step. eapply wlp_mono; [by apply (Semaphore_new_spec [Client]) |]. intros s k2 [Hb2 _].
  change (busy (abs k2)) in Hb2. clear Hb. do 2 quiet_step. push_step. by apply Semaphore_P_spec.
Qed.

Lemma Acquire_spec l k : busy (abs k) → wlp (Lock_Acquire l) (λ _ k', inv [] (abs k')) k.
Proof. intros Hb. unfold Lock_Acquire. quiet_step. push_step. by apply Semaphore_P_spec. Qed.

Lemma quiet_held l : quiet (isHeldByCurrentThread l).
Proof. unfold isHeldByCurrentThread. solve_quiet. Qed.
#[local] Hint Resolve quiet_held : quiet.

Lemma Release_spec l k : busy (abs k) → wlp (Lock_Release l) (λ _ k', inv [] (abs k')) k.
Proof. intros Hb. unfold Lock_Release. do 4 quiet_step. by apply Semaphore_V_spec. Qed.

Lemma Wait_spec c l k : busy (abs k) → wlp (Condition_Wait c l) (λ _ k', inv [] (abs k')) k.
Proof.
  intros Hb. unfold Condition_Wait. do 2 quiet_step.
  wlp_step. eapply wlp_mono; [by apply (Semaphore_new_spec [Client]) |]. intros w k2 [Hb2 _].
  change (busy (abs k2)) in Hb2. clear Hb. do 2 quiet_step. push_step. by apply Release_spec.
Qed.

Lemma Signal_spec c l k : busy (abs k) → wlp (Condition_Signal c l) (λ _ k', inv [] (abs k')) k.
Proof.
  intros Hb. unfold Condition_Signal. do 3 quiet_step.
  destruct (waitQueue a1); [apply busy_quiet; [solve_quiet | done] |]. quiet_step. by apply Semaphore_V_spec.
Qed.

Lemma Broadcast_spec c l k : busy (abs k) → wlp (Condition_Broadcast c l) (λ _ k', inv [] (abs k')) k.
Proof.
  intros Hb. unfold Condition_Broadcast. quiet_step.
  destruct (waitQueue a); [apply busy_quiet; [solve_quiet | done] |]. push_step. by apply Signal_spec.
Qed.

Section statements.
Variable env : Env.

Lemma idle_push b t k : idle_thread (abs k) t → wlp (push b) (λ _ k', idle_thread (abs k') t) k.
Proof. intros Hid. eapply wlp_mono; [apply push_abs |]. intros [] k1 (st & r & _ & ->). by apply idle_local. Qed.

Lemma wlp_both {S A} (m : M S A) P Q s : wlp m P s → wlp m Q s → wlp m (λ a s', P a s' ∧ Q a s') s.
Proof. intros HP HQ a s' Hrun. split; [by apply HP | by apply HQ]. Qed.

(** Push, then fork a thread that was created before. *)
Lemma push_fork b t f k : busy (abs k) → idle_thread (abs k) t → keeps b →
  wlp (push b ;; Thread_Fork t f) (λ _ k', inv [] (abs k')) k.
Proof.
  intros Hb Hid Hk. wlp_step.
  eapply wlp_mono; [apply wlp_both; [by apply busy_push | by apply idle_push] |].
  intros [] k1 [[Hb1 _] Hid1]. by apply Fork_spec.
Qed.

Lemma idle_alloc a t n : idle_thread a t → a_next a ≤ n → idle_thread (a_alloc n a) t.
Proof. intros [Hc Hp Hd Hw Hn] Hle. split; try done. simpl. lia. Qed.

Lemma Nachos_Fork_spec k : busy (abs k) → wlp (Nachos_Fork env) (λ _ k', inv [] (abs k')) k.
Proof.
  intros Hb. unfold Nachos_Fork. wlp_step.
  eapply wlp_mono; [by apply (Thread_new_spec env [Client]) |]. intros t k1 (Hb1 & _ & Hid1).
  change (busy (abs k1)) in Hb1. clear Hb. do 9 quiet_step.
  wlp_step. eapply wlp_mono; [apply alloc_abs |]. intros sp kx [_ E2].
  match goal with H : busy (abs ?kk), H' : idle_thread (abs ?kk) _ |- _ =>
    apply (inv_alloc [Client] (a_next (abs kk) + 1)) in H; [| lia];
    apply (idle_alloc _ _ (a_next (abs kk) + 1)) in H'; [| lia];
    rewrite <- E2 in H, H' end.
  clear E2. do 3 quiet_step. by apply push_fork.
Qed.

Lemma Nachos_Exec_spec k : busy (abs k) → wlp (Nachos_Exec env) (λ _ k', inv [] (abs k')) k.
Proof.
  intros Hb. unfold Nachos_Exec. do 2 quiet_step. wlp_step.
  eapply wlp_mono; [by apply (Thread_new_spec env [Client]) |]. intros t kx (Hb2 & _ & Hid2).
  change (busy (abs kx)) in Hb2. clear Hb. quiet_step.
  destruct (decide (a1 = -1)); [apply busy_quiet; [solve_quiet | done] |]. quiet_step. by apply push_fork.
Qed.

Lemma exit_entry_spec o ind k : off o (abs k) → wlp (exit_entry ind) (λ _ k', off o (abs k')) k.
Proof.
  intros Ho. unfold exit_entry. quiet_step. destruct a; [| by wlp_steps]. do 2 quiet_step.
  destruct (decide _); [| by wlp_steps]. destruct (join_s a); [by apply Semaphore_V_nested |].
  apply (quiet_wlp _ (off o)); [solve_quiet | done].
Qed.

Lemma exit_loop_spec o n : ∀ lo k, off o (abs k) → wlp (for_range lo n exit_entry) (λ _ k', off o (abs k')) k.
Proof.
  induction n as [| n IH]; intros lo k Ho; simpl; [by wlp_steps |].
  wlp_step. eapply wlp_mono; [by apply exit_entry_spec |]. intros [] k1 Ho1. by apply IH.
Qed.

Lemma Nachos_Exit_spec k : busy (abs k) → wlp (Nachos_Exit env) (λ _ k', inv [] (abs k')) k.
Proof.
  intros Hb. unfold Nachos_Exit. wlp_step. eapply wlp_mono; [by apply SetLevel_off |]. intros o kx1 [_ Ho].
  clear Hb. wlp_step. eapply wlp_mono; [apply (exit_loop_spec o); exact Ho |]. intros [] kx2 Ho2. clear Ho.
  do 2 quiet_step. wlp_step. eapply wlp_mono; [apply FindNext_abs |]. intros next kx5 Hnext.
  destruct Ho2 as [(st & r & Hc & Ha) Hlv]. set (A := a_local ([SetLevelTo o] ++ r) st _ _) in *.
  assert (a_th A !! a_cur A = Some (st, SetLevelTo o :: r)) as HcA by (simpl; by rewrite lookup_insert_eq).
  pose proof (fits_cur A Ha _ _ HcA eq_refl) as Hf. simpl in Hf.
  wlp_step. eapply wlp_mono; [apply push_abs |]. intros [] kx6 (st6 & r6 & Hc6 & E6).
  destruct next as [n |].
  - destruct Hnext as (rest & Hr & E5). eapply wlp_mono; [apply Run_abs |]. intros [] kx7 (st7 & r7 & Hc7 & E7).
    rewrite E5 in Hc6, E6. simpl in Hc, Hc6. rewrite Hc in Hc6. injection Hc6 as <- <-.
    rewrite E6 in Hc7, E7. simpl in Hc7, E7. rewrite lookup_insert_eq in Hc7. injection Hc7 as <- <-.
    assert (ainv (a_switch st (SetLevelTo o :: r) n rest [] A)) as Hs.
    { apply (ainv_switch A st st (SetLevelTo o :: r)); try done. right. split; [done | by left]. }
    apply inv_nil. unfold A, a_switch in Hs. simpl in Hs. rewrite insert_insert_eq, app_nil_r in Hs.
    cbv zeta in E7. rewrite E7. rewrite insert_insert_eq. simpl in Hlv. rewrite Hlv. exact Hs.
  - destruct Hnext as [E5 _]. rewrite E5 in Hc6, E6. simpl in Hc, Hc6. rewrite Hc in Hc6. injection Hc6 as <- <-.
    unfold Thread_Finish. wlp_step. eapply wlp_mono; [apply SetLevel_off_abs |]. intros l kx7 [_ E7].
    rewrite E6 in E7. simpl in Hlv. unfold A in Ha, HcA, Hf. simpl in Ha.
    apply (finish_tail []). exists st, (SetLevelTo o :: r). rewrite E7.
    split_and!; try done.
    unfold a_set_lv, a_local in Ha |- *. simpl in Ha |- *. rewrite insert_insert_eq. rewrite Hlv in Ha. exact Ha.
Qed.

Lemma run_user_fits r : fits IntOn (run_user ++ r) = true.
Proof. done. Qed.

(** The functions of new threads run with interrupts on. *)
Lemma call_func_spec f k : inv [CallFunc f] (abs k) → wlp (call_func env f) (λ _ k', inv [] (abs k')) k.
Proof.
  intros Hi. assert (busy (abs k) ∧ a_lv (abs k) = IntOn) as [Hb Hlv].
  { destruct Hi as (st & r & Hc & Ha) eqn:E. clear E.
    pose proof (fits_cur _ Ha st (CallFunc f :: r) ltac:(simpl; by rewrite lookup_insert_eq) eq_refl) as Hf. simpl in Hf.
    apply andb_true_iff in Hf as [Hl%bool_decide_eq_true Hf]. split; [| done].
    apply (inv_change_same [CallFunc f]); [by exists st, r | done | done |].
    intros r' Hf'. simpl in Hf' |- *. apply andb_true_iff in Hf' as [_ ?]. by rewrite Hl. }
  clear Hi. assert (∀ k, busy (abs k) → a_lv (abs k) = IntOn → wlp (push run_user) (λ _ k', inv [] (abs k')) k) as Hrun.
  { intros k' Hb' Hlv'. eapply wlp_mono; [apply (push_spec []) |]; [| by intros [] k2 [? _]].
    apply (inv_change_same [Client]); try done. intros r _. simpl app. rewrite Hlv'. apply run_user_fits. }
  destruct f; simpl.
  - unfold fork_thread. do 6 quiet_step. by apply Hrun.
  - unfold exec_thread. do 2 quiet_step. destruct a0; [| apply busy_quiet; [solve_quiet | done]].
    wlp_step. eapply wlp_mono; [by apply (alloc_spec [Client]) |]. intros sp kx [Hb1 Hlv1].
    change (busy (abs kx)) in Hb1. rewrite Hlv in Hlv1. clear Hb Hlv. do 7 quiet_step. by apply Hrun.
  - unfold StartProcess. quiet_step. destruct a; [| apply wlp_stop].
    wlp_step. eapply wlp_mono; [by apply (alloc_spec [Client]) |]. intros sp kx [Hb1 Hlv1].
    change (busy (abs kx)) in Hb1. rewrite Hlv in Hlv1. clear Hb Hlv. do 5 quiet_step. by apply Hrun.
  - eapply wlp_mono; [by apply busy_push |]. intros [] k1 [H1 _]. by apply busy_done.
Qed.

Lemma tick_spec k : inv [Tick] (abs k) → wlp (tick env) (λ _ k', inv [] (abs k')) k.
Proof.
  intros Hi. unfold tick. wlp_step. eapply wlp_mono; [apply OneTick_abs |]. intros r k1 E1.
  assert (busy (abs k1)) as Hb.
  { rewrite E1. apply (inv_change [Tick]); try done.
    intros r' Hf. simpl in Hf |- *. by apply andb_true_iff in Hf as [_ ?]. }
  destruct r as [old |]; [| wlp_steps; by apply busy_done].
  eapply wlp_mono; [by apply busy_push |]. intros [] k2 [H2 _]. by apply busy_done.
Qed.

(** A user instruction: exceptions push a system call or serve a fault. *)
Definition keeps_busy {A} (c : M Kernel A) : Prop := ∀ k, busy (abs k) → wlp c (λ _ k', busy (abs k')) k.

Lemma keeps_busy_quiet {A} (c : M Kernel A) : quiet c → keeps_busy c.
Proof. intros Hq k Hb. by apply quiet_wlp. Qed.
Lemma keeps_busy_bind {A B} (m : M Kernel A) (f : A → M Kernel B) :
  keeps_busy m → (∀ a, keeps_busy (f a)) → keeps_busy (m ≫= f).
Proof.
  intros Hm Hf k Hb. wlp_step. eapply wlp_mono; [by apply Hm |]. intros a k1 Hb1. by apply Hf.
Qed.

Lemma quiet_on_machine {A} (c : M Machine A) : quiet (on_machine c).
Proof.
  intros k a k'. unfold on_machine, zoom. destruct (c (machine k)) as [[b m] |]; [by intros [= <- <-] | done].
Qed.

Lemma keeps_busy_exception which badVAddr : keeps_busy (RaiseException ExceptionHandler which badVAddr).
Proof.
  unfold RaiseException. apply keeps_busy_bind; [apply keeps_busy_quiet, quiet_on_machine | intros _].
  apply keeps_busy_bind; [apply keeps_busy_quiet, quiet_on_machine | intros _].
  apply keeps_busy_bind; [by apply keeps_busy_quiet, quiet_modify | intros _].
  apply keeps_busy_bind; [| intros _; by apply keeps_busy_quiet, quiet_modify].
  unfold ExceptionHandler. destruct which;
    try (apply keeps_busy_quiet; apply quiet_bind; [apply quiet_current_space | intros sp; apply quiet_on_vm]).
  intros k Hb. eapply wlp_mono; [by apply busy_push |]. by intros [] k1 [? _].
Qed.

Lemma keeps_busy_instruction : keeps_busy (OneInstruction ExceptionHandler).
Proof.
  unfold OneInstruction, ReadMem. apply keeps_busy_bind; [apply keeps_busy_quiet, quiet_on_machine | intros pc].
  apply keeps_busy_bind.
  { apply keeps_busy_bind; [apply keeps_busy_quiet, quiet_on_machine | intros [pa | e]].
    - apply keeps_busy_quiet. apply quiet_bind; [apply quiet_on_machine | intros v; apply quiet_ret].
    - apply keeps_busy_bind; [apply keeps_busy_exception | intros _; apply keeps_busy_quiet, quiet_ret]. }
  intros [raw |]; [| apply keeps_busy_quiet, quiet_ret].
  apply keeps_busy_bind; [apply keeps_busy_quiet, quiet_lift | intros instr].
  apply keeps_busy_bind; [apply keeps_busy_quiet, quiet_on_machine | intros npc].
  apply keeps_busy_bind; [apply keeps_busy_quiet, quiet_on_machine | intros [] ].
  - apply keeps_busy_exception.
  - apply keeps_busy_quiet, quiet_on_machine.
Qed.

Lemma run_turn_spec k : inv [RunUser] (abs k) → wlp run_turn (λ _ k', inv [] (abs k')) k.
Proof.
  intros Hi. unfold run_turn. wlp_step. eapply wlp_mono; [apply (push_spec [Client]) |].
  - by apply (inv_change_same [RunUser]).
  - intros [] k1 [Hb _]. eapply wlp_mono; [by apply keeps_busy_instruction |]. intros [] k2. apply busy_done.
Qed.

Lemma busy_new {A} (c : M Kernel A) k : (∀ k, busy (abs k) → wlp c (λ _ k', busy (abs k')) k) →
  busy (abs k) → wlp (_ ← c; mret tt) (λ _ k', inv [] (abs k')) k.
Proof. intros Hc Hb. wlp_step. eapply wlp_mono; [by apply Hc |]. intros a k1 Hb1. wlp_steps. by apply busy_done. Qed.

Lemma new_semaphore_busy v k : busy (abs k) → wlp (Semaphore_new v) (λ _ k', busy (abs k')) k.
Proof. intros Hb. eapply wlp_mono; [by apply (Semaphore_new_spec [Client]) |]. by intros s k1 [? _]. Qed.

Lemma new_lock_busy k : busy (abs k) → wlp Lock_new (λ _ k', busy (abs k')) k.
Proof.
  intros Hb. unfold Lock_new. wlp_step. eapply wlp_mono; [by apply (alloc_spec [Client]) |]. intros l k1 [Hb1 _].
  wlp_step. eapply wlp_mono; [by apply new_semaphore_busy |]. intros m k2 Hb2. clear Hb Hb1.
  apply (quiet_wlp _ busy); [solve_quiet | done].
Qed.

Lemma new_condition_busy k : busy (abs k) → wlp Condition_new (λ _ k', busy (abs k')) k.
Proof.
  intros Hb. unfold Condition_new. wlp_step. eapply wlp_mono; [by apply (alloc_spec [Client]) |]. intros c k1 [Hb1 _].
  apply (quiet_wlp _ busy); [solve_quiet | done].
Qed.

Lemma delete_lock_spec l k : busy (abs k) → wlp (Lock_delete l) (λ _ k', inv [] (abs k')) k.
Proof.
  intros Hb. unfold Lock_delete. quiet_step. wlp_step. eapply wlp_mono; [by apply (Semaphore_delete_spec [Client]) |].
  intros [] k1 Hb1. apply busy_quiet; [unfold modify_synch; solve_quiet | done].
Qed.

Lemma client_call_spec op k : busy (abs k) → wlp (client_call env op) (λ _ k', inv [] (abs k')) k.
Proof.
  intros Hb. destruct op; simpl; try (push_step);
    [apply busy_new; [apply new_semaphore_busy | done] | apply busy_new; [apply new_lock_busy | done]
    | apply busy_new; [apply new_condition_busy | done]
    | eapply wlp_mono; [by apply (Semaphore_delete_spec [Client]) | intros [] k1; apply busy_done]
    | by apply delete_lock_spec
    | apply busy_quiet; [unfold Condition_delete, modify_synch; solve_quiet | done]
    | by apply Semaphore_P_spec | by apply Semaphore_V_spec | by apply Destroy_spec | by apply Acquire_spec
    | by apply Release_spec | by apply Wait_spec | by apply Signal_spec | by apply Broadcast_spec
    | by apply Yield_spec | | wlp_steps; by apply busy_done].
  wlp_step. eapply wlp_mono; [by apply (Thread_new_spec env [Client]) |]. intros t kx (Hb1 & _ & Hid1).
  by apply Fork_spec.
Qed.

Lemma syscall_spec k : busy (abs k) → wlp (syscall env) (λ _ k', inv [] (abs k')) k.
Proof.
  intros Hb. unfold syscall. quiet_step.
  destruct (decide _); [apply wlp_stop |].
  destruct (decide _); [by apply Nachos_Exit_spec |].
  destruct (decide _); [by apply Nachos_Exec_spec |].
  destruct (decide _); [by apply Join_spec |].
  destruct (decide _); [by apply busy_quiet; [apply Nachos_Create_quiet |] |].
  destruct (decide _); [by apply busy_quiet; [apply Nachos_Open_quiet |] |].
  destruct (decide _); [by apply busy_quiet; [apply Nachos_Read_quiet |] |].
  destruct (decide _); [by apply Nachos_Write_spec |].
  destruct (decide _); [by apply busy_quiet; [apply Nachos_Close_quiet |] |].
  destruct (decide _); [by apply Nachos_Fork_spec |].
  destruct (decide _); [push_step; by apply Yield_spec |].
  destruct (decide _); [by apply SemCreate_spec |].
  destruct (decide _); [by apply SemDestroy_spec |].
  destruct (decide _); [by apply SemSignal_spec |].
  destruct (decide _); [by apply SemWait_spec |].
  apply wlp_stop.
Qed.

Lemma exec_stmt_spec op st k : inv [st] (abs k) → wlp (exec_stmt env op st) (λ _ k', inv [] (abs k')) k.
Proof.
  intros Hi. assert (keeps [st] → asleep [st] = false → (∀ s r, waits s (st :: r) = false) → busy (abs k)) as Hb
    by exact (busy_of st _ Hi).
  destruct st; simpl; try (specialize (Hb ltac:(by intros ? ?) eq_refl ltac:(done))).
  - by apply while_P_spec.
  - wlp_step. eapply wlp_mono; [by apply SetLevel_to |]. intros l' k1 H1. by wlp_steps.
  - by apply tick_spec.
  - apply busy_quiet; [solve_quiet | done].
  - by apply Yield_spec.
  - by apply sleep_while_spec.
  - by apply after_switch_spec.
  - wlp_step. eapply wlp_mono; [apply SetLevel_to |]; [| intros l' k1 H1; by wlp_steps].
    apply (inv_change_same [EnableInt]); try done.
    intros r Hf. simpl in *. by apply andb_true_iff in Hf as [_ ?].
  - by apply call_func_spec.
  - by apply call_finish_spec.
  - by apply Semaphore_P_spec.
  - by apply Acquire_spec.
  - apply busy_quiet; [unfold set_holder; solve_quiet | done].
  - eapply wlp_mono; [by apply (Semaphore_delete_spec [Client]) |]. intros [] k1. apply busy_done.
  - by apply Broadcast_spec.
  - by apply client_call_spec.
  - by apply run_turn_spec.
  - quiet_step. by apply syscall_spec.
  - apply busy_quiet; [solve_quiet | done].
  - apply busy_quiet; [solve_quiet | done].
  - by apply write_switch_spec.
  - apply busy_quiet; [apply join_done_quiet | done].
  - apply wlp_stop.
Qed.

Lemma pop_spec k : ainv (abs k) → wlp pop (λ st k', inv [st] (abs k')) k.
Proof.
  intros Ha. unfold pop, current. wlp_step. wlp_step. wlp_step. apply wlp_the_thread. intros x Hx.
  destruct (t_stack x) as [| st rest] eqn:Es; [apply wlp_stop |].
  unfold modify_thread. wlp_step. wlp_step. apply wlp_the_thread. intros y Hy. simplify_eq.
  unfold modify_sched. wlp_steps. set (k1 := set_k_sched _ _).
  assert (abs k1 = a_local rest (t_status x) (a_lv (abs k)) (abs k)) as E1.
  { unfold k1, abs, a_local. simpl. by rewrite fmap_insert. }
  rewrite E1. exists (t_status x), rest. split; [simpl; by rewrite lookup_insert_eq |].
  rewrite local_local. change (ainv (a_local (st :: rest) (t_status x) (a_lv (abs k)) (abs k))).
  rewrite local_id; [done |]. rewrite (abs_current _ _ Hx). by rewrite Es.
Qed.

Lemma kernel_step_spec op k : ainv (abs k) → wlp (kernel_step env op) (λ _ k', ainv (abs k')) k.
Proof.
  intros Ha. unfold kernel_step. wlp_step. eapply wlp_mono; [by apply pop_spec |]. intros st k1 H1.
  eapply wlp_mono; [by apply exec_stmt_spec |]. intros [] k2. apply inv_nil.
Qed.
End statements.

Lemma ksteps_inv k k' : ksteps k k' → ainv (abs k) → ainv (abs k').
Proof.
  induction 1 as [| k' k'' _ IH (env & op & Hrun)]; [done |]. intros Ha.
  exact (wlp_elim _ _ _ _ _ (kernel_step_spec env op k' (IH Ha)) Hrun).
Qed.
