(* ===== verification/Boot.v ===== *)
(** * Starting the kernel (threads/system.cc, threads/main.cc)

    [Initialize] builds the global objects and the main thread.  The state it
    leaves satisfies the scheduling invariant of Places.v, so every state the
    kernel reaches from there does. *)

From stdpp Require Import base gmap list numbers strings.
From Stdlib Require Import ZArith Lia.
From S2P Require Import Prelude BitMap HandleTables FileStub Machine AddrSpace LinkedList Interrupt Kernel Syscalls Step Places ThreadInv.

Section boot.
Variable env : Env.

(** [new Timer(TimerInterruptHandler, 0, doRandom)] *)
Definition Timer_new (doRandom : bool) : M Kernel unit :=
  modify (set_k_timer (Some (mkTimer doRandom 1))) ;;
  Schedule TimerHandler (TimeOfNextInterrupt env (mkTimer doRandom 0)) TimerInt.

(** The threads part of [Initialize], and the stack of [main]: it still has to
    enable interrupts, run the program it was given, and finish. *)
Definition start_main (randomYield : bool) (f : thread_func) : M Kernel unit :=
  (if randomYield then Timer_new randomYield else mret tt) ;;
  modify_sched (set_toBeDestroyed None) ;;
  t ← Thread_new env;
  modify_sched (set_currentThread t) ;;
  modify_thread t (set_status RUNNING) ;;
  push [EnableInt; CallFunc f; CallFinish].

(** The globals before: [Console] of exception.cc is the semaphore 0. *)
Definition globals (vm : VM) (execMap : BitMap) (tty : list Z) : Kernel :=
  mkKernel vm Interrupt_new None (mkSched ∅ (-1) None [])
    (mkSynch {[0 := mkSemaphore 1 []]} ∅ ∅)
    (mkIO ∅ ∅ (replicate 128 None) execMap 0 ∅ tty [] 0 0 1).

Definition Initialize (randomYield : bool) (mem_garbage swap_garbage exec_garbage : list Z) (fs : Unix)
    (tty : list Z) (f : thread_func) : outcome Kernel :=
  match Machine_new false (tlb_garbage env), BitMap_new exec_garbage 128 with
  | Done m, Done execMap =>
      match VM_Initialize m mem_garbage swap_garbage fs with
      | Done vm =>
          match start_main randomYield f (globals vm execMap tty) with
          | Done (_, k) => Done k
          | Fault e => Fault e
          end
      | Fault e => Fault e
      end
  | Fault e, _ | _, Fault e => Fault e
  end.

Lemma start_main_abs ry f k : threads (k_sched k) = ∅ →
  wlp (start_main ry f) (λ _ k', abs k' = mkAS {[a_next (abs k) := (RUNNING, [EnableInt; CallFunc f; CallFinish])]}
    (a_next (abs k)) None (a_ready (abs k)) (a_sems (abs k)) (a_lv (abs k)) (a_next (abs k) + 3)) k.
Proof.
  intros Hth. unfold start_main. wlp_step.
  apply (wlp_mono _ (λ _ k1, abs k1 = abs k)).
  { assert (quiet (if ry then Timer_new ry else mret tt)) as Hq by (unfold Timer_new, Schedule; solve_quiet).
    apply Hq. }
  intros [] k1 E1. unfold modify_sched. wlp_step. wlp_step. set (k2 := set_k_sched _ k1).
  assert (abs k2 = mkAS ∅ (a_cur (abs k)) None (a_ready (abs k)) (a_sems (abs k)) (a_lv (abs k)) (a_next (abs k))) as E2.
  { assert (a_th (abs k) = ∅) as Hth' by (simpl; by rewrite Hth, fmap_empty). rewrite <- E1, <- Hth', <- E1. done. }
  wlp_step. eapply wlp_mono; [apply Thread_new_abs |]. intros t k3 [-> E3]. rewrite E2 in *. simpl in *.
  wlp_step. wlp_step. unfold modify_thread. wlp_step. wlp_step. apply wlp_the_thread. intros x Hx.
  unfold modify_sched. wlp_step. eapply wlp_mono; [apply push_abs |]. intros [] k4 (st & r & Hc & ->).
  unfold a_put_thread, a_alloc in E3. simpl in E3. rewrite app_nil_r in E3. simpl in Hx.
  assert (a_th (abs k3) !! next_id (k_io k) = Some (t_status x, t_stack x)) as Hx'.
  { simpl. by rewrite lookup_fmap, Hx. }
  rewrite E3 in Hx'. simpl in Hx'. rewrite lookup_insert_eq in Hx'. injection Hx' as Hst Hss.
  simpl in Hc. rewrite lookup_fmap, lookup_insert_eq in Hc. simpl in Hc. injection Hc as <- <-.
  rewrite <- Hss. unfold a_local. unfold abs at 1. simpl.
  rewrite fmap_insert. simpl. change ((λ x, (t_status x, t_stack x)) <$> threads (k_sched k3)) with (a_th (abs k3)).
  change (threadToBeDestroyed (k_sched k3)) with (a_dead (abs k3)). change (readyList (k_sched k3)) with (a_ready (abs k3)).
  change (sems (k_synch k3)) with (a_sems (abs k3)). change (level (k_irq k3)) with (a_lv (abs k3)).
  change (next_id (k_io k3)) with (a_next (abs k3)). rewrite E3. simpl. by rewrite !insert_insert_eq.
Qed.

Lemma ainv_boot t n v F : 0 < t → t < n → fits IntOff F = true → (∀ s, waits s F = false) →
  ainv (mkAS {[t := (RUNNING, F)]} t None [] {[0 := mkSemaphore v []]} IntOff n).
Proof.
  intros Ht0 Ht Hf Hw. set (a := mkAS _ _ _ _ _ _ _).
  assert (∀ s u, ¬ queued a s u) as Hq.
  { intros s u (x & Hx & Hu). simpl in Hx. apply lookup_singleton_Some in Hx as [_ <-].
    by apply not_elem_of_nil in Hu. }
  assert (∀ u, ¬ placed a u) as Hp. { intros u [Hu%not_elem_of_nil | [s Hs%Hq]]; done. }
  split; simpl.
  - rewrite lookup_singleton_eq. by eexists.
  - intros u st ss [<- [= <- <-]]%lookup_singleton_Some. rewrite decide_True by done. by apply fits_runs.
  - apply NoDup_nil_2.
  - intros s x [_ <-]%lookup_singleton_Some. apply NoDup_nil_2.
  - by intros s u Hu%Hq.
  - by intros s s' u Hu%Hq.
  - by intros u Hu%not_elem_of_nil.
  - by intros s u Hu%Hq.
  - by intros st ss _ Hu%Hp.
  - done.
  - intros s x [_ <-]%lookup_singleton_Some. done.
  - intros s u st ss [<- [= <- <-]]%lookup_singleton_Some Hws. by rewrite Hw in Hws.
  - intros u Hu. rewrite !lookup_singleton_ne by lia. done.
Qed.

Lemma Initialize_inv ry mg sg eg fs tty f k : Initialize ry mg sg eg fs tty f = Done k → ainv (abs k).
Proof.
  unfold Initialize. intros Hrun.
  destruct (Machine_new _ _) as [m |]; [| done]. destruct (BitMap_new eg 128) as [em |]; [| done].
  destruct (VM_Initialize _ _ _ _) as [vm |]; [| done].
  destruct (start_main ry f (globals vm em tty)) as [[[] k1] |] eqn:E; [| done]. injection Hrun as <-.
  pose proof (wlp_elim _ _ _ _ _ (start_main_abs ry f (globals vm em tty) eq_refl) E) as ->.
  by apply ainv_boot.
Qed.
End boot.

(** Every state the kernel reaches. *)
Inductive reachable : Kernel → Prop :=
| reachable_intro env ry mg sg eg fs tty f k0 k :
    Initialize env ry mg sg eg fs tty f = Done k0 → ksteps k0 k → reachable k.

Lemma reachable_inv k : reachable k → ainv (abs k).
Proof. intros [env ry mg sg eg fs tty f k0 k' Hrun Hs]. eapply ksteps_inv; [done |]. by eapply Initialize_inv. Qed.

(** Run with one environment, the clients doing [ops]. *)
Fixpoint run_clients (env : Env) (ops : list client_op) (k : Kernel) : outcome Kernel :=
  match ops with
  | [] => Done k
  | op :: ops' =>
      match kernel_step env op k with
      | Done (_, k') => run_clients env ops' k'
      | Fault e => Fault e
      end
  end.

Lemma run_clients_ksteps env ops : ∀ k0 k k', ksteps k0 k → run_clients env ops k = Done k' → ksteps k0 k'.
Proof.
  induction ops as [| op ops IH]; intros k0 k k' Hs Hrun; simpl in Hrun; [by simplify_eq |].
  destruct (kernel_step env op k) as [[[] k1] |] eqn:E; [| done].
  eapply IH; [| done]. eapply ksteps_step; [done |]. by exists env, op.
Qed.

Lemma reachable_run env ops k k' : reachable k → run_clients env ops k = Done k' → reachable k'.
Proof.
  intros [env0 ry mg sg eg fs tty f k0 k1 Hi Hs] Hrun. eapply reachable_intro; [exact Hi |].
  by eapply run_clients_ksteps.
Qed.
