(* ===== verification/KernelClaims.v ===== *)
(** * What the kernel guarantees to threads

    The theorems about scheduling, waiting, interrupts and system calls, each
    with a concrete instance; the last ones are executions that show defects. *)

From stdpp Require Import base gmap list numbers strings.
From Stdlib Require Import ZArith Lia.
From S2P Require Import Prelude BitMap HandleTables FileStub Machine MachineFacts AddrSpace LinkedList Interrupt Kernel Syscalls Step Places ThreadInv Boot.

(** ** A small system: the main thread and two others use one semaphore *)

Definition sample_env : Env :=
  mkEnv (λ _, 199) (replicate 4 (mkEntry 0 0 false false false false)) (replicate 128 9) [0; 0; 0; 0] 0
    [7; 7; 7; 7; 7; 7] [0] (replicate 40 0).

(** Main takes the semaphore 0, both others block on it, main calls [V]. *)
Definition script : list client_op :=
  let N := ClientYield in
  [N; N; N; ClientFork; N; ClientFork; N; ClientP 0; N; N; N; ClientYield; N; N; N; ClientP 0; N; N;
   N; N; N; ClientP 0; N; N; N; N; N; ClientV 0].

Definition sample_boot : Kernel :=
  match Initialize sample_env true [7] [0; 0] [0; 0; 0; 0] ∅ [] ClientThread with
  | Done k => k
  | Fault _ => globals (mkVM (mkMachine [] [] None None 0) (mkBitMap 0 0 []) (mkBitMap 0 0 []) [] 0 0 0 0 true 0 ∅ ∅ SystemMode)
      (mkBitMap 0 0 []) []
  end.

Definition sample_kernel : Kernel :=
  match run_clients sample_env script sample_boot with Done k => k | Fault _ => sample_boot end.

Lemma sample_boot_run : Initialize sample_env true [7] [0; 0] [0; 0; 0; 0] ∅ [] ClientThread = Done sample_boot.
Proof. vm_compute. reflexivity. Qed.

Lemma sample_reachable : reachable sample_kernel.
Proof.
  apply (reachable_run sample_env script sample_boot).
  - apply (reachable_intro _ _ _ _ _ _ _ _ _ _ sample_boot_run). constructor.
  - vm_compute. reflexivity.
Qed.

(** ** Scheduling *)

Lemma abs_thread k t x : threads (k_sched k) !! t = Some x → a_th (abs k) !! t = Some (t_status x, t_stack x).
Proof. intros Hx. simpl. by rewrite lookup_fmap, Hx. Qed.

Lemma abs_thread_inv k t st ss : a_th (abs k) !! t = Some (st, ss) →
  ∃ x, threads (k_sched k) !! t = Some x ∧ t_status x = st ∧ t_stack x = ss.
Proof. simpl. rewrite lookup_fmap_Some. intros (x & [= <- <-] & Hx). eauto. Qed.

(** C36 In every state the kernel reaches from [Initialize], whatever user
    programs and clients of the synchronisation classes do, every thread is in
    one place: the running thread exists; a thread of the ready list occurs
    there once, exists, is [READY] and is in no semaphore's queue; a thread in
    the queue of a semaphore occurs there once, exists, is [BLOCKED], is in the
    loop of [P] of this semaphore and in no other queue; and the running thread
    is in one of the lists only while it is in the loop of [Sleep]. *)
Theorem threads_in_one_place k : reachable k →
  is_Some (threads (k_sched k) !! currentThread (k_sched k)) ∧
  NoDup (readyList (k_sched k)) ∧
  (∀ t, t ∈ readyList (k_sched k) → ∃ x, threads (k_sched k) !! t = Some x ∧ t_status x = READY ∧
     ∀ s y, sems (k_synch k) !! s = Some y → t ∉ queue y) ∧
  (∀ s y, sems (k_synch k) !! s = Some y → NoDup (queue y) ∧
     ∀ t, t ∈ queue y → ∃ x, threads (k_sched k) !! t = Some x ∧ t_status x = BLOCKED ∧
       waits s (t_stack x) = true ∧
       ∀ s' y', sems (k_synch k) !! s' = Some y' → t ∈ queue y' → s' = s) ∧
  (∀ x, threads (k_sched k) !! currentThread (k_sched k) = Some x → asleep (t_stack x) = false →
     currentThread (k_sched k) ∉ readyList (k_sched k)).
Proof.
  intros Ha%reachable_inv. split_and!.
  - destruct (ai_cur _ Ha) as [[st ss] Hc]. destruct (abs_thread_inv _ _ _ _ Hc) as (x & Hx & _). by exists x.
  - exact (ai_ready_nd _ Ha).
  - intros t Ht. destruct (ai_ready _ Ha t Ht) as [ss Hs]. destruct (abs_thread_inv _ _ _ _ Hs) as (x & Hx & Hst & _).
    exists x. split_and!; [done | done |]. intros s y Hy Hq. apply (ai_apart _ Ha s t); [by exists y | done].
  - intros s y Hy. split; [exact (ai_queue_nd _ Ha s y Hy) |]. intros t Ht.
    destruct (ai_queue _ Ha s t) as (ss & Hs & Hw); [by exists y |].
    destruct (abs_thread_inv _ _ _ _ Hs) as (x & Hx & Hst & <-). exists x. split_and!; [done | done | done |].
    intros s' y' Hy' Ht'. apply (ai_one_queue _ Ha s' s t); [by exists y' | by exists y].
  - intros x Hx Hsl. by destruct (not_placed _ Ha _ _ (abs_thread _ _ _ Hx) Hsl).
Qed.

Lemma threads_in_one_place_witness :
  readyList (k_sched sample_kernel) = [4] ∧ queue <$> sems (k_synch sample_kernel) !! 0 = Some [7] ∧
  NoDup (readyList (k_sched sample_kernel)).
Proof.
  destruct (threads_in_one_place sample_kernel sample_reachable) as (_ & Hnd & _).
  split; [vm_compute; reflexivity |]. split; [vm_compute; reflexivity | exact Hnd].
Defined.

(** C37 No wake-up is lost: when threads wait in the queue of a semaphore whose
    value is positive, some thread that runs or is ready stands in the loop of
    [P] of this semaphore and is not in its queue, so that it will look at the
    value again. *)
Theorem semaphore_no_lost_wakeup k s y : reachable k →
  sems (k_synch k) !! s = Some y → 0 < value y → queue y ≠ [] →
  ∃ t x, threads (k_sched k) !! t = Some x ∧ waits s (t_stack x) = true ∧ (t ∉ queue y) ∧
    (t = currentThread (k_sched k) ∨ t ∈ readyList (k_sched k)).
Proof.
  intros Ha%reachable_inv Hs Hv Hq. destruct (no_lost_wakeup _ Ha s y Hs Hv Hq) as (t & st & ss & Ht & Hw & Hn & Hin).
  destruct (abs_thread_inv _ _ _ _ Ht) as (x & Hx & _ & <-). exists t, x. split_and!; [done | done | | done].
  intros Hty. apply Hn. by exists y.
Qed.

Lemma semaphore_no_lost_wakeup_witness :
  ∃ y t x, sems (k_synch sample_kernel) !! 0 = Some y ∧ queue y = [7] ∧
    threads (k_sched sample_kernel) !! t = Some x ∧ waits 0 (t_stack x) = true ∧ (t ∉ queue y).
Proof.
  destruct (semaphore_no_lost_wakeup sample_kernel 0 (mkSemaphore 1 [7]) sample_reachable) as (t & x & Hx & Hw & Hn & _).
  - vm_compute. reflexivity.
  - reflexivity.
  - discriminate.
  - exists (mkSemaphore 1 [7]), t, x. split_and!; [vm_compute; reflexivity | reflexivity | done | done | done].
Defined.

(** Statements of kernel code that relies on interrupts being off, and what
    only happens with interrupts on. *)
Definition needs_off (st : stmt) : bool :=
  match st with WhileP _ | SleepWhile | AfterSwitch | EnableInt => true | _ => false end.
Definition needs_on (st : stmt) : bool :=
  match st with Tick | RunUser | CallFunc _ => true | _ => false end.

(** C38 The interrupt level is disciplined.  The loops of [P] and [Sleep], the
    part of [Scheduler::Run] after the switch and the start of a thread only run
    with interrupts off; ticks of [OneTick], user instructions and the functions
    of threads only start with interrupts on.  (The clock also moves while the
    machine is idle, in the loop of [Sleep], with interrupts off.)  A thread that
    does not run was not forked yet, or stands exactly after the [SWITCH] of
    [Scheduler::Run] or at the start of [ThreadRoot], which both run with
    interrupts off, and what it has still to execute is disciplined from there:
    nothing that needs interrupts on or off is reached with the other level. *)
Theorem interrupt_level_discipline k t x : reachable k → threads (k_sched k) !! t = Some x →
  if decide (t = currentThread (k_sched k)) then
    ∀ st r, t_stack x = st :: r →
      (needs_off st = true → level (k_irq k) = IntOff) ∧ (needs_on st = true → level (k_irq k) = IntOn)
  else
    (t_stack x = [] ∨ ∃ st r, t_stack x = st :: r ∧ (st = AfterSwitch ∨ st = EnableInt)) ∧
    fits IntOff (t_stack x) = true.
Proof.
  intros Ha%reachable_inv Hx. pose proof (ai_fits _ Ha _ _ _ (abs_thread _ _ _ Hx)) as Hf.
  simpl a_cur in Hf. simpl a_lv in Hf. case_decide.
  - intros st r Es. rewrite Es in Hf.
    destruct st; simpl in Hf; (split; [intros Hn | intros Hn]); try discriminate Hn; by split_bool.
  - split; [| by apply suspended_fits]. unfold suspended in Hf. apply andb_true_iff in Hf as [Hp _].
    destruct (t_stack x) as [| st r]; [by left | right]. exists st, r. split; [done |]. destruct st; auto; discriminate Hp.
Qed.

Lemma interrupt_level_discipline_witness :
  ∃ x, threads (k_sched sample_kernel) !! 4 = Some x ∧ 4 ≠ currentThread (k_sched sample_kernel) ∧
    (∃ st r, t_stack x = st :: r ∧ (st = AfterSwitch ∨ st = EnableInt)) ∧ fits IntOff (t_stack x) = true.
Proof.
  destruct (threads (k_sched sample_kernel) !! 4) as [x |] eqn:Hx; [| vm_compute in Hx; discriminate Hx].
  assert (t_stack x = [AfterSwitch; WhileP 0; SetLevelTo IntOn; Client; CallFinish]) as Es
    by (vm_compute in Hx; injection Hx as <-; reflexivity).
  assert (4 ≠ currentThread (k_sched sample_kernel)) as Hne by (vm_compute; discriminate).
  pose proof (interrupt_level_discipline sample_kernel 4 x sample_reachable Hx) as H.
  exists x. split; [reflexivity |]. split; [exact Hne |].
  rewrite decide_False in H by exact Hne. destruct H as [[H | H] Hf]; [rewrite Es in H; discriminate H |].
  split; [exact H | exact Hf].
Defined.

(** [delete threadToBeDestroyed] leaves no dangling pointer: the thread to be
    destroyed is in no list of the scheduler and in no queue of a semaphore, it
    does not wait for one, and it runs only while it is in the loop of [Sleep],
    where its last act is to switch away. *)
Theorem destroyed_thread_unreferenced k d : reachable k →
  threadToBeDestroyed (k_sched k) = Some d →
  (∃ x, threads (k_sched k) !! d = Some x ∧ (∀ s, waits s (t_stack x) = false) ∧
     (d = currentThread (k_sched k) → asleep (t_stack x) = true)) ∧
  (d ∉ readyList (k_sched k)) ∧
  ∀ s y, sems (k_synch k) !! s = Some y → d ∉ queue y.
Proof.
  intros Ha%reachable_inv Hd. destruct (ai_dead _ Ha d Hd) as (Hp & st & ss & Hs & Hw & Hc).
  destruct (abs_thread_inv _ _ _ _ Hs) as (x & Hx & _ & <-). split_and!.
  - by exists x.
  - intros Hr. apply Hp. by left.
  - intros s y Hy Hq. apply Hp. right. exists s. by exists y.
Qed.

(** Main returns, and is switched away from. *)
Definition finished_kernel : Kernel :=
  match run_clients sample_env [ClientYield; ClientReturn; ClientYield] sample_kernel with
  | Done k => k | Fault _ => sample_kernel end.

Lemma finished_reachable : reachable finished_kernel.
Proof.
  apply (reachable_run sample_env [ClientYield; ClientReturn; ClientYield] sample_kernel); [exact sample_reachable |].
  vm_compute. reflexivity.
Qed.

Lemma destroyed_thread_unreferenced_witness :
  threadToBeDestroyed (k_sched finished_kernel) = Some 1 ∧ (1 ∉ readyList (k_sched finished_kernel)).
Proof.
  assert (threadToBeDestroyed (k_sched finished_kernel) = Some 1) as E by (vm_compute; reflexivity).
  destruct (destroyed_thread_unreferenced finished_kernel 1 finished_reachable E) as (_ & Hr & _).
  split; [exact E | exact Hr].
Defined.
