(* ===== verification/IrqClaims.v ===== *)
(** * Interrupts and the timer in the kernel

    The kernel discharges the interface of Interrupt.v: its only handler is the
    timer's.  With it, what a tick of the clock and an idle machine do. *)

From stdpp Require Import base gmap list numbers strings.
From Stdlib Require Import ZArith Lia Sorted.
From S2P Require Import Prelude Machine MachineFacts AddrSpace Mips MipsFacts VMAccess LinkedList Interrupt Kernel ThreadInv KernelClaims.

#[export] Instance Kernel_irq_laws : IrqHostLaws Kernel IntHandler.
Proof. by split. Qed.

(** The timer is there and the registers are those of a machine. *)
Definition timer_ready (k : Kernel) : Prop :=
  (∃ t, k_timer k = Some t ∧ 0 ≤ draws t) ∧ machine_wf (vm_machine (k_vm k)).

(** The handlers called up to now: [TimerExpired] takes one random number each time. *)
Definition handler_calls (k : Kernel) : list IntHandler :=
  replicate (Z.to_nat (from_option draws 0 (k_timer k))) TimerHandler.

Section kernel.
Context (env : Env) (Hrandom : ∀ n, 0 ≤ Random env n).
#[local] Instance interrupts : InterruptHost Kernel IntHandler := Kernel_interrupts env.

Lemma next_interrupt_range t : 1 ≤ TimeOfNextInterrupt env t ≤ 2 * TimerTicks.
Proof.
  unfold TimeOfNextInterrupt, TimerTicks. destruct (randomize t); [| lia].
  rewrite cmod_nonneg by (auto; lia). pose proof (Z.mod_pos_bound (Random env (draws t)) (100 * 2)). lia.
Qed.

Lemma timer_handler_ok k : timer_ready k → Sorted key_le (pending (irq k)) → level (irq k) = IntOff →
  clock_ok (irq k) →
  wp (TimerExpired env) (λ _ k', timer_ready k' ∧ handler_calls k' = handler_calls k ++ [TimerHandler] ∧ level (irq k') = IntOff ∧
    totalTicks (irq k') = totalTicks (irq k) ∧ Sorted key_le (pending (irq k')) ∧
    ∃ new, pending (irq k') ≡ₚ new ++ pending (irq k) ∧ Forall (future (irq k)) new) k.
Proof.
  intros [(t & Ht & Hd) Hm] Hs Hlv Hck. pose proof (next_interrupt_range t) as Hr.
  unfold clock_ok, time_limit, TimerTicks in *.
  unfold TimerExpired, Schedule, TimerInterruptHandler, YieldOnReturn, modify_irq. wp_steps. rewrite Ht. wp_steps.
  { apply bool_decide_eq_true. lia. }
  set (w := s32 _). assert (w = totalTicks (k_irq k) + TimeOfNextInterrupt env t) as Ew by (apply s32_small; simpl in *; lia).
  assert (∃ new, List_insert w (mkPending TimerHandler w TimerInt) (pending (k_irq k)) ≡ₚ new ++ pending (k_irq k) ∧
    Forall (future (k_irq k)) new) as Hnew.
  { exists [(w, mkPending TimerHandler w TimerInt)]. split; [apply List_insert_perm |]. forall_list.
    unfold future. simpl. lia. }
  pose proof (List_insert_sorted w (mkPending TimerHandler w TimerInt) _ Hs) as Hs'.
  assert (∀ k', k_timer k' = Some (mkTimer (randomize t) (draws t + 1)) →
    handler_calls k' = handler_calls k ++ [TimerHandler]) as Hcalls.
  { intros k' Ht'. unfold handler_calls. rewrite Ht', Ht. simpl. change [TimerHandler] with (replicate 1 TimerHandler). rewrite <- replicate_add. f_equal. lia. }
  assert (∀ k', k_timer k' = Some (mkTimer (randomize t) (draws t + 1)) → vm_machine (k_vm k') = vm_machine (k_vm k) →
    timer_ready k') as Hready.
  { intros k' Ht' Em. split; [eexists; split; [exact Ht' | simpl; lia] | by rewrite Em]. }
  simpl in *. destruct (decide (vm_status (k_vm k) ≠ IdleMode)); wp_steps; simpl; split_and!; try done;
    by (apply Hcalls || apply Hready).
Qed.

Lemma kernel_handlers_ok : handlers_ok (S := Kernel) (H := IntHandler) timer_ready handler_calls.
Proof.
  split.
  - by intros i k Hk.
  - by intros st k Hk.
  - done.
  - done.
  - intros k [Ht Hm]. simpl. apply wp_zoom, wp_zoom.
    eapply wp_mono; [by apply (DelayedLoad_regs (vm_machine (k_vm k)) 0 0) |].
    intros [] m' (Hm' & _). split; [by split | done].
  - intros [] k HI Hs Hlv Hck. by apply timer_handler_ok.
Qed.
End kernel.

(** C39 A tick of the clock serves exactly the interrupts that are due.  The
    timer exists and its random numbers are not negative, no handler is running,
    the interrupts are sorted by time, the machine is not idle, and the clock is
    below [time_limit], so that it does not overflow.  Then [OneTick] ends;
    the time has advanced by a system or by a user tick, and with [now] the new
    time: the handlers of the interrupts that were pending for [now] or earlier,
    and no others, were called, once each and by their time; what was pending
    for later is still pending, together with what the handlers have scheduled
    for later; interrupts are on; and either the machine status is as it was, or
    a [Yield] is asked for with the status to restore after it. *)
Theorem OneTick_fires_due env k : (∀ n, 0 ≤ Random env n) → timer_ready k → irq_ok (k_irq k) →
  irq_status k ≠ IdleMode → 0 ≤ totalTicks (k_irq k) < time_limit - SystemTick →
  wp (@OneTick _ _ _ (Kernel_interrupts env)) (λ r k',
    let now := totalTicks (k_irq k') in
    now = totalTicks (k_irq k) + tick_length (irq_status k) ∧
    (∃ es new, es ≡ₚ filter (λ e, e.1 ≤ now) (pending (k_irq k)) ∧ Sorted key_le es ∧
      handler_calls k' = handler_calls k ++ ((λ e, handler e.2) <$> es) ∧
      pending (k_irq k') ≡ₚ new ++ filter (λ e, now < e.1) (pending (k_irq k)) ∧ Forall (λ e, now < e.1) new) ∧
    timer_ready k' ∧ irq_ok (k_irq k') ∧ level (k_irq k') = IntOn ∧ yieldOnReturn (k_irq k') = false ∧
    match r with
    | None => irq_status k' = irq_status k
    | Some old => old = irq_status k ∧ irq_status k' = SystemMode
    end) k.
Proof.
  intros Hr Hk Hok Hst Hlim.
  eapply wp_mono; [by apply (OneTick_spec timer_ready handler_calls (kernel_handlers_ok env Hr)) |].
  cbv beta zeta. intros r k' (HI & Hok' & Hlv & Hy & _ & Ht & (es & new & H1 & H2 & H3 & H4 & H5) & Hret).
  assert (totalTicks (irq (ticked k)) = totalTicks (k_irq k') ∧ pending (irq (ticked k)) = pending (k_irq k)) as [Et Ep].
  { simpl in Ht. rewrite Ht. unfold tick_length, time_limit, SystemTick, UserTick, TimerTicks in *.
    simpl in *. case_decide; simpl; split; try done; apply s32_small; unfold SystemTick, UserTick; lia. }
  unfold due_now in H1. rewrite Ep in H1, H4. unfold future in *.
  split; [exact Ht |]. split; [| done]. exists es, new. split_and!; [| done | exact H3 | |].
  - rewrite H1. apply Permutation_refl', list_filter_iff. intros e. rewrite Et. lia.
  - etrans; [exact H4 |]. apply Permutation_refl'. f_equal. apply list_filter_iff. intros e. by rewrite Et.
  - eapply Forall_impl; [exact H5 |]. intros e. by rewrite Et.
Qed.

Lemma set_irq_ready i k : timer_ready k → timer_ready (set_k_irq i k).
Proof. done. Qed.

(** The sample system has a timer. *)
Lemma sample_ready : timer_ready sample_kernel.
Proof.
  split.
  - eexists. split; [vm_compute; reflexivity | vm_compute; discriminate].
  - split.
    + vm_compute. reflexivity.
    + apply (Forall_impl (λ b, b = 0)); [| intros x ->; unfold byte_range; lia].
      assert (forallb (λ b, bool_decide (b = 0)) (mainMemory (vm_machine (k_vm sample_kernel))) = true) as H
        by (vm_compute; reflexivity).
      apply Forall_forall. intros x Hx. rewrite forallb_forall in H. apply list_elem_of_In, H in Hx. by split_bool.
    + vm_compute. reflexivity.
    + apply (Forall_impl (λ b, b = 0)); [| intros x ->; unfold int_range; lia].
      assert (forallb (λ b, bool_decide (b = 0)) (registers (vm_machine (k_vm sample_kernel))) = true) as H
        by (vm_compute; reflexivity).
      apply Forall_forall. intros x Hx. rewrite forallb_forall in H. apply list_elem_of_In, H in Hx. by split_bool.
    + exists 0. split; [vm_compute; reflexivity | done].
    + right. split; [vm_compute; reflexivity |]. eexists. split; [vm_compute; reflexivity | reflexivity].
Qed.

Lemma sample_random n : 0 ≤ Random sample_env n.
Proof. simpl. lia. Qed.

(** The timer is due in the next tick. *)
Definition due_kernel : Kernel :=
  set_k_irq (mkIrq IntOn [(75, mkPending TimerHandler 75 TimerInt)] false false 70 0 70 0) sample_kernel.

Lemma OneTick_fires_due_witness :
  wp (@OneTick _ _ _ (Kernel_interrupts sample_env)) (λ _ k', totalTicks (k_irq k') = 80 ∧
    handler_calls k' = handler_calls due_kernel ++ [TimerHandler]) due_kernel.
Proof.
  assert (irq_status due_kernel = SystemMode) as Est by (vm_compute; reflexivity).
  assert (timer_ready due_kernel) as Hk by apply set_irq_ready, sample_ready.
  assert (irq_ok (k_irq due_kernel)) as Hok by (split; [simpl; repeat constructor | done]).
  destruct (OneTick_fires_due sample_env due_kernel sample_random Hk Hok) as (r & k1 & E1 & Ht & (es & new & Hes & _ & Hc & _) & _).
  - rewrite Est. discriminate.
  - unfold time_limit, SystemTick, TimerTicks. simpl. lia.
  - rewrite Est in Ht. assert (totalTicks (k_irq k1) = 80) as Ht' by exact Ht.
    exists r, k1. split; [exact E1 |]. split; [exact Ht' |]. rewrite Hc. rewrite Ht' in Hes.
    assert (es = [(75, mkPending TimerHandler 75 TimerInt)]) as -> by (apply Permutation_singleton_r; exact Hes). reflexivity.
Defined.

(** An idle machine makes progress or stops: when nothing but the timer is
    pending, [Idle] halts the machine; otherwise it ends with the clock moved to
    the first pending interrupt (never back), in system mode and with interrupts still off. *)
Theorem Idle_advances_or_halts env k : (∀ n, 0 ≤ Random env n) → timer_ready k → irq_ok (k_irq k) →
  level (k_irq k) = IntOff → clock_ok (k_irq k) → Forall (λ e, e.1 < time_limit) (pending (k_irq k)) →
  if idle_stops (k_irq k) then @Idle _ _ _ (Kernel_interrupts env) k = Fault MachineHalted
  else wp (@Idle _ _ _ (Kernel_interrupts env)) (λ _ k', timer_ready k' ∧ irq_ok (k_irq k') ∧
    level (k_irq k') = IntOff ∧ irq_status k' = SystemMode ∧
    totalTicks (k_irq k') = Z.max (totalTicks (k_irq k)) (default 0 (fst <$> head (pending (k_irq k))))) k.
Proof.
  intros Hr Hk Hok Hlv Hck Hlim.
  pose proof (@Idle_spec _ _ _ _ (Kernel_interrupts env) timer_ready handler_calls (kernel_handlers_ok env Hr) k) as H.
  simpl in H. specialize (H ltac:(by split) Hlim). destruct (idle_stops (k_irq k)); [exact H |].
  eapply wp_mono; [exact H |]. intros [] k' ([H1 H2 H3 H4] & H5 & H6). done.
Qed.

(** Two interrupts are pending. *)
Definition busy_kernel : Kernel :=
  set_k_irq (mkIrq IntOff [(200, mkPending TimerHandler 200 TimerInt); (300, mkPending TimerHandler 300 DiskInt)]
    false false 70 0 70 0) sample_kernel.

Lemma Idle_advances_or_halts_witness :
  wp (@Idle _ _ _ (Kernel_interrupts sample_env)) (λ _ k', totalTicks (k_irq k') = 200) busy_kernel.
Proof.
  assert (timer_ready busy_kernel) as Hk by apply set_irq_ready, sample_ready.
  assert (k_irq busy_kernel = mkIrq IntOff [(200, mkPending TimerHandler 200 TimerInt);
    (300, mkPending TimerHandler 300 DiskInt)] false false 70 0 70 0) as Ei by exact eq_refl.
  assert (irq_ok (k_irq busy_kernel)) as Hok.
  { rewrite Ei. split; [simpl; repeat constructor; by unfold key_le; simpl | done]. }
  assert (clock_ok (k_irq busy_kernel)) as Hck.
  { rewrite Ei. unfold clock_ok, time_limit, TimerTicks. simpl. lia. }
  assert (level (k_irq busy_kernel) = IntOff) as Hlv by (rewrite Ei; reflexivity).
  assert (Forall (λ e, e.1 < time_limit) (pending (k_irq busy_kernel))) as Hlim by (rewrite Ei; simpl; forall_list).
  pose proof (Idle_advances_or_halts sample_env busy_kernel sample_random Hk Hok Hlv Hck Hlim) as H.
  clear Hok Hck Hlv Hlim Hk. rewrite Ei in H. cbn [idle_stops pending] in H.
  eapply wp_mono; [exact H |]. cbv beta. intros [] k' (_ & _ & _ & _ & E). exact E.
Defined.

(** ** Time slices *)

Section slices.
Variable env : Env.
#[local] Instance interrupts' : InterruptHost Kernel IntHandler := Kernel_interrupts env.

(** The handler runs in system mode, so that it always asks for a [Yield]. *)
Lemma fire_yields p (k : Kernel) : wlp (fire p) (λ _ k', yieldOnReturn (k_irq k') = true) k.
Proof.
  unfold fire, modify_irq. wlp_step. wlp_step. wlp_step.
  intros [] k1 _. wlp_step. wlp_step. wlp_step. wlp_step. wlp_step. destruct (handler p).
  simpl call_handler. unfold TimerExpired, Schedule, TimerInterruptHandler, YieldOnReturn, modify_irq.
  wlp_steps; [done |]. simpl in *. match goal with H : ¬ (SystemMode ≠ IdleMode) |- _ => by destruct H end.
Qed.

Lemma CheckIfDue_yields (k : Kernel) :
  wlp (CheckIfDue false) (λ b k', yieldOnReturn (k_irq k') = b || yieldOnReturn (k_irq k)) k.
Proof.
  unfold CheckIfDue, due, modify_irq. wlp_step. wlp_step. wlp_step. wlp_step.
  destruct (pending (irq k)) as [| [w p] rest]; [by wlp_steps |]. wlp_step. wlp_step. wlp_step. wlp_step. wlp_step.
  simpl. destruct (bool_decide (w > totalTicks (k_irq k))); wlp_steps; try done.
  eapply wlp_mono; [apply fire_yields |]. intros [] k1 E. by wlp_steps.
Qed.

Lemma check_all_yields fuel : ∀ k : Kernel, yieldOnReturn (k_irq k) = true →
  wlp (check_all fuel) (λ _ k', yieldOnReturn (k_irq k') = true) k.
Proof.
  induction fuel as [| fuel IH]; intros k Hy; simpl; [apply wlp_stop |].
  wlp_step. eapply wlp_mono; [apply CheckIfDue_yields |]. intros b k1 E. rewrite Hy, orb_true_r in E.
  destruct b; [by apply IH | by wlp_steps].
Qed.

(** A due interrupt is fired by the first turn of the loop. *)
Lemma CheckIfDue_due (k : Kernel) w p rest : pending (k_irq k) = (w, p) :: rest → w ≤ totalTicks (k_irq k) →
  irq_status k ≠ IdleMode → wlp (CheckIfDue false) (λ b _, b = true) k.
Proof.
  intros Ep Hw Hst. unfold CheckIfDue, due, modify_irq. wlp_step. wlp_step. wlp_step. wlp_step. simpl. rewrite Ep.
  wlp_step. wlp_step. wlp_step. wlp_step. wlp_step. simpl. rewrite bool_decide_eq_false_2 by lia.
  wlp_steps; [simpl in *; by split_bool |]. intros [] k1 _. by wlp_steps.
Qed.

Lemma tick_yields (k : Kernel) w p rest : pending (k_irq k) = (w, p) :: rest →
  0 ≤ totalTicks (k_irq k) < time_limit - SystemTick → w ≤ totalTicks (k_irq k) + tick_length (irq_status k) →
  irq_status k ≠ IdleMode → wlp OneTick (λ r _, r = Some (irq_status k)) k.
Proof.
  intros Ep Hlim Hw Hst. unfold OneTick, ChangeLevel, modify_irq. wlp_step. wlp_step. wlp_step.
  apply (wlp_mono _ (λ _ k1, pending (k_irq k1) = (w, p) :: rest ∧ irq_status k1 = irq_status k ∧
    w ≤ totalTicks (k_irq k1))).
  { unfold tick_length, time_limit, SystemTick, UserTick, TimerTicks in *. simpl in *.
    destruct (decide (vm_status (k_vm k) = SystemMode)); wlp_steps; simpl; split_and!; try done;
      rewrite s32_small; unfold SystemTick, UserTick; lia. }
  intros [] k1 (Ep1 & Hst1 & Hw1). wlp_step. wlp_step. unfold check_pending. wlp_step. wlp_step. wlp_step.
  simpl. wlp_step. set (k2 := set_k_irq _ k1).
  eapply wlp_mono; [apply wlp_both; [apply (CheckIfDue_due k2 w p rest) | apply CheckIfDue_yields]; try done |].
  { unfold k2. simpl in *. congruence. }
  intros b k3 [-> Hy]. eapply wlp_mono; [by apply check_all_yields |]. intros [] k4 Hy4.
  wlp_step. wlp_step. wlp_step. wlp_step. simpl. rewrite Hy4. by wlp_steps.
Qed.
End slices.

(** The processor is shared: when an interrupt of the timer is due by the end
    of a tick, [OneTick] asks for a [Yield] of the interrupted thread, with the
    status to restore after it. *)
Theorem timer_forces_yield env k w p rest : (∀ n, 0 ≤ Random env n) → timer_ready k → irq_ok (k_irq k) →
  irq_status k ≠ IdleMode → 0 ≤ totalTicks (k_irq k) < time_limit - SystemTick →
  pending (k_irq k) = (w, p) :: rest → w ≤ totalTicks (k_irq k) + tick_length (irq_status k) →
  ∃ k', @OneTick _ _ _ (Kernel_interrupts env) k = Done (Some (irq_status k), k').
Proof.
  intros Hr Hk Hok Hst Hlim Ep Hw.
  destruct (OneTick_spec timer_ready handler_calls (kernel_handlers_ok env Hr) k Hk Hok Hst Hlim) as (r & k' & Erun & _).
  exists k'. by rewrite (tick_yields env k w p rest Ep Hlim Hw Hst r k' Erun) in Erun.
Qed.

Lemma timer_forces_yield_witness :
  ∃ k', @OneTick _ _ _ (Kernel_interrupts sample_env) due_kernel = Done (Some SystemMode, k').
Proof.
  assert (irq_status due_kernel = SystemMode) as Est by (vm_compute; reflexivity).
  assert (timer_ready due_kernel) as Hk by apply set_irq_ready, sample_ready.
  rewrite <- Est.
  apply (timer_forces_yield sample_env due_kernel 75 (mkPending TimerHandler 75 TimerInt) [] sample_random Hk).
  - split; [simpl; repeat constructor | done].
  - rewrite Est. discriminate.
  - unfold time_limit, SystemTick, TimerTicks. simpl. lia.
  - reflexivity.
  - rewrite Est. vm_compute. discriminate.
Defined.
