(* ===== verification/SyscallClaims.v ===== *)
(** * Semaphores, context switches and system calls, operation by operation *)

From stdpp Require Import base gmap list numbers strings.
From Stdlib Require Import ZArith Lia.
From S2P Require Import Prelude BitMap HandleTables FileStub Machine MachineFacts AddrSpace Mips MipsFacts VMAccess LinkedList Interrupt Kernel Syscalls Step ThreadInv KernelClaims IrqClaims.

(** ** Running the accesses *)

Lemma wp_object {A} (m : Kernel → gmap Z A) p x (Q : A → Kernel → Prop) k :
  m k !! p = Some x → Q x k → wp (object m p) Q k.
Proof. intros Hx HQ. unfold object. wp_steps. rewrite Hx. by wp_steps. Qed.

Lemma wp_modify_thread t x f (Q : unit → Kernel → Prop) k : threads (k_sched k) !! t = Some x →
  Q tt (set_k_sched (set_threads (<[t := f x]> (threads (k_sched k))) (k_sched k)) k) →
  wp (modify_thread t f) Q k.
Proof.
  intros Hx HQ. unfold modify_thread, the_thread, modify_sched. wp_step. by eapply wp_object; [| wp_steps].
Qed.

Definition sem_of (k : Kernel) (s : Z) : option Semaphore := sems (k_synch k) !! s.
Definition thread_of (k : Kernel) (t : Z) : option Thread := threads (k_sched k) !! t.

(** Interrupts may be turned on only outside of a handler. *)
Lemma SetLevel_run now k x : now = IntOff ∨ inHandler (k_irq k) = false →
  thread_of k (currentThread (k_sched k)) = Some x →
  wp (SetLevel now) (λ old k', old = level (k_irq k) ∧ level (k_irq k') = now ∧ inHandler (k_irq k') = inHandler (k_irq k) ∧
    k_synch k' = k_synch k ∧ readyList (k_sched k') = readyList (k_sched k) ∧
    currentThread (k_sched k') = currentThread (k_sched k) ∧
    (∀ t, t_status <$> thread_of k' t = t_status <$> thread_of k t) ∧
    ∃ x', thread_of k' (currentThread (k_sched k)) = Some x' ∧
      t_stack x' = (if decide (now = IntOn ∧ level (k_irq k) = IntOff) then [Tick] else []) ++ t_stack x) k.
Proof.
  intros Hnow Hx. unfold SetLevel, ChangeLevel, modify_irq. wp_step. wp_step. wp_step. wp_step.
  { destruct Hnow as [-> | ->]; [done |]. by rewrite orb_true_r. }
  wp_step. wp_step. wp_step. destruct (decide (now = IntOn ∧ level (k_irq k) = IntOff)).
  - unfold push, current. wp_step. wp_step. eapply wp_modify_thread; [exact Hx |]. wp_steps.
    split_and!; try done.
    + intros t. unfold thread_of. simpl. destruct (decide (t = currentThread (k_sched k))) as [-> | Hn].
      * rewrite lookup_insert_eq. unfold thread_of in Hx. by rewrite Hx.
      * by rewrite lookup_insert_ne.
    + eexists. unfold thread_of. simpl. rewrite lookup_insert_eq. by split.
  - wp_steps. split_and!; try done. by eexists.
Qed.

(** ** Semaphores *)

Lemma ReadyToRun_run t x (Q : unit → Kernel → Prop) k : thread_of k t = Some x →
  Q tt (set_k_sched (mkSched (<[t := set_status READY x]> (threads (k_sched k))) (currentThread (k_sched k))
    (threadToBeDestroyed (k_sched k)) (readyList (k_sched k) ++ [t])) k) → wp (ReadyToRun t) Q k.
Proof.
  intros Hx HQ. unfold ReadyToRun, modify_sched. wp_step. eapply wp_modify_thread; [exact Hx |]. by wp_steps.
Qed.

Lemma put_sem_run s x (Q : unit → Kernel → Prop) k :
  Q tt (set_k_synch (set_sems (<[s := x]> (sems (k_synch k))) (k_synch k)) k) → wp (put_sem s x) Q k.
Proof. intros HQ. unfold put_sem, modify_synch. by wp_steps. Qed.

Lemma V_body_run k s y : sem_of k s = Some y → - 2 ^ 31 ≤ value y < 2 ^ 31 - 1 →
  (∀ t, head (queue y) = Some t → is_Some (thread_of k t)) →
  wp (V_body s) (λ _ k',
    k_irq k' = k_irq k ∧ currentThread (k_sched k') = currentThread (k_sched k) ∧
    sems (k_synch k') = <[s := mkSemaphore (value y + 1) (tail (queue y))]> (sems (k_synch k)) ∧
    readyList (k_sched k') = readyList (k_sched k) ++ take 1 (queue y) ∧
    ∀ t, thread_of k' t =
      (if decide (head (queue y) = Some t) then set_status READY else id) <$> thread_of k t) k.
Proof.
  intros Hs Hv Hq. assert (checked_int (value y + 1) = Done (value y + 1)) as Hc.
  { unfold checked_int. rewrite decide_True by lia. done. }
  unfold V_body, the_sem. wp_step. eapply wp_object; [exact Hs |]. wp_step.
  destruct y as [v [| t rest]]; simpl in *.
  - wp_steps. eapply wp_object; [exact Hs |]. wp_step. eapply wp_lift; [exact Hc |]. apply put_sem_run. simpl.
    rewrite app_nil_r. split_and!; try done. intros t. by rewrite option_fmap_id.
  - destruct (Hq t eq_refl) as [x Hx]. wp_step. apply put_sem_run. apply (ReadyToRun_run _ x); [exact Hx |].
    wp_step. eapply wp_object; [simpl; apply lookup_insert_eq |]. wp_step. eapply wp_lift; [exact Hc |].
    apply put_sem_run. simpl. rewrite insert_insert_eq. split_and!; try done. intros u. unfold thread_of. simpl.
    destruct (decide (Some t = Some u)) as [[= ->] | Hn].
    + rewrite lookup_insert_eq. unfold thread_of in Hx. simpl in Hx. by rewrite Hx.
    + rewrite lookup_insert_ne by congruence. by rewrite option_fmap_id.
Qed.

(** [V] adds one to the value and hands the processor to nobody, but makes
    the thread that has waited longest ready: it leaves the queue, becomes
    [READY] and goes to the end of the ready list.  Nothing else changes: not
    the other semaphores, not the status of the other threads, not the interrupt
    level.  (At the largest [int] the increment overflows.) *)
Theorem V_wakes_first k s y x : sem_of k s = Some y → - 2 ^ 31 ≤ value y < 2 ^ 31 - 1 →
  (∀ t, head (queue y) = Some t → is_Some (thread_of k t)) →
  thread_of k (currentThread (k_sched k)) = Some x → inHandler (k_irq k) = false →
  wp (Semaphore_V s) (λ _ k',
    sems (k_synch k') = <[s := mkSemaphore (value y + 1) (tail (queue y))]> (sems (k_synch k)) ∧
    readyList (k_sched k') = readyList (k_sched k) ++ take 1 (queue y) ∧
    currentThread (k_sched k') = currentThread (k_sched k) ∧ level (k_irq k') = level (k_irq k) ∧
    ∀ t, t_status <$> thread_of k' t =
      if decide (head (queue y) = Some t) then Some READY else t_status <$> thread_of k t) k.
Proof.
  intros Hs Hv Hq Hx Hh. unfold Semaphore_V. wp_step.
  eapply wp_mono; [apply (SetLevel_run IntOff k x); [by left | done] |].
  intros old k1 (-> & Hl1 & Hh1 & Hsy1 & Hr1 & Hc1 & Hst1 & x1 & Hx1 & _). wp_step.
  eapply wp_mono; [apply (V_body_run k1 s y) |].
  { unfold sem_of. by rewrite Hsy1. } { done. }
  { intros t Ht. specialize (Hst1 t). destruct (Hq t Ht) as [z Hz]. rewrite Hz in Hst1.
    destruct (thread_of k1 t); [by eexists | done]. }
  intros [] k2 (Hi2 & Hc2 & Hsy2 & Hr2 & Hth2).
  assert (is_Some (thread_of k2 (currentThread (k_sched k2)))) as [x2 Hx2].
  { rewrite Hth2, Hc2, Hc1, Hx1. by eexists. }
  wp_step. eapply wp_mono; [apply (SetLevel_run (level (k_irq k)) k2 x2); [right; congruence | done] |].
  intros l k3 (_ & Hl3 & _ & Hsy3 & Hr3 & Hc3 & Hst3 & _). wp_steps.
  split_and!; [by rewrite Hsy3, Hsy2, Hsy1 | congruence | congruence | done |].
  intros t. rewrite Hst3, Hth2. destruct (decide (head (queue y) = Some t)) as [Ht | Hn].
  - destruct (Hq t Ht) as [z Hz]. specialize (Hst1 t). rewrite Hz in Hst1. by destruct (thread_of k1 t).
  - rewrite option_fmap_id. apply Hst1.
Qed.

Lemma V_wakes_first_witness :
  sem_of sample_kernel 0 = Some (mkSemaphore 1 [7]) ∧
  wp (Semaphore_V 0) (λ _ k', sem_of k' 0 = Some (mkSemaphore 2 []) ∧ readyList (k_sched k') = [4; 7]) sample_kernel.
Proof.
  assert (sem_of sample_kernel 0 = Some (mkSemaphore 1 [7])) as Hs by (vm_compute; reflexivity).
  assert (readyList (k_sched sample_kernel) = [4]) as Hr by (vm_compute; reflexivity).
  split; [exact Hs |].
  destruct (thread_of sample_kernel (currentThread (k_sched sample_kernel))) as [x |] eqn:Hx;
    [| vm_compute in Hx; discriminate Hx].
  eapply wp_mono; [apply (V_wakes_first sample_kernel 0 (mkSemaphore 1 [7]) x Hs) |].
  - simpl. lia.
  - intros t [= <-]. vm_compute. by eexists.
  - exact Hx.
  - vm_compute. reflexivity.
  - cbv beta. intros [] k' (E1 & E2 & _). unfold sem_of. rewrite E1, E2, lookup_insert_eq, Hr. by split.
Defined.

(** The turn of the loop of [P]: a value other than 0 is taken at once, down
    by one, and the thread goes on; at 0 the thread joins the end of the queue,
    becomes [BLOCKED] and is to sleep and then look at the value again. *)
Theorem P_takes_or_waits k s y x : sem_of k s = Some y → - 2 ^ 31 < value y < 2 ^ 31 →
  thread_of k (currentThread (k_sched k)) = Some x → level (k_irq k) = IntOff →
  wp (while_P s) (λ _ k', k_irq k' = k_irq k ∧ readyList (k_sched k') = readyList (k_sched k) ∧
    if decide (value y = 0) then
      sems (k_synch k') = <[s := mkSemaphore 0 (queue y ++ [currentThread (k_sched k)])]> (sems (k_synch k)) ∧
      thread_of k' (currentThread (k_sched k)) =
        Some (set_stack (SleepWhile :: WhileP s :: t_stack x) (set_status BLOCKED x))
    else
      sems (k_synch k') = <[s := mkSemaphore (value y - 1) (queue y)]> (sems (k_synch k)) ∧
      k_sched k' = k_sched k) k.
Proof.
  intros Hs Hv Hx Hl. unfold while_P, the_sem. wp_step. eapply wp_object; [exact Hs |].
  destruct (decide (value y = 0)) as [E | Hn].
  - unfold current. wp_step. wp_step. wp_step. apply put_sem_run. unfold push, current. wp_step. wp_step. wp_step.
    eapply wp_modify_thread; [exact Hx |]. unfold Thread_Sleep, current. wp_step. wp_step. wp_step. wp_step.
    { simpl. rewrite Hl. done. }
    wp_step. wp_step. wp_step.
    eapply wp_modify_thread; [simpl; apply lookup_insert_eq |]. unfold push, current. wp_step. wp_step.
    eapply wp_modify_thread; [simpl; apply lookup_insert_eq |]. unfold thread_of. simpl. rewrite E.
    rewrite !insert_insert_eq, lookup_insert_eq. by split_and!.
  - wp_step. eapply wp_lift; [unfold checked_int; by rewrite decide_True by lia |]. by apply put_sem_run.
Qed.

Lemma P_takes_or_waits_witness :
  wp (while_P 0) (λ _ k', sem_of k' 0 = Some (mkSemaphore 0 [7])) finished_kernel.
Proof.
  assert (sem_of finished_kernel 0 = Some (mkSemaphore 1 [7])) as Hs by (vm_compute; reflexivity).
  destruct (thread_of finished_kernel (currentThread (k_sched finished_kernel))) as [x |] eqn:Hx;
    [| vm_compute in Hx; discriminate Hx].
  eapply wp_mono; [apply (P_takes_or_waits finished_kernel 0 (mkSemaphore 1 [7]) x Hs) |].
  - simpl. lia.
  - exact Hx.
  - vm_compute. reflexivity.
  - cbv beta. intros [] k' (_ & _ & H). destruct (decide (value (mkSemaphore 1 [7]) = 0)) as [E | _]; [discriminate E |].
    destruct H as [E _]. unfold sem_of. rewrite E, lookup_insert_eq. reflexivity.
Defined.

(** ** User registers *)

Definition regs_of (k : Kernel) : list Z := registers (vm_machine (k_vm k)).
Definition with_regs (l : list Z) (k : Kernel) : Kernel :=
  set_k_vm (set_vm_machine (set_registers l (vm_machine (k_vm k))) (k_vm k)) k.

Lemma with_regs_with l l' k : with_regs l (with_regs l' k) = with_regs l k.
Proof. done. Qed.
Lemma with_regs_id k : with_regs (regs_of k) k = k.
Proof. by destruct k as [[[]] ? ? ? ? ?]. Qed.

Section registers.
Context (k : Kernel) (Hlen : length (regs_of k) = Z.to_nat NumTotalRegs).

Lemma read_reg_run r v (Q : Z → Kernel → Prop) : 0 ≤ r < NumTotalRegs → regs_of k !! Z.to_nat r = Some v →
  Q v k → wp (read_reg r) Q k.
Proof using k.
  clear Hlen. intros Hr Hv HQ. unfold read_reg, on_cpu. apply wp_zoom, wp_zoom. unfold ReadRegister. wp_steps.
  { apply andb_true_intro. split; apply bool_decide_eq_true; lia. }
  eapply wp_lift; [apply rd_Done; [lia | exact Hv] |].
  assert (set_k_vm (set_vm_machine (vm_machine (k_vm k)) (k_vm k)) k = k) as ->
    by (by destruct k as [[[]] ? ? ? ? ?]). done.
Qed.

Lemma write_reg_run r v (Q : unit → Kernel → Prop) : 0 ≤ r < NumTotalRegs →
  Q tt (with_regs (<[Z.to_nat r := v]> (regs_of k)) k) → wp (write_reg r v) Q k.
Proof using Hlen.
  intros Hr HQ. unfold write_reg, on_cpu. apply wp_zoom, wp_zoom. unfold WriteRegister. wp_steps.
  { apply andb_true_intro. split; apply bool_decide_eq_true; lia. }
  eapply wp_lift; [apply wr_Done; unfold regs_of in Hlen; rewrite Hlen; lia |]. by wp_steps.
Qed.
End registers.

(** Returning from a system call moves the program on: the previous, current
    and next program counters advance by one instruction (the next one wraps
    at 32 bits), and nothing else of the kernel changes. *)
Theorem returnFromSystemCall_advances k pc npc : length (regs_of k) = Z.to_nat NumTotalRegs →
  regs_of k !! Z.to_nat PCReg = Some pc → regs_of k !! Z.to_nat NextPCReg = Some npc →
  returnFromSystemCall k = Done (tt, with_regs (<[Z.to_nat NextPCReg := s32 (npc + 4)]>
    (<[Z.to_nat PCReg := npc]> (<[Z.to_nat PrevPCReg := pc]> (regs_of k)))) k).
Proof.
  intros Hl Hpc Hnpc.
  assert (wp returnFromSystemCall (λ r k', r = tt ∧ k' = with_regs (<[Z.to_nat NextPCReg := s32 (npc + 4)]>
    (<[Z.to_nat PCReg := npc]> (<[Z.to_nat PrevPCReg := pc]> (regs_of k)))) k) k) as (r & k' & Hrun & -> & ->); [| done].
  unfold returnFromSystemCall. wp_step. eapply read_reg_run; [done | exact Hpc |].
  wp_step. eapply read_reg_run; [done | exact Hnpc |].
  wp_step. apply write_reg_run; [done | done |].
  wp_step. apply write_reg_run; [unfold regs_of; simpl; by rewrite length_insert | done |].
  apply write_reg_run; [unfold regs_of; simpl; by rewrite !length_insert | done |]. done.
Qed.

Lemma returnFromSystemCall_advances_witness :
  ∃ k', returnFromSystemCall sample_kernel = Done (tt, k') ∧ regs_of k' !! Z.to_nat NextPCReg = Some 4.
Proof.
  assert (length (regs_of sample_kernel) = Z.to_nat NumTotalRegs) as Hl by (vm_compute; reflexivity).
  assert (regs_of sample_kernel !! Z.to_nat PCReg = Some 0) as H1 by (vm_compute; reflexivity).
  assert (regs_of sample_kernel !! Z.to_nat NextPCReg = Some 0) as H2 by (vm_compute; reflexivity).
  eexists. split; [exact (returnFromSystemCall_advances sample_kernel 0 0 Hl H1 H2) |].
  unfold regs_of at 1. cbn [with_regs k_vm set_k_vm vm_machine set_vm_machine registers set_registers].
  rewrite list_lookup_insert_eq; [reflexivity |]. rewrite !length_insert, Hl. vm_compute. lia.
Defined.

(** The loop of [RestoreUserState]. *)
Lemma restore_loop k t x rs : t_userRegisters x = rs → length rs = Z.to_nat NumTotalRegs →
  length (regs_of k) = Z.to_nat NumTotalRegs → thread_of k t = Some x →
  wp (RestoreUserState t) (λ _ k', k' = with_regs rs k) k.
Proof.
  intros Hx Hrs Hl Ht. unfold RestoreUserState, the_thread. wp_step. eapply wp_object; [exact Ht |]. rewrite Hx.
  eapply wp_mono; [apply (wp_for (λ i k', 0 ≤ i ≤ NumTotalRegs ∧
    k' = with_regs (take (Z.to_nat i) rs ++ drop (Z.to_nat i) (regs_of k)) k)) |].
  - split; [done |]. simpl. by rewrite drop_0, with_regs_id.
  - intros i k' Hi [Hi' ->]. assert (i < NumTotalRegs) as Hlt by lia.
    destruct (lookup_lt_is_Some_2 rs (Z.to_nat i)) as [v Hv]; [rewrite Hrs; lia |].
    wp_step. eapply wp_lift; [apply rd_Done; [lia | exact Hv] |].
    apply (write_reg_run (with_regs (take (Z.to_nat i) rs ++ drop (Z.to_nat i) (regs_of k)) k)).
    + unfold regs_of at 1. simpl. rewrite length_app, length_take, length_drop. lia.
    + lia.
    + split; [lia |]. rewrite with_regs_with. f_equal. unfold regs_of at 1. simpl.
      replace (Z.to_nat (i + 1)) with (S (Z.to_nat i)) by lia.
      rewrite (take_S_r _ _ _ Hv). destruct (lookup_lt_is_Some_2 (regs_of k) (Z.to_nat i)) as [w Hw]; [lia |].
      rewrite (drop_S _ _ _ Hw), insert_app_r_alt; rewrite length_take, Nat.min_l by lia; [| lia].
      rewrite Nat.sub_diag. simpl. by rewrite <- app_assoc.
  - cbv beta. intros [] k' [_ ->]. f_equal. change (0 + Z.of_nat (Z.to_nat NumTotalRegs)) with NumTotalRegs.
    rewrite take_ge, drop_ge by lia. by rewrite app_nil_r.
Qed.

(** A context switch gives a user program its registers back: what
    [SaveUserState] stores in the thread, [RestoreUserState] puts in the machine
    again, whatever the machine did in between and as long as nobody else wrote
    to the thread's saved registers; it changes no other part of the state. *)
Theorem user_registers_survive_switch k t x : thread_of k t = Some x →
  length (regs_of k) = Z.to_nat NumTotalRegs →
  wp (SaveUserState t) (λ _ k1, regs_of k1 = regs_of k ∧
    ∀ k2, length (regs_of k2) = Z.to_nat NumTotalRegs →
      t_userRegisters <$> thread_of k2 t = t_userRegisters <$> thread_of k1 t →
      RestoreUserState t k2 = Done (tt, with_regs (regs_of k) k2)) k.
Proof.
  intros Hx Hl. unfold SaveUserState. wp_step. wp_step. wp_step.
  eapply wp_lift; [apply rd_block_Done; [done | done | unfold regs_of in Hl; rewrite Hl; done] |].
  change (Z.to_nat 0) with 0%nat. rewrite drop_0, take_ge by (change (length (regs_of k) ≤ Z.to_nat NumTotalRegs)%nat; lia).
  eapply wp_modify_thread; [exact Hx |]. split; [done |]. intros k2 Hl2.
  unfold thread_of at 2. simpl. rewrite lookup_insert_eq. simpl.
  destruct (thread_of k2 t) as [x2 |] eqn:Hx2; [| done]. intros [= E].
  destruct (restore_loop k2 t x2 (regs_of k) E Hl Hl2 Hx2) as ([] & k' & Hrun & ->). exact Hrun.
Qed.

Lemma user_registers_survive_switch_witness :
  wp (SaveUserState 1) (λ _ k1, RestoreUserState 1 (with_regs (replicate (Z.to_nat NumTotalRegs) 9) k1) =
    Done (tt, with_regs (regs_of sample_kernel) (with_regs (replicate (Z.to_nat NumTotalRegs) 9) k1))) sample_kernel.
Proof.
  destruct (thread_of sample_kernel 1) as [x |] eqn:Hx; [| vm_compute in Hx; discriminate Hx].
  eapply wp_mono; [apply (user_registers_survive_switch sample_kernel 1 x Hx) |].
  - vm_compute. reflexivity.
  - cbv beta. intros [] k1 [_ H]. apply H; [| reflexivity].
    change (length (replicate (Z.to_nat NumTotalRegs) 9) = Z.to_nat NumTotalRegs). apply length_replicate.
Defined.

(** ** Where system calls go wrong *)

(** [Nachos_Write] to a file that is not open returns from the middle of its
    [switch]: it sets the result to -1 but neither gives the console semaphore
    back, which it holds at this point, nor advances the program counter, so the
    program repeats the call and then waits for the console forever. *)
Theorem write_unopened_keeps_console k x tb tb' id buffer size :
  id ≠ ConsoleInput → id ≠ ConsoleOutput → id ≠ ConsoleError →
  length (regs_of k) = Z.to_nat NumTotalRegs →
  thread_of k (currentThread (k_sched k)) = Some x → tables (k_io k) !! t_mytable x = Some tb →
  OpenFilesTable_isOpened id tb = Done (false, tb') →
  wp (write_switch id buffer size) (λ _ k', k_synch k' = k_synch k ∧ k_sched k' = k_sched k ∧
    regs_of k' = <[2%nat := -1]> (regs_of k)) k.
Proof.
  intros H0 H1 H2 Hl Hx Htb Hop. unfold write_switch. rewrite !decide_False by done.
  unfold current_thread, current, the_thread. wp_step. wp_step. wp_step. eapply wp_object; [exact Hx |].
  unfold on_table, modify_io. wp_step. wp_step. eapply wp_object; [exact Htb |]. rewrite Hop. wp_steps. simpl negb. cbv iota.
  by apply write_reg_run.
Qed.

Lemma write_unopened_keeps_console_witness :
  wp (write_switch 5 [65; 0] 1) (λ _ k', sem_of k' 0 = sem_of sample_kernel 0) sample_kernel.
Proof.
  destruct (thread_of sample_kernel (currentThread (k_sched sample_kernel))) as [x |] eqn:Hx;
    [| vm_compute in Hx; discriminate Hx].
  assert (t_mytable x = 2) as Et by (vm_compute in Hx; injection Hx as <-; reflexivity).
  destruct (tables (k_io sample_kernel) !! t_mytable x) as [tb |] eqn:Htb;
    [| rewrite Et in Htb; vm_compute in Htb; discriminate Htb].
  assert (OpenFilesTable_isOpened 5 tb = Done (false, tb)) as Hop.
  { rewrite Et in Htb. vm_compute in Htb. injection Htb as <-. vm_compute. reflexivity. }
  eapply wp_mono; [apply (write_unopened_keeps_console sample_kernel x tb tb 5 [65; 0] 1) |];
    [discriminate | discriminate | discriminate | vm_compute; reflexivity | exact Hx | exact Htb | exact Hop |].
  cbv beta. intros [] k' (E & _). unfold sem_of. by rewrite E.
Defined.
