(* ===== verification/DiskProg.v ===== *)
(** * Programs over a disk of sectors

    The disk file system (filesys/) reaches the disk only through
    [SynchDisk::ReadSector] and [SynchDisk::WriteSector].  Its code is written as
    programs of these two requests ([prog]), with two meanings: [run] over an
    array of sectors, in which the theorems about files are proved, and [srun] of
    SynchDisk.v through the simulated device, which refines it. *)

From stdpp Require Import base gmap list numbers.
From Stdlib Require Import ZArith Lia.
From S2P Require Import Prelude Machine.

(** machine/disk.h *)
Definition SectorsPerTrack : Z := 32.
Definition NumTracks : Z := 32.
Definition NumSectors : Z := SectorsPerTrack * NumTracks.

Inductive prog (A : Type) :=
| Return (a : A)
| Read (sectorNumber : Z) (k : list Z → prog A)
| Write (sectorNumber : Z) (data : list Z) (k : prog A)
| Fail (f : fault).
Arguments Return {A} _.
Arguments Read {A} _ _.
Arguments Write {A} _ _ _.
Arguments Fail {A} _.

Fixpoint prog_bind {A B} (f : A → prog B) (p : prog A) : prog B :=
  match p with
  | Return a => f a
  | Read s k => Read s (λ bs, prog_bind f (k bs))
  | Write s bs k => Write s bs (prog_bind f k)
  | Fail e => Fail e
  end.

#[export] Instance prog_ret : MRet prog := λ A a, Return a.
#[export] Instance prog_mbind : MBind prog := λ A B f p, prog_bind f p.

(** Computations without disk accesses. *)
Definition pure {A} (o : outcome A) : prog A := match o with Done a => Return a | Fault e => Fail e end.
Definition require (b : bool) : prog unit := if b then Return tt else Fail AssertFailed.
Definition on {S A} (s : S) (c : M S A) : prog (A * S) := pure (c s).

Definition ReadSector (sectorNumber : Z) : prog (list Z) := Read sectorNumber Return.
Definition WriteSector (sectorNumber : Z) (data : list Z) : prog unit := Write sectorNumber data (Return tt).

(** ** The array of sectors *)

Notation Sectors := (list (list Z)).

Definition valid_sector (s : Z) : bool := bool_decide (s >= 0) && bool_decide (s < NumSectors).

(** [Disk::ReadRequest] and [WriteRequest] check the sector number; a write takes
    [SectorSize] bytes of the buffer. *)
Fixpoint run {A} (p : prog A) (d : Sectors) : outcome (A * Sectors) :=
  match p with
  | Return a => Done (a, d)
  | Read s k =>
      if valid_sector s then
        match rd d s with Done bs => run (k bs) d | Fault e => Fault e end
      else Fault AssertFailed
  | Write s bs k =>
      if valid_sector s then
        match rd_block bs 0 SectorSize with
        | Done bs' => match wr d s bs' with Done d' => run k d' | Fault e => Fault e end
        | Fault e => Fault e
        end
      else Fault AssertFailed
  | Fail e => Fault e
  end.

Definition byte (b : Z) : Prop := 0 ≤ b < 256.
Definition is_sector (bs : list Z) : Prop := length bs = Z.to_nat SectorSize ∧ Forall byte bs.
Record disk_wf (d : Sectors) : Prop := {
  dw_length : Z.of_nat (length d) = NumSectors;
  dw_sectors : Forall is_sector d
}.

(** ** Rules *)

Lemma run_bind {A B} (p : prog A) (f : A → prog B) d :
  run (p ≫= f) d = match run p d with Done (a, d') => run (f a) d' | Fault e => Fault e end.
Proof.
  revert d. induction p as [a | s k IH | s bs k IH | e]; intros d; cbn; [done | | | done].
  - destruct (valid_sector s); [| done]. destruct (rd d s); [apply IH | done].
  - destruct (valid_sector s); [| done]. destruct (rd_block bs 0 SectorSize) as [bs' |]; [| done].
    destruct (wr d s bs'); [apply IH | done].
Qed.

(** The run of a program from [d] ends with [Q]. *)
Definition ends {A} (p : prog A) (Q : A → Sectors → Prop) (d : Sectors) : Prop := wp (run p) Q d.

Lemma ends_ret {A} (a : A) Q d : Q a d → ends (mret a) Q d.
Proof. intros HQ. by exists a, d. Qed.
Lemma ends_bind {A B} (p : prog A) (f : A → prog B) Q d :
  ends p (λ a d', ends (f a) Q d') d → ends (p ≫= f) Q d.
Proof.
  intros (a & d' & Hp & (b & d'' & Hf & HQ)). exists b, d''. split; [| done]. by rewrite run_bind, Hp.
Qed.
Lemma ends_mono {A} (p : prog A) (P Q : A → Sectors → Prop) d :
  ends p P d → (∀ a d', P a d' → Q a d') → ends p Q d.
Proof. apply wp_mono. Qed.
Lemma ends_pure {A} (o : outcome A) a Q d : o = Done a → Q a d → ends (pure o) Q d.
Proof. intros -> HQ. by exists a, d. Qed.
Lemma ends_require b Q d : b = true → Q tt d → ends (require b) Q d.
Proof. intros -> HQ. by exists tt, d. Qed.
Lemma ends_on {S A} (c : M S A) s Q d : wp c (λ a s', Q (a, s') d) s → ends (on s c) Q d.
Proof. intros (a & s' & Hc & HQ). by apply (ends_pure _ (a, s')). Qed.

Lemma valid_sector_true s : 0 ≤ s < NumSectors → valid_sector s = true.
Proof. intros Hs. unfold valid_sector. split_bool; lia. Qed.

Lemma ends_ReadSector s bs Q d : disk_wf d → 0 ≤ s < NumSectors → d !! Z.to_nat s = Some bs →
  Q bs d → ends (ReadSector s) Q d.
Proof.
  intros Hd Hs Hb HQ. exists bs, d. split; [| done]. simpl. rewrite valid_sector_true by done.
  by rewrite (rd_Done d s bs) by (done || lia).
Qed.

Lemma ends_WriteSector s bs Q d : disk_wf d → 0 ≤ s < NumSectors → is_sector bs →
  Q tt (<[Z.to_nat s := bs]> d) → ends (WriteSector s bs) Q d.
Proof.
  intros Hd Hs [Hl _] HQ. exists tt, (<[Z.to_nat s := bs]> d). split; [| done]. cbn [run WriteSector].
  rewrite valid_sector_true by done. change (Z.to_nat SectorSize) with 128%nat in Hl.
  rewrite rd_block_Done by (unfold SectorSize; lia). change (Z.to_nat 0) with 0%nat. rewrite drop_0, take_ge by (change (Z.to_nat SectorSize) with 128%nat; lia).
  by rewrite wr_Done by (rewrite (dw_length d Hd); lia).
Qed.

Lemma disk_wf_insert d s bs : disk_wf d → is_sector bs → disk_wf (<[s := bs]> d).
Proof. intros [Hl Hs] Hb. split; [by rewrite length_insert | by apply Forall_insert]. Qed.

Ltac ends_step :=
  lazymatch goal with
  | |- ends (mbind _ _) _ _ => apply ends_bind
  | |- ends (mret _) _ _ => apply ends_ret
  | |- ends (require _) _ _ => apply ends_require
  | |- ends (on _ _) _ _ => apply ends_on
  end.
Ltac ends_steps := repeat (ends_step; cbv beta).
