(* ===== verification/Disk.v ===== *)
(** * The disk device (machine/disk.{h,cc})

    A disk is a UNIX file: a magic number and the sectors.  A request reads or
    writes the file at once and schedules the interrupt that says when the
    device would be done, from the position of the head.  The device is written
    over the state [S] of a kernel with interrupts, through the class
    [DiskHost]; [stats->numDiskReads] and [numDiskWrites] are kept beside it. *)

From stdpp Require Import base gmap list numbers list_numbers strings.
From Stdlib Require Import ZArith Lia.
From S2P Require Import Prelude FileStub Machine LinkedList Interrupt DiskProg.

Definition RotationTime : Z := 500.
Definition SeekTime : Z := 500.

Definition MagicNumber : Z := 0x456789ab.
Definition MagicSize : Z := 4.
Definition DiskSize : Z := MagicSize + NumSectors * SectorSize.

Record Disk := mkDisk {
  file : list Z;          (* the bytes of the UNIX file [fileno] *)
  active : bool;
  lastSector : Z;
  bufferInit : Z;
  numDiskReads : Z;
  numDiskWrites : Z
}.

Definition set_file (f : list Z) (k : Disk) : Disk :=
  mkDisk f (active k) (lastSector k) (bufferInit k) (numDiskReads k) (numDiskWrites k).
Definition set_active (b : bool) (k : Disk) : Disk :=
  mkDisk (file k) b (lastSector k) (bufferInit k) (numDiskReads k) (numDiskWrites k).
Definition count_read (k : Disk) : Disk :=
  mkDisk (file k) (active k) (lastSector k) (bufferInit k) (s32 (numDiskReads k + 1)) (numDiskWrites k).
Definition count_write (k : Disk) : Disk :=
  mkDisk (file k) (active k) (lastSector k) (bufferInit k) (numDiskReads k) (s32 (numDiskWrites k + 1)).

Definition magic_bytes : list Z := le_bytes 4 MagicNumber.

(** [existing] is the UNIX file of that name, if there is one.  A new file gets
    the magic number and its last four bytes; what is between reads as zeros. *)
Definition Disk_new (existing : option (list Z)) : outcome Disk :=
  match existing with
  | Some f =>
      if decide (pread_bytes f 0 MagicSize = magic_bytes) then Done (mkDisk f false 0 0 0 0) else Fault AssertFailed
  | None =>
      let f := pwrite_bytes [] 0 magic_bytes in
      Done (mkDisk (pwrite_bytes f (DiskSize - 4) (le_bytes 4 0)) false 0 0 0 0)
  end.

(** ** Where the head is *)

(** The time of the seek, and of the rotation to the next sector boundary. *)
Definition TimeToSeek (k : Disk) (now newSector : Z) : Z * Z :=
  let newTrack := cdiv newSector SectorsPerTrack in
  let oldTrack := cdiv (lastSector k) SectorsPerTrack in
  let seek := Z.abs (newTrack - oldTrack) * SeekTime in
  let over := cmod (s32 (now + seek)) RotationTime in
  (seek, if decide (over > 0) then RotationTime - over else 0).

Definition ModuloDiff (to from : Z) : Z :=
  let toOffset := cmod to SectorsPerTrack in
  let fromOffset := cmod from SectorsPerTrack in
  cmod ((toOffset - fromOffset) + SectorsPerTrack) SectorsPerTrack.

(** The sector is in the track buffer. *)
Definition buffered (k : Disk) (now newSector : Z) (writing : bool) : bool :=
  let '(seek, rotation) := TimeToSeek k now newSector in
  let timeAfter := s32 (now + seek + rotation) in
  bool_decide (writing = false) && bool_decide (seek = 0) &&
  bool_decide (cdiv (s32 (timeAfter - bufferInit k)) RotationTime > ModuloDiff newSector (cdiv (bufferInit k) RotationTime)).

Definition ComputeLatency (k : Disk) (now newSector : Z) (writing : bool) : Z :=
  let '(seek, rotation) := TimeToSeek k now newSector in
  let timeAfter := s32 (now + seek + rotation) in
  if buffered k now newSector writing then RotationTime
  else
    let rotation := rotation + ModuloDiff newSector (cdiv timeAfter RotationTime) * RotationTime in
    seek + rotation + RotationTime.

Definition UpdateLast (k : Disk) (now newSector : Z) : Disk :=
  let '(seek, rotate) := TimeToSeek k now newSector in
  mkDisk (file k) (active k) newSector
    (if decide (seek ≠ 0) then s32 (now + seek + rotate) else bufferInit k) (numDiskReads k) (numDiskWrites k).

(** ** Requests *)

Class DiskHost (S H : Type) := {
  disk : S → Disk;
  set_disk : Disk → S → S;
  disk_done : H;                 (* DiskDone, this *)
  call_when_done : M S unit      (* ( *handler)(handlerArg) *)
}.

Section requests.
Context {S H : Type} `{IrqHost S H} `{DiskHost S H}.

Definition modify_disk (f : Disk → Disk) : M S unit := modify (λ s, set_disk (f (disk s)) s).

Definition offset (sectorNumber : Z) : Z := SectorSize * sectorNumber + MagicSize.

(** The bytes read into [data]. *)
Definition ReadRequest (sectorNumber : Z) : M S (list Z) :=
  s ← get;
  let now := totalTicks (irq s) in
  let ticks := ComputeLatency (disk s) now sectorNumber false in
  ASSERT (negb (active (disk s))) ;;
  ASSERT (valid_sector sectorNumber) ;;
  let data := pread_bytes (file (disk s)) (offset sectorNumber) SectorSize in
  ASSERT (bool_decide (Z.of_nat (length data) = SectorSize)) ;;
  modify_disk (set_active true) ;;
  modify_disk (λ k, UpdateLast k now sectorNumber) ;;
  modify_disk count_read ;;
  Schedule disk_done ticks DiskInt ;;
  mret data.

Definition WriteRequest (sectorNumber : Z) (data : list Z) : M S unit :=
  s ← get;
  let now := totalTicks (irq s) in
  let ticks := ComputeLatency (disk s) now sectorNumber true in
  ASSERT (negb (active (disk s))) ;;
  ASSERT (valid_sector sectorNumber) ;;
  src ← lift (rd_block data 0 SectorSize);
  modify_disk (λ k, set_file (pwrite_bytes (file k) (offset sectorNumber) src) k) ;;
  modify_disk (set_active true) ;;
  modify_disk (λ k, UpdateLast k now sectorNumber) ;;
  modify_disk count_write ;;
  Schedule disk_done ticks DiskInt.

Definition Disk_HandleInterrupt : M S unit :=
  modify_disk (set_active false) ;;
  call_when_done.
End requests.

(** ** Latency *)

Record head_ok (k : Disk) : Prop := {
  hk_last : 0 ≤ lastSector k < NumSectors;
  hk_buffer : 0 ≤ bufferInit k < 2 ^ 31
}.

(** Far enough from the end of an [int] for any latency. *)
Definition disk_clock (now : Z) : Prop := 0 ≤ now < 2 ^ 31 - 40000.

Lemma ModuloDiff_spec to from : 0 ≤ to → 0 ≤ from →
  0 ≤ ModuloDiff to from < SectorsPerTrack ∧ (from + ModuloDiff to from) mod SectorsPerTrack = to mod SectorsPerTrack.
Proof.
  intros Ht Hf. unfold ModuloDiff, SectorsPerTrack. rewrite !(cmod_nonneg to), !(cmod_nonneg from) by lia.
  pose proof (Z.mod_pos_bound to 32). pose proof (Z.mod_pos_bound from 32).
  rewrite cmod_nonneg by lia. split; [apply Z.mod_pos_bound; lia |]. dlia.
Qed.

Lemma TimeToSeek_spec k now s : head_ok k → disk_clock now → 0 ≤ s < NumSectors →
  ∃ seek rotation, TimeToSeek k now s = (seek, rotation) ∧ 0 ≤ seek ≤ 31 * SeekTime ∧ 0 ≤ rotation < RotationTime ∧
    (now + seek + rotation) mod RotationTime = 0 ∧ now + seek + rotation < 2 ^ 31.
Proof.
  intros [Hl _] Hn Hs. unfold disk_clock in Hn. unfold TimeToSeek, SectorsPerTrack, SeekTime, RotationTime.
  change NumSectors with 1024 in *. rewrite !cdiv_nonneg by lia.
  set (seek := Z.abs _ * 500). assert (0 ≤ seek ≤ 31 * 500) as Hseek by (unfold seek; dlia). clearbody seek.
  rewrite s32_small, cmod_nonneg by lia. pose proof (Z.mod_pos_bound (now + seek) 500).
  eexists _, _. split; [done |]. case_decide; split_and!; try lia; dlia.
Qed.

Lemma ComputeLatency_bounds k now s w : head_ok k → disk_clock now → 0 ≤ s < NumSectors →
  RotationTime ≤ ComputeLatency k now s w ≤ 32000.
Proof.
  intros Hk Hn Hs. destruct (TimeToSeek_spec k now s Hk Hn Hs) as (seek & rot & E & Hseek & Hrot & _ & Hlim).
  unfold ComputeLatency. rewrite E. unfold disk_clock in Hn. unfold RotationTime, SeekTime in *.
  case_match; [lia |]. rewrite s32_small, cdiv_nonneg by lia.
  destruct (ModuloDiff_spec s ((now + seek + rot) / 500)) as [Hm _]; [lia | apply Z.div_pos; lia |].
  unfold SectorsPerTrack in Hm. lia.
Qed.

(** Without the track buffer, the request ends on a sector boundary, just after
    the head has passed the sector. *)
Lemma ComputeLatency_lands k now s w : head_ok k → disk_clock now → 0 ≤ s < NumSectors → buffered k now s w = false →
  let done := now + ComputeLatency k now s w in
  done mod RotationTime = 0 ∧ (done / RotationTime - 1) mod SectorsPerTrack = s mod SectorsPerTrack.
Proof.
  intros Hk Hn Hs Hb. destruct (TimeToSeek_spec k now s Hk Hn Hs) as (seek & rot & E & Hseek & Hrot & Hal & Hlim).
  unfold ComputeLatency. rewrite E, Hb. unfold disk_clock in Hn. unfold RotationTime, SeekTime in *.
  rewrite s32_small, cdiv_nonneg by lia. set (t := now + seek + rot) in *.
  destruct (ModuloDiff_spec s (t / 500)) as [Hm Hmod]; [lia | apply Z.div_pos; lia |].
  set (m := ModuloDiff s (t / 500)) in *. clearbody m. cbv zeta.
  replace (now + (seek + (rot + m * 500) + 500)) with (t + (m + 1) * 500) by (unfold t; lia).
  rewrite Z_mod_plus_full, Z.div_add by lia. split; [done |]. rewrite <- Hmod. f_equal. lia.
Qed.

(** ** What a request does *)

(** The sectors of the file. *)
Definition sectors (k : Disk) : Sectors := (λ s, pread_bytes (file k) (offset s) SectorSize) <$> seqZ 0 NumSectors.

Record device_ok (k : Disk) : Prop := {
  dv_size : Z.of_nat (length (file k)) = DiskSize;
  dv_head : head_ok k
}.

Lemma sectors_lookup k s : 0 ≤ s < NumSectors →
  sectors k !! Z.to_nat s = Some (pread_bytes (file k) (offset s) SectorSize).
Proof.
  intros Hs. unfold sectors. rewrite list_lookup_fmap. rewrite lookup_seqZ_lt by lia.
  by rewrite Z.add_0_l, Z2Nat.id by lia.
Qed.

Lemma sectors_file k k' : file k = file k' → sectors k = sectors k'.
Proof. unfold sectors. by intros ->. Qed.

Lemma length_sectors k : length (sectors k) = Z.to_nat NumSectors.
Proof. unfold sectors. by rewrite length_fmap, length_seqZ. Qed.

Lemma sectors_wf k : device_ok k → Forall byte (file k) → disk_wf (sectors k).
Proof.
  intros [Hl _] Hb. change DiskSize with 131076 in Hl. split; [by rewrite length_sectors |].
  apply Forall_fmap, Forall_forall. intros s Hs%elem_of_seqZ. change (0 + NumSectors) with 1024 in Hs. split.
  - apply length_pread_full; unfold offset, SectorSize, MagicSize; lia.
  - by apply Forall_take, Forall_drop.
Qed.

(** Writing a sector is an update of the array of sectors. *)
Lemma sectors_write k s bs : device_ok k → 0 ≤ s < NumSectors → Z.of_nat (length bs) = SectorSize →
  sectors (set_file (pwrite_bytes (file k) (offset s) bs) k) = <[Z.to_nat s := bs]> (sectors k).
Proof.
  intros [Hl _] Hs Hlb. change DiskSize with 131076 in Hl. apply list_eq. intros j.
  destruct (decide (j < Z.to_nat NumSectors)%nat) as [Hj | Hj].
  - rewrite <- (Nat2Z.id j). set (z := Z.of_nat j). assert (0 ≤ z < NumSectors) as Hz by lia.
    rewrite sectors_lookup by done. cbn [file set_file]. destruct (decide (z = s)) as [-> | Hne].
    + rewrite list_lookup_insert_eq by (rewrite length_sectors; lia). f_equal.
      rewrite <- Hlb.
      apply pread_pwrite_same. unfold offset, SectorSize, MagicSize. lia.
    + rewrite list_lookup_insert_ne by lia. rewrite sectors_lookup by done. f_equal.
      change NumSectors with 1024 in *. unfold pread_bytes, pwrite_bytes, offset, SectorSize, MagicSize in *.
      rewrite block_splice_out by (rewrite ?length_app, ?length_replicate; lia).
      rewrite (proj2 (Nat.sub_0_le _ _)) by lia. simpl. by rewrite app_nil_r.
  - rewrite !(proj2 (lookup_ge_None _ _)); [done | |]; rewrite ?length_insert, length_sectors; lia.
Qed.

Lemma UpdateLast_ok k now s : device_ok k → disk_clock now → 0 ≤ s < NumSectors →
  device_ok (UpdateLast k now s) ∧ sectors (UpdateLast k now s) = sectors k ∧ active (UpdateLast k now s) = active k.
Proof.
  intros [Hl Hk] Hn Hs. destruct (TimeToSeek_spec k now s Hk Hn Hs) as (seek & rot & E & Hseek & Hrot & _ & Hlim).
  unfold UpdateLast. rewrite E. split_and!; [| done | done]. split; [done |]. destruct Hk as [_ Hb].
  split; cbn [lastSector bufferInit]; [done |]. unfold disk_clock in Hn.
  case_decide; [rewrite s32_small; lia | done].
Qed.

Lemma write_file_ok k s bs : device_ok k → 0 ≤ s < NumSectors → Z.of_nat (length bs) = SectorSize →
  device_ok (set_file (pwrite_bytes (file k) (offset s) bs) k).
Proof.
  intros [Hl Hk] Hs Hlb. split; cbn [file set_file]; [| by destruct Hk]. change DiskSize with 131076 in *.
  change NumSectors with 1024 in Hs. unfold offset, SectorSize, MagicSize in *. rewrite length_pwrite by lia. lia.
Qed.
