(* ===== verification/SynchDisk.v ===== *)
(** * The synchronous disk (filesys/synchdisk.{h,cc})

    The file system waits for each of its requests.  [DiskKernel] is the kernel
    around it while one thread uses the disk, as filesys.cc assumes ("no
    concurrent access"), and nothing else runs: the interrupt simulation of
    Interrupt.v, the device of Disk.v, the lock and the semaphore of the
    [SynchDisk], and the ready list.  A thread that waits on the semaphore
    finds no other thread to run and idles until the device interrupts.

    [srun] runs a program of the file system on this kernel; the theorem is that
    it computes what [run] computes on the array of sectors. *)

From stdpp Require Import base gmap list numbers list_numbers strings.
From Stdlib Require Import ZArith Lia.
From S2P Require Import Prelude FileStub Machine LinkedList Interrupt DiskProg Disk.

Record DiskSemaphore := mkSem { value : Z; queue : list Z }.

Record DiskKernel := mkDiskKernel {
  k_irq : Irq unit;
  k_status : MachineStatus;
  k_disk : Disk;
  mutex : DiskSemaphore;          (* lock->mutex *)
  lockHolder : option Z;      (* lock->lockHolder *)
  semaphore : DiskSemaphore;
  readyList : list Z
}.

(** The thread that uses the file system. *)
Definition me : Z := 0.

#[export] Instance DiskKernel_irq : IrqHost DiskKernel unit := {|
  irq := k_irq;
  set_irq i k := mkDiskKernel i (k_status k) (k_disk k) (mutex k) (lockHolder k) (semaphore k) (readyList k);
  irq_status := k_status;
  set_irq_status st k := mkDiskKernel (k_irq k) st (k_disk k) (mutex k) (lockHolder k) (semaphore k) (readyList k)
|}.

Definition set_k_disk (d : Disk) (k : DiskKernel) : DiskKernel :=
  mkDiskKernel (k_irq k) (k_status k) d (mutex k) (lockHolder k) (semaphore k) (readyList k).
Definition set_lockHolder (h : option Z) (k : DiskKernel) : DiskKernel :=
  mkDiskKernel (k_irq k) (k_status k) (k_disk k) (mutex k) h (semaphore k) (readyList k).
Definition set_ready (l : list Z) (k : DiskKernel) : DiskKernel :=
  mkDiskKernel (k_irq k) (k_status k) (k_disk k) (mutex k) (lockHolder k) (semaphore k) l.

(** Which of the two semaphores. *)
Inductive which := TheMutex | TheSemaphore.
Definition sem (w : which) (k : DiskKernel) : DiskSemaphore :=
  match w with TheMutex => mutex k | TheSemaphore => semaphore k end.
Definition set_sem (w : which) (x : DiskSemaphore) (k : DiskKernel) : DiskKernel :=
  match w with
  | TheMutex => mkDiskKernel (k_irq k) (k_status k) (k_disk k) x (lockHolder k) (semaphore k) (readyList k)
  | TheSemaphore => mkDiskKernel (k_irq k) (k_status k) (k_disk k) (mutex k) (lockHolder k) x (readyList k)
  end.

(** [V] within an interrupt handler or with interrupts off: [SetLevel] finds
    them off and leaves them off. *)
Definition DK_V_body (w : which) : M DiskKernel unit :=
  k ← get;
  match queue (sem w k) with
  | t :: q =>
      modify (set_sem w (mkSem (value (sem w k)) q)) ;;
      modify (λ k, set_ready (readyList k ++ [t]) k)
  | [] => mret tt
  end ;;
  modify (λ k, set_sem w (mkSem (s32 (value (sem w k) + 1)) (queue (sem w k))) k).

(** [SynchDisk::RequestDone], called by [DiskRequestDone]. *)
Definition RequestDone : M DiskKernel unit :=
  modify_irq (set_level IntOff) ;; DK_V_body TheSemaphore.

#[export] Instance DiskKernel_disk : DiskHost DiskKernel unit := {|
  disk := k_disk;
  set_disk := set_k_disk;
  disk_done := tt;
  call_when_done := RequestDone
|}.

#[export] Instance DiskKernel_interrupts : InterruptHost DiskKernel unit := {|
  delayed_load := mret tt;
  call_handler _ := Disk_HandleInterrupt
|}.

(** A time slice would need the timer, which is not started here. *)
Definition DK_SetLevel (now : IntStatus) : M DiskKernel IntStatus :=
  k ← get;
  let old := level (irq k) in
  ASSERT (bool_decide (now = IntOff) || negb (inHandler (irq k))) ;;
  ChangeLevel old now ;;
  (if decide (now = IntOn ∧ old = IntOff) then
     r ← OneTick;
     match r with None => mret tt | Some _ => stop AssertFailed end
   else mret tt) ;;
  mret old.

(** [Thread::Sleep]; [Run] gives the processor back to the thread, which is the
    only one. *)
Fixpoint sleep_loop (fuel : nat) : M DiskKernel unit :=
  match fuel with
  | O => stop OutOfFuel
  | S fuel' =>
      k ← get;
      match readyList k with
      | [] => Idle ;; sleep_loop fuel'
      | t :: l => modify (set_ready l)
      end
  end.

Definition Sleep : M DiskKernel unit :=
  k ← get;
  ASSERT (bool_decide (level (irq k) = IntOff)) ;;
  sleep_loop 2.

Fixpoint P_loop (w : which) (fuel : nat) : M DiskKernel unit :=
  match fuel with
  | O => stop OutOfFuel
  | S fuel' =>
      k ← get;
      if decide (value (sem w k) = 0) then
        modify (λ k, set_sem w (mkSem (value (sem w k)) (queue (sem w k) ++ [me])) k) ;;
        Sleep ;;
        P_loop w fuel'
      else modify (λ k, set_sem w (mkSem (s32 (value (sem w k) - 1)) (queue (sem w k))) k)
  end.

Definition P (w : which) : M DiskKernel unit :=
  oldLevel ← DK_SetLevel IntOff;
  P_loop w 2 ;;
  DK_SetLevel oldLevel ;;
  mret tt.

Definition V (w : which) : M DiskKernel unit :=
  oldLevel ← DK_SetLevel IntOff;
  DK_V_body w ;;
  DK_SetLevel oldLevel ;;
  mret tt.

Definition Acquire : M DiskKernel unit := P TheMutex ;; modify (set_lockHolder (Some me)).

Definition Release : M DiskKernel unit :=
  k ← get;
  ASSERT (bool_decide (lockHolder k = Some me)) ;;
  modify (set_lockHolder None) ;;
  V TheMutex.

Definition SynchDisk_ReadSector (sectorNumber : Z) : M DiskKernel (list Z) :=
  Acquire ;;
  data ← ReadRequest sectorNumber;
  P TheSemaphore ;;
  Release ;;
  mret data.

Definition SynchDisk_WriteSector (sectorNumber : Z) (data : list Z) : M DiskKernel unit :=
  Acquire ;;
  WriteRequest sectorNumber data ;;
  P TheSemaphore ;;
  Release.

(** The kernel right after [new SynchDisk], with the disk [d]. *)
Definition SynchDisk_new (d : Disk) : DiskKernel :=
  mkDiskKernel (set_level IntOn Interrupt_new) SystemMode d (mkSem 1 []) None (mkSem 0 []) [].

(** A program of the file system on this kernel. *)
Fixpoint srun {A} (p : prog A) : M DiskKernel A :=
  match p with
  | Return a => mret a
  | Read s k => bs ← SynchDisk_ReadSector s; srun (k bs)
  | Write s bs k => SynchDisk_WriteSector s bs ;; srun k
  | Fail e => stop e
  end.
