(* ===== verification/SynchDiskFacts.v ===== *)
(** * The file system over the simulated device *)

From stdpp Require Import base gmap list numbers list_numbers strings.
From Stdlib Require Import ZArith Lia.
From S2P Require Import Prelude FileStub Machine LinkedList Interrupt DiskProg Disk SynchDisk.

(** No overflow of an [int]. *)
Definition int_fits (v : Z) : Prop := - 2 ^ 31 ≤ v < 2 ^ 31.

(** The counters of the clock. *)
Record Clock := mkClock { now : Z; idle : Z; system : Z; user : Z }.

Definition clock_irq (l : IntStatus) (p : list (Z * PendingInterrupt unit)) (c : Clock) : Irq unit :=
  mkIrq l p false false (now c) (idle c) (system c) (user c).

(** [OneTick] in the kernel, and the time an idle machine skips. *)
Definition ticked (c : Clock) : Clock := mkClock (s32 (now c + SystemTick)) (idle c) (s32 (system c + SystemTick)) (user c).
Definition skip (w : Z) (c : Clock) : Clock := mkClock w (s32 (idle c + (w - now c))) (system c) (user c).

(** Between two calls of the file system. *)
Definition quiet (c : Clock) (d : Disk) : DiskKernel :=
  mkDiskKernel (clock_irq IntOn [] c) SystemMode d (mkSem 1 []) None (mkSem 0 []) [].
(** The thread holds the lock; [p] is pending. *)
Definition locked (p : list (Z * PendingInterrupt unit)) (c : Clock) (d : Disk) : DiskKernel :=
  mkDiskKernel (clock_irq IntOn p c) SystemMode d (mkSem 0 []) (Some me) (mkSem 0 []) [].

Lemma Acquire_run c d : Acquire (quiet c d) = Done (tt, locked [] (ticked c) d).
Proof. reflexivity. Qed.

Lemma Release_run c d : Release (locked [] c d) = Done (tt, quiet (ticked c) d).
Proof. reflexivity. Qed.

Lemma bind_run {S A B} (p : M S A) (f : A → M S B) s a s' r : p s = Done (a, s') → f a s' = r → (p ≫= f) s = r.
Proof. intros Hp <-. unfold mbind, M_bind. by rewrite Hp. Qed.

Lemma bind_inv {S A B} (p : M S A) (f : A → M S B) s b s' : (p ≫= f) s = Done (b, s') →
  ∃ a s1, p s = Done (a, s1) ∧ f a s1 = Done (b, s').
Proof. unfold mbind, M_bind. destruct (p s) as [[a s1] |]; [| done]. intros E. by exists a, s1. Qed.

Lemma rd_block_inv (data bs : list Z) : rd_block data 0 SectorSize = Done bs →
  bs = take (Z.to_nat SectorSize) data ∧ Z.of_nat (length bs) = SectorSize.
Proof.
  unfold rd_block. case_decide as Hr; [| done]. intros [= <-]. change (Z.to_nat 0) with 0%nat. rewrite drop_0.
  split; [done |]. rewrite length_take. unfold SectorSize in *. lia.
Qed.

Ltac run_step := eapply bind_run; [reflexivity | cbv beta].

Lemma due_advances (k : DiskKernel) w p : w > totalTicks (irq k) →
  due true w p k = Done (true, set_irq (advance_idle w (irq k)) k).
Proof.
  intros Hw. unfold due, mbind, M_bind, get. rewrite bool_decide_true by done. reflexivity.
Qed.

Lemma DK_SetLevel_off p c st d m h s l :
  DK_SetLevel IntOff (mkDiskKernel (clock_irq IntOn p c) st d m h s l) =
  Done (IntOn, mkDiskKernel (clock_irq IntOff p c) st d m h s l).
Proof. reflexivity. Qed.

(** The interrupt of the device wakes the thread. *)
Lemma Idle_run w c d : w > now c →
  Idle (mkDiskKernel (clock_irq IntOff [(w, mkPending tt w DiskInt)] c) SystemMode d (mkSem 0 []) (Some me)
          (mkSem 0 [me]) []) =
  Done (tt, mkDiskKernel (clock_irq IntOff [] (skip w c)) SystemMode (set_active false d) (mkSem 0 []) (Some me)
              (mkSem 1 []) [me]).
Proof.
  intros Hw. unfold Idle. run_step. eapply bind_run.
  - unfold CheckIfDue. run_step. run_step. cbn [pending irq DiskKernel_irq k_irq clock_irq]. run_step.
    eapply bind_run; [apply due_advances; exact Hw | reflexivity].
  - reflexivity.
Qed.

Lemma wait_run w c d : w > now c →
  P TheSemaphore (locked [(w, mkPending tt w DiskInt)] c d) = Done (tt, locked [] (ticked (skip w c)) (set_active false d)).
Proof.
  intros Hw. unfold P. eapply bind_run; [apply DK_SetLevel_off |]. cbv beta. eapply bind_run; [| cbv beta].
  - cbn [P_loop]. run_step. rewrite decide_True by done. run_step. eapply bind_run; [| cbv beta].
    + unfold Sleep. run_step. run_step. cbn [sleep_loop]. run_step. cbn [readyList].
      eapply bind_run; [exact (Idle_run w c d Hw) | reflexivity].
    + reflexivity.
  - reflexivity.
Qed.

(** ** The two requests *)

(** A request is under way and ends at [w]. *)
Record started (c : Clock) (d : Disk) (w : Z) : Prop := {
  st_device : device_ok d;
  st_after : now c < w ≤ now c + 32000
}.

Lemma Schedule_run c d ticks : ticks > 0 → int_fits (now c + ticks) →
  Schedule disk_done ticks DiskInt (locked [] c d) =
  Done (tt, locked [(now c + ticks, mkPending tt (now c + ticks) DiskInt)] c d).
Proof.
  intros Ht Hw. unfold Schedule. run_step. eapply bind_run.
  - unfold ASSERT. rewrite bool_decide_true by done. reflexivity.
  - cbv beta. cbn [totalTicks irq DiskKernel_irq k_irq locked clock_irq]. rewrite s32_small by exact Hw. reflexivity.
Qed.

Section requests.
Context (c : Clock) (d : Disk) (s : Z).
Context (Hd : device_ok d) (Hidle : active d = false) (Hc : disk_clock (now c)) (Hs : 0 ≤ s < NumSectors).

Notation ends_at w := (now c + ComputeLatency d (now c) s w).

Lemma latency_started w : now c < ends_at w ≤ now c + 32000 ∧ int_fits (ends_at w).
Proof using Hd Hc Hs.
  destruct (ComputeLatency_bounds d (now c) s w (dv_head d Hd) Hc Hs). unfold RotationTime, disk_clock, int_fits in *. lia.
Qed.

(** The device after the request. *)
Definition after_read : Disk := count_read (UpdateLast (set_active true d) (now c) s).
Definition after_write (bs : list Z) : Disk :=
  count_write (UpdateLast (set_active true (set_file (pwrite_bytes (file d) (offset s) bs) d)) (now c) s).

Lemma after_read_ok : device_ok after_read ∧ sectors after_read = sectors d.
Proof using Hd Hc Hs.
  destruct (UpdateLast_ok (set_active true d) (now c) s) as ([? [? ?]] & Hsec & _); [| done | done |].
  - destruct Hd as [? [? ?]]. by split.
  - split; [by split |]. etrans; [apply sectors_file; reflexivity |]. etrans; [exact Hsec | by apply sectors_file].
Qed.

Lemma after_write_ok bs : Z.of_nat (length bs) = SectorSize →
  device_ok (after_write bs) ∧ sectors (after_write bs) = <[Z.to_nat s := bs]> (sectors d).
Proof using Hd Hc Hs.
  intros Hl. pose proof (write_file_ok d s bs Hd Hs Hl) as Hw. pose proof (sectors_write d s bs Hd Hs Hl) as E.
  set (d1 := set_file _ d) in *. destruct (UpdateLast_ok (set_active true d1) (now c) s) as ([? [? ?]] & Hsec & _); [| done | done |].
  - destruct Hw as [? [? ?]]. by split.
  - split; [by split |]. rewrite <- E. etrans; [apply sectors_file; reflexivity |]. etrans; [exact Hsec | by apply sectors_file].
Qed.

Lemma ReadRequest_run : ReadRequest s (locked [] c d) =
  Done (pread_bytes (file d) (offset s) SectorSize,
        locked [(ends_at false, mkPending tt (ends_at false) DiskInt)] c after_read).
Proof using Hd Hidle Hc Hs.
  destruct (latency_started false) as [Hw Hfit]. unfold ReadRequest. run_step.
  cbn [disk DiskKernel_disk k_disk locked totalTicks irq DiskKernel_irq k_irq clock_irq].
  eapply bind_run; [rewrite Hidle; reflexivity |]. cbv beta.
  eapply bind_run; [rewrite valid_sector_true by done; reflexivity |]. cbv beta zeta.
  eapply bind_run.
  { rewrite bool_decide_true; [reflexivity |]. rewrite length_pread_full; [done | | done |];
      pose proof (dv_size d Hd) as Hl; change DiskSize with 131076 in Hl; change NumSectors with 1024 in Hs;
      unfold offset, SectorSize, MagicSize; lia. }
  cbv beta. do 3 (eapply bind_run; [reflexivity |]; cbv beta).
  eapply bind_run; [exact (Schedule_run c after_read (ComputeLatency d (now c) s false) ltac:(lia) Hfit) | reflexivity].
Qed.

Lemma WriteRequest_run data bs : rd_block data 0 SectorSize = Done bs → WriteRequest s data (locked [] c d) =
  Done (tt, locked [(ends_at true, mkPending tt (ends_at true) DiskInt)] c (after_write bs)).
Proof using Hd Hidle Hc Hs.
  intros Hdata. destruct (latency_started true) as [Hw Hfit]. unfold WriteRequest. run_step.
  cbn [disk DiskKernel_disk k_disk locked totalTicks irq DiskKernel_irq k_irq clock_irq].
  eapply bind_run; [rewrite Hidle; reflexivity |]. cbv beta.
  eapply bind_run; [rewrite valid_sector_true by done; reflexivity |]. cbv beta.
  eapply bind_run; [unfold lift; rewrite Hdata; reflexivity |].
  cbv beta. do 4 (eapply bind_run; [reflexivity |]; cbv beta).
  exact (Schedule_run c (after_write bs) (ComputeLatency d (now c) s true) ltac:(lia) Hfit).
Qed.
End requests.

(** ** The two calls *)

(** The time of a call: three ticks and the device. *)
Definition call_time : Z := 32100.

Definition later (c c' : Clock) : Prop := now c ≤ now c' ≤ now c + call_time.

Lemma finish_run c c0 d w : now c0 = now c + 10 → 0 ≤ now c < 2 ^ 31 - 80000 → now c0 < w ≤ now c0 + 32000 →
  ∃ c', later c c' ∧ (P TheSemaphore ;; Release) (locked [(w, mkPending tt w DiskInt)] c0 d) =
    Done (tt, quiet c' (set_active false d)).
Proof.
  intros E Hc Hw. exists (ticked (ticked (skip w c0))). split.
  - unfold later, ticked, skip, call_time, SystemTick. cbn [now]. rewrite !s32_small by (rewrite ?s32_small; lia). lia.
  - eapply bind_run; [apply wait_run; lia |]. apply Release_run.
Qed.

Lemma tick_now c : 0 ≤ now c < 2 ^ 31 - 80000 → now (ticked c) = now c + 10 ∧ disk_clock (now (ticked c)).
Proof. intros Hc. unfold ticked, disk_clock. cbn [now]. unfold SystemTick. rewrite s32_small by lia. lia. Qed.

Section calls.
Context (c : Clock) (d : Disk) (s : Z).
Context (Hd : device_ok d) (Hidle : active d = false) (Hc : 0 ≤ now c < 2 ^ 31 - 80000) (Hs : 0 ≤ s < NumSectors).

Lemma ReadSector_run : ∃ c' d' bs, SynchDisk_ReadSector s (quiet c d) = Done (bs, quiet c' d') ∧ later c c' ∧
  device_ok d' ∧ active d' = false ∧ sectors d' = sectors d ∧ sectors d !! Z.to_nat s = Some bs.
Proof using Hd Hidle Hc Hs.
  destruct (tick_now c Hc) as [Ht Hck]. pose proof (latency_started (ticked c) d s Hd Hck Hs false) as [Hw _].
  destruct (finish_run c (ticked c) (after_read (ticked c) d s) _ Ht Hc Hw) as (c' & Hl & E).
  destruct (after_read_ok (ticked c) d s Hd Hck Hs) as [[Hsz [? ?]] Hsec].
  exists c', (set_active false (after_read (ticked c) d s)), (pread_bytes (file d) (offset s) SectorSize). split_and!.
  - unfold SynchDisk_ReadSector. eapply bind_run; [apply Acquire_run |]. cbv beta.
    eapply bind_run; [by apply ReadRequest_run |]. cbv beta.
    apply bind_inv in E as (u & k1 & E1 & E2). eapply bind_run; [exact E1 |]. cbv beta.
    eapply bind_run; [exact E2 | reflexivity].
  - done.
  - by split.
  - done.
  - rewrite <- Hsec. by apply sectors_file.
  - by apply sectors_lookup.
Qed.

Lemma WriteSector_run data bs : rd_block data 0 SectorSize = Done bs → Z.of_nat (length bs) = SectorSize →
  ∃ c' d', SynchDisk_WriteSector s data (quiet c d) = Done (tt, quiet c' d') ∧ later c c' ∧
  device_ok d' ∧ active d' = false ∧ sectors d' = <[Z.to_nat s := bs]> (sectors d).
Proof using Hd Hidle Hc Hs.
  intros Hdata Hlen. destruct (tick_now c Hc) as [Ht Hck]. pose proof (latency_started (ticked c) d s Hd Hck Hs true) as [Hw _].
  destruct (finish_run c (ticked c) (after_write (ticked c) d s bs) _ Ht Hc Hw) as (c' & Hl & E).
  destruct (after_write_ok (ticked c) d s Hd Hck Hs bs Hlen) as [[Hsz [? ?]] Hsec].
  exists c', (set_active false (after_write (ticked c) d s bs)). split_and!.
  - unfold SynchDisk_WriteSector. eapply bind_run; [apply Acquire_run |]. cbv beta.
    eapply bind_run; [by apply WriteRequest_run |]. exact E.
  - done.
  - by split.
  - done.
  - rewrite <- Hsec. by apply sectors_file.
Qed.
End calls.

(** ** Programs *)

(** The requests a program makes on the disk [d]. *)
Fixpoint requests {A} (p : prog A) (d : Sectors) : nat :=
  match p with
  | Read s k => S (requests (k (default [] (d !! Z.to_nat s))) d)
  | Write s bs k => S (requests k (<[Z.to_nat s := take (Z.to_nat SectorSize) bs]> d))
  | _ => O
  end.

(** Whatever a program of the file system computes on the array of sectors, it
    computes on the device. *)
Lemma srun_run {A} (p : prog A) : ∀ c d a ds, device_ok d → active d = false → 0 ≤ now c →
  now c + call_time * Z.of_nat (requests p (sectors d)) < 2 ^ 31 - 80000 → run p (sectors d) = Done (a, ds) →
  ∃ c' d', srun p (quiet c d) = Done (a, quiet c' d') ∧ sectors d' = ds ∧ device_ok d' ∧ active d' = false ∧ now c ≤ now c'.
Proof.
  unfold call_time. induction p as [a' | s k IH | s data k IH | e]; intros c d a ds Hd Hidle H0 Hlim Hrun; cbn [run] in Hrun.
  - injection Hrun as -> <-. exists c, d. done.
  - destruct (valid_sector s) eqn:Ev; [| done]. assert (0 ≤ s < NumSectors) as Hs by (unfold valid_sector in Ev; split_bool; lia).
    cbn [requests] in Hlim.
    destruct (ReadSector_run c d s Hd Hidle ltac:(lia) Hs) as (c1 & d1 & bs & E & Hl & Hd1 & Hi1 & Hsec & Hbs).
    rewrite (rd_Done _ s bs) in Hrun by (done || lia). rewrite Hbs in Hlim. cbn [default id] in Hlim. rewrite <- Hsec in Hlim, Hrun.
    unfold later, call_time in Hl. destruct (IH bs c1 d1 a ds Hd1 Hi1 ltac:(lia) ltac:(lia) Hrun) as (c' & d' & E' & ? & ? & ? & ?).
    exists c', d'. split_and!; try done; [| lia]. cbn [srun]. eapply bind_run; [exact E | exact E'].
  - destruct (valid_sector s) eqn:Ev; [| done]. assert (0 ≤ s < NumSectors) as Hs by (unfold valid_sector in Ev; split_bool; lia).
    destruct (rd_block data 0 SectorSize) as [bs |] eqn:Eb; [| done].
    rewrite wr_Done in Hrun by (rewrite length_sectors; lia). cbn [requests] in Hlim.
    apply rd_block_inv in Eb as Hinv. destruct Hinv as [Ebs Hlen]. rewrite <- Ebs in Hlim.
    destruct (WriteSector_run c d s Hd Hidle ltac:(lia) Hs data bs Eb Hlen) as (c1 & d1 & E & Hl & Hd1 & Hi1 & Hsec).
    rewrite <- Hsec in Hlim, Hrun. unfold later, call_time in Hl.
    destruct (IH c1 d1 a ds Hd1 Hi1 ltac:(lia) ltac:(lia) Hrun) as (c' & d' & E' & ? & ? & ? & ?).
    exists c', d'. split_and!; try done; [| lia]. cbn [srun]. eapply bind_run; [exact E | exact E'].
  - done.
Qed.
