(* ===== verification/DiskFiles.v ===== *)
(** * File headers and open files on disk
    (filesys/filehdr.{h,cc}, filesys/openfile.{h,cc}, userprog/bitmap.cc)

    What [new] returns is not initialised: [fresh site size] is what an
    allocation of [size] bytes holds, at a place of the code named by [site]. *)

From stdpp Require Import base gmap list numbers.
From Stdlib Require Import ZArith Lia.
From S2P Require Import Prelude BitMap Machine DiskProg.

(** ** Representation in memory: little-endian [int]s of four bytes *)

Definition int_bytes (v : Z) : list Z := le_bytes 4 v.
Definition int_at (bs : list Z) (k : nat) : Z := s32 (le_value (take 4 (drop k bs))).
Definition words_bytes (ws : list Z) : list Z := concat (le_bytes 4 <$> ws).
Definition words_of (n : nat) (bs : list Z) : list Z := (λ i, le_value (take 4 (drop (4 * i) bs))) <$> seq 0 n.

(** ** [FileHeader] *)

Definition NumDirect : Z := (SectorSize - 2 * 4) / 4.
Definition MaxFileSize : Z := NumDirect * SectorSize.

Record FileHeader := mkHeader {
  numBytes : Z;
  numSectors : Z;
  dataSectors : list Z
}.

(** The header as the 128 bytes of the object, and back. *)
Definition header_bytes (h : FileHeader) : list Z :=
  int_bytes (numBytes h) ++ int_bytes (numSectors h) ++ concat (int_bytes <$> dataSectors h).
Definition header_of (bs : list Z) : FileHeader :=
  mkHeader (int_at bs 0) (int_at bs 4) ((λ i, int_at bs (8 + 4 * i)) <$> seq 0 (Z.to_nat NumDirect)).

(** [for (i = 0; i < numSectors; i++) dataSectors[i] = freeMap->Find();] *)
Fixpoint allocate_loop (n : nat) (i : Z) (ds : list Z) : M BitMap (list Z) :=
  match n with
  | O => mret ds
  | S n' => s ← BitMap_Find; ds' ← lift (wr ds i s); allocate_loop n' (i + 1) ds'
  end.

(** [this] is the header before, which is not initialised when it is new. *)
Definition FileHeader_Allocate (this : FileHeader) (fileSize : Z) : M BitMap (bool * FileHeader) :=
  let ns := divRoundUp fileSize SectorSize in
  clear ← BitMap_NumClear;
  if decide (clear < ns) then mret (false, mkHeader fileSize ns (dataSectors this))
  else
    ds ← allocate_loop (Z.to_nat ns) 0 (dataSectors this);
    mret (true, mkHeader fileSize ns ds).

Definition FileHeader_Deallocate (this : FileHeader) : M BitMap unit :=
  for_range 0 (Z.to_nat (numSectors this)) (λ i,
    s ← lift (rd (dataSectors this) i);
    marked ← BitMap_Test s;
    ASSERT marked ;;
    BitMap_Clear s).

Definition FileHeader_FetchFrom (sector : Z) : prog FileHeader :=
  bs ← ReadSector sector; mret (header_of bs).
Definition FileHeader_WriteBack (this : FileHeader) (sector : Z) : prog unit :=
  WriteSector sector (header_bytes this).

Definition ByteToSector (this : FileHeader) (offset : Z) : outcome Z :=
  rd (dataSectors this) (cdiv offset SectorSize).
Definition FileLength (this : FileHeader) : Z := numBytes this.

(** ** [OpenFile] *)

Record DiskFile := mkDiskFile { hdr : FileHeader; seekPosition : Z }.

Definition DiskFile_new (sector : Z) : prog DiskFile :=
  h ← FileHeader_FetchFrom sector; mret (mkDiskFile h 0).

Definition DiskFile_Seek (position : Z) (f : DiskFile) : DiskFile := mkDiskFile (hdr f) position.
Definition DiskFile_Length (f : DiskFile) : Z := FileLength (hdr f).

(** The sectors [i], [i + 1], ... of the file, one after the other. *)
Fixpoint read_sectors (h : FileHeader) (n : nat) (i : Z) : prog (list Z) :=
  match n with
  | O => mret []
  | S n' =>
      s ← pure (ByteToSector h (i * SectorSize));
      bs ← ReadSector s;
      rest ← read_sectors h n' (i + 1);
      mret (bs ++ rest)
  end.

(** [buf + off] is where sector [i] is taken from. *)
Fixpoint write_sectors (h : FileHeader) (buf : list Z) (n : nat) (i off : Z) : prog unit :=
  match n with
  | O => mret tt
  | S n' =>
      s ← pure (ByteToSector h (i * SectorSize));
      bs ← pure (rd_block buf off SectorSize);
      WriteSector s bs ;;
      write_sectors h buf n' (i + 1) (off + SectorSize)
  end.

(** [numBytes] clipped to the end of the file; 0 when there is nothing to do. *)
Definition clip (fileLength n position : Z) : Z :=
  if decide (n <= 0 ∨ position >= fileLength) then 0
  else if decide (s32 (position + n) > fileLength) then fileLength - position else n.

(** The bytes copied to [into]; the result of the source is their number. *)
Definition DiskFile_ReadAt (f : DiskFile) (n position : Z) : prog (list Z) :=
  let n := clip (FileLength (hdr f)) n position in
  if decide (n = 0) then mret []
  else
    let firstSector := divRoundDown position SectorSize in
    let lastSector := divRoundDown (s32 (position + n - 1)) SectorSize in
    let numSectors := 1 + lastSector - firstSector in
    buf ← read_sectors (hdr f) (Z.to_nat numSectors) firstSector;
    pure (rd_block buf (position - firstSector * SectorSize) n).

Section fresh.
Variable fresh : Z → nat → list Z.

Definition DiskFile_WriteAt (f : DiskFile) (from : list Z) (n position : Z) : prog Z :=
  let n := clip (FileLength (hdr f)) n position in
  if decide (n = 0) then mret 0
  else
    let firstSector := divRoundDown position SectorSize in
    let lastSector := divRoundDown (s32 (position + n - 1)) SectorSize in
    let numSectors := 1 + lastSector - firstSector in
    let buf := fresh 0 (Z.to_nat (numSectors * SectorSize)) in
    let firstAligned := bool_decide (position = firstSector * SectorSize) in
    let lastAligned := bool_decide (s32 (position + n) = (lastSector + 1) * SectorSize) in
    buf ← (if firstAligned then mret buf
           else bs ← DiskFile_ReadAt f SectorSize (firstSector * SectorSize);
                pure (wr_block buf 0 bs));
    buf ← (if negb lastAligned && (negb (bool_decide (firstSector = lastSector)) || firstAligned) then
             bs ← DiskFile_ReadAt f SectorSize (lastSector * SectorSize);
             pure (wr_block buf ((lastSector - firstSector) * SectorSize) bs)
           else mret buf);
    src ← pure (rd_block from 0 n);
    buf ← pure (wr_block buf (position - firstSector * SectorSize) src);
    write_sectors (hdr f) buf (Z.to_nat numSectors) firstSector 0 ;;
    mret n.

Definition DiskFile_Read (n : Z) (f : DiskFile) : prog (list Z * DiskFile) :=
  bs ← DiskFile_ReadAt f n (seekPosition f);
  mret (bs, mkDiskFile (hdr f) (s32 (seekPosition f + Z.of_nat (length bs)))).

Definition DiskFile_Write (from : list Z) (n : Z) (f : DiskFile) : prog (Z * DiskFile) :=
  result ← DiskFile_WriteAt f from n (seekPosition f);
  mret (result, mkDiskFile (hdr f) (s32 (seekPosition f + result))).

(** ** [BitMap] on disk *)

Definition BitMap_FetchFrom (file : DiskFile) (b : BitMap) : prog BitMap :=
  bs ← DiskFile_ReadAt file (numWords b * 4) 0;
  m ← pure (wr_block (words_bytes (map b)) 0 bs);
  mret (set_map (words_of (length (map b)) m) b).

Definition BitMap_WriteBack (file : DiskFile) (b : BitMap) : prog unit :=
  _ ← DiskFile_WriteAt file (words_bytes (map b)) (numWords b * 4) 0; mret tt.
End fresh.
