(* ===== verification/FileSys.v ===== *)
(** * Directories and the file system
    (filesys/directory.{h,cc}, filesys/filesys.{h,cc}) *)

From stdpp Require Import base gmap list numbers.
From Stdlib Require Import ZArith Lia.
From S2P Require Import Prelude BitMap Machine DiskProg DiskFiles.

(** ** C strings

    [const char *name] is the list of its bytes before the terminating 0. *)

Definition FileNameMaxLen : Z := 9.

(** [!strncmp(a, b, n)] *)
Fixpoint strncmp_eq (n : nat) (a b : list Z) : bool :=
  match n with
  | O => true
  | S n' =>
      if decide (hd 0 a = hd 0 b) then
        if decide (hd 0 a = 0) then true else strncmp_eq n' (tl a) (tl b)
      else false
  end.

(** The bytes [strncpy] writes. *)
Fixpoint strncpy_bytes (n : nat) (src : list Z) : list Z :=
  match n with
  | O => []
  | S n' =>
      if decide (hd 0 src = 0) then replicate n 0 else hd 0 src :: strncpy_bytes n' (tl src)
  end.

(** ** [Directory] *)

(** The two gaps are the padding of the compiler. *)
Record DirectoryEntry := mkDirEntry {
  inUse : bool;
  gap1 : list Z;
  sector : Z;
  name : list Z;
  gap2 : list Z
}.

Definition sizeof_entry : Z := 20.

Definition entry_bytes (e : DirectoryEntry) : list Z :=
  [Z.b2z (inUse e)] ++ gap1 e ++ int_bytes (sector e) ++ name e ++ gap2 e.
Definition entry_of (bs : list Z) : DirectoryEntry :=
  mkDirEntry (negb (bool_decide (hd 0 bs = 0))) (take 3 (drop 1 bs)) (int_at bs 4)
    (take 10 (drop 8 bs)) (take 2 (drop 18 bs)).

Record Directory := mkDirectory { tableSize : Z; table : list DirectoryEntry }.

Definition table_bytes (t : list DirectoryEntry) : list Z := concat (entry_bytes <$> t).
Definition table_of (n : nat) (bs : list Z) : list DirectoryEntry :=
  (λ i, entry_of (take 20 (drop (20 * i) bs))) <$> seq 0 n.

Definition set_inUse (b : bool) (e : DirectoryEntry) : DirectoryEntry :=
  mkDirEntry b (gap1 e) (sector e) (name e) (gap2 e).

Definition NumDirEntries : Z := 10.
Definition FreeMapSector : Z := 0.
Definition DirectorySector : Z := 1.
Definition FreeMapFileSize : Z := NumSectors / BitsInByte.
Definition DirectoryFileSize : Z := sizeof_entry * NumDirEntries.

(** The loop of [FindIndex] from entry [i] on. *)
Fixpoint find_index (es : list DirectoryEntry) (nm : list Z) (i : Z) : Z :=
  match es with
  | [] => -1
  | e :: es' =>
      if inUse e && strncmp_eq (Z.to_nat FileNameMaxLen) (name e) nm then i else find_index es' nm (i + 1)
  end.

Definition Directory_FindIndex (dir : Directory) (nm : list Z) : Z := find_index (table dir) nm 0.

Definition Directory_Find (dir : Directory) (nm : list Z) : outcome Z :=
  let i := Directory_FindIndex dir nm in
  if decide (i ≠ -1) then
    match rd (table dir) i with Done e => Done (sector e) | Fault f => Fault f end
  else Done (-1).

(** The loop of [Add]: the first free entry is filled; the tenth byte of the
    name and the padding stay as they are. *)
Fixpoint add_entry (es : list DirectoryEntry) (nm : list Z) (newSector : Z) : option (list DirectoryEntry) :=
  match es with
  | [] => None
  | e :: es' =>
      if inUse e then match add_entry es' nm newSector with Some r => Some (e :: r) | None => None end
      else Some (mkDirEntry true (gap1 e) newSector
             (strncpy_bytes (Z.to_nat FileNameMaxLen) nm ++ drop (Z.to_nat FileNameMaxLen) (name e)) (gap2 e) :: es')
  end.

Definition Directory_Add (dir : Directory) (nm : list Z) (newSector : Z) : bool * Directory :=
  if decide (Directory_FindIndex dir nm ≠ -1) then (false, dir)
  else match add_entry (table dir) nm newSector with
       | Some t => (true, mkDirectory (tableSize dir) t)
       | None => (false, dir)
       end.

Definition Directory_Remove (dir : Directory) (nm : list Z) : outcome (bool * Directory) :=
  let i := Directory_FindIndex dir nm in
  if decide (i = -1) then Done (false, dir)
  else match rd (table dir) i with
       | Done e => match wr (table dir) i (set_inUse false e) with
                   | Done t => Done (true, mkDirectory (tableSize dir) t)
                   | Fault f => Fault f
                   end
       | Fault f => Fault f
       end.

Definition Directory_List (dir : Directory) : list (list Z) := name <$> filter (λ e, inUse e = true) (table dir).

Section fresh.
Variable fresh : Z → nat → list Z.

Definition Directory_new (site size : Z) : Directory :=
  mkDirectory size (set_inUse false <$> table_of (Z.to_nat size) (fresh site (Z.to_nat (size * sizeof_entry)))).

Definition Directory_FetchFrom (file : DiskFile) (dir : Directory) : prog Directory :=
  bs ← DiskFile_ReadAt file (tableSize dir * sizeof_entry) 0;
  t ← pure (wr_block (table_bytes (table dir)) 0 bs);
  mret (mkDirectory (tableSize dir) (table_of (length (table dir)) t)).

Definition Directory_WriteBack (file : DiskFile) (dir : Directory) : prog unit :=
  _ ← DiskFile_WriteAt fresh file (table_bytes (table dir)) (tableSize dir * sizeof_entry) 0; mret tt.

(** ** [FileSystem] *)

Record FileSystem := mkFileSystem { freeMapFile : DiskFile; directoryFile : DiskFile }.

(** [new BitMap(NumSectors)] and [new FileHeader] *)
Definition new_map (site : Z) : outcome BitMap := BitMap_new (words_of 32 (fresh site 128)) NumSectors.
Definition new_header (site : Z) : FileHeader := header_of (fresh site (Z.to_nat SectorSize)).

Definition FileSystem_format : prog FileSystem :=
  freeMap ← pure (new_map 1);
  let directory := Directory_new 2 NumDirEntries in
  '(_, freeMap) ← on freeMap (BitMap_Mark FreeMapSector ;; BitMap_Mark DirectorySector);
  '(r, freeMap) ← on freeMap (FileHeader_Allocate (new_header 3) FreeMapFileSize);
  require r.1 ;;
  '(r', freeMap) ← on freeMap (FileHeader_Allocate (new_header 4) DirectoryFileSize);
  require r'.1 ;;
  FileHeader_WriteBack r.2 FreeMapSector ;;
  FileHeader_WriteBack r'.2 DirectorySector ;;
  mapFile ← DiskFile_new FreeMapSector;
  dirFile ← DiskFile_new DirectorySector;
  BitMap_WriteBack fresh mapFile freeMap ;;
  Directory_WriteBack dirFile directory ;;
  mret (mkFileSystem mapFile dirFile).

Definition FileSystem_open : prog FileSystem :=
  mapFile ← DiskFile_new FreeMapSector;
  dirFile ← DiskFile_new DirectorySector;
  mret (mkFileSystem mapFile dirFile).

Definition FileSystem_new (format : bool) : prog FileSystem :=
  if format then FileSystem_format else FileSystem_open.

Definition FS_Create (fs : FileSystem) (nm : list Z) (initialSize : Z) : prog bool :=
  directory ← Directory_FetchFrom (directoryFile fs) (Directory_new 5 NumDirEntries);
  found ← pure (Directory_Find directory nm);
  if decide (found ≠ -1) then mret false
  else
    freeMap ← pure (new_map 6);
    freeMap ← BitMap_FetchFrom (freeMapFile fs) freeMap;
    '(sec, freeMap) ← on freeMap BitMap_Find;
    if decide (sec = -1) then mret false
    else
      let '(added, directory) := Directory_Add directory nm sec in
      if negb added then mret false
      else
        '(r, freeMap) ← on freeMap (FileHeader_Allocate (new_header 7) initialSize);
        if negb r.1 then mret false
        else
          FileHeader_WriteBack r.2 sec ;;
          Directory_WriteBack (directoryFile fs) directory ;;
          BitMap_WriteBack fresh (freeMapFile fs) freeMap ;;
          mret true.

Definition FS_Open (fs : FileSystem) (nm : list Z) : prog (option DiskFile) :=
  directory ← Directory_FetchFrom (directoryFile fs) (Directory_new 8 NumDirEntries);
  sec ← pure (Directory_Find directory nm);
  if decide (sec >= 0) then f ← DiskFile_new sec; mret (Some f) else mret None.

Definition FS_Remove (fs : FileSystem) (nm : list Z) : prog bool :=
  directory ← Directory_FetchFrom (directoryFile fs) (Directory_new 9 NumDirEntries);
  sec ← pure (Directory_Find directory nm);
  if decide (sec = -1) then mret false
  else
    fileHdr ← FileHeader_FetchFrom sec;
    freeMap ← pure (new_map 10);
    freeMap ← BitMap_FetchFrom (freeMapFile fs) freeMap;
    '(_, freeMap) ← on freeMap (FileHeader_Deallocate fileHdr ;; BitMap_Clear sec);
    r ← pure (Directory_Remove directory nm);
    BitMap_WriteBack fresh (freeMapFile fs) freeMap ;;
    Directory_WriteBack (directoryFile fs) r.2 ;;
    mret true.

Definition FS_List (fs : FileSystem) : prog (list (list Z)) :=
  directory ← Directory_FetchFrom (directoryFile fs) (Directory_new 11 NumDirEntries);
  mret (Directory_List directory).
End fresh.
