(* ===== verification/DiskFacts.v ===== *)
(** * Files on disk: representation, reading and writing

    The contents of a file are the first bytes of its data sectors, put one
    after the other; [DiskFile_ReadAt] and [DiskFile_WriteAt] are a slice and a
    splice of them. *)

From stdpp Require Import base gmap list numbers.
From Stdlib Require Import ZArith Lia.
From S2P Require Import Prelude BitMap Machine MachineFacts DiskProg DiskFiles FileSys.

(** ** Lists of equally long pieces *)

Section pieces.
Context {A : Type} (m : nat).
Implicit Types (l : list (list A)) (x : list A).

Definition even_pieces l : Prop := Forall (λ x, length x = m) l.

Lemma length_pieces l : even_pieces l → length (concat l) = (length l * m)%nat.
Proof. induction 1 as [| x l Hx _ IH]; [done |]. simpl. rewrite length_app, IH. lia. Qed.

Lemma concat_take l k : even_pieces l → concat (take k l) = take (k * m) (concat l).
Proof.
  intros Hl. revert k. induction Hl as [| x l Hx _ IH]; intros [| k]; simpl; try done.
  - by rewrite take_nil.
  - rewrite IH, take_app, Hx. rewrite (take_ge x) by lia. do 2 f_equal. lia.
Qed.

Lemma concat_drop l k : even_pieces l → concat (drop k l) = drop (k * m) (concat l).
Proof.
  intros Hl. revert k. induction Hl as [| x l Hx _ IH]; intros [| k]; simpl; try done.
  - by rewrite drop_nil.
  - rewrite IH, drop_app, Hx. rewrite (drop_ge x) by lia. simpl. f_equal. lia.
Qed.

Lemma even_take l k : even_pieces l → even_pieces (take k l).
Proof. apply Forall_take. Qed.
Lemma even_drop l k : even_pieces l → even_pieces (drop k l).
Proof. apply Forall_drop. Qed.

Lemma concat_insert l i x : even_pieces l → length x = m → (i < length l)%nat →
  concat (<[i := x]> l) = splice (concat l) (i * m) x.
Proof.
  intros Hl Hx Hi. rewrite insert_take_drop, concat_app by done. simpl. unfold splice.
  rewrite concat_take, concat_drop by done. do 3 f_equal. simpl. lia.
Qed.
End pieces.

Section splices.
Context {A : Type}.
Implicit Types (l x y : list A).

Lemma splice_parts a b c x (i : nat) : length a = i → length b = length x → splice (a ++ b ++ c) i x = a ++ x ++ c.
Proof.
  intros <- Hb. unfold splice. rewrite take_app_length, <- Hb, (app_assoc a b c), <- length_app.
  by rewrite drop_app_length.
Qed.

Lemma splice_splice l i x y : (i + length x + length y ≤ length l)%nat →
  splice (splice l i x) (i + length x) y = splice l i (x ++ y).
Proof.
  intros Hi. assert (∃ a b c d, l = a ++ b ++ c ++ d ∧ length a = i ∧ length b = length x ∧ length c = length y)
    as (a & b & c & d & -> & Ha & Hb & Hc).
  { exists (take i l), (take (length x) (drop i l)), (take (length y) (drop (length x) (drop i l))),
      (drop (length y) (drop (length x) (drop i l))).
    rewrite !take_drop, !length_take, !length_drop. split_and!; [done | lia | lia | lia]. }
  rewrite (splice_parts a b (c ++ d) x i) by done. rewrite (app_assoc a x).
  rewrite (splice_parts (a ++ x) c d y) by (rewrite ?length_app; lia).
  rewrite (app_assoc b c), (splice_parts a (b ++ c) d (x ++ y)) by (rewrite ?length_app; lia).
  by rewrite <- !app_assoc.
Qed.

Lemma slice_slice l a b c n : (c + n ≤ b)%nat → take n (drop c (take b (drop a l))) = take n (drop (a + c) l).
Proof.
  intros Hb. rewrite skipn_firstn_comm, take_take, drop_drop. f_equal. lia.
Qed.
End splices.

(** ** Contents *)

Notation ssize := (Z.to_nat SectorSize).

Definition sector_at (d : Sectors) (s : Z) : list Z := default [] (d !! Z.to_nat s).
Definition image (d : Sectors) (ss : list Z) : list Z := concat (sector_at d <$> ss).
Definition blocks (h : FileHeader) : list Z := take (Z.to_nat (numSectors h)) (dataSectors h).
Definition content (d : Sectors) (h : FileHeader) : list Z := take (Z.to_nat (numBytes h)) (image d (blocks h)).

Definition on_disk (s : Z) : Prop := 0 ≤ s < NumSectors.

Record header_wf (h : FileHeader) : Prop := {
  hw_bytes : 0 ≤ numBytes h ≤ MaxFileSize;
  hw_sectors : numSectors h = divRoundUp (numBytes h) SectorSize;
  hw_direct : Z.of_nat (length (dataSectors h)) = NumDirect;
  hw_nodup : NoDup (blocks h);
  hw_on_disk : Forall on_disk (blocks h)
}.

Section contents.
Context (d : Sectors) (Hd : disk_wf d).

Lemma sector_at_ok s : on_disk s → is_sector (sector_at d s) ∧ d !! Z.to_nat s = Some (sector_at d s).
Proof.
  intros Hs. destruct (lookup_lt_is_Some_2 d (Z.to_nat s)) as [bs Hb].
  { pose proof (dw_length d Hd). unfold on_disk in Hs. lia. }
  unfold sector_at. rewrite Hb. split; [| done]. exact (Forall_lookup_1 _ _ _ _ (dw_sectors d Hd) Hb).
Qed.

Lemma even_image ss : Forall on_disk ss → even_pieces ssize (sector_at d <$> ss).
Proof. intros Hs. apply Forall_fmap. eapply Forall_impl; [| exact Hs]. intros s H. apply (sector_at_ok s H). Qed.

Lemma length_image ss : Forall on_disk ss → length (image d ss) = (length ss * ssize)%nat.
Proof. intros Hs. unfold image. rewrite (length_pieces ssize) by (by apply even_image). by rewrite length_fmap. Qed.

Lemma bytes_image ss : Forall on_disk ss → Forall byte (image d ss).
Proof.
  induction 1 as [| s ss Hs _ IH]; [done |]. unfold image. simpl. apply Forall_app. split; [| exact IH].
  apply (sector_at_ok s Hs).
Qed.

Lemma image_slice ss i n : Forall on_disk ss →
  image d (take n (drop i ss)) = take (n * ssize) (drop (i * ssize) (image d ss)).
Proof.
  intros Hs. unfold image. rewrite <- concat_drop, <- concat_take, fmap_take, fmap_drop.
  - done.
  - by apply even_drop, even_image.
  - by apply even_image.
Qed.

Lemma image_insert ss i s x : Forall on_disk ss → NoDup ss → ss !! i = Some s → length x = ssize →
  image (<[Z.to_nat s := x]> d) ss = splice (image d ss) (i * ssize) x.
Proof.
  intros Hs Hnd Hi Hx. unfold image. assert (on_disk s) as Hson by (by eapply Forall_lookup_1).
  rewrite <- (concat_insert ssize) by
    first [done | by apply even_image | rewrite length_fmap; by eapply lookup_lt_Some].
  f_equal. apply list_eq. intros j. rewrite list_lookup_fmap.
  destruct (decide (j = i)) as [-> | Hne].
  - rewrite list_lookup_insert_eq by (rewrite length_fmap; by eapply lookup_lt_Some). rewrite Hi. simpl.
    unfold sector_at. rewrite list_lookup_insert_eq; [done |].
    pose proof (dw_length d Hd). unfold on_disk in Hson. lia.
  - rewrite list_lookup_insert_ne by done. rewrite list_lookup_fmap. destruct (ss !! j) as [s' |] eqn:Hj; [| done].
    simpl. f_equal. unfold sector_at. rewrite list_lookup_insert_ne; [done |].
    assert (on_disk s') by (by eapply Forall_lookup_1). unfold on_disk in *. intros E.
    apply Hne. eapply NoDup_lookup; [exact Hnd | done |]. rewrite Hi. f_equal. lia.
Qed.

Lemma image_insert_out ss s x : Forall on_disk ss → on_disk s → s ∉ ss →
  image (<[Z.to_nat s := x]> d) ss = image d ss.
Proof.
  intros Hs Hson Hn. unfold image. f_equal. apply list_fmap_ext. intros i s' Hi. unfold sector_at.
  rewrite list_lookup_insert_ne; [done |]. intros E. apply Hn.
  assert (on_disk s') by (by eapply Forall_lookup_1). apply list_elem_of_lookup. exists i. rewrite Hi. f_equal.
  unfold on_disk in *. lia.
Qed.
End contents.

Section headers.
Context (h : FileHeader) (Hh : header_wf h).

Lemma numSectors_range : 0 ≤ numSectors h ≤ NumDirect ∧ numBytes h ≤ numSectors h * SectorSize < numBytes h + SectorSize.
Proof.
  destruct (hw_bytes h Hh). rewrite (hw_sectors h Hh).
  destruct (divRoundUp_spec (numBytes h) SectorSize); [done | done |].
  split; [| done]. unfold MaxFileSize, NumDirect, SectorSize in *. simpl in *. lia.
Qed.

Lemma length_blocks : length (blocks h) = Z.to_nat (numSectors h).
Proof.
  unfold blocks. rewrite length_take. pose proof (hw_direct h Hh). pose proof numSectors_range. lia.
Qed.

Lemma blocks_lookup i : 0 ≤ i < numSectors h → ∃ s, blocks h !! Z.to_nat i = Some s ∧ on_disk s ∧
  ByteToSector h (i * SectorSize) = Done s.
Proof.
  intros Hi. destruct (lookup_lt_is_Some_2 (blocks h) (Z.to_nat i)) as [s Hs]; [rewrite length_blocks; lia |].
  exists s. split_and!; [done | by eapply Forall_lookup_1; [apply hw_on_disk |] |].
  unfold ByteToSector, SectorSize. rewrite cdiv_nonneg, Z.div_mul by lia. apply rd_Done; [lia |].
  unfold blocks in Hs. by apply lookup_take_Some in Hs as [? _].
Qed.
End headers.

Lemma read_sectors_run d h n : disk_wf d → header_wf h → ∀ i, 0 ≤ i → i + Z.of_nat n ≤ numSectors h →
  run (read_sectors h n i) d = Done (image d (take n (drop (Z.to_nat i) (blocks h))), d).
Proof.
  intros Hd Hh. induction n as [| n IH]; intros i Hi Hn; simpl; [done |].
  destruct (blocks_lookup h Hh i) as (s & Hs & Hon & ->); [lia |]. simpl. rewrite valid_sector_true by done.
  destruct (sector_at_ok d Hd s Hon) as [_ Hl]. rewrite (rd_Done d s _) by (done || (unfold on_disk in Hon; lia)).
  change (run (read_sectors h n (i + 1) ≫= (λ rest, Return (sector_at d s ++ rest))) d =
    Done (image d (take (S n) (drop (Z.to_nat i) (blocks h))), d)).
  rewrite run_bind, IH by lia. simpl. do 2 f_equal.
  rewrite (drop_S _ _ _ Hs). replace (Z.to_nat (i + 1)) with (S (Z.to_nat i)) by lia. done.
Qed.

(** ** [ReadAt] *)

(** A request within the range of an [int]. *)
Definition request (n position : Z) : Prop := 0 ≤ position < 2 ^ 31 ∧ - 2 ^ 31 ≤ n < 2 ^ 31 ∧ position + n < 2 ^ 31.

Lemma clip_spec len n position : request n position → 0 ≤ len →
  clip len n position = Z.max 0 (Z.min n (len - position)).
Proof.
  intros (Hp & Hn & Hs) Hl. unfold clip. case_decide; [lia |]. rewrite s32_small by lia. case_decide; lia.
Qed.

(** The sectors a request of [n] bytes touches. *)
Record touches (h : FileHeader) (n position first last : Z) : Prop := {
  to_first : first * SectorSize ≤ position < (first + 1) * SectorSize;
  to_last : last * SectorSize < position + n ≤ (last + 1) * SectorSize;
  to_order : 0 ≤ first ≤ last;
  to_end : last < numSectors h
}.

Lemma touches_spec h n position : header_wf h → 0 ≤ position → 0 < n → position + n ≤ numBytes h →
  touches h n position (divRoundDown position SectorSize) (divRoundDown (s32 (position + n - 1)) SectorSize).
Proof.
  intros Hh Hp Hn Hl. destruct (hw_bytes h Hh) as [_ Hb]. pose proof (numSectors_range h Hh) as [_ Hns].
  change MaxFileSize with 3840 in Hb.
  rewrite s32_small by lia. unfold divRoundDown, SectorSize in *. rewrite !cdiv_nonneg by lia.
  split; unfold SectorSize; dlia.
Qed.

Lemma DiskReadAt_run d f n position : disk_wf d → header_wf (hdr f) → request n position →
  run (DiskFile_ReadAt f n position) d =
    Done (take (Z.to_nat n) (drop (Z.to_nat position) (content d (hdr f))), d).
Proof.
  intros Hd Hh Hr. pose proof (hw_bytes _ Hh) as Hb. pose proof (numSectors_range _ Hh) as [_ Hns].
  pose proof (length_image d Hd (blocks (hdr f)) (hw_on_disk _ Hh)) as Hli. rewrite (length_blocks _ Hh) in Hli.
  unfold DiskFile_ReadAt, FileLength. rewrite clip_spec by (done || lia). destruct Hr as (Hp & Hn & Hs).
  set (len := numBytes (hdr f)) in *. unfold content. fold len.
  set (I := image d (blocks (hdr f))) in *.
  destruct (decide (Z.max 0 (Z.min n (len - position)) = 0)) as [E | E].
  - simpl. do 2 f_equal. destruct (decide (n <= 0)); [by replace (Z.to_nat n) with 0%nat by lia |].
    rewrite drop_ge; [by rewrite take_nil |]. rewrite length_take. lia.
  - set (m := Z.max 0 (Z.min n (len - position))) in *.
    destruct (touches_spec (hdr f) m position Hh) as [Hfst Hlst Hord Hend]; [lia | lia | unfold m; lia |].
    set (fst := divRoundDown position SectorSize) in *.
    set (lst := divRoundDown (s32 (position + m - 1)) SectorSize) in *.
    rewrite run_bind, (read_sectors_run d _ _ Hd Hh) by lia. rewrite image_slice by (done || apply Hh). fold I.
    unfold SectorSize in *. change (Z.to_nat 128) with 128%nat in *.
    rewrite rd_block_Done by (rewrite ?length_take, ?length_drop; lia). simpl. do 2 f_equal.
    rewrite slice_slice by lia. rewrite skipn_firstn_comm, take_take. f_equal; [lia | f_equal; lia].
Qed.

(** ** [WriteAt] *)

(** Only the sectors of [ss] may have changed. *)
Definition same_except (ss : list Z) (d d' : Sectors) : Prop :=
  ∀ s, on_disk s → s ∉ ss → sector_at d' s = sector_at d s.

Lemma same_except_trans ss d d' d'' : same_except ss d d' → same_except ss d' d'' → same_except ss d d''.
Proof. intros H1 H2 s Hs Hn. rewrite (H2 s Hs Hn). by apply H1. Qed.

Lemma same_except_mono ss ss' d d' : ss ⊆ ss' → same_except ss d d' → same_except ss' d d'.
Proof. intros Hsub H s Hs Hn. apply H; [done |]. intros Hin. by apply Hn, Hsub. Qed.

Lemma same_except_insert ss d s x : on_disk s → s ∈ ss → same_except ss d (<[Z.to_nat s := x]> d).
Proof.
  intros Hs Hin s' Hs' Hn. unfold sector_at. rewrite list_lookup_insert_ne; [done |].
  intros E. apply Hn. replace s' with s; [done |]. unfold on_disk in *. lia.
Qed.

Lemma same_except_image ss ss' d d' : same_except ss d d' → Forall on_disk ss' → (∀ s, s ∈ ss' → s ∉ ss) →
  image d' ss' = image d ss'.
Proof.
  intros H Hon Hdis. unfold image. f_equal. apply list_fmap_ext. intros i s Hi.
  apply H; [by eapply Forall_lookup_1 | apply Hdis; by eapply list_elem_of_lookup_2].
Qed.

Lemma write_sectors_spec h buf n : header_wf h → Forall byte buf → ∀ d i off, disk_wf d → 0 ≤ i →
  i + Z.of_nat n ≤ numSectors h → 0 ≤ off → off + Z.of_nat n * SectorSize ≤ Z.of_nat (length buf) →
  ends (write_sectors h buf n i off) (λ _ d', disk_wf d' ∧ same_except (blocks h) d d' ∧
    image d' (blocks h) = splice (image d (blocks h)) (Z.to_nat i * ssize)
      (take (n * ssize) (drop (Z.to_nat off) buf))) d.
Proof.
  intros Hh Hbuf. pose proof (length_blocks h Hh) as Hlb.
  induction n as [| n IH]; intros d i off Hd Hi Hn Ho Hob; cbn [write_sectors].
  - ends_steps. split_and!; [done | done |]. unfold splice. simpl. by rewrite Nat.add_0_r, take_drop.
  - destruct (blocks_lookup h Hh i) as (s & Hs & Hon & Hbs); [lia |].
    ends_step. eapply ends_pure; [exact Hbs |].
    ends_step. eapply ends_pure; [apply rd_block_Done; unfold SectorSize in *; lia |].
    set (x := take ssize (drop (Z.to_nat off) buf)).
    assert (length x = ssize) as Hx by (unfold x; apply length_block; unfold SectorSize in *; lia).
    assert (is_sector x) as Hsx by (split; [done | by apply Forall_take, Forall_drop]).
    ends_step. apply ends_WriteSector; [done | done | done |].
    eapply ends_mono; [apply IH; [by apply disk_wf_insert | lia | lia | unfold SectorSize in *; lia | unfold SectorSize in *; lia] |].
    cbv beta. intros [] d' (Hd' & Hsame & Him). split_and!; [done | |].
    + eapply same_except_trans; [| exact Hsame]. apply same_except_insert; [done | by eapply list_elem_of_lookup_2].
    + rewrite Him. rewrite (image_insert d Hd _ (Z.to_nat i) s) by (done || apply Hh).
      replace (Z.to_nat (i + 1) * ssize)%nat with (Z.to_nat i * ssize + length x)%nat by (rewrite Hx; lia).
      rewrite splice_splice.
      * f_equal. unfold x. replace (Z.to_nat (off + SectorSize)) with (Z.to_nat off + ssize)%nat by (unfold SectorSize; lia).
        rewrite <- drop_drop. change (S n * ssize)%nat with (ssize + n * ssize)%nat.
        generalize (drop (Z.to_nat off) buf). intros l. by rewrite take_take_drop.
      * rewrite (length_image d Hd) by apply Hh. rewrite Hlb, Hx, length_take, length_drop. unfold SectorSize in *. lia.
Qed.

(** Memory that is not initialised still consists of bytes. *)
Definition fresh_ok (fresh : Z → nat → list Z) : Prop :=
  ∀ site n, length (fresh site n) = n ∧ Forall byte (fresh site n).

(** A buffer of the sectors from [base] on that agrees with the file between
    [lo] and [hi], as far as the file goes. *)
Definition agrees (buf I : list Z) (base lo hi : nat) : Prop :=
  ∀ j, (lo ≤ j < hi)%nat → (j < length I)%nat → buf !! (j - base)%nat = I !! j.

Lemma agrees_sub buf I base lo hi lo' hi' : agrees buf I base lo hi → (lo ≤ lo')%nat → (hi' ≤ hi)%nat →
  agrees buf I base lo' hi'.
Proof. intros H Hlo Hhi j Hj. apply H. lia. Qed.

(** Splicing the buffer of whole sectors into the image changes the file only
    where the request says. *)
Lemma splice_buffer (I buf src : list Z) (len base pos size : nat) :
  (base ≤ pos)%nat → (pos + length src ≤ len)%nat → (len ≤ length I)%nat →
  length buf = size → (base + size ≤ length I)%nat → (pos + length src ≤ base + size)%nat →
  agrees buf (take len I) base base pos → agrees buf (take len I) base (pos + length src) (base + size) →
  take len (splice I base (splice buf (pos - base) src)) = splice (take len I) pos src.
Proof.
  intros Hb Hp Hl Hbuf Hs He Hlo Hhi.
  assert (length (take len I) = len) as Hlt by (rewrite length_take; lia).
  assert (length (splice buf (pos - base) src) = size) as Hls by (rewrite length_splice; lia).
  apply list_eq. intros j. destruct (decide (j < len)%nat) as [Hj | Hj].
  - rewrite lookup_take_lt by done.
    destruct (decide (pos ≤ j < pos + length src)%nat) as [Hin | Hout].
    + rewrite lookup_splice_in, lookup_splice_in, lookup_splice_in by lia. f_equal. lia.
    + rewrite (lookup_splice_out (take len I)) by lia. rewrite lookup_take_lt by done.
      destruct (decide (base ≤ j < base + size)%nat) as [Hin | Hout'].
      * rewrite lookup_splice_in, lookup_splice_out by lia.
        rewrite <- (lookup_take_lt I len j) by done. destruct (decide (j < pos)%nat); [apply Hlo; lia | apply Hhi; lia].
      * by rewrite lookup_splice_out by lia.
  - rewrite lookup_take_ge by lia. symmetry. apply lookup_ge_None. rewrite length_splice; lia.
Qed.

Section write.
Context (fresh : Z → nat → list Z) (Hfresh : fresh_ok fresh).
Context (d : Sectors) (Hd : disk_wf d) (f : DiskFile) (Hf : header_wf (hdr f)).

Notation file := (content d (hdr f)).

Lemma length_content : length file = Z.to_nat (numBytes (hdr f)).
Proof using Hd Hf.
  unfold content. rewrite length_take, (length_image d Hd) by apply Hf. rewrite (length_blocks _ Hf).
  pose proof (numSectors_range _ Hf). pose proof (hw_bytes _ Hf). unfold SectorSize in *. lia.
Qed.

Lemma bytes_content : Forall byte file.
Proof using Hd Hf. apply Forall_take, (bytes_image d Hd), Hf. Qed.

(** A sector of the file is read into the buffer. *)
Lemma fill_sector buf base i (lo hi : nat) : Forall byte buf → 0 ≤ base ≤ i → i < numSectors (hdr f) →
  (i + 1 - base) * SectorSize ≤ Z.of_nat (length buf) →
  ends (bs ← DiskFile_ReadAt f SectorSize (i * SectorSize); pure (wr_block buf ((i - base) * SectorSize) bs))
    (λ buf' d', d' = d ∧ length buf' = length buf ∧ Forall byte buf' ∧
      agrees buf' file (Z.to_nat base * ssize) (Z.to_nat i * ssize) (Z.to_nat (i + 1) * ssize) ∧
      (agrees buf file (Z.to_nat base * ssize) lo hi → (Z.to_nat base * ssize ≤ lo)%nat → (hi ≤ Z.to_nat i * ssize)%nat →
       agrees buf' file (Z.to_nat base * ssize) lo hi)) d.
Proof using Hd Hf.
  intros Hbuf Hi Hend Hlen. pose proof (numSectors_range _ Hf) as [Hns _]. change NumDirect with 30 in Hns.
  assert (request SectorSize (i * SectorSize)) as Hr by (unfold request, SectorSize; lia).
  ends_step. exists (take ssize (drop (Z.to_nat i * ssize) file)), d.
  split; [rewrite (DiskReadAt_run d f _ _ Hd Hf Hr); do 5 f_equal; unfold SectorSize; lia |].
  set (bs := take _ _). assert (length bs ≤ ssize)%nat as Hbs by (unfold bs; rewrite length_take; lia).
  assert (length bs = min ssize (length file - Z.to_nat i * ssize)) as Hlb by (unfold bs; by rewrite length_take, length_drop).
  unfold SectorSize in *. change (Z.to_nat 128) with 128%nat in *.
  eapply ends_pure; [apply wr_block_Done; lia |]. split_and!.
  - done.
  - apply length_splice. lia.
  - apply Forall_splice; [done |]. apply Forall_take, Forall_drop, bytes_content.
  - intros j Hj Hjl. rewrite lookup_splice_in by lia. unfold bs. rewrite lookup_take_lt by lia. rewrite lookup_drop.
    f_equal. lia.
  - intros Hag Hlo Hhi j Hj Hjl. rewrite lookup_splice_out by lia. by apply Hag.
Qed.

(** ** The buffer of [WriteAt]

    A request of [m] bytes at [position] that touches the sectors [fst] to
    [lst]; the buffer holds them from [base] on. *)

Section buffer.
Context (m position fst lst : Z) (Hp : 0 ≤ position) (Hm : 0 < m) (Ht : touches (hdr f) m position fst lst).
Notation size := (Z.to_nat ((1 + lst - fst) * SectorSize)).
Notation base := (Z.to_nat fst * ssize)%nat.

(** What is not written over is in the buffer before the copy. *)
Record filled (buf : list Z) : Prop := {
  fi_length : length buf = size;
  fi_bytes : Forall byte buf;
  fi_before : agrees buf file base base (Z.to_nat position);
  fi_after : agrees buf file base (Z.to_nat (position + m)) (base + size)
}.

Lemma fill_first buf : length buf = size → Forall byte buf →
  ends (if bool_decide (position = fst * SectorSize) then mret buf
        else bs ← DiskFile_ReadAt f SectorSize (fst * SectorSize); pure (wr_block buf 0 bs))
    (λ buf' d', d' = d ∧ length buf' = size ∧ Forall byte buf' ∧
      (position ≠ fst * SectorSize → agrees buf' file base base (Z.to_nat (fst + 1) * ssize))) d.
Proof using Hd Hf Hm Ht.
  intros Hl Hb. destruct Ht as [Hfst Hlst Hord Hend]. case_bool_decide as Hal; [ends_steps; by split_and! |].
  pose proof (fill_sector buf fst fst 0 0 Hb) as Hfill. replace ((fst - fst) * SectorSize) with 0 in Hfill by lia.
  eapply ends_mono; [apply Hfill; unfold SectorSize in *; lia |]. cbv beta.
  intros buf' d' (-> & Hl' & Hb' & Hag & _). split_and!; [done | lia | done | by intros _].
Qed.

Lemma fill_last buf : length buf = size → Forall byte buf →
  (position ≠ fst * SectorSize → agrees buf file base base (Z.to_nat (fst + 1) * ssize)) →
  ends (if negb (bool_decide (position + m = (lst + 1) * SectorSize)) &&
           (negb (bool_decide (fst = lst)) || bool_decide (position = fst * SectorSize)) then
          bs ← DiskFile_ReadAt f SectorSize (lst * SectorSize);
          pure (wr_block buf ((lst - fst) * SectorSize) bs)
        else mret buf)
    (λ buf' d', d' = d ∧ filled buf') d.
Proof using Hd Hf Ht Hp Hm.
  intros Hl Hb Hag1. destruct Ht as [Hfst Hlst Hord Hend]. destruct (negb _ && _) eqn:Ec.
  - pose proof (fill_sector buf fst lst base (Z.to_nat (fst + 1) * ssize) Hb) as Hfill.
    eapply ends_mono; [apply Hfill; unfold SectorSize in *; lia |]. cbv beta.
    intros buf' d' (-> & Hl' & Hb' & Hag & Hkeep). split; [done |]. split; [lia | done | |].
    + destruct (decide (position = fst * SectorSize)) as [Eal | Hal].
      * intros j Hj. unfold SectorSize in *. lia.
      * assert (fst ≠ lst) as Hne.
        { apply andb_true_iff in Ec as [_ Ec]. apply orb_true_iff in Ec as [Ec | Ec].
          - by apply negb_true_iff, bool_decide_eq_false in Ec.
          - by apply bool_decide_eq_true in Ec. }
        eapply agrees_sub; [apply Hkeep; [by apply Hag1 | done | unfold SectorSize; lia] | done |].
        unfold SectorSize in *. lia.
    + eapply agrees_sub; [exact Hag | unfold SectorSize in *; lia | unfold SectorSize in *; lia].
  - ends_steps. split; [done |]. split; [done | done | |].
    + destruct (decide (position = fst * SectorSize)) as [Eal | Hal].
      * intros j Hj. unfold SectorSize in *. lia.
      * eapply agrees_sub; [by apply Hag1 | done |]. unfold SectorSize in *. lia.
    + destruct (decide (position + m = (lst + 1) * SectorSize)) as [Eal | Hal].
      * intros j Hj. unfold SectorSize in *. lia.
      * rewrite bool_decide_eq_false_2 in Ec by done. simpl in Ec. apply orb_false_iff in Ec as [Ee Ef].
        apply negb_false_iff, bool_decide_eq_true in Ee. apply bool_decide_eq_false in Ef.
        eapply agrees_sub; [by apply Hag1 | unfold SectorSize in *; lia | unfold SectorSize in *; lia].
Qed.

(** The sectors written back carry the new bytes and keep the others. *)
Lemma write_buffer buf src : filled buf → Forall byte src → length src = Z.to_nat m → position + m ≤ numBytes (hdr f) →
  ends (buf' ← pure (wr_block buf (position - fst * SectorSize) src);
        write_sectors (hdr f) buf' (Z.to_nat (1 + lst - fst)) fst 0)
    (λ _ d', disk_wf d' ∧ same_except (blocks (hdr f)) d d' ∧
      content d' (hdr f) = splice file (Z.to_nat position) src) d.
Proof using Hd Hf Ht Hp Hm.
  intros [Hl Hb Hlo Hhi] Hsrc Hlsrc Hml. destruct Ht as [Hfst Hlst Hord Hend].
  pose proof (length_image d Hd (blocks (hdr f)) (hw_on_disk _ Hf)) as Hli. rewrite (length_blocks _ Hf) in Hli.
  pose proof (numSectors_range _ Hf) as [Hns Hns']. pose proof (hw_bytes _ Hf) as Hnb. change MaxFileSize with 3840 in Hnb.
  ends_step. eapply ends_pure; [apply wr_block_Done; unfold SectorSize in *; lia |].
  set (buf' := splice buf _ src).
  assert (length buf' = size) as Hl' by (unfold buf'; rewrite length_splice; unfold SectorSize in *; lia).
  eapply ends_mono; [apply write_sectors_spec; try done |].
  - by apply Forall_splice.
  - lia.
  - lia.
  - rewrite Hl'. unfold SectorSize in *. lia.
  - cbv beta. intros [] d' (Hd' & Hsame & Him). split_and!; [done | done |].
    unfold content in Hlo, Hhi |- *. rewrite Him. change (Z.to_nat 0) with 0%nat.
    rewrite drop_0, (take_ge buf') by (rewrite Hl'; unfold SectorSize in *; lia). unfold buf'.
    replace (Z.to_nat (position - fst * SectorSize)) with (Z.to_nat position - base)%nat by (unfold SectorSize in *; lia).
    apply (splice_buffer _ _ _ _ _ _ size); try done; rewrite ?Hlsrc; try (unfold SectorSize in *; lia).
    eapply agrees_sub; [exact Hhi | lia | lia].
Qed.
End buffer.

Lemma WriteAt_spec from n position : request n position → Forall byte from → n ≤ Z.of_nat (length from) →
  ends (DiskFile_WriteAt fresh f from n position) (λ r d',
    r = Z.max 0 (Z.min n (numBytes (hdr f) - position)) ∧ disk_wf d' ∧ same_except (blocks (hdr f)) d d' ∧
    content d' (hdr f) = splice file (Z.to_nat position) (take (Z.to_nat r) from)) d.
Proof using Hd Hf Hfresh.
  intros Hr Hfrom Hn. pose proof (hw_bytes _ Hf) as Hb. change MaxFileSize with 3840 in Hb.
  unfold DiskFile_WriteAt, FileLength. rewrite clip_spec by (done || lia).
  set (m := Z.max 0 (Z.min n (numBytes (hdr f) - position))). destruct Hr as (Hp & Hn' & Hs).
  destruct (decide (m = 0)) as [E | E].
  { ends_steps. split_and!; [done | done | done |]. simpl. unfold splice. simpl. by rewrite Nat.add_0_r, take_drop. }
  assert (0 < m ∧ m ≤ n ∧ position + m ≤ numBytes (hdr f)) as (Hm0 & Hmn & Hml) by (unfold m in *; lia).
  assert (m = Z.max 0 (Z.min n (numBytes (hdr f) - position))) as Em by done. clearbody m.
  pose proof (touches_spec (hdr f) m position Hf (proj1 Hp) Hm0 Hml) as Ht.
  set (fst := divRoundDown position SectorSize) in *.
  set (lst := divRoundDown (s32 (position + m - 1)) SectorSize) in *. clearbody fst lst.
  rewrite s32_small by lia.
  destruct (Hfresh 0 (Z.to_nat ((1 + lst - fst) * SectorSize))) as [Hl0 Hby0].
  ends_step. eapply ends_mono; [by apply (fill_first m position fst lst Hm0 Ht) |].
  cbv beta. intros buf1 d1 (-> & Hl1 & Hby1 & Hag1).
  ends_step. eapply ends_mono; [by apply (fill_last m position fst lst (proj1 Hp) Hm0 Ht) |].
  cbv beta. intros buf2 d2 (-> & Hfill).
  ends_step. eapply ends_pure; [apply rd_block_Done; lia |]. change (Z.to_nat 0) with 0%nat. rewrite drop_0.
  assert (length (take (Z.to_nat m) from) = Z.to_nat m) as Hsrc by (rewrite length_take; lia).
  destruct (write_buffer m position fst lst (proj1 Hp) Hm0 Ht buf2 (take (Z.to_nat m) from) Hfill) as (u & d' & Erun & HQ);
    [by apply Forall_take | done | done |].
  exists m, d'. split; [| by split].
  rewrite run_bind in Erun. rewrite run_bind. destruct (run (pure _) d) as [[buf3 d3] |]; [| done].
  by rewrite run_bind, Erun.
Qed.
End write.
