(* ===== verification/DiskLayout.v ===== *)
(** * What the file system stores on disk: round trips of the encodings

    The header of a file, the words of the bitmap and the entries of the
    directory are stored as the bytes of the objects in memory.  Reading back
    what was written gives the same objects; any bytes read give objects whose
    fields are in the range of their C type. *)

From stdpp Require Import base gmap list numbers list_numbers.
From Stdlib Require Import ZArith Lia.
From S2P Require Import Prelude BitMap Machine MachineFacts DiskProg DiskFiles FileSys DiskFacts.

(** ** Arrays of equally long objects *)

Section arrays.
Context {A : Type} (k : nat) (enc : A → list Z) (dec : list Z → A).
Context (ok : A → Prop) (Hlen : ∀ a, ok a → length (enc a) = k) (Hdec : ∀ a, ok a → dec (enc a) = a).

Definition decode (n : nat) (bs : list Z) : list A := (λ i, dec (take k (drop (k * i) bs))) <$> seq 0 n.

Lemma even_enc l : Forall ok l → even_pieces k (enc <$> l).
Proof using Hlen. intros Hl. apply Forall_fmap. exact (Forall_impl _ _ _ Hl Hlen). Qed.

Lemma piece_of l i a : Forall ok l → l !! i = Some a → take k (drop (k * i) (concat (enc <$> l))) = enc a.
Proof using Hlen.
  intros Hl Hi. rewrite Nat.mul_comm, <- (concat_drop k) by (by apply even_enc).
  rewrite <- fmap_drop, (drop_S _ _ _ Hi). simpl. apply take_app_length'.
  symmetry. apply Hlen. exact (Forall_lookup_1 _ _ _ _ Hl Hi).
Qed.

Lemma decode_encode l : Forall ok l → decode (length l) (concat (enc <$> l)) = l.
Proof using Hlen Hdec.
  intros Hl. apply list_eq. intros i. unfold decode. rewrite list_lookup_fmap.
  destruct (l !! i) as [a |] eqn:Hi.
  - rewrite lookup_seq_lt by (by eapply lookup_lt_Some). simpl. rewrite (piece_of l i a) by done.
    f_equal. apply Hdec. exact (Forall_lookup_1 _ _ _ _ Hl Hi).
  - rewrite lookup_seq_ge by (by apply lookup_ge_None). done.
Qed.

Lemma length_encode l : Forall ok l → length (concat (enc <$> l)) = (length l * k)%nat.
Proof using Hlen. intros Hl. rewrite (length_pieces k) by (by apply even_enc). by rewrite length_fmap. Qed.

Lemma length_decode n bs : length (decode n bs) = n.
Proof. unfold decode. by rewrite length_fmap, length_seq. Qed.

Lemma decode_ok n bs : (∀ x, length x = k → Forall byte x → ok (dec x)) → Forall byte bs → (n * k ≤ length bs)%nat →
  Forall ok (decode n bs).
Proof.
  intros Hok Hbs Hn. unfold decode. apply Forall_fmap, Forall_forall. intros i Hi%elem_of_seq. simpl. apply Hok.
  - apply length_block. nia.
  - by apply Forall_take, Forall_drop.
Qed.

Lemma bytes_encode l : (∀ a, ok a → Forall byte (enc a)) → Forall ok l → Forall byte (concat (enc <$> l)).
Proof.
  intros Hb Hl. apply Forall_concat, Forall_fmap. exact (Forall_impl _ _ _ Hl Hb).
Qed.
End arrays.

(** ** Integers and words *)

Definition word_range (w : Z) : Prop := 0 ≤ w < 2 ^ 32.
Definition int_of (bs : list Z) : Z := s32 (le_value bs).

Lemma length_int v : length (int_bytes v) = 4%nat.
Proof. apply length_le_bytes. Qed.

Lemma int_of_bytes v : int_range v → int_of (int_bytes v) = v.
Proof. intros Hv. unfold int_of, int_bytes. rewrite le_value_bytes. change (256 ^ Z.of_nat 4) with (2 ^ 32).
  change (s32 (u32 v) = v). rewrite s32_u32. by apply s32_small. Qed.

Lemma int_bytes_ok v : Forall byte (int_bytes v).
Proof. apply le_bytes_range. Qed.

Lemma word_of_bytes w : word_range w → le_value (le_bytes 4 w) = w.
Proof. intros Hw. rewrite le_value_bytes. by apply Z.mod_small. Qed.

Lemma words_roundtrip ws : Forall word_range ws → words_of (length ws) (words_bytes ws) = ws.
Proof. apply (decode_encode 4 (le_bytes 4) le_value word_range (λ w _, length_le_bytes 4 w) word_of_bytes). Qed.

Lemma length_words ws : Forall word_range ws → length (words_bytes ws) = (length ws * 4)%nat.
Proof. apply (length_encode 4 (le_bytes 4) word_range (λ w _, length_le_bytes 4 w)). Qed.

Lemma words_bytes_ok ws : Forall word_range ws → Forall byte (words_bytes ws).
Proof. apply (bytes_encode (le_bytes 4) word_range). intros. apply le_bytes_range. Qed.

Lemma words_of_ok n bs : Forall byte bs → (n * 4 ≤ length bs)%nat → Forall word_range (words_of n bs).
Proof.
  apply (decode_ok 4 le_value word_range). intros x Hx Hb. pose proof (le_value_range x Hb) as H. by rewrite Hx in H.
Qed.

Lemma length_words_of n bs : length (words_of n bs) = n.
Proof. apply (length_decode 4 le_value). Qed.

(** ** Headers *)

Record header_ints (h : FileHeader) : Prop := {
  hi_bytes : int_range (numBytes h);
  hi_sectors : int_range (numSectors h);
  hi_length : Z.of_nat (length (dataSectors h)) = NumDirect;
  hi_data : Forall int_range (dataSectors h)
}.

Lemma int_at_app a v b k : length a = k → int_range v → int_at (a ++ int_bytes v ++ b) k = v.
Proof.
  intros <- Hv. unfold int_at. rewrite drop_app_length, take_app_length' by (by rewrite length_int). by apply int_of_bytes.
Qed.

Lemma int_at_range bs k : int_range (int_at bs k).
Proof. apply s32_range. Qed.

Lemma header_roundtrip h : header_ints h → header_of (header_bytes h) = h.
Proof.
  intros [Hb Hs Hl Hd]. destruct h as [nb ns ds]; cbn [numBytes numSectors dataSectors] in *.
  unfold header_of, header_bytes; cbn [numBytes numSectors dataSectors].
  rewrite (int_at_app [] nb _ 0 eq_refl Hb : int_at (int_bytes nb ++ _) 0 = nb).
  rewrite (int_at_app (int_bytes nb) ns) by done. f_equal.
  transitivity (decode 4 int_of (Z.to_nat NumDirect) (concat (int_bytes <$> ds))).
  - done.
  - replace (Z.to_nat NumDirect) with (length ds) by lia.
    apply (decode_encode 4 int_bytes int_of int_range (λ v _, length_int v) int_of_bytes). done.
Qed.

Lemma header_bytes_sector h : header_ints h → is_sector (header_bytes h).
Proof.
  intros [Hb Hs Hl Hd]. split; unfold header_bytes.
  - rewrite !length_app, !length_int, (length_encode 4 int_bytes int_range (λ v _, length_int v)) by done.
    change NumDirect with 30 in Hl. change ssize with 128%nat. lia.
  - rewrite !Forall_app. split_and!; [apply int_bytes_ok | apply int_bytes_ok |].
    apply (bytes_encode int_bytes int_range); [intros; apply int_bytes_ok | done].
Qed.

Lemma header_of_ints bs : header_ints (header_of bs).
Proof.
  split; cbn; [apply int_at_range | apply int_at_range | by rewrite length_fmap, length_seq |].
  apply Forall_fmap, Forall_forall. intros i _. apply int_at_range.
Qed.
