(* ===== verification/DirFacts.v ===== *)
(** * Directories: names, entries and the table

    [strncmp] and [strncpy] see at most [FileNameMaxLen] characters of a name:
    [key] is what is left of it.  The operations of a directory are described
    by what they do to the entries in use, up to their order. *)

From stdpp Require Import base gmap list numbers list_numbers.
From Stdlib Require Import ZArith Lia.
From S2P Require Import Prelude BitMap Machine MachineFacts DiskProg DiskFiles FileSys DiskFacts DiskLayout.

(** ** Names *)

Fixpoint cut (n : nat) (a : list Z) : list Z :=
  match n, a with
  | S n', c :: a' => if decide (c = 0) then [] else c :: cut n' a'
  | _, _ => []
  end.

Notation key := (cut (Z.to_nat FileNameMaxLen)).

Lemma strncmp_cut n a b : strncmp_eq n a b = bool_decide (cut n a = cut n b).
Proof.
  revert a b. induction n as [| n IH]; intros a b; [by rewrite bool_decide_true |].
  destruct a as [| x a], b as [| y b]; simpl; repeat case_decide; subst; rewrite ?IH;
    repeat case_bool_decide; congruence.
Qed.

Lemma cut_strncpy n nm rest : cut n (strncpy_bytes n nm ++ rest) = cut n nm.
Proof.
  revert nm. induction n as [| n IH]; intros [| c nm]; simpl; try done.
  case_decide; simpl; [done |]. rewrite decide_False by done. by rewrite IH.
Qed.

Lemma length_strncpy n nm : length (strncpy_bytes n nm) = n.
Proof.
  revert nm. induction n as [| n IH]; intros nm; cbn [strncpy_bytes]; [done |].
  case_decide; [by rewrite length_replicate |]. simpl. by rewrite IH.
Qed.

Lemma bytes_strncpy n nm : Forall byte nm → Forall byte (strncpy_bytes n nm).
Proof.
  revert nm. induction n as [| n IH]; intros nm Hnm; cbn [strncpy_bytes]; [done |].
  case_decide; [by apply Forall_replicate | destruct Hnm as [| c nm Hc Hnm]; [done |]].
  constructor; [done | by apply IH].
Qed.

(** ** Entries *)

Record entry_ok (e : DirectoryEntry) : Prop := {
  eo_sector : int_range (sector e);
  eo_name : length (name e) = 10%nat ∧ Forall byte (name e);
  eo_gap1 : length (gap1 e) = 3%nat ∧ Forall byte (gap1 e);
  eo_gap2 : length (gap2 e) = 2%nat ∧ Forall byte (gap2 e)
}.

Lemma length_entry e : entry_ok e → length (entry_bytes e) = 20%nat.
Proof.
  intros [_ [Hn _] [Hg1 _] [Hg2 _]]. unfold entry_bytes. rewrite !length_app, length_int, Hn, Hg1, Hg2. done.
Qed.

Lemma entry_roundtrip e : entry_ok e → entry_of (entry_bytes e) = e.
Proof.
  destruct e as [u g1 s nm g2]. intros [Hs [Hn _] [Hg1 _] [Hg2 _]]; simpl in *.
  unfold entry_of, entry_bytes; cbn [inUse gap1 sector name gap2]. f_equal.
  - by destruct u.
  - simpl. by apply take_app_length'.
  - rewrite app_assoc. apply int_at_app; [simpl; lia | done].
  - rewrite !app_assoc, <- app_assoc, drop_app_length' by (rewrite !length_app, length_int; simpl; lia).
    by apply take_app_length'.
  - rewrite !app_assoc, drop_app_length' by (rewrite !length_app, length_int; simpl; lia).
    apply take_ge. lia.
Qed.

Lemma bytes_entry e : entry_ok e → Forall byte (entry_bytes e).
Proof.
  intros [_ [_ Hn] [_ Hg1] [_ Hg2]]. unfold entry_bytes. rewrite !Forall_app. split_and!; try done.
  - constructor; [| done]. unfold byte. destruct (inUse e); simpl; lia.
  - apply int_bytes_ok.
Qed.

Lemma entry_of_ok bs : length bs = 20%nat → Forall byte bs → entry_ok (entry_of bs).
Proof.
  intros Hl Hb. split; cbn; [apply int_at_range | | |];
    (split; [apply (length_block bs); lia | by apply Forall_take, Forall_drop]).
Qed.

Lemma table_roundtrip t : Forall entry_ok t → table_of (length t) (table_bytes t) = t.
Proof. apply (decode_encode 20 entry_bytes entry_of entry_ok length_entry entry_roundtrip). Qed.

Lemma length_table t : Forall entry_ok t → length (table_bytes t) = (length t * 20)%nat.
Proof. apply (length_encode 20 entry_bytes entry_ok length_entry). Qed.

Lemma bytes_table t : Forall entry_ok t → Forall byte (table_bytes t).
Proof. apply (bytes_encode entry_bytes entry_ok t bytes_entry). Qed.

Lemma table_of_ok n bs : Forall byte bs → (n * 20 ≤ length bs)%nat → Forall entry_ok (table_of n bs).
Proof. apply (decode_ok 20 entry_of entry_ok n bs entry_of_ok). Qed.

Lemma length_table_of n bs : length (table_of n bs) = n.
Proof. apply (length_decode 20 entry_of). Qed.

(** ** The entries in use *)

Definition live (t : list DirectoryEntry) : list DirectoryEntry := filter (λ e, inUse e = true) t.
Definition names (t : list DirectoryEntry) : list (list Z) := (λ e, key (name e)) <$> live t.

Lemma live_insert t i e e' : t !! i = Some e →
  (if inUse e then [e] else []) ++ live (<[i := e']> t) ≡ₚ (if inUse e' then [e'] else []) ++ live t.
Proof.
  intros Hi. pose proof (lookup_lt_Some _ _ _ Hi) as Hlt. rewrite insert_take_drop by done.
  rewrite <- (take_drop_middle t i e) at 3 by done. unfold live. rewrite !filter_app, !filter_cons.
  destruct (inUse e), (inUse e'); simpl; repeat (rewrite decide_True by done || rewrite decide_False by done);
    rewrite <- ?Permutation_middle; try done.
  apply perm_swap.
Qed.

Lemma elem_of_live t e : e ∈ live t ↔ inUse e = true ∧ e ∈ t.
Proof. unfold live. by rewrite list_elem_of_filter. Qed.

Lemma length_live t : (length (live t) ≤ length t)%nat.
Proof. exact (length_filter (λ e, inUse e = true) t). Qed.

(** ** Searching, adding and removing *)

Lemma find_index_spec nm es : ∀ i0, 0 ≤ i0 →
  (find_index es nm i0 = -1 ∧ key nm ∉ names es) ∨
  ∃ i e, find_index es nm i0 = i0 + Z.of_nat i ∧ es !! i = Some e ∧ inUse e = true ∧ key (name e) = key nm.
Proof.
  induction es as [| e es IH]; intros i0 Hi0; cbn [find_index]; [left; split; [done |]; apply not_elem_of_nil |].
  rewrite strncmp_cut. destruct (inUse e) eqn:Eu; simpl.
  - case_bool_decide as Ek; [right; exists 0%nat, e; split_and!; [lia | done..] |].
    destruct (IH (i0 + 1)) as [[E Hn] | (i & e' & E & Hi & He)]; [lia | left | right].
    + split; [done |]. unfold names, live in *. rewrite filter_cons_True by done. simpl. set_solver.
    + exists (S i), e'. split_and!; [lia | done | apply He | apply He].
  - destruct (IH (i0 + 1)) as [[E Hn] | (i & e' & E & Hi & He)]; [lia | left | right].
    + split; [done |]. unfold names, live in *. by rewrite filter_cons_False by (by rewrite Eu).
    + exists (S i), e'. split_and!; [lia | done | apply He | apply He].
Qed.

Section directory.
Context (size : Z) (t : list DirectoryEntry) (nm : list Z).

Lemma FindIndex_spec :
  (Directory_FindIndex (mkDirectory size t) nm = -1 ∧ key nm ∉ names t) ∨
  ∃ i e, Directory_FindIndex (mkDirectory size t) nm = Z.of_nat i ∧ t !! i = Some e ∧ inUse e = true ∧
    key (name e) = key nm.
Proof. exact (find_index_spec nm t 0 (Z.le_refl 0)). Qed.

Lemma Find_dir_spec :
  (Directory_Find (mkDirectory size t) nm = Done (-1) ∧ key nm ∉ names t) ∨
  ∃ e, Directory_Find (mkDirectory size t) nm = Done (sector e) ∧ e ∈ live t ∧ key (name e) = key nm.
Proof.
  unfold Directory_Find. destruct FindIndex_spec as [[-> Hn] | (i & e & -> & Hi & Hu & Hk)]; [by left | right].
  exists e. rewrite decide_True by lia. rewrite (rd_Done _ _ e) by (rewrite ?Nat2Z.id; done || lia).
  split_and!; [done | | done]. apply elem_of_live. split; [done |]. by eapply list_elem_of_lookup_2.
Qed.

(** The entry [Add] writes over [e]. *)
Definition new_entry (e : DirectoryEntry) (s : Z) : DirectoryEntry :=
  mkDirEntry true (gap1 e) s (strncpy_bytes (Z.to_nat FileNameMaxLen) nm ++ drop (Z.to_nat FileNameMaxLen) (name e)) (gap2 e).

Lemma new_entry_ok e s : entry_ok e → int_range s → Forall byte nm → entry_ok (new_entry e s).
Proof.
  intros [_ [Hl Hn] Hg1 Hg2] Hs Hnm. split; cbn [new_entry sector name gap1 gap2]; [done | | done | done].
  split.
  - rewrite length_app, length_strncpy, length_drop, Hl. done.
  - apply Forall_app. split; [by apply bytes_strncpy | by apply Forall_drop].
Qed.

Lemma new_entry_key e s : key (name (new_entry e s)) = key nm.
Proof. apply cut_strncpy. Qed.

Lemma add_entry_spec s : match add_entry t nm s with
  | None => length (live t) = length t
  | Some t' => ∃ i e, t !! i = Some e ∧ inUse e = false ∧ t' = <[i := new_entry e s]> t
  end.
Proof.
  induction t as [| e es IH]; [done |]. cbn [add_entry]. destruct (inUse e) eqn:Eu.
  - destruct (add_entry es nm s) as [r |].
    + destruct IH as (i & e' & Hi & He' & ->). by exists (S i), e'.
    + unfold live in *. rewrite filter_cons_True by done. simpl. by rewrite IH.
  - by exists 0%nat, e.
Qed.
End directory.

Lemma set_inUse_ok b e : entry_ok e → entry_ok (set_inUse b e).
Proof. intros [? ? ? ?]. by split. Qed.
