(* ===== verification/AllocFacts.v ===== *)
(** * Sectors taken from and given back to the free map
    ([FileHeader::Allocate] and [Deallocate]) *)

From stdpp Require Import base gmap list numbers list_numbers.
From Stdlib Require Import ZArith Lia.
From S2P Require Import Prelude BitMap Machine MachineFacts DiskProg DiskFiles FileSys DiskFacts DiskLayout.

(** [b'] is [b] with the sectors [ss] taken, or given back. *)
Definition takes (b : BitMap) (ss : list Z) (b' : BitMap) : Prop :=
  BitMap_wf b' ∧ numBits b' = numBits b ∧
  ∀ j, 0 ≤ j < numBits b → bit b' j = bit b j || bool_decide (j ∈ ss).
Definition gives (b : BitMap) (ss : list Z) (b' : BitMap) : Prop :=
  BitMap_wf b' ∧ numBits b' = numBits b ∧
  ∀ j, 0 ≤ j < numBits b → bit b' j = bit b j && negb (bool_decide (j ∈ ss)).

Definition free_in (b : BitMap) (s : Z) : Prop := 0 ≤ s < numBits b ∧ bit b s = false.

Lemma takes_nil b : BitMap_wf b → takes b [] b.
Proof.
  intros Hb. split_and!; [done | done |]. intros j Hj. rewrite bool_decide_false by set_solver. by rewrite orb_false_r.
Qed.

Lemma takes_cons b b1 b' s ss : bit_update b s true b1 → takes b1 ss b' → takes b (s :: ss) b'.
Proof.
  intros (_ & Hn & Hs) (Hwf & Hn' & Hss). split_and!; [done | lia |]. intros j Hj.
  rewrite Hss, Hs by lia. case_decide as E; simpl.
  - rewrite bool_decide_true by set_solver. by rewrite orb_true_r.
  - f_equal. apply bool_decide_ext. set_solver.
Qed.

Lemma gives_snoc b b1 b' s ss : gives b ss b1 → bit_update b1 s false b' → gives b (ss ++ [s]) b'.
Proof.
  intros (_ & Hn & Hss) (Hwf & Hn' & Hs). split_and!; [done | lia |]. intros j Hj.
  rewrite Hs, Hss by lia. case_decide as E.
  - rewrite bool_decide_true by set_solver. by rewrite andb_false_r.
  - do 2 f_equal. apply bool_decide_ext. set_solver.
Qed.

(** The sectors [allocate_loop] finds are free and distinct. *)
Lemma allocate_loop_spec n : ∀ i ds b, BitMap_wf b → (n ≤ length (free b))%nat → 0 ≤ i →
  i + Z.of_nat n ≤ Z.of_nat (length ds) →
  wp (allocate_loop n i ds) (λ ds' b', ∃ ss, length ss = n ∧ NoDup ss ∧ Forall (free_in b) ss ∧
    ds' = splice ds (Z.to_nat i) ss ∧ takes b ss b') b.
Proof.
  induction n as [| n IH]; intros i ds b Hb Hf Hi Hl; cbn [allocate_loop].
  - apply wp_ret. exists []. split_and!; [done | constructor | done | | by apply takes_nil].
    unfold splice. simpl. by rewrite Nat.add_0_r, take_drop.
  - apply wp_bind. eapply wp_mono; [by apply Find_spec |].
    intros s b1 [(_ & _ & Hall) | (Hs & Hfree & _ & Hup)].
    { apply free_nil_iff in Hall. rewrite Hall in Hf. simpl in Hf. lia. }
    apply wp_bind. eapply wp_lift; [apply wr_Done; lia |].
    destruct (bit_update_wf _ _ _ _ Hup) as [Hb1 Hn1]. pose proof (free_take b s b1 Hb Hs Hfree Hup).
    eapply wp_mono; [apply (IH (i + 1) _ b1); [done | lia | lia | rewrite length_insert; lia] |].
    intros ds' b' (ss & Hlen & Hnd & Hss & -> & Htk). exists (s :: ss). destruct Hup as (? & ? & Hbits).
    assert (∀ x, x ∈ ss → x ≠ s ∧ free_in b x) as Hin.
    { intros x Hx. rewrite Forall_forall in Hss. destruct (Hss x Hx) as [Hr Hbx]. rewrite Hbits in Hbx by lia.
      case_decide; [done |]. split; [done |]. by split; [lia |]. }
    split_and!.
    + simpl. by rewrite Hlen.
    + constructor; [| done]. intros Hx. by destruct (Hin s Hx).
    + constructor; [done |]. apply Forall_forall. intros x Hx. apply (Hin x Hx).
    + replace (<[Z.to_nat i := s]> ds) with (splice ds (Z.to_nat i) [s]).
      2:{ unfold splice. rewrite insert_take_drop by lia. simpl. do 3 f_equal. lia. }
      replace (Z.to_nat (i + 1)) with (Z.to_nat i + length [s])%nat by (simpl; lia).
      rewrite splice_splice; [done |]. simpl. lia.
    + by apply (takes_cons b b1).
Qed.

Lemma Allocate_spec this size b : BitMap_wf b → numBits b = NumSectors → header_ints this →
  0 ≤ size ≤ MaxFileSize →
  wp (FileHeader_Allocate this size) (λ r b',
    if decide (Z.of_nat (length (free b)) < divRoundUp size SectorSize) then r.1 = false ∧ b' = b
    else r.1 = true ∧ header_ints r.2 ∧ header_wf r.2 ∧ numBytes r.2 = size ∧
         Forall (free_in b) (blocks r.2) ∧ takes b (blocks r.2) b') b.
Proof.
  intros Hb Hnb [_ _ Hl Hints] Hsize. unfold FileHeader_Allocate.
  destruct (divRoundUp_spec size SectorSize) as [Hlo Hhi]; [lia | done |].
  change MaxFileSize with 3840 in Hsize. change NumDirect with 30 in Hl.
  set (ns := divRoundUp size SectorSize) in *. unfold SectorSize in *.
  apply wp_bind. exists (Z.of_nat (length (free b))), b. split; [by apply NumClear_run |].
  destruct (decide (Z.of_nat (length (free b)) < ns)); [by apply wp_ret |].
  apply wp_bind. eapply wp_mono; [apply allocate_loop_spec; try done; lia |].
  intros ds b' (ss & Hlen & Hnd & Hss & -> & Htk). apply wp_ret.
  cbn [Datatypes.fst Datatypes.snd numBytes]. set (h := mkHeader size ns _).
  assert (length (splice (dataSectors this) (Z.to_nat 0) ss) = length (dataSectors this)) as Hls
    by (apply length_splice; lia).
  assert (blocks h = ss) as Hbl.
  { unfold blocks, h. cbn [numSectors dataSectors]. unfold splice. simpl. apply take_app_length'. lia. }
  rewrite !Hbl. assert (Forall on_disk ss) as Hon.
  { apply (Forall_impl _ _ _ Hss). intros x [Hx _]. unfold on_disk. lia. }
  split_and!; try done.
  - split; unfold h; cbn [numBytes numSectors dataSectors]; [unfold int_range; lia | unfold int_range; lia | change NumDirect with 30; lia |].
    apply Forall_splice; [done |]. apply (Forall_impl _ _ _ Hon). intros x Hx. unfold on_disk, int_range in *.
    change NumSectors with 1024 in Hx. lia.
  - split; rewrite ?Hbl; try done. unfold h; cbn [dataSectors]. change NumDirect with 30. lia.
Qed.

Lemma Deallocate_spec h b : header_wf h → BitMap_wf b → numBits b = NumSectors →
  (∀ s, s ∈ blocks h → bit b s = true) →
  wp (FileHeader_Deallocate h) (λ _ b', gives b (blocks h) b') b.
Proof.
  intros Hh Hb Hnb Hset. unfold FileHeader_Deallocate.
  pose proof (numSectors_range h Hh) as [Hns _]. pose proof (length_blocks h Hh) as Hlb.
  eapply wp_mono; [apply (wp_for (λ k b', gives b (take (Z.to_nat k) (blocks h)) b')) |].
  - simpl. split_and!; [done | done |]. intros j Hj. rewrite bool_decide_false by (apply not_elem_of_nil).
    by rewrite andb_true_r.
  - intros i b1 Hi (Hb1 & Hn1 & Hbits). destruct (blocks_lookup h Hh i) as (s & Hs & Hon & _); [lia |].
    assert (s ∉ take (Z.to_nat i) (blocks h)) as Hfresh.
    { intros (j & Hj)%list_elem_of_lookup. apply lookup_take_Some in Hj as [Hj Hji].
      pose proof (NoDup_lookup _ _ _ _ (hw_nodup h Hh) Hj Hs). lia. }
    unfold on_disk in Hon. apply wp_bind. eapply wp_lift.
    { apply (rd_Done _ _ s); [lia |]. unfold blocks in Hs. by apply lookup_take_Some in Hs as [? _]. }
    apply wp_bind. exists true, b1. split.
    { rewrite Test_run by (done || lia). rewrite Hbits, Hset by (lia || by eapply list_elem_of_lookup_2).
      by rewrite bool_decide_false. }
    apply wp_bind. apply wp_ASSERT; [done |].
    eapply wp_mono; [apply Clear_spec; [done | lia] |]. intros [] b' Hup.
    replace (Z.to_nat (i + 1)) with (S (Z.to_nat i)) by lia. rewrite (take_S_r _ _ s) by done.
    by apply (gives_snoc b b1).
  - intros [] b' Hg. rewrite take_ge in Hg by lia. done.
Qed.

(** Past the end of [dataSectors] the loop leaves the array. *)
Lemma allocate_loop_overflow n : ∀ i ds b, BitMap_wf b → (n ≤ length (free b))%nat → 0 ≤ i ≤ Z.of_nat (length ds) →
  Z.of_nat (length ds) < i + Z.of_nat n → allocate_loop n i ds b = Fault OutOfBounds.
Proof.
  induction n as [| n IH]; intros i ds b Hb Hf Hi Hl; [lia |]. cbn [allocate_loop].
  destruct (Find_spec b Hb) as (s & b1 & E & [(_ & _ & Hall) | (Hs & Hfree & _ & Hup)]).
  { apply free_nil_iff in Hall. rewrite Hall in Hf. simpl in Hf. lia. }
  unfold mbind, M_bind. rewrite E. unfold lift.
  destruct (decide (i = Z.of_nat (length ds))) as [-> | Hne].
  - unfold wr. rewrite decide_False by lia. done.
  - rewrite wr_Done by lia. pose proof (free_take b s b1 Hb Hs Hfree Hup).
    apply IH; [apply Hup | lia | rewrite length_insert; lia | rewrite length_insert; lia].
Qed.

(** [Allocate] does not check the size against the header. *)
Lemma Allocate_overflow this size b : BitMap_wf b → header_ints this → MaxFileSize < size →
  divRoundUp size SectorSize ≤ Z.of_nat (length (free b)) →
  FileHeader_Allocate this size b = Fault OutOfBounds.
Proof.
  intros Hb [_ _ Hl _] Hsize Hfree. change NumDirect with 30 in Hl. change MaxFileSize with 3840 in Hsize.
  destruct (divRoundUp_spec size SectorSize) as [Hlo Hhi]; [lia | done |].
  unfold FileHeader_Allocate, mbind, M_bind. rewrite NumClear_run by done. rewrite decide_False by lia.
  rewrite allocate_loop_overflow; [done | done | lia | lia |]. unfold SectorSize in *. lia.
Qed.
