(* ===== verification/FsInv.v ===== *)
(** * The disk as a file system: invariant and abstraction

    [fs_ok d] is the invariant of a formatted disk [d]: the sectors of the two
    system files and of every file named in the directory are on the disk and
    shared by no two of them, the free map marks exactly these sectors, and no
    two entries have the same name.  [files d] is what the disk stands for: a
    finite map from names to contents. *)

From stdpp Require Import base gmap list numbers list_numbers.
From Stdlib Require Import ZArith Lia.
From S2P Require Import Prelude BitMap Machine MachineFacts DiskProg DiskFiles FileSys DiskFacts DiskLayout.
From S2P Require Import DirFacts AllocFacts.

Definition header_at (d : Sectors) (s : Z) : FileHeader := header_of (sector_at d s).
Definition file_at (d : Sectors) (s : Z) : DiskFile := mkDiskFile (header_at d s) 0.
Definition fs_of (d : Sectors) : FileSystem := mkFileSystem (file_at d FreeMapSector) (file_at d DirectorySector).

Notation map_hdr d := (header_at d FreeMapSector).
Notation dir_hdr d := (header_at d DirectorySector).

Definition map_at (d : Sectors) : BitMap := mkBitMap NumSectors 32 (words_of 32 (content d (map_hdr d))).
Definition table_at (d : Sectors) : list DirectoryEntry := table_of (Z.to_nat NumDirEntries) (content d (dir_hdr d)).

(** The sectors of a file, of the system and of all files. *)
Definition sectors_of (d : Sectors) (e : DirectoryEntry) : list Z := sector e :: blocks (header_at d (sector e)).
Definition system_sectors (d : Sectors) : list Z :=
  FreeMapSector :: DirectorySector :: blocks (map_hdr d) ++ blocks (dir_hdr d).
Definition file_sectors (d : Sectors) (es : list DirectoryEntry) : list Z := es ≫= sectors_of d.
Definition owned (d : Sectors) (t : list DirectoryEntry) : list Z := system_sectors d ++ file_sectors d (live t).

(** What an entry says of a file. *)
Definition file_of (d : Sectors) (e : DirectoryEntry) : list Z * list Z :=
  (key (name e), content d (header_at d (sector e))).
Definition files (d : Sectors) : gmap (list Z) (list Z) := list_to_map (file_of d <$> live (table_at d)).

Record system_ok (d : Sectors) : Prop := {
  so_disk : disk_wf d;
  so_map : header_wf (map_hdr d);
  so_map_size : numBytes (map_hdr d) = FreeMapFileSize;
  so_dir : header_wf (dir_hdr d);
  so_dir_size : numBytes (dir_hdr d) = DirectoryFileSize
}.

Record fs_ok (d : Sectors) : Prop := {
  fo_system : system_ok d;
  fo_headers : Forall (λ e, header_wf (header_at d (sector e))) (live (table_at d));
  fo_nodup : NoDup (owned d (table_at d));
  fo_on_disk : Forall on_disk (owned d (table_at d));
  fo_bits : ∀ s, on_disk s → bit (map_at d) s = bool_decide (s ∈ owned d (table_at d));
  fo_names : NoDup (names (table_at d))
}.

(** ** Reading and writing the free map and the directory *)

Lemma splice_all {A} (l x : list A) : length x = length l → splice l 0 x = x.
Proof. intros Hx. unfold splice. simpl. rewrite drop_ge by lia. apply app_nil_r. Qed.

Section system_files.
Context (fresh : Z → nat → list Z) (Hfresh : fresh_ok fresh) (d : Sectors) (Hd : disk_wf d).
Context (f : DiskFile) (Hf : header_wf (hdr f)).

Lemma ReadWhole n : numBytes (hdr f) = n → run (DiskFile_ReadAt f n 0) d = Done (content d (hdr f), d).
Proof using Hd Hf.
  intros Hn. pose proof (hw_bytes _ Hf) as Hb. change MaxFileSize with 3840 in Hb.
  rewrite (DiskReadAt_run d f n 0 Hd Hf) by (unfold request; lia).
  do 2 f_equal. simpl. rewrite drop_0. apply take_ge. rewrite (length_content d Hd f Hf). lia.
Qed.

Lemma WriteWhole from n : numBytes (hdr f) = n → Forall byte from → Z.of_nat (length from) = n →
  ends (DiskFile_WriteAt fresh f from n 0) (λ _ d',
    disk_wf d' ∧ same_except (blocks (hdr f)) d d' ∧ content d' (hdr f) = from) d.
Proof using Hd Hf Hfresh.
  intros Hn Hb Hl. pose proof (hw_bytes _ Hf) as Hnb. change MaxFileSize with 3840 in Hnb.
  eapply ends_mono; [apply (WriteAt_spec fresh Hfresh d Hd f Hf from n 0); [unfold request; lia | done | lia] |].
  cbv beta. intros r d' (-> & Hd' & Hs & Hc). split_and!; [done | done |]. rewrite Hc.
  rewrite take_ge by lia. apply splice_all. rewrite (length_content d Hd f Hf). lia.
Qed.

Lemma new_map_spec site : ∃ b, new_map fresh site = Done b ∧ BitMap_wf b ∧ numBits b = NumSectors ∧
  ∀ i, 0 ≤ i < NumSectors → bit b i = false.
Proof using Hfresh.
  destruct (Hfresh site 128%nat) as [Hl Hb]. apply new_spec; [done | by rewrite length_words_of |].
  apply words_of_ok; [done | lia].
Qed.

Lemma map_shape b : BitMap_wf b → numBits b = NumSectors → numWords b = 32 ∧ length (BitMap.map b) = 32%nat.
Proof.
  intros [_ Hw Hl _] Hn. rewrite Hn in Hw. change (divRoundUp NumSectors BitsInWord) with 32 in Hw. lia.
Qed.

Lemma FetchMap b : BitMap_wf b → numBits b = NumSectors → numBytes (hdr f) = FreeMapFileSize →
  run (BitMap_FetchFrom f b) d = Done (mkBitMap NumSectors 32 (words_of 32 (content d (hdr f))), d).
Proof using Hd Hf.
  intros Hb Hnb Hs. destruct (map_shape b Hb Hnb) as [Hw Hl]. unfold BitMap_FetchFrom. rewrite run_bind.
  rewrite (ReadWhole (numWords b * 4)) by (rewrite Hs, Hw; done).
  assert (length (content d (hdr f)) = 128%nat) as Hlc by (rewrite (length_content d Hd f Hf), Hs; done).
  assert (length (words_bytes (BitMap.map b)) = 128%nat) as Hlm by (rewrite length_words; [lia | apply Hb]).
  rewrite wr_block_Done by lia. rewrite splice_all by lia. simpl. unfold set_map. by rewrite Hnb, Hw, Hl.
Qed.

Lemma WriteMap b : BitMap_wf b → numBits b = NumSectors → numBytes (hdr f) = FreeMapFileSize →
  ends (BitMap_WriteBack fresh f b) (λ _ d', disk_wf d' ∧ same_except (blocks (hdr f)) d d' ∧
    content d' (hdr f) = words_bytes (BitMap.map b)) d.
Proof using Hd Hf Hfresh.
  intros Hb Hnb Hs. destruct (map_shape b Hb Hnb) as [Hw Hl]. unfold BitMap_WriteBack. ends_step.
  assert (Forall word_range (BitMap.map b)) as Hr by apply Hb.
  eapply ends_mono; [apply WriteWhole; [rewrite Hs, Hw; done | by apply words_bytes_ok | rewrite length_words by done; lia] |].
  cbv beta. intros r d' H. by ends_steps.
Qed.

Lemma FetchDir site : numBytes (hdr f) = DirectoryFileSize →
  run (Directory_FetchFrom f (Directory_new fresh site NumDirEntries)) d =
    Done (mkDirectory NumDirEntries (table_of (Z.to_nat NumDirEntries) (content d (hdr f))), d).
Proof using Hd Hf Hfresh.
  intros Hs. unfold Directory_FetchFrom, Directory_new. cbn [tableSize table]. rewrite run_bind.
  rewrite (ReadWhole (NumDirEntries * sizeof_entry)) by (rewrite Hs; done).
  set (t := set_inUse false <$> _). assert (length t = 10%nat) as Hl by (unfold t; by rewrite length_fmap, length_table_of).
  assert (Forall entry_ok t) as Hok.
  { unfold t. destruct (Hfresh site (Z.to_nat (NumDirEntries * sizeof_entry))) as [Hfl Hfb].
    apply Forall_fmap. eapply Forall_impl; [apply table_of_ok; [exact Hfb | rewrite Hfl; done] |].
    intros e He. by apply set_inUse_ok. }
  assert (length (content d (hdr f)) = 200%nat) as Hlc by (rewrite (length_content d Hd f Hf), Hs; done).
  assert (length (table_bytes t) = 200%nat) as Hlt by (rewrite length_table by done; lia).
  rewrite wr_block_Done by lia. rewrite splice_all by lia. change (Z.to_nat NumDirEntries) with 10%nat. by rewrite <- Hl.
Qed.

Lemma WriteDir t : Forall entry_ok t → length t = Z.to_nat NumDirEntries → numBytes (hdr f) = DirectoryFileSize →
  ends (Directory_WriteBack fresh f (mkDirectory NumDirEntries t)) (λ _ d', disk_wf d' ∧
    same_except (blocks (hdr f)) d d' ∧ content d' (hdr f) = table_bytes t) d.
Proof using Hd Hf Hfresh.
  intros Ht Hl Hs. unfold Directory_WriteBack; cbn [table tableSize]. ends_step.
  eapply ends_mono; [apply WriteWhole; [rewrite Hs; done | by apply bytes_table | rewrite length_table, Hl by done; done] |].
  cbv beta. intros r d' H. by ends_steps.
Qed.
End system_files.
