(* ===== verification/FsFacts.v ===== *)
(** * Updating the directory and the free map

    What a change of the disk that touches only the sectors [ss] leaves as it
    was, and how much space the files of a disk take. *)

From stdpp Require Import base gmap list numbers list_numbers.
From Stdlib Require Import ZArith Lia.
From S2P Require Import Prelude BitMap Machine MachineFacts DiskProg DiskFiles FileSys DiskFacts DiskLayout.
From S2P Require Import DirFacts AllocFacts FsInv.

Section system.
Context (d : Sectors) (Hs : system_ok d).

Lemma length_dir_content : length (content d (dir_hdr d)) = 200%nat.
Proof using Hs.
  rewrite (length_content d (so_disk d Hs) (file_at d DirectorySector) (so_dir d Hs) : length (content d (dir_hdr d)) = _).
  cbn [hdr file_at]. by rewrite (so_dir_size d Hs).
Qed.

Lemma length_map_content : length (content d (map_hdr d)) = 128%nat.
Proof using Hs.
  rewrite (length_content d (so_disk d Hs) (file_at d FreeMapSector) (so_map d Hs) : length (content d (map_hdr d)) = _).
  cbn [hdr file_at]. by rewrite (so_map_size d Hs).
Qed.

Lemma table_at_ok : Forall entry_ok (table_at d) ∧ length (table_at d) = Z.to_nat NumDirEntries.
Proof.
  split; [| apply length_table_of]. apply table_of_ok; [| by rewrite length_dir_content].
  exact (bytes_content d (so_disk d Hs) (file_at d DirectorySector) (so_dir d Hs)).
Qed.

Lemma map_at_wf : BitMap_wf (map_at d).
Proof.
  split; cbn [map_at numBits numWords BitMap.map]; [done | done | by rewrite length_words_of |].
  apply words_of_ok; [| by rewrite length_map_content].
  exact (bytes_content d (so_disk d Hs) (file_at d FreeMapSector) (so_map d Hs)).
Qed.
End system.

Lemma file_sectors_cons d e es : file_sectors d (e :: es) = sectors_of d e ++ file_sectors d es.
Proof. done. Qed.

(** ** Frames *)

Section frame.
Context (ss : list Z) (d d' : Sectors) (Hsame : same_except ss d d').

Lemma header_frame s : on_disk s → s ∉ ss → header_at d' s = header_at d s.
Proof using Hsame. intros Hs Hn. unfold header_at. by rewrite (Hsame s Hs Hn). Qed.

Lemma content_frame h : Forall on_disk (blocks h) → (∀ s, s ∈ blocks h → s ∉ ss) → content d' h = content d h.
Proof using Hsame. intros Hh Hn. unfold content. by rewrite (same_except_image ss (blocks h) d d'). Qed.

(** An entry none of whose sectors changed. *)
Lemma entry_frame e : Forall on_disk (sectors_of d e) → (∀ s, s ∈ sectors_of d e → s ∉ ss) →
  header_at d' (sector e) = header_at d (sector e) ∧ sectors_of d' e = sectors_of d e ∧ file_of d' e = file_of d e.
Proof using Hsame.
  intros Hon Hn. apply Forall_cons_1 in Hon as [Hs Hb].
  assert (header_at d' (sector e) = header_at d (sector e)) as E.
  { apply header_frame; [done |]. apply Hn. apply list_elem_of_here. }
  split_and!; [done | unfold sectors_of; by rewrite E |]. unfold file_of. f_equal. rewrite E.
  apply content_frame; [done |]. intros s Hin. apply Hn. by apply list_elem_of_further.
Qed.

Lemma files_frame es : Forall on_disk (file_sectors d es) → (∀ s, s ∈ file_sectors d es → s ∉ ss) →
  file_sectors d' es = file_sectors d es ∧ file_of d' <$> es = file_of d <$> es ∧
  (Forall (λ e, header_wf (header_at d (sector e))) es → Forall (λ e, header_wf (header_at d' (sector e))) es).
Proof using Hsame.
  induction es as [| e es IH]; intros Hon Hn; [done |]. rewrite file_sectors_cons in Hon, Hn.
  apply Forall_app in Hon as [Hon1 Hon2].
  destruct (entry_frame e) as (E1 & E2 & E3); [done | intros s Hin; apply Hn, elem_of_app; by left |].
  destruct IH as (I1 & I2 & I3); [done | intros s Hin; apply Hn, elem_of_app; by right |]. split_and!.
  - by rewrite !file_sectors_cons, E2, I1.
  - rewrite !fmap_cons. by rewrite E3, I2.
  - intros [H1 H2]%Forall_cons. constructor; [by rewrite E1 | by apply I3].
Qed.

(** The system after the directory and the map are written. *)
Lemma system_update t b : system_ok d → disk_wf d' → FreeMapSector ∉ ss → DirectorySector ∉ ss →
  content d' (dir_hdr d) = table_bytes t → content d' (map_hdr d) = words_bytes (BitMap.map b) →
  Forall entry_ok t → length t = Z.to_nat NumDirEntries → BitMap_wf b → numBits b = NumSectors →
  system_ok d' ∧ system_sectors d' = system_sectors d ∧ table_at d' = t ∧ map_at d' = b.
Proof using Hsame.
  intros [_ Hm Hms Hr Hrs] Hd' H0 H1 Hdir Hmap Ht Hlt Hb Hnb.
  assert (map_hdr d' = map_hdr d) as E0 by (apply header_frame; done).
  assert (dir_hdr d' = dir_hdr d) as E1 by (apply header_frame; done).
  destruct (map_shape b Hb Hnb) as [Hw Hl]. split_and!.
  - split; rewrite ?E0, ?E1; done.
  - unfold system_sectors. by rewrite E0, E1.
  - unfold table_at. rewrite E1, Hdir, <- Hlt. by apply table_roundtrip.
  - unfold map_at. rewrite E0, Hmap, <- Hl, words_roundtrip by apply Hb. destruct b; simpl in *. by rewrite Hnb, Hw.
Qed.
End frame.

Lemma fs_of_same d d' ss : same_except ss d d' → FreeMapSector ∉ ss → DirectorySector ∉ ss → fs_of d' = fs_of d.
Proof. intros H H0 H1. unfold fs_of, file_at. by rewrite !(header_frame ss d d' H) by done. Qed.

(** ** Names and files *)

Lemma names_of_files d t : (file_of d <$> live t).*1 = names t.
Proof. unfold names. by rewrite <- list_fmap_compose. Qed.

(** The files of a table with one entry more. *)
Lemma files_cons d es e es' : es ≡ₚ e :: es' → NoDup ((λ e, key (name e)) <$> es) →
  (list_to_map (file_of d <$> es) : gmap (list Z) (list Z)) =
    <[key (name e) := content d (header_at d (sector e))]> (list_to_map (file_of d <$> es')) ∧
  (list_to_map (file_of d <$> es') : gmap (list Z) (list Z)) !! key (name e) = None.
Proof.
  intros Hp Hnd. assert ((file_of d <$> es).*1 = (λ e, key (name e)) <$> es) as E by (by rewrite <- list_fmap_compose).
  split.
  - rewrite (list_to_map_proper (file_of d <$> es) (file_of d <$> e :: es')); [done | by rewrite E | by rewrite Hp].
  - apply not_elem_of_list_to_map. rewrite Hp in Hnd. apply NoDup_cons in Hnd as [Hn _].
    by rewrite <- list_fmap_compose.
Qed.

Section counts.
Context (d : Sectors) (Hd : fs_ok d).

Lemma files_lookup_None nm : key nm ∉ names (table_at d) ↔ files d !! key nm = None.
Proof.
  unfold files. rewrite <- (names_of_files d). split; [apply not_elem_of_list_to_map_1 | apply not_elem_of_list_to_map_2].
Qed.

Lemma files_lookup_Some e : e ∈ live (table_at d) →
  files d !! key (name e) = Some (content d (header_at d (sector e))).
Proof using Hd.
  intros He. apply elem_of_list_to_map_1; [rewrite names_of_files; by apply fo_names |].
  apply list_elem_of_fmap. by exists e.
Qed.

Lemma live_count : length (live (table_at d)) = size (files d).
Proof using Hd.
  unfold files. rewrite map_size_list_to_map; [by rewrite length_fmap |]. rewrite names_of_files. by apply fo_names.
Qed.
End counts.

(** ** Space *)

(** The sectors of a file of [n] bytes, its header's included; those of the
    system are five. *)
Definition cost (n : Z) : nat := S (Z.to_nat (divRoundUp n SectorSize)).
Definition space (F : gmap (list Z) (list Z)) : nat :=
  5 + sum_list_with (λ p, cost (Z.of_nat (length p.2))) (map_to_list F).

Lemma length_content_at d s : disk_wf d → header_wf (header_at d s) →
  Z.of_nat (length (content d (header_at d s))) = numBytes (header_at d s).
Proof.
  intros Hd Hh. pose proof (length_content d Hd (file_at d s) Hh) as E. cbn [hdr file_at] in E.
  rewrite E. destruct (hw_bytes _ Hh). lia.
Qed.

Lemma length_sectors_of d e : disk_wf d → header_wf (header_at d (sector e)) →
  length (sectors_of d e) = cost (Z.of_nat (length (file_of d e).2)).
Proof.
  intros Hd Hh. unfold sectors_of, cost. cbn [length file_of snd]. rewrite length_content_at by done.
  by rewrite (length_blocks _ Hh), (hw_sectors _ Hh).
Qed.

Lemma length_file_sectors d es : disk_wf d → Forall (λ e, header_wf (header_at d (sector e))) es →
  length (file_sectors d es) = sum_list_with (λ p, cost (Z.of_nat (length p.2))) (file_of d <$> es).
Proof.
  intros Hd. induction 1 as [| e es He _ IH]; [done |].
  rewrite file_sectors_cons, length_app, IH, length_sectors_of by done. done.
Qed.

Lemma length_system d : system_ok d → length (system_sectors d) = 5%nat.
Proof.
  intros Hs. unfold system_sectors. cbn [length]. rewrite length_app, !length_blocks by apply Hs.
  rewrite !hw_sectors by apply Hs. rewrite (so_map_size d Hs), (so_dir_size d Hs). done.
Qed.

Lemma length_owned d : fs_ok d → length (owned d (table_at d)) = space (files d).
Proof.
  intros Hd. unfold owned, space. rewrite length_app, (length_system d) by apply Hd. f_equal.
  rewrite length_file_sectors by apply Hd. unfold files. rewrite map_to_list_to_map; [done |].
  rewrite names_of_files. by apply fo_names.
Qed.

Lemma filter_in_seqZ (l : list Z) n : NoDup l → Forall (λ x, 0 ≤ x < n) l → filter (.∈ l) (seqZ 0 n) ≡ₚ l.
Proof.
  intros Hnd Hl. apply NoDup_Permutation; [apply NoDup_filter, NoDup_seqZ | done |].
  intros x. rewrite list_elem_of_filter, elem_of_seqZ. rewrite Forall_forall in Hl. split; [tauto |].
  intros Hx. split; [done |]. specialize (Hl x Hx). lia.
Qed.

Lemma free_count d : fs_ok d → (length (free (map_at d)) + space (files d))%nat = Z.to_nat NumSectors.
Proof.
  intros Hd. rewrite <- (length_owned d Hd). unfold free. cbn [numBits map_at].
  set (l := owned d (table_at d)).
  rewrite <- (filter_in_seqZ l NumSectors) at 1 by apply Hd.
  rewrite (filter_ext_in _ (λ x, x ∉ l)).
  - rewrite Nat.add_comm, <- length_app, filter_app_complement. apply length_seqZ.
  - intros x Hx%elem_of_seqZ. rewrite (fo_bits d Hd) by (unfold on_disk; lia). fold l.
    case_bool_decide; naive_solver.
Qed.
