(* ===== verification/FsUpdate.v ===== *)
(** * A file more, a file less: the two commits of the file system

    [FileSystem::Create] and [Remove] end by writing the directory and the free
    map.  The lemmas of this file say that the disk written is again a
    well-formed file system, of one file more or less. *)

From stdpp Require Import base gmap list numbers list_numbers.
From Stdlib Require Import ZArith Lia.
From S2P Require Import Prelude BitMap Machine MachineFacts DiskProg DiskFiles FileSys DiskFacts DiskLayout.
From S2P Require Import DirFacts AllocFacts FsInv FsFacts.

(** [f] is an open file of the file called [nm]. *)
Definition opened (d : Sectors) (nm : list Z) (f : DiskFile) : Prop :=
  ∃ e, e ∈ live (table_at d) ∧ key (name e) = key nm ∧ hdr f = header_at d (sector e).

Definition system_blocks (d : Sectors) : list Z := blocks (map_hdr d) ++ blocks (dir_hdr d).

(** ** Sectors of a well-formed file system *)

Section apart.
Context (d : Sectors) (Hd : fs_ok d).

Lemma owned_parts : NoDup (system_sectors d) ∧ NoDup (file_sectors d (live (table_at d))) ∧
  (∀ s, s ∈ system_sectors d → s ∉ file_sectors d (live (table_at d))).
Proof using Hd. destruct (proj1 (NoDup_app _ _) (fo_nodup d Hd)) as (? & ? & ?). by split_and!. Qed.

Lemma system_fixed : (FreeMapSector ∉ system_blocks d) ∧ (DirectorySector ∉ system_blocks d).
Proof using Hd.
  destruct owned_parts as ([H0 [H1 _]%NoDup_cons]%NoDup_cons & _ & _). unfold system_blocks.
  split; [| done]. intros Hin. apply H0. by apply list_elem_of_further.
Qed.

Lemma maps_apart s : s ∈ blocks (map_hdr d) → s ∉ blocks (dir_hdr d).
Proof using Hd.
  destruct owned_parts as ([_ [_ Hnd]%NoDup_cons]%NoDup_cons & _ & _).
  apply NoDup_app in Hnd as (_ & Hx & _). apply Hx.
Qed.

Lemma files_apart s : s ∈ file_sectors d (live (table_at d)) → s ∉ system_blocks d.
Proof using Hd.
  intros Hs Hin. destruct owned_parts as (_ & _ & H). apply (H s); [| done].
  by apply list_elem_of_further, list_elem_of_further.
Qed.

Lemma on_disk_files : Forall on_disk (file_sectors d (live (table_at d))).
Proof using Hd. pose proof (fo_on_disk d Hd) as H. by apply Forall_app in H as [_ ?]. Qed.

Lemma sectors_in e s : e ∈ live (table_at d) → s ∈ sectors_of d e → s ∈ file_sectors d (live (table_at d)).
Proof. intros He Hs. apply list_elem_of_bind. by exists e. Qed.

Lemma free_not_owned s : free_in (map_at d) s → s ∉ owned d (table_at d).
Proof using Hd.
  intros [Hr Hb]. rewrite (fo_bits d Hd) in Hb by exact Hr. by apply bool_decide_eq_false in Hb.
Qed.
End apart.

(** ** A file more *)

Section create.
Context (d d' : Sectors) (Hd : fs_ok d) (nm : list Z) (i : nat) (e : DirectoryEntry) (sec : Z) (h : FileHeader) (b : BitMap).
Context (Hi : table_at d !! i = Some e) (He : inUse e = false).
Context (Hnm : Forall byte nm) (Hnew : key nm ∉ names (table_at d)).
Context (Hfree : Forall (free_in (map_at d)) (sec :: blocks h)) (Hnd : NoDup (sec :: blocks h)).
Context (Hh : header_wf h) (Hb : takes (map_at d) (sec :: blocks h) b).
Context (Hd' : disk_wf d') (Hsame : same_except (sec :: system_blocks d) d d').
Context (Hsec : header_at d' sec = h) (Hmap : content d' (map_hdr d) = words_bytes (BitMap.map b)).
Notation t' := (<[i := new_entry nm e sec]> (table_at d)).
Context (Hdir : content d' (dir_hdr d) = table_bytes t').

Lemma create_fresh s : s ∈ sec :: blocks h → s ∉ owned d (table_at d).
Proof using Hd Hfree. intros Hs. apply (free_not_owned d Hd). rewrite Forall_forall in Hfree. by apply Hfree. Qed.

Lemma create_fixed : (FreeMapSector ∉ sec :: system_blocks d) ∧ (DirectorySector ∉ sec :: system_blocks d).
Proof using Hd Hfree.
  destruct (system_fixed d Hd) as [H0 H1]. pose proof (create_fresh sec (list_elem_of_here _ _)) as Hs.
  clear - H0 H1 Hs. unfold owned, system_sectors in Hs. set_solver.
Qed.

Lemma create_system : system_ok d' ∧ system_sectors d' = system_sectors d ∧ table_at d' = t' ∧ map_at d' = b.
Proof using Hd Hfree Hsame Hd' Hmap Hdir Hb Hi Hnm.
  destruct (table_at_ok d (fo_system d Hd)) as [Hok Hlen]. destruct create_fixed, Hb as (? & ? & _).
  apply (system_update _ d d' Hsame t' b); try done; [apply Hd | | by rewrite length_insert].
  apply Forall_insert; [done |]. apply new_entry_ok; [by eapply Forall_lookup_1 | | done].
  apply Forall_cons in Hfree as [[Hr _] _]. unfold int_range. cbn [numBits map_at] in Hr.
  change NumSectors with 1024 in Hr. lia.
Qed.

Lemma create_frame : file_sectors d' (live (table_at d)) = file_sectors d (live (table_at d)) ∧
  file_of d' <$> live (table_at d) = file_of d <$> live (table_at d) ∧
  Forall (λ e, header_wf (header_at d' (sector e))) (live (table_at d)).
Proof using Hd Hfree Hsame.
  destruct (files_frame _ d d' Hsame (live (table_at d)) (on_disk_files d Hd)) as (? & ? & H).
  - intros s Hs [-> | Hin]%elem_of_cons; [| by apply (files_apart d Hd s)].
    apply (create_fresh sec (list_elem_of_here _ _)). apply elem_of_app. by right.
  - split_and!; [done | done |]. apply H, Hd.
Qed.

Lemma create_live : live t' ≡ₚ new_entry nm e sec :: live (table_at d).
Proof using Hi He. pose proof (live_insert _ i e (new_entry nm e sec) Hi) as H. by rewrite He in H. Qed.

Lemma create_owned : owned d' t' ≡ₚ (sec :: blocks h) ++ owned d (table_at d).
Proof using Hd Hi He Hnm Hfree Hb Hd' Hsame Hsec Hmap Hdir.
  destruct create_system as (_ & Hss & _ & _), create_frame as (Hf & _). unfold owned, file_sectors. rewrite Hss.
  rewrite create_live. rewrite bind_cons.
  fold (file_sectors d' (live (table_at d))). rewrite Hf.
  change (sectors_of d' (new_entry nm e sec)) with (sec :: blocks (header_at d' sec)). rewrite Hsec.
  by rewrite Permutation_app_swap_app.
Qed.

Lemma create_names : NoDup (names t').
Proof using Hd Hi He Hnew.
  unfold names. rewrite create_live. simpl. constructor; [| apply Hd].
  change (key (name (new_entry nm e sec)) ∉ names (table_at d)). by rewrite new_entry_key.
Qed.

Lemma create_ok : fs_ok d'.
Proof using All.
  destruct create_system as (Hs & _ & Ht & Hm), create_frame as (_ & _ & Hhs).
  split; rewrite ?Ht; [done | | | | | apply create_names].
  - rewrite create_live. constructor; [| done]. cbn [sector new_entry]. by rewrite Hsec.
  - rewrite create_owned. apply NoDup_app. split_and!; [done | apply create_fresh | apply Hd].
  - rewrite create_owned. apply Forall_app. split; [| apply Hd]. apply (Forall_impl _ _ _ Hfree). by intros x [Hx _].
  - intros s Hon. rewrite Hm. destruct Hb as (_ & _ & Hbits). rewrite Hbits by exact Hon.
    rewrite (fo_bits d Hd) by done. rewrite <- bool_decide_or. apply bool_decide_ext.
    rewrite create_owned, elem_of_app. tauto.
Qed.

Lemma create_files : files d' = <[key nm := content d' h]> (files d).
Proof using All.
  destruct create_system as (_ & _ & Ht & _), create_frame as (_ & Hf & _). unfold files. rewrite Ht, <- Hf.
  destruct (files_cons d' _ _ _ create_live) as [E _]; [exact create_names |]. rewrite E.
  cbn [sector new_entry]. rewrite Hsec. by rewrite new_entry_key.
Qed.

Lemma create_opened nm' f : opened d nm' f → opened d' nm' f.
Proof using Hd Hi He Hnm Hfree Hb Hd' Hsame Hmap Hdir.
  destruct create_system as (_ & _ & Ht & _). intros (e' & Hin & Hk & Hf). exists e'. rewrite Ht, create_live.
  split_and!; [by apply list_elem_of_further | done |]. rewrite Hf. symmetry.
  pose proof (on_disk_files d Hd) as Hon. rewrite Forall_forall in Hon.
  assert (sector e' ∈ file_sectors d (live (table_at d))) as Hs
    by (apply (sectors_in d e'); [done | apply list_elem_of_here]).
  apply (header_frame _ d d' Hsame); [by apply Hon |].
  intros [Heq | Hin']%elem_of_cons; [| by apply (files_apart d Hd (sector e'))].
  apply (create_fresh sec (list_elem_of_here _ _)). apply elem_of_app. right. by rewrite <- Heq.
Qed.
End create.

(** ** A file less *)

Section remove.
Context (d d' : Sectors) (Hd : fs_ok d) (i : nat) (e : DirectoryEntry) (b : BitMap).
Context (Hi : table_at d !! i = Some e) (He : inUse e = true).
Context (Hb : gives (map_at d) (sectors_of d e) b).
Context (Hd' : disk_wf d') (Hsame : same_except (system_blocks d) d d').
Context (Hmap : content d' (map_hdr d) = words_bytes (BitMap.map b)).
Notation t' := (<[i := set_inUse false e]> (table_at d)).
Context (Hdir : content d' (dir_hdr d) = table_bytes t').

Lemma remove_live : live (table_at d) ≡ₚ e :: live t'.
Proof using Hi He. pose proof (live_insert _ i e (set_inUse false e) Hi) as H. by rewrite He in H. Qed.

Lemma remove_system : system_ok d' ∧ system_sectors d' = system_sectors d ∧ table_at d' = t' ∧ map_at d' = b.
Proof using Hd Hsame Hd' Hmap Hdir Hb Hi.
  destruct (table_at_ok d (fo_system d Hd)) as [Hok Hlen]. destruct (system_fixed d Hd), Hb as (? & ? & _).
  apply (system_update _ d d' Hsame t' b); try done; [apply Hd | | by rewrite length_insert].
  apply Forall_insert; [done |]. apply set_inUse_ok. by eapply Forall_lookup_1.
Qed.

Lemma remove_frame es : (∀ x, x ∈ es → x ∈ live (table_at d)) → file_sectors d' es = file_sectors d es ∧
  file_of d' <$> es = file_of d <$> es ∧ Forall (λ e, header_wf (header_at d' (sector e))) es.
Proof using Hd Hsame.
  intros Hsub. assert (∀ s, s ∈ file_sectors d es → s ∈ file_sectors d (live (table_at d))) as Hin.
  { intros s (x & Hs & Hx)%list_elem_of_bind. apply (sectors_in d x); [by apply Hsub | done]. }
  pose proof (on_disk_files d Hd) as Hon. pose proof (fo_headers d Hd) as Hhs. rewrite Forall_forall in Hon. rewrite Forall_forall in Hhs.
  destruct (files_frame _ d d' Hsame es) as (? & ? & H).
  - apply Forall_forall. intros s Hs. by apply Hon, Hin.
  - intros s Hs. by apply (files_apart d Hd), Hin.
  - split_and!; [done | done |]. apply H, Forall_forall. intros x Hx. by apply Hhs, Hsub.
Qed.

Lemma remove_sub x : x ∈ live t' → x ∈ live (table_at d).
Proof using Hi He. intros Hx. rewrite remove_live. by apply list_elem_of_further. Qed.

Lemma remove_owned : owned d (table_at d) ≡ₚ sectors_of d e ++ owned d' t'.
Proof using Hd Hi He Hb Hd' Hsame Hmap Hdir.
  destruct remove_system as (_ & Hss & _ & _), (remove_frame (live t') remove_sub) as (Hf & _). unfold owned.
  rewrite Hss, Hf. unfold file_sectors. rewrite remove_live at 1. rewrite bind_cons. apply Permutation_app_swap_app.
Qed.

Lemma remove_names : names (table_at d) ≡ₚ key (name e) :: names t'.
Proof using Hi He. unfold names. by rewrite remove_live. Qed.

Lemma remove_ok : fs_ok d'.
Proof using All.
  destruct remove_system as (Hs & _ & Ht & Hm), (remove_frame (live t') remove_sub) as (_ & _ & Hhs).
  pose proof (fo_nodup d Hd) as Hnd. rewrite remove_owned in Hnd. apply NoDup_app in Hnd as (_ & Hapart & Hnd).
  pose proof (fo_on_disk d Hd) as Hon. rewrite remove_owned in Hon. apply Forall_app in Hon as [_ Hon].
  pose proof (fo_names d Hd) as Hnames. rewrite remove_names in Hnames. apply NoDup_cons in Hnames as [_ Hnames].
  split; rewrite ?Ht; try done.
  intros s Hs'. rewrite Hm. destruct Hb as (_ & _ & Hbits). rewrite Hbits by exact Hs'.
  rewrite (fo_bits d Hd) by done. specialize (Hapart s). rewrite <- bool_decide_not, <- bool_decide_and.
  apply bool_decide_ext. rewrite remove_owned, elem_of_app. tauto.
Qed.

Lemma removed_files : files d' = delete (key (name e)) (files d).
Proof using All.
  destruct remove_system as (_ & _ & Ht & _), (remove_frame (live t') remove_sub) as (_ & Hf & _).
  destruct (files_cons d _ _ _ remove_live) as [E Hn]; [apply Hd |]. unfold files. rewrite E, Ht, Hf.
  by rewrite delete_insert_id.
Qed.

Lemma remove_opened nm f : key nm ≠ key (name e) → opened d nm f → opened d' nm f.
Proof using All.
  destruct remove_system as (_ & _ & Ht & _). intros Hne (e' & Hin & Hk & Hf). exists e'. rewrite Ht.
  assert (e' ∈ live t') as Hin'.
  { pose proof Hin as H. rewrite remove_live in H. apply elem_of_cons in H as [-> |]; [congruence | done]. }
  split_and!; [done | done |]. rewrite Hf. symmetry.
  pose proof (on_disk_files d Hd) as Hon. rewrite Forall_forall in Hon.
  assert (sector e' ∈ file_sectors d (live (table_at d))) as Hs
    by (apply (sectors_in d e'); [done | apply list_elem_of_here]).
  apply (header_frame _ d d' Hsame); [by apply Hon | by apply (files_apart d Hd)].
Qed.
End remove.

(** ** New contents *)

Section write.
Context (d d' : Sectors) (Hd : fs_ok d) (e : DirectoryEntry) (He : e ∈ live (table_at d)).
Context (Hd' : disk_wf d') (Hsame : same_except (blocks (header_at d (sector e))) d d').

(** The sectors of the others. *)
Lemma write_apart : ∃ es, live (table_at d) ≡ₚ e :: es ∧
  ∀ s, s ∈ sector e :: system_sectors d ++ file_sectors d es → on_disk s ∧ s ∉ blocks (header_at d (sector e)).
Proof using Hd He.
  destruct (proj1 (elem_of_Permutation _ _) He) as [es Hp]. exists es. split; [done |].
  pose proof (fo_nodup d Hd) as Hnd. pose proof (fo_on_disk d Hd) as Hon. unfold owned, file_sectors in Hnd, Hon.
  rewrite Hp, bind_cons, Permutation_app_swap_app in Hnd, Hon.
  apply NoDup_app in Hnd as (Hnd & Hx & _). apply NoDup_cons in Hnd as [Hnd _]. rewrite Forall_forall in Hon.
  intros s [-> | Hs]%elem_of_cons.
  - split; [| done]. apply Hon, elem_of_app. left. apply list_elem_of_here.
  - split; [apply Hon, elem_of_app; by right |]. intros Hin. apply (Hx s); [by apply list_elem_of_further | done].
Qed.

Lemma write_system : system_sectors d' = system_sectors d ∧ fs_of d' = fs_of d ∧ table_at d' = table_at d ∧ map_at d' = map_at d ∧ system_ok d'.
Proof using Hd He Hd' Hsame.
  destruct write_apart as (es & Hp & Hx). pose proof (fo_system d Hd) as [_ Hm Hms Hr Hrs].
  assert (∀ s, s ∈ system_sectors d → on_disk s ∧ s ∉ blocks (header_at d (sector e))) as Hs.
  { intros s Hin. apply Hx, list_elem_of_further, elem_of_app. by left. }
  assert (map_hdr d' = map_hdr d) as E0 by (apply (header_frame _ d d' Hsame); apply Hs, list_elem_of_here).
  assert (dir_hdr d' = dir_hdr d) as E1
    by (apply (header_frame _ d d' Hsame); apply Hs, list_elem_of_further, list_elem_of_here).
  unfold system_sectors, fs_of, file_at, table_at, map_at. rewrite E0, E1.
  rewrite !(content_frame _ d d' Hsame).
  - split_and!; try done. split; rewrite ?E0, ?E1; done.
  - apply Hm.
  - intros s Hin. apply Hs. do 2 apply list_elem_of_further. apply elem_of_app. by left.
  - apply Hr.
  - intros s Hin. apply Hs. do 2 apply list_elem_of_further. apply elem_of_app. by right.
Qed.

Lemma write_entry : header_at d' (sector e) = header_at d (sector e).
Proof using Hd He Hsame.
  destruct write_apart as (es & _ & Hx). apply (header_frame _ d d' Hsame); apply Hx, list_elem_of_here.
Qed.

Lemma write_others : ∃ es, live (table_at d) ≡ₚ e :: es ∧ file_sectors d' es = file_sectors d es ∧
  file_of d' <$> es = file_of d <$> es ∧ Forall (λ e, header_wf (header_at d' (sector e))) es.
Proof using Hd He Hsame.
  destruct write_apart as (es & Hp & Hx). exists es. split; [done |].
  assert (∀ s, s ∈ file_sectors d es → on_disk s ∧ s ∉ blocks (header_at d (sector e))) as Hs.
  { intros s Hin. apply Hx, list_elem_of_further, elem_of_app. by right. }
  destruct (files_frame _ d d' Hsame es) as (? & ? & H).
  - apply Forall_forall. intros s Hin. by apply Hs.
  - intros s Hin. by apply Hs.
  - split_and!; [done | done |]. apply H. pose proof (fo_headers d Hd) as Hh. rewrite Hp in Hh. by apply Forall_cons in Hh as [_ ?].
Qed.

Lemma write_owned : owned d' (table_at d) ≡ₚ owned d (table_at d).
Proof using Hd He Hd' Hsame.
  destruct write_others as (es & Hp & Hf & _), write_system as (Hss & _).
  unfold owned. rewrite Hss. unfold file_sectors. rewrite Hp, !bind_cons.
  fold (file_sectors d' es). rewrite Hf. unfold sectors_of. by rewrite write_entry.
Qed.

Lemma write_ok : fs_ok d'.
Proof using All.
  destruct write_system as (_ & _ & Ht & Hm & Hs), write_others as (es & Hp & _ & _ & Hhs).
  pose proof (fo_headers d Hd) as Hh. rewrite Hp in Hh. apply Forall_cons in Hh as [Hhe _].
  split; rewrite ?Ht; rewrite ?write_owned; try apply Hd; [done | |].
  - rewrite Hp. constructor; [by rewrite write_entry | done].
  - intros s Hon. rewrite Hm, (fo_bits d Hd) by done. apply bool_decide_ext. by rewrite write_owned.
Qed.

Lemma write_files : files d' = <[key (name e) := content d' (header_at d (sector e))]> (files d).
Proof using All.
  destruct write_system as (_ & _ & Ht & _ & _), write_others as (es & Hp & _ & Hf & _).
  destruct (files_cons d' _ _ _ Hp (fo_names d Hd)) as [E' _], (files_cons d _ _ _ Hp (fo_names d Hd)) as [E _].
  unfold files. rewrite Ht, E', E, Hf, write_entry. by rewrite insert_insert_eq.
Qed.

Lemma write_opened nm f : opened d nm f → opened d' nm f.
Proof using All.
  destruct write_system as (_ & _ & Ht & _ & _), write_apart as (es & Hp & Hx).
  intros (e' & Hin & Hk & Hf). exists e'. rewrite Ht. split_and!; [done | done |]. rewrite Hf. symmetry.
  assert (e' = e ∨ e' ∈ es) as [-> | Hes] by (pose proof Hin as H; rewrite Hp in H; by apply elem_of_cons in H).
  - apply write_entry.
  - apply (header_frame _ d d' Hsame); apply Hx, list_elem_of_further, elem_of_app; right;
      apply list_elem_of_bind; exists e'; (split; [apply list_elem_of_here | done]).
Qed.
End write.
