(* ===== verification/FsOps.v ===== *)
(** * The operations of the file system against the map of files *)

From stdpp Require Import base gmap list numbers list_numbers.
From Stdlib Require Import ZArith Lia.
From S2P Require Import Prelude BitMap Machine MachineFacts DiskProg DiskFiles FileSys DiskFacts DiskLayout.
From S2P Require Import DirFacts AllocFacts FsInv FsFacts FsUpdate.

(** The first step of a program that runs to a known result. *)
Lemma ends_run {A B} (p : prog A) (f : A → prog B) Q d a d' : run p d = Done (a, d') → ends (f a) Q d' →
  ends (p ≫= f) Q d.
Proof. intros Hp (b & d'' & Hf & HQ). exists b, d''. split; [| done]. by rewrite run_bind, Hp. Qed.

Lemma ends_seq {A B C} (p : prog A) (q : prog B) (r : prog C) P Q d : ends (p ;; q) P d →
  (∀ b d', P b d' → ends r Q d') → ends (p ;; q ;; r) Q d.
Proof.
  intros (b & d1 & Hpq & HP) Hr. destruct (Hr b d1 HP) as (c & d2 & Hrun & HQ). exists c, d2. split; [| done].
  rewrite run_bind in Hpq. rewrite run_bind. destruct (run p d) as [[a d'] |]; [| done]. by rewrite run_bind, Hpq.
Qed.

(** When the source creates a file. *)
Definition may_create (F : gmap (list Z) (list Z)) (nm : list Z) (initialSize : Z) : bool :=
  bool_decide (F !! key nm = None) && bool_decide (Z.of_nat (size F) < NumDirEntries) &&
  bool_decide (Z.of_nat (space F + cost initialSize) ≤ NumSectors).

Lemma same_except_app ss ss' d d' d'' : same_except ss d d' → same_except ss' d' d'' → same_except (ss ++ ss') d d''.
Proof.
  intros H H' s Hs [Hn Hn']%not_elem_of_app. rewrite (H' s Hs Hn'). by apply H.
Qed.

Lemma open_sector d s : disk_wf d → on_disk s → run (DiskFile_new s) d = Done (file_at d s, d).
Proof.
  intros Hd Hs. destruct (sector_at_ok d Hd s Hs) as [_ Hl].
  unfold DiskFile_new, FileHeader_FetchFrom, ReadSector. simpl. rewrite valid_sector_true by done.
  by rewrite (rd_Done d s _) by (done || (unfold on_disk in Hs; lia)).
Qed.

(** ** The two files of the system are written, in either order *)

Section system_files.
Context (fresh : Z → nat → list Z) (Hfresh : fresh_ok fresh) (fm fr : DiskFile).
Context (Hm : header_wf (hdr fm)) (Hms : numBytes (hdr fm) = FreeMapFileSize).
Context (Hr : header_wf (hdr fr)) (Hrs : numBytes (hdr fr) = DirectoryFileSize).
Context (Hx : ∀ s, s ∈ blocks (hdr fm) → s ∉ blocks (hdr fr)).

Lemma write_system_files d t b : disk_wf d → Forall entry_ok t → length t = Z.to_nat NumDirEntries → BitMap_wf b →
  numBits b = NumSectors →
  let Q := λ d', disk_wf d' ∧ same_except (blocks (hdr fm) ++ blocks (hdr fr)) d d' ∧
    content d' (hdr fm) = words_bytes (BitMap.map b) ∧ content d' (hdr fr) = table_bytes t in
  ends (Directory_WriteBack fresh fr (mkDirectory NumDirEntries t) ;; BitMap_WriteBack fresh fm b) (λ _ d', Q d') d ∧
  ends (BitMap_WriteBack fresh fm b ;; Directory_WriteBack fresh fr (mkDirectory NumDirEntries t)) (λ _ d', Q d') d.
Proof using All.
  intros Hd Ht Hlt Hb Hn. split; ends_step.
  - eapply ends_mono; [by apply (WriteDir fresh Hfresh d Hd fr Hr) |].
    cbv beta. intros _ d2 (Hd2 & Hs2 & Hc2).
    eapply ends_mono; [by apply (WriteMap fresh Hfresh d2 Hd2 fm Hm) |].
    cbv beta. intros _ d3 (Hd3 & Hs3 & Hc3). split_and!; [done | | done |].
    + apply (same_except_mono (blocks (hdr fr) ++ blocks (hdr fm))); [clear; set_solver |].
      by apply (same_except_app _ _ _ d2).
    + rewrite <- Hc2. apply (content_frame _ d2 d3 Hs3); [apply Hr |]. intros s Hs Hs'. by apply (Hx s).
  - eapply ends_mono; [by apply (WriteMap fresh Hfresh d Hd fm Hm) |].
    cbv beta. intros _ d2 (Hd2 & Hs2 & Hc2).
    eapply ends_mono; [by apply (WriteDir fresh Hfresh d2 Hd2 fr Hr) |].
    cbv beta. intros _ d3 (Hd3 & Hs3 & Hc3). split_and!; [done | | | done].
    + by apply (same_except_app _ _ _ d2).
    + rewrite <- Hc2. apply (content_frame _ d2 d3 Hs3); [apply Hm | done].
Qed.
End system_files.

Section ops.
Context (fresh : Z → nat → list Z) (Hfresh : fresh_ok fresh) (d : Sectors) (Hd : fs_ok d).
Notation fs := (fs_of d).

Lemma fetch_dir site : run (Directory_FetchFrom (directoryFile fs) (Directory_new fresh site NumDirEntries)) d =
  Done (mkDirectory NumDirEntries (table_at d), d).
Proof using Hd Hfresh. destruct (fo_system d Hd). by rewrite (FetchDir fresh Hfresh d so_disk (directoryFile fs) so_dir). Qed.

Lemma fetch_map b : BitMap_wf b → numBits b = NumSectors → run (BitMap_FetchFrom (freeMapFile fs) b) d = Done (map_at d, d).
Proof using Hd. intros Hb Hn. destruct (fo_system d Hd). by rewrite (FetchMap d so_disk (freeMapFile fs) so_map b Hb Hn). Qed.

Lemma write_both d1 t b : disk_wf d1 → Forall entry_ok t → length t = Z.to_nat NumDirEntries → BitMap_wf b →
  numBits b = NumSectors →
  let Q := λ d', disk_wf d' ∧ same_except (system_blocks d) d1 d' ∧ content d' (map_hdr d) = words_bytes (BitMap.map b) ∧
    content d' (dir_hdr d) = table_bytes t in
  ends (Directory_WriteBack fresh (directoryFile fs) (mkDirectory NumDirEntries t) ;;
        BitMap_WriteBack fresh (freeMapFile fs) b) (λ _ d', Q d') d1 ∧
  ends (BitMap_WriteBack fresh (freeMapFile fs) b ;;
        Directory_WriteBack fresh (directoryFile fs) (mkDirectory NumDirEntries t)) (λ _ d', Q d') d1.
Proof using Hd Hfresh.
  destruct (fo_system d Hd) as [_ Hm Hms Hr Hrs].
  by apply (write_system_files fresh Hfresh (freeMapFile fs) (directoryFile fs) Hm Hms Hr Hrs (maps_apart d Hd)).
Qed.

(** ** Create *)

Lemma not_may_create nm size :
  files d !! key nm ≠ None ∨ (length (free (map_at d)) < cost size)%nat ∨ length (live (table_at d)) = length (table_at d) →
  may_create (files d) nm size = false.
Proof using Hd.
  pose proof (free_count d Hd). destruct (table_at_ok d (fo_system d Hd)) as [_ Hl].
  change (Z.to_nat NumSectors) with 1024%nat in *. change (Z.to_nat NumDirEntries) with 10%nat in *.
  unfold may_create. rewrite <- (live_count d Hd). intros [Hn | [Hs | Hf]].
  - by rewrite bool_decide_false.
  - rewrite (bool_decide_false (_ ≤ _)); [by rewrite andb_false_r |]. change NumSectors with 1024. lia.
  - rewrite (bool_decide_false (_ < _)); [by rewrite andb_false_r |]. change NumDirEntries with 10. lia.
Qed.

Lemma may_create_true nm size : key nm ∉ names (table_at d) →
  (cost size ≤ length (free (map_at d)))%nat → (length (live (table_at d)) < length (table_at d))%nat →
  may_create (files d) nm size = true.
Proof using Hd.
  intros Hn Hs Hl. pose proof (free_count d Hd). destruct (table_at_ok d (fo_system d Hd)) as [_ Hl'].
  change (Z.to_nat NumSectors) with 1024%nat in *. change (Z.to_nat NumDirEntries) with 10%nat in *.
  unfold may_create. rewrite <- (live_count d Hd). rewrite !bool_decide_true; [done | | | by apply files_lookup_None].
  - change NumSectors with 1024. lia.
  - change NumDirEntries with 10. lia.
Qed.

(** What a successful [Create] promises. *)
Definition created (nm : list Z) (size : Z) (d' : Sectors) : Prop :=
  fs_ok d' ∧ fs_of d' = fs ∧ (∀ nm' f, opened d nm' f → opened d' nm' f) ∧
  ∃ c, Z.of_nat (length c) = size ∧ files d' = <[key nm := c]> (files d).

(** The header, the directory and the map are written. *)
Lemma create_commit nm i e sec h b : table_at d !! i = Some e → inUse e = false → Forall byte nm →
  key nm ∉ names (table_at d) → Forall (free_in (map_at d)) (sec :: blocks h) → NoDup (sec :: blocks h) →
  header_ints h → header_wf h → takes (map_at d) (sec :: blocks h) b →
  ends (FileHeader_WriteBack h sec ;;
        Directory_WriteBack fresh (directoryFile fs) (mkDirectory NumDirEntries (<[i := new_entry nm e sec]> (table_at d))) ;;
        BitMap_WriteBack fresh (freeMapFile fs) b ;;
        mret true) (λ r d', r = true ∧ created nm (numBytes h) d') d.
Proof using Hd Hfresh.
  intros Hi Hu Hnm Hn Hfree Hnd Hints Hh Htk. pose proof (fo_system d Hd) as Hsys.
  destruct (table_at_ok d Hsys) as [Hok Hlt]. pose proof (Forall_inv Hfree) as Hsec.
  assert (on_disk sec) as Hson by apply Hsec.
  ends_step. apply ends_WriteSector; [apply Hsys | done | by apply header_bytes_sector |]. set (d1 := <[Z.to_nat sec := header_bytes h]> d).
  assert (disk_wf d1) as Hd1 by (apply disk_wf_insert; [apply Hsys | by apply header_bytes_sector]).
  assert (same_except [sec] d d1) as Hs1 by (apply same_except_insert; [done | apply list_elem_of_here]).
  eapply ends_seq; [eapply write_both; [exact Hd1 | | by rewrite length_insert | apply Htk | apply Htk] |].
  { apply Forall_insert; [done |]. apply new_entry_ok; [by eapply Forall_lookup_1 | | done].
    unfold on_disk in Hson. change NumSectors with 1024 in Hson. unfold int_range. lia. }
  cbv beta zeta. intros _ d' (Hd' & Hs' & Hcm & Hcd). apply ends_ret. split; [done |].
  assert (same_except (sec :: system_blocks d) d d') as Hsame by exact (same_except_app [sec] _ d d1 d' Hs1 Hs').
  assert (header_at d' sec = h) as Hsec'.
  { rewrite (header_frame _ d1 d' Hs' sec Hson).
    - unfold header_at, sector_at, d1. rewrite list_lookup_insert_eq; [by apply header_roundtrip |].
      pose proof (dw_length d (so_disk d Hsys)). unfold on_disk in Hson. lia.
    - intros Hin. apply (free_not_owned d Hd sec Hsec), elem_of_app. left.
      by apply list_elem_of_further, list_elem_of_further. }
  unfold created. split_and!.
  - by apply (create_ok d d' Hd nm i e sec h b).
  - apply (fs_of_same d d' _ Hsame); by apply (create_fixed d Hd sec h).
  - intros nm' f. by apply (create_opened d d' Hd nm i e sec h b).
  - exists (content d' h). split; [| by apply (create_files d d' Hd nm i e sec h b)].
    rewrite <- Hsec'. rewrite length_content_at by (rewrite ?Hsec'; done). by rewrite Hsec'.
Qed.

(** The sectors taken by [Find] and by [Allocate]. *)
Lemma take_all b1 sec h b2 : 0 ≤ sec < NumSectors → bit (map_at d) sec = false → bit_update (map_at d) sec true b1 →
  header_wf h → Forall (free_in b1) (blocks h) → takes b1 (blocks h) b2 →
  Forall (free_in (map_at d)) (sec :: blocks h) ∧ NoDup (sec :: blocks h) ∧ takes (map_at d) (sec :: blocks h) b2.
Proof.
  intros Hsec Hfree Hup Hh Hblk Htk. pose proof (takes_cons _ _ _ _ _ Hup Htk) as Htakes.
  destruct Hup as (_ & Hn1 & Hbits). rewrite Forall_forall in Hblk.
  assert (∀ s, s ∈ blocks h → s ≠ sec ∧ free_in (map_at d) s) as Hin.
  { intros s Hs. destruct (Hblk s Hs) as [Hr Hbs]. rewrite Hn1 in Hr. rewrite Hbits in Hbs by done.
    case_decide; [done |]. by split. }
  split_and!; [| | done].
  - constructor; [done |]. apply Forall_forall. intros s Hs. by apply Hin.
  - constructor; [| apply Hh]. intros Hs. by destruct (Hin sec Hs).
Qed.

(** The part of [Create] from [Allocate] on. *)
Definition create_rest (t : list DirectoryEntry) (sec size : Z) (b : BitMap) : prog bool :=
  '(r, freeMap) ← on b (FileHeader_Allocate (new_header fresh 7) size);
  if negb r.1 then mret false
  else
    FileHeader_WriteBack r.2 sec ;;
    Directory_WriteBack fresh (directoryFile fs) (mkDirectory NumDirEntries t) ;;
    BitMap_WriteBack fresh (freeMapFile fs) freeMap ;;
    mret true.

(** [Create] has found a sector for the header and an entry of the directory. *)
Record create_ready (nm : list Z) (sec : Z) (b : BitMap) (i : nat) (e : DirectoryEntry) : Prop := {
  cr_new : key nm ∉ names (table_at d);
  cr_sector : 0 ≤ sec < NumSectors;
  cr_free : bit (map_at d) sec = false;
  cr_map : bit_update (map_at d) sec true b;
  cr_count : length (free (map_at d)) = S (length (free b));
  cr_entry : table_at d !! i = Some e;
  cr_unused : inUse e = false
}.

Lemma ready_may_create nm sec b i e size : create_ready nm sec b i e → 0 ≤ size →
  may_create (files d) nm size = bool_decide (divRoundUp size SectorSize ≤ Z.of_nat (length (free b))).
Proof using Hd.
  intros [Hn _ _ _ Hcount Hi Hu] Hsize. destruct (divRoundUp_spec size SectorSize) as [Hlo Hhi]; [lia | done |].
  case_bool_decide as Hspace.
  - apply may_create_true; [done | unfold cost; lia |].
    pose proof (live_insert _ i e (new_entry nm e sec) Hi) as Hp. rewrite Hu in Hp. apply Permutation_length in Hp.
    pose proof (length_live (<[i := new_entry nm e sec]> (table_at d))). rewrite length_insert in *. simpl in Hp. lia.
  - apply not_may_create. right; left. unfold cost. unfold SectorSize in *. lia.
Qed.

(** [Create] up to [Allocate]: it refuses, whatever the size, or is ready. *)
Lemma Create_until_allocate nm size : Forall byte nm → 0 ≤ size →
  (run (FS_Create fresh fs nm size) d = Done (false, d) ∧ may_create (files d) nm size = false) ∨
  ∃ sec b i e, create_ready nm sec b i e ∧
    run (FS_Create fresh fs nm size) d = run (create_rest (<[i := new_entry nm e sec]> (table_at d)) sec size b) d.
Proof using Hd Hfresh.
  intros Hnm Hsize. pose proof (fo_system d Hd) as Hsys. pose proof (map_at_wf d Hsys) as Hmwf.
  destruct (table_at_ok d Hsys) as [Hok Hlt].
  remember (run (FS_Create fresh fs nm size) d) as x eqn:Ex. unfold FS_Create in Ex. rewrite run_bind, fetch_dir, run_bind in Ex.
  destruct (Find_dir_spec NumDirEntries (table_at d) nm) as [[Ef Hn] | (e & Ef & He & Hk)]; rewrite Ef in Ex; cbn [pure run] in Ex.
  2:{ left. pose proof (fo_on_disk d Hd) as Hon. rewrite Forall_forall in Hon.
    assert (on_disk (sector e)) as Hse.
    { apply Hon, elem_of_app. right. apply (sectors_in d e); [done | apply list_elem_of_here]. }
    rewrite decide_True in Ex by (unfold on_disk in Hse; lia). split; [done |].
    apply not_may_create. left. rewrite <- Hk, (files_lookup_Some d Hd) by done. done. }
  rewrite decide_False, run_bind in Ex by lia.
  destruct (new_map_spec fresh Hfresh 6) as (b0 & Eb0 & Hb0 & Hn0 & _). rewrite Eb0 in Ex. cbn [pure run] in Ex.
  rewrite run_bind, fetch_map, run_bind in Ex by done. unfold on at 1 in Ex.
  destruct (Find_spec (map_at d) Hmwf) as (sec & b1 & EF & HF). rewrite EF in Ex. cbn [pure run] in Ex.
  destruct HF as [(-> & -> & Hall) | (Hsec & Hfree & _ & Hup)].
  { left. rewrite decide_True in Ex by done. split; [done |]. apply not_may_create. right; left.
    apply free_nil_iff in Hall. rewrite Hall. unfold cost. simpl. lia. }
  rewrite decide_False in Ex by lia. unfold Directory_Add in Ex.
  destruct (FindIndex_spec NumDirEntries (table_at d) nm) as [[Ei _] | (i & e & _ & Hi & Hu & Hk)].
  2:{ exfalso. apply Hn. unfold names. apply list_elem_of_fmap. exists e. split; [done |].
    apply elem_of_live. split; [done |]. by eapply list_elem_of_lookup_2. }
  rewrite Ei, decide_False in Ex by naive_solver. cbn [table tableSize] in Ex.
  pose proof (add_entry_spec (table_at d) nm sec) as Hadd. destruct (add_entry (table_at d) nm sec) as [t' |].
  2:{ left. split; [done |]. apply not_may_create. by right; right. }
  destruct Hadd as (i & e & Hi & Hu & ->). right. exists sec, b1, i, e. split; [| exact Ex].
  split; [exact Hn | exact Hsec | exact Hfree | exact Hup | pose proof (free_take _ _ _ Hmwf Hsec Hfree Hup); lia | exact Hi | exact Hu].
Qed.

Lemma Create_spec nm size : Forall byte nm → 0 ≤ size ≤ MaxFileSize →
  ends (FS_Create fresh fs nm size) (λ r d', r = may_create (files d) nm size ∧
    if r : bool then created nm size d' else d' = d) d.
Proof using Hd Hfresh.
  intros Hnm Hsize. destruct (Create_until_allocate nm size Hnm) as [[E Emay] | (sec & b1 & i & e & Hready & E)]; [lia | |].
  { exists false, d. by rewrite E. }
  unfold ends, wp. rewrite E, (ready_may_create nm sec b1 i e size Hready) by lia.
  destruct Hready as [Hn Hsec Hfree Hup Hcount Hi Hu]. destruct (bit_update_wf _ _ _ _ Hup) as [Hb1 Hn1].
  pose proof (map_at_wf d (fo_system d Hd)) as Hmwf. destruct (table_at_ok d (fo_system d Hd)) as [Hok Hlt].
  change (ends (create_rest (<[i := new_entry nm e sec]> (table_at d)) sec size b1) (λ r d',
    r = bool_decide (divRoundUp size SectorSize ≤ Z.of_nat (length (free b1))) ∧
    if r : bool then created nm size d' else d' = d) d).
  unfold create_rest. ends_step. apply ends_on.
  eapply wp_mono; [apply Allocate_spec; [done | exact Hn1 | apply header_of_ints | done] |].
  cbv beta. intros [r h] b2 Hall. cbn [Datatypes.fst Datatypes.snd] in Hall.
  case_decide as Hspace.
  { destruct Hall as [-> ->]. apply ends_ret. by rewrite bool_decide_false by lia. }
  destruct Hall as (-> & Hints & Hh & Hsz & Hblk & Htk). cbn [Datatypes.fst Datatypes.snd negb].
  rewrite bool_decide_true by lia. destruct (take_all b1 sec h b2 Hsec Hfree Hup Hh Hblk Htk) as (Hallfree & Hnd & Htakes).
  eapply ends_mono; [by apply (create_commit nm i e sec h b2) |].
  cbv beta. intros r d' [-> Hc]. split; [done |]. by rewrite <- Hsz.
Qed.

(** A size that does not fit the header: [Create] refuses when the sectors do
    not suffice, and leaves the array of the header when they do. *)
Lemma Create_too_large nm size : Forall byte nm → MaxFileSize < size →
  run (FS_Create fresh fs nm size) d = if may_create (files d) nm size then Fault OutOfBounds else Done (false, d).
Proof using Hd Hfresh.
  intros Hnm Hsize. change MaxFileSize with 3840 in Hsize.
  destruct (Create_until_allocate nm size Hnm) as [[E ->] | (sec & b1 & i & e & Hready & E)]; [lia | done |].
  rewrite E, (ready_may_create nm sec b1 i e size Hready) by lia.
  destruct Hready as [_ _ _ Hup _ _ _]. destruct (bit_update_wf _ _ _ _ Hup) as [Hb1 _].
  unfold create_rest. rewrite run_bind. unfold on. case_bool_decide as Hspace.
  - rewrite (Allocate_overflow (new_header fresh 7) size b1 Hb1 (header_of_ints _)) by (done || (change MaxFileSize with 3840; lia)). done.
  - unfold FileHeader_Allocate, mbind, M_bind. rewrite NumClear_run by done. by rewrite decide_True by lia.
Qed.

(** ** Open, Remove and List *)

Lemma live_sector e : e ∈ live (table_at d) → on_disk (sector e).
Proof using Hd.
  intros He. pose proof (on_disk_files d Hd) as Hon. rewrite Forall_forall in Hon. apply Hon.
  apply (sectors_in d e); [done | apply list_elem_of_here].
Qed.

Lemma Open_spec nm :
  (files d !! key nm = None ∧ run (FS_Open fresh fs nm) d = Done (None, d)) ∨
  ∃ f, opened d nm f ∧ seekPosition f = 0 ∧ run (FS_Open fresh fs nm) d = Done (Some f, d).
Proof using Hd Hfresh.
  unfold FS_Open. rewrite run_bind, fetch_dir.
  destruct (Find_dir_spec NumDirEntries (table_at d) nm) as [[-> Hn] | (e & -> & He & Hk)].
  - left. split; [by apply files_lookup_None |]. done.
  - right. exists (file_at d (sector e)). pose proof (live_sector e He) as Hs. split_and!; [by exists e | done |].
    rewrite run_bind. cbn [pure run]. rewrite decide_True by (unfold on_disk in Hs; lia).
    by rewrite run_bind, (open_sector d) by (done || apply Hd).
Qed.

Lemma List_run : run (FS_List fresh fs) d = Done (name <$> live (table_at d), d).
Proof using Hd Hfresh. unfold FS_List. by rewrite run_bind, fetch_dir. Qed.

Definition removed (nm : list Z) (d' : Sectors) : Prop :=
  fs_ok d' ∧ fs_of d' = fs ∧ files d' = delete (key nm) (files d) ∧
  ∀ nm' f, key nm' ≠ key nm → opened d nm' f → opened d' nm' f.

(** The sectors of a file are marked in the free map. *)
Lemma sectors_marked e : e ∈ live (table_at d) → ∀ s, s ∈ sectors_of d e → 0 ≤ s < NumSectors ∧ bit (map_at d) s = true.
Proof using Hd.
  intros He s Hs. pose proof (sectors_in d e s He Hs) as Hin. pose proof (on_disk_files d Hd) as Hon.
  rewrite Forall_forall in Hon. split; [by apply Hon |]. rewrite (fo_bits d Hd) by (by apply Hon).
  apply bool_decide_eq_true. apply elem_of_app. by right.
Qed.

(** The whole file is given back. *)
Lemma release_spec e : e ∈ live (table_at d) →
  wp (FileHeader_Deallocate (header_at d (sector e)) ;; BitMap_Clear (sector e))
    (λ _ b, gives (map_at d) (sectors_of d e) b) (map_at d).
Proof using Hd.
  intros He. pose proof (fo_system d Hd) as Hsys. pose proof (map_at_wf d Hsys) as Hb.
  pose proof (fo_headers d Hd) as Hh. rewrite Forall_forall in Hh.
  pose proof (sectors_marked e He) as Hm. apply wp_bind.
  eapply wp_mono; [apply Deallocate_spec; [by apply Hh | done | done |] |].
  { intros s Hs. by apply Hm, list_elem_of_further. }
  cbv beta. intros _ b1 Hg. destruct (Hm (sector e)) as [Hr _]; [apply list_elem_of_here |].
  eapply wp_mono; [apply Clear_spec; [apply Hg | destruct Hg as (_ & -> & _); exact Hr] |].
  cbv beta. intros _ b2 Hup. destruct (gives_snoc _ _ _ _ _ Hg Hup) as (? & ? & Hbits). split_and!; [done | done |].
  intros j Hj. rewrite Hbits by done. do 2 f_equal. apply bool_decide_ext. unfold sectors_of.
  rewrite elem_of_app, !elem_of_cons. pose proof (not_elem_of_nil j). tauto.
Qed.

Lemma FsRemove_spec nm :
  ends (FS_Remove fresh fs nm) (λ r d', r = bool_decide (is_Some (files d !! key nm)) ∧
    if r : bool then removed nm d' else d' = d) d.
Proof using Hd Hfresh.
  pose proof (fo_system d Hd) as Hsys. destruct (table_at_ok d Hsys) as [Hok Hlt].
  unfold FS_Remove. eapply ends_run; [apply fetch_dir |]. ends_step. unfold Directory_Find, Directory_Remove.
  destruct (FindIndex_spec NumDirEntries (table_at d) nm) as [[Ei Hn] | (i & e & Ei & Hi & Hu & Hk)]; rewrite Ei.
  { rewrite decide_False by naive_solver. eapply ends_pure; [done |]. rewrite decide_True by done.
    apply ends_ret. apply files_lookup_None in Hn. rewrite Hn. split; [| done].
    rewrite bool_decide_false; [done |]. by intros []. }
  assert (e ∈ live (table_at d)) as He by (apply elem_of_live; split; [done | by eapply list_elem_of_lookup_2]).
  pose proof (live_sector e He) as Hs. cbn [table tableSize].
  rewrite decide_True by lia. rewrite (rd_Done _ _ e) by (rewrite ?Nat2Z.id; done || lia).
  eapply ends_pure; [done |]. rewrite decide_False by (unfold on_disk in Hs; lia).
  eapply ends_run; [| ends_step].
  { unfold FileHeader_FetchFrom. rewrite run_bind. unfold ReadSector. cbn [run]. rewrite valid_sector_true by done.
    destruct (sector_at_ok d (so_disk d Hsys) _ Hs) as [_ Hl].
    rewrite (rd_Done d _ _) by (done || (unfold on_disk in Hs; lia)). done. }
  destruct (new_map_spec fresh Hfresh 10) as (b0 & Eb0 & Hb0 & Hn0 & _). eapply ends_pure; [exact Eb0 |].
  eapply ends_run; [by apply fetch_map |]. ends_step. apply ends_on.
  eapply wp_mono; [by apply release_spec |]. cbv beta. intros [] b Hg. ends_step.
  eapply ends_pure; [rewrite decide_False by lia; rewrite wr_Done by (apply lookup_lt_Some in Hi; lia); done |].
  rewrite Nat2Z.id. cbn [Datatypes.snd].
  eapply ends_seq; [eapply write_both; [apply Hsys | | by rewrite length_insert | apply Hg | apply Hg] |].
  { apply Forall_insert; [done |]. apply set_inUse_ok. by eapply Forall_lookup_1. }
  cbv beta zeta. intros _ d' (Hd' & Hs' & Hcm & Hcd). apply ends_ret.
  split; [rewrite bool_decide_true; [done |]; rewrite <- Hk, (files_lookup_Some d Hd) by done; by eexists |].
  unfold removed. rewrite <- Hk. split_and!.
  - by apply (remove_ok d d' Hd i e b).
  - apply (fs_of_same d d' _ Hs'); apply (system_fixed d Hd).
  - by apply (removed_files d d' Hd i e b).
  - intros nm' f Hne. by apply (remove_opened d d' Hd i e b).
Qed.

(** ** Open files *)

Lemma opened_file nm f : opened d nm f → header_wf (hdr f) ∧ files d !! key nm = Some (content d (hdr f)).
Proof using Hd.
  intros (e & He & Hk & ->). pose proof (fo_headers d Hd) as Hh. rewrite Forall_forall in Hh.
  split; [by apply Hh |]. rewrite <- Hk. by apply files_lookup_Some.
Qed.

Lemma opened_read nm f n position c : opened d nm f → request n position → files d !! key nm = Some c →
  run (DiskFile_ReadAt f n position) d = Done (take (Z.to_nat n) (drop (Z.to_nat position) c), d).
Proof using Hd.
  intros Ho Hr Hc. destruct (opened_file nm f Ho) as [Hh E]. rewrite E in Hc. injection Hc as <-.
  apply DiskReadAt_run; [apply Hd | done | done].
Qed.

Lemma opened_write nm f from n position c : opened d nm f → request n position → files d !! key nm = Some c →
  Forall byte from → n ≤ Z.of_nat (length from) →
  ends (DiskFile_WriteAt fresh f from n position) (λ r d',
    r = Z.max 0 (Z.min n (Z.of_nat (length c) - position)) ∧ fs_ok d' ∧ fs_of d' = fs ∧
    files d' = <[key nm := splice c (Z.to_nat position) (take (Z.to_nat r) from)]> (files d) ∧
    ∀ nm' f', opened d nm' f' → opened d' nm' f') d.
Proof using Hd Hfresh.
  intros Ho Hr Hc Hb Hl. destruct (opened_file nm f Ho) as [Hh E]. rewrite E in Hc. injection Hc as <-.
  pose proof (so_disk d (fo_system d Hd)) as Hwf. destruct (hw_bytes _ Hh).
  eapply ends_mono; [by apply (WriteAt_spec fresh Hfresh d Hwf f Hh) |].
  cbv beta. intros r d' (-> & Hd' & Hsame & Hcont). destruct Ho as (e & He & Hk & Ef). rewrite Ef in *.
  rewrite (length_content_at d (sector e)) by done. split_and!; [done | | | |].
  - by apply (write_ok d d' Hd e).
  - by apply (write_system d d' Hd e).
  - rewrite <- Hk, (write_files d d' Hd e) by done. by rewrite Hcont.
  - intros nm' f'. by apply (write_opened d d' Hd e).
Qed.
End ops.
