(* ===== verification/FsFormat.v ===== *)
(** * Formatting a disk *)

From stdpp Require Import base gmap list numbers list_numbers.
From Stdlib Require Import ZArith Lia.
From S2P Require Import Prelude BitMap Machine MachineFacts DiskProg DiskFiles FileSys DiskFacts DiskLayout.
From S2P Require Import DirFacts AllocFacts FsInv FsFacts FsUpdate FsOps.

Lemma elem_of_free b s : s ∈ free b ↔ free_in b s.
Proof. unfold free, free_in. rewrite list_elem_of_filter, elem_of_seqZ. split; intros [? ?]; (split; [done || lia | done || lia]). Qed.

Lemma takes_free b ss b' : NoDup ss → Forall (free_in b) ss → takes b ss b' → free b ≡ₚ ss ++ free b'.
Proof.
  intros Hnd Hss (_ & Hn & Hbits). rewrite Forall_forall in Hss.
  apply NoDup_Permutation; [apply NoDup_filter, NoDup_seqZ | apply NoDup_app; split_and! |].
  - done.
  - intros s Hs [Hr Hb]%elem_of_free. rewrite Hn in Hr. rewrite Hbits, bool_decide_true, orb_true_r in Hb by done. done.
  - apply NoDup_filter, NoDup_seqZ.
  - intros s. rewrite elem_of_app, !elem_of_free. unfold free_in in *. rewrite Hn. split.
    + intros [Hr Hb]. destruct (decide (s ∈ ss)); [by left | right]. split; [done |].
      rewrite Hbits, Hb, bool_decide_false by done. done.
    + intros [Hs | [Hr Hb]]; [by apply Hss |]. split; [done |]. rewrite Hbits in Hb by done.
      by apply orb_false_iff in Hb as [? _].
Qed.

Lemma takes_app b b1 b2 ss ss' : takes b ss b1 → takes b1 ss' b2 → takes b (ss ++ ss') b2.
Proof.
  intros (_ & Hn & Hs) (Hwf & Hn' & Hs'). split_and!; [done | lia |]. intros j Hj.
  rewrite Hs', Hs, <- orb_assoc, <- bool_decide_or by lia. f_equal. apply bool_decide_ext. by rewrite elem_of_app.
Qed.

Lemma system_on_disk : on_disk FreeMapSector ∧ on_disk DirectorySector.
Proof. done. Qed.

(** A disk with the two files of the system and nothing else. *)
Lemma formatted d h1 h2 b t :
  disk_wf d → header_wf h1 → numBytes h1 = FreeMapFileSize → header_wf h2 → numBytes h2 = DirectoryFileSize →
  header_at d FreeMapSector = h1 → header_at d DirectorySector = h2 →
  content d h1 = words_bytes (BitMap.map b) → content d h2 = table_bytes t →
  Forall entry_ok t → length t = Z.to_nat NumDirEntries → live t = [] →
  BitMap_wf b → numBits b = NumSectors → NoDup (FreeMapSector :: DirectorySector :: blocks h1 ++ blocks h2) →
  (∀ s, on_disk s → bit b s = bool_decide (s ∈ FreeMapSector :: DirectorySector :: blocks h1 ++ blocks h2)) →
  fs_ok d ∧ files d = ∅.
Proof.
  intros Hd Hh1 Hs1 Hh2 Hs2 E1 E2 Hm Hr Ht Hlt Hlive Hb Hnb Hnd Hbits.
  assert (table_at d = t) as Et by (unfold table_at; rewrite E2, Hr, <- Hlt; by apply table_roundtrip).
  destruct (map_shape b Hb Hnb) as [Hw Hl].
  assert (map_at d = b) as Eb.
  { unfold map_at. rewrite E1, Hm, <- Hl, words_roundtrip by apply Hb. destruct b; simpl in *. by rewrite Hnb, Hw. }
  assert (owned d t = FreeMapSector :: DirectorySector :: blocks h1 ++ blocks h2) as Eo.
  { unfold owned, system_sectors. rewrite Hlive, E1, E2. apply app_nil_r. }
  split; [| unfold files; by rewrite Et, Hlive]. split; rewrite ?Et, ?Eo, ?Eb; try done.
  - split; rewrite ?E1, ?E2; done.
  - by rewrite Hlive.
  - do 2 (constructor; [done |]). apply Forall_app. split; [apply Hh1 | apply Hh2].
  - unfold names. rewrite Hlive. constructor.
Qed.

Section format.
Context (fresh : Z → nat → list Z) (Hfresh : fresh_ok fresh) (d : Sectors) (Hd : disk_wf d).

Lemma Directory_new_ok site : Forall entry_ok (table (Directory_new fresh site NumDirEntries)) ∧
  length (table (Directory_new fresh site NumDirEntries)) = Z.to_nat NumDirEntries ∧
  live (table (Directory_new fresh site NumDirEntries)) = [].
Proof using Hfresh.
  destruct (Hfresh site (Z.to_nat (NumDirEntries * sizeof_entry))) as [Hfl Hfb]. cbn [table Directory_new]. split_and!.
  - apply Forall_fmap. eapply Forall_impl; [apply table_of_ok; [exact Hfb | by rewrite Hfl] |].
    intros e He. by apply set_inUse_ok.
  - by rewrite length_fmap, length_table_of.
  - generalize (table_of (Z.to_nat NumDirEntries) (fresh site (Z.to_nat (NumDirEntries * sizeof_entry)))).
    intros l. induction l as [| e l IH]; [done |]. simpl. unfold live. by rewrite filter_cons_False.
Qed.

(** The sectors of the two headers, then those of the two files. *)
Lemma allocate_system b0 : BitMap_wf b0 → numBits b0 = NumSectors → (∀ i, 0 ≤ i < NumSectors → bit b0 i = false) →
  wp (BitMap_Mark FreeMapSector ;; BitMap_Mark DirectorySector)
    (λ _ b1, takes b0 [FreeMapSector; DirectorySector] b1 ∧ length (free b1) = 1022%nat) b0.
Proof.
  intros Hb0 Hn0 Hclear. apply wp_bind. eapply wp_mono; [apply Mark_spec; [done | rewrite Hn0; done] |].
  cbv beta. intros _ b Hup. pose proof (bit_update_wf _ _ _ _ Hup) as [Hb Hn].
  eapply wp_mono; [apply Mark_spec; [done | rewrite Hn, Hn0; done] |]. cbv beta. intros _ b1 Hup1.
  assert (takes b0 [FreeMapSector; DirectorySector] b1) as Htk.
  { apply (takes_cons _ b); [done |]. apply (takes_cons _ b1); [done |]. apply takes_nil. apply Hup1. }
  split; [done |]. assert (length (free b0) = 1024%nat) as Hfree.
  { unfold free. rewrite filter_all_true, Hn0; [apply length_seqZ |]. intros s Hs%elem_of_seqZ. apply Hclear. lia. }
  pose proof (Permutation_length (takes_free b0 [FreeMapSector; DirectorySector] b1
    ltac:(by apply (bool_decide_unpack _)) ltac:(repeat constructor; rewrite ?Hn0; try done; apply Hclear; done) Htk)) as Hlen.
  simpl in Hlen. lia.
Qed.

(** Both headers are allocated and the map knows it. *)
Lemma allocate_headers b1 : BitMap_wf b1 → numBits b1 = NumSectors → length (free b1) = 1022%nat →
  wp (FileHeader_Allocate (new_header fresh 3) FreeMapFileSize) (λ r b2, r.1 = true ∧ header_ints r.2 ∧ header_wf r.2 ∧
    numBytes r.2 = FreeMapFileSize ∧
    wp (FileHeader_Allocate (new_header fresh 4) DirectoryFileSize) (λ r' b3, r'.1 = true ∧ header_ints r'.2 ∧
      header_wf r'.2 ∧ numBytes r'.2 = DirectoryFileSize ∧ NoDup (blocks r.2 ++ blocks r'.2) ∧
      Forall (free_in b1) (blocks r.2 ++ blocks r'.2) ∧ takes b1 (blocks r.2 ++ blocks r'.2) b3) b2) b1.
Proof.
  intros Hb1 Hn1 Hf1.
  eapply wp_mono; [apply Allocate_spec; [done | done | apply header_of_ints | done] |].
  cbv beta. intros r b2. rewrite decide_False by (rewrite Hf1; done).
  intros (? & ? & Hh & Hs & Hfree & Htk). split_and!; try done.
  pose proof (Permutation_length (takes_free _ _ _ (hw_nodup _ Hh) Hfree Htk)) as Hlen.
  rewrite length_app, (length_blocks _ Hh), (hw_sectors _ Hh), Hs, Hf1 in Hlen.
  change (Z.to_nat (divRoundUp FreeMapFileSize SectorSize)) with 1%nat in Hlen.
  destruct Htk as (Hb2 & Hn2 & Hbits) eqn:E. clear E.
  eapply wp_mono; [apply Allocate_spec; [done | by rewrite Hn2 | apply header_of_ints | done] |].
  cbv beta. intros r' b3. rewrite decide_False by (change (divRoundUp DirectoryFileSize SectorSize) with 2; lia).
  intros (? & ? & Hh' & Hs' & Hfree' & Htk'). split_and!; try done.
  - apply NoDup_app. split_and!; [apply Hh | | apply Hh']. intros s Hs1 Hs2. rewrite Forall_forall in Hfree'.
    destruct (Hfree' s Hs2) as [Hr Hb]. rewrite Hn2 in Hr. rewrite Hbits, bool_decide_true, orb_true_r in Hb by done. done.
  - apply Forall_app. split; [done |]. apply (Forall_impl _ _ _ Hfree'). intros s [Hr Hb]. rewrite Hn2 in Hr.
    split; [done |]. rewrite Hbits in Hb by done. by apply orb_false_iff in Hb as [? _].
  - by apply (takes_app _ b2).
Qed.

Lemma write_headers h1 h2 : header_ints h1 → header_ints h2 →
  ends (FileHeader_WriteBack h1 FreeMapSector ;; FileHeader_WriteBack h2 DirectorySector) (λ _ d',
    disk_wf d' ∧ header_at d' FreeMapSector = h1 ∧ header_at d' DirectorySector = h2) d.
Proof using Hd.
  intros H1 H2. ends_step. apply ends_WriteSector; [done | done | by apply header_bytes_sector |].
  pose proof (disk_wf_insert d (Z.to_nat FreeMapSector) _ Hd (header_bytes_sector h1 H1)) as Hd1.
  apply ends_WriteSector; [done | done | by apply header_bytes_sector |].
  pose proof (disk_wf_insert _ (Z.to_nat DirectorySector) _ Hd1 (header_bytes_sector h2 H2)) as Hd2.
  split_and!; [done | |]; pose proof (dw_length _ Hd) as Hl; change NumSectors with 1024 in Hl;
    unfold header_at, sector_at; change (Z.to_nat FreeMapSector) with 0%nat; change (Z.to_nat DirectorySector) with 1%nat.
  - rewrite list_lookup_insert_ne, list_lookup_insert_eq by lia. by apply header_roundtrip.
  - rewrite list_lookup_insert_eq by (rewrite length_insert; lia). by apply header_roundtrip.
Qed.

Notation system h1 h2 := (FreeMapSector :: DirectorySector :: blocks h1 ++ blocks h2).

(** The empty directory and the map of the system's sectors are written. *)
Lemma format_commit d2 h1 h2 b : disk_wf d2 → header_at d2 FreeMapSector = h1 → header_at d2 DirectorySector = h2 →
  header_wf h1 → numBytes h1 = FreeMapFileSize → header_wf h2 → numBytes h2 = DirectoryFileSize →
  NoDup (system h1 h2) → BitMap_wf b → numBits b = NumSectors →
  (∀ s, on_disk s → bit b s = bool_decide (s ∈ system h1 h2)) →
  ends (BitMap_WriteBack fresh (file_at d2 FreeMapSector) b ;;
        Directory_WriteBack fresh (file_at d2 DirectorySector) (Directory_new fresh 2 NumDirEntries) ;;
        mret (fs_of d2)) (λ fs d', fs_ok d' ∧ fs = fs_of d' ∧ files d' = ∅) d2.
Proof using Hfresh.
  intros Hd2 E1 E2 Hh1 Hs1 Hh2 Hs2 Hnd Hb Hn Hbits. destruct (Directory_new_ok 2) as (Ht & Hlt & Hlive).
  apply (NoDup_app [FreeMapSector; DirectorySector]) in Hnd as Hnd'. destruct Hnd' as (_ & Hfix & Hnd').
  assert (∀ s, s ∈ blocks h1 → s ∉ blocks h2) as Hx by (apply NoDup_app in Hnd'; apply Hnd').
  eapply ends_seq.
  { eapply (write_system_files fresh Hfresh (file_at d2 FreeMapSector) (file_at d2 DirectorySector));
      cbn [hdr file_at]; rewrite ?E1, ?E2; try done; exact Ht. }
  cbn [hdr file_at]. rewrite E1, E2. cbv beta zeta. intros _ d' (Hd' & Hs' & Hcm & Hcd). apply ends_ret.
  assert (∀ s, on_disk s → s ∈ [FreeMapSector; DirectorySector] → header_at d' s = header_at d2 s) as Hhdr.
  { intros s Hon Hs. apply (header_frame _ d2 d' Hs'); [done | by apply Hfix]. }
  assert (header_at d' FreeMapSector = h1) as E1' by (rewrite Hhdr; [done | done | apply list_elem_of_here]).
  assert (header_at d' DirectorySector = h2) as E2'
    by (rewrite Hhdr; [done | done | apply list_elem_of_further, list_elem_of_here]).
  destruct (formatted d' h1 h2 b (table (Directory_new fresh 2 NumDirEntries))) as [Hok Hfiles]; try done.
  split_and!; [done | | done]. unfold fs_of, file_at. by rewrite E1', E2', E1, E2.
Qed.

(** The map after all allocations. *)
Lemma format_map b0 b1 b3 h1 h2 : numBits b0 = NumSectors → (∀ i, 0 ≤ i < NumSectors → bit b0 i = false) →
  takes b0 [FreeMapSector; DirectorySector] b1 → NoDup (blocks h1 ++ blocks h2) →
  Forall (free_in b1) (blocks h1 ++ blocks h2) → takes b1 (blocks h1 ++ blocks h2) b3 →
  NoDup (system h1 h2) ∧ (∀ s, on_disk s → bit b3 s = bool_decide (s ∈ system h1 h2)).
Proof.
  intros Hn0 Hclear Htk1 Hnd Hfree Htk3. destruct (takes_app _ _ _ _ _ Htk1 Htk3) as (_ & _ & Hbits). split.
  - rewrite Forall_forall in Hfree. destruct Htk1 as (_ & Hn1 & Hb1).
    apply (NoDup_app [FreeMapSector; DirectorySector]). split_and!; [by apply (bool_decide_unpack _) | | done].
    intros s Hs Hs'. destruct (Hfree s Hs') as [Hr Hb]. rewrite Hn1 in Hr. rewrite Hb1 in Hb by done.
    by rewrite bool_decide_true, orb_true_r in Hb.
  - intros s Hs. rewrite Hbits, Hclear by (rewrite ?Hn0; exact Hs). by rewrite orb_false_l.
Qed.

Lemma Format_spec : ends (FileSystem_format fresh) (λ fs d', fs_ok d' ∧ fs = fs_of d' ∧ files d' = ∅) d.
Proof using Hd Hfresh.
  unfold FileSystem_format. ends_step.
  destruct (new_map_spec fresh Hfresh 1) as (b0 & Eb0 & Hb0 & Hn0 & Hclear). eapply ends_pure; [exact Eb0 |].
  cbv zeta. ends_step. apply ends_on. eapply wp_mono; [by apply allocate_system |]. cbv beta.
  intros _ b1 [Htk1 Hf1]. ends_step. apply ends_on. eapply wp_mono.
  { apply (allocate_headers b1); [apply Htk1 | rewrite <- Hn0; apply Htk1 | done]. }
  cbv beta. intros [r h1] b2 (Hr & Hi1 & Hh1 & Hs1 & Hall). cbn [Datatypes.fst Datatypes.snd] in *. subst r.
  ends_step. apply ends_require; [done |].
  ends_step. apply ends_on. eapply wp_mono; [exact Hall |]. cbv beta. clear Hall.
  intros [r' h2] b3 (Hr & Hi2 & Hh2 & Hs2 & Hnd & Hfree & Htk3). cbn [Datatypes.fst Datatypes.snd] in *. subst r'.
  destruct (format_map b0 b1 b3 h1 h2 Hn0 Hclear Htk1 Hnd Hfree Htk3) as [Hnd' Hbits].
  ends_step. apply ends_require; [done |].
  eapply ends_seq; [by apply write_headers |]. cbv beta. intros _ d2 (Hd2 & E1 & E2).
  destruct system_on_disk as [Hon0 Hon1].
  eapply ends_run; [exact (open_sector d2 _ Hd2 Hon0) |]. eapply ends_run; [exact (open_sector d2 _ Hd2 Hon1) |].
  refine (format_commit d2 h1 h2 b3 Hd2 E1 E2 Hh1 Hs1 Hh2 Hs2 Hnd' _ _ Hbits); [apply Htk3 |].
  destruct Htk1 as (_ & Hn1 & _), Htk3 as (_ & Hn3 & _). by rewrite Hn3, Hn1.
Qed.
End format.
