(* ===== verification/FsClaims.v ===== *)
(** * What the disk file system promises

    The operations implement a finite map from names to contents, of at most
    [NumDirEntries] files within the space of the disk, whatever the memory they
    allocate held. *)

From stdpp Require Import base gmap list numbers list_numbers.
From Stdlib Require Import ZArith Lia.
From S2P Require Import Prelude BitMap Machine MachineFacts DiskProg DiskFiles FileSys DiskFacts DiskLayout.
From S2P Require Import DirFacts AllocFacts FsInv FsFacts FsUpdate FsOps FsFormat.

(** ** A formatted disk *)

(** The disk after a program. *)
Definition final {A} (p : prog A) (d : Sectors) : Sectors := match run p d with Done (_, d') => d' | Fault _ => d end.

Lemma ends_final {A} (p : prog A) Q d : ends p Q d → ∃ a, run p d = Done (a, final p d) ∧ Q a (final p d).
Proof. intros (a & d' & E & HQ). exists a. unfold final. by rewrite E. Qed.

Definition sample_fresh (site : Z) (n : nat) : list Z := replicate n 7.
Definition blank_disk : Sectors := replicate 1024 (replicate 128 0).
Definition sample_disk : Sectors := final (FileSystem_format sample_fresh) blank_disk.

Lemma sample_fresh_ok : fresh_ok sample_fresh.
Proof. intros site n. split; [apply length_replicate | by apply Forall_replicate]. Qed.

Lemma blank_disk_wf : disk_wf blank_disk.
Proof. split; [done |]. apply Forall_replicate. split; [done | by apply Forall_replicate]. Qed.

Lemma sample_disk_ok : fs_ok sample_disk ∧ files sample_disk = ∅.
Proof.
  destruct (ends_final _ _ _ (Format_spec sample_fresh sample_fresh_ok blank_disk blank_disk_wf)) as (fs & _ & Hok & _ & Hf).
  exact (conj Hok Hf).
Qed.

(** ** Sequences of requests *)

Inductive fs_request :=
| CreateFile (nm : list Z) (initialSize : Z)
| RemoveFile (nm : list Z)
| ReadFile (nm : list Z) (n position : Z)
| WriteFile (nm : list Z) (from : list Z) (n position : Z).

Inductive fs_reply :=
| Answer (b : bool)
| Bytes (bs : option (list Z))
| Count (n : option Z).

(** Requests whose arguments are C values: characters, [int]s, and buffers as
    long as they are said to be; sizes and positions are not negative, and a
    position plus the count is an [int].  ([Allocate] accepts negative sizes.) *)
Definition request_ok (q : fs_request) : Prop :=
  match q with
  | CreateFile nm size => Forall byte nm ∧ 0 ≤ size
  | RemoveFile nm => True
  | ReadFile nm n position => request n position
  | WriteFile nm from n position => request n position ∧ Forall byte from ∧ n ≤ Z.of_nat (length from)
  end.

Section serve.
Variable fresh : Z → nat → list Z.

Definition serve (fs : FileSystem) (q : fs_request) : prog fs_reply :=
  match q with
  | CreateFile nm size => r ← FS_Create fresh fs nm size; mret (Answer r)
  | RemoveFile nm => r ← FS_Remove fresh fs nm; mret (Answer r)
  | ReadFile nm n position =>
      f ← FS_Open fresh fs nm;
      match f with
      | Some f => bs ← DiskFile_ReadAt f n position; mret (Bytes (Some bs))
      | None => mret (Bytes None)
      end
  | WriteFile nm from n position =>
      f ← FS_Open fresh fs nm;
      match f with
      | Some f => r ← DiskFile_WriteAt fresh f from n position; mret (Count (Some r))
      | None => mret (Count None)
      end
  end.

Fixpoint serve_all (fs : FileSystem) (qs : list fs_request) : prog (list fs_reply) :=
  match qs with
  | [] => mret []
  | q :: qs' => r ← serve fs q; rs ← serve_all fs qs'; mret (r :: rs)
  end.
End serve.

(** ** The map of files as a machine *)

Notation Files := (gmap (list Z) (list Z)).

Inductive fs_step (F : Files) : fs_request → fs_reply → Files → Prop :=
| step_create nm size c : may_create F nm size = true → Z.of_nat (length c) = size →
    fs_step F (CreateFile nm size) (Answer true) (<[key nm := c]> F)
| step_refuse nm size : may_create F nm size = false → fs_step F (CreateFile nm size) (Answer false) F
| step_remove nm c : F !! key nm = Some c → fs_step F (RemoveFile nm) (Answer true) (delete (key nm) F)
| step_remove_none nm : F !! key nm = None → fs_step F (RemoveFile nm) (Answer false) F
| step_read nm n position c : F !! key nm = Some c →
    fs_step F (ReadFile nm n position) (Bytes (Some (take (Z.to_nat n) (drop (Z.to_nat position) c)))) F
| step_read_none nm n position : F !! key nm = None → fs_step F (ReadFile nm n position) (Bytes None) F
| step_write nm from n position c r : F !! key nm = Some c →
    r = Z.max 0 (Z.min n (Z.of_nat (length c) - position)) →
    fs_step F (WriteFile nm from n position) (Count (Some r))
      (<[key nm := splice c (Z.to_nat position) (take (Z.to_nat r) from)]> F)
| step_write_none nm from n position : F !! key nm = None → fs_step F (WriteFile nm from n position) (Count None) F.

Inductive fs_steps : Files → list fs_request → list fs_reply → Files → Prop :=
| steps_nil F : fs_steps F [] [] F
| steps_cons F q r F' qs rs F'' : fs_step F q r F' → fs_steps F' qs rs F'' → fs_steps F (q :: qs) (r :: rs) F''.

(** A file is to be created that does not fit its header, although name, entry
    and sectors are there. *)
Definition too_large (F : Files) (q : fs_request) : Prop :=
  match q with CreateFile nm size => MaxFileSize < size ∧ may_create F nm size = true | _ => False end.

#[export] Instance too_large_dec F q : Decision (too_large F q).
Proof. destruct q; apply _. Defined.

Lemma serve_refines fresh d q : fresh_ok fresh → fs_ok d → request_ok q → ¬ too_large (files d) q →
  ends (serve fresh (fs_of d) q) (λ r d', fs_ok d' ∧ fs_of d' = fs_of d ∧ fs_step (files d) q r (files d')) d.
Proof.
  intros Hfresh Hd Hq Hl. destruct q as [nm size | nm | nm n position | nm from n position]; cbn [serve].
  - destruct Hq as [Hnm Hsize]. destruct (decide (size ≤ MaxFileSize)) as [Hmax | Hmax].
    2:{ pose proof (Create_too_large fresh Hfresh d Hd nm size Hnm ltac:(lia)) as E.
      destruct (may_create (files d) nm size) eqn:Emay; [destruct Hl; split; [lia | done] |].
      eapply ends_run; [exact E |]. apply ends_ret. split_and!; [done | done |]. by apply step_refuse. }
    ends_step. eapply ends_mono; [by apply Create_spec |]. cbv beta.
    intros r d' [Er Hr]. apply ends_ret. destruct r.
    + destruct Hr as (? & ? & _ & c & Hc & ->). split_and!; [done | done |]. by apply step_create.
    + subst d'. split_and!; [done | done |]. by apply step_refuse.
  - ends_step. eapply ends_mono; [by apply FsRemove_spec |]. cbv beta. intros r d' [Er Hr]. apply ends_ret. destruct r.
    + destruct Hr as (? & ? & -> & _). symmetry in Er. apply bool_decide_eq_true in Er as [c Hc].
      split_and!; [done | done |]. by eapply step_remove.
    + subst d'. symmetry in Er. apply bool_decide_eq_false in Er. split_and!; [done | done |].
      by apply step_remove_none, eq_None_not_Some.
  - destruct (Open_spec fresh Hfresh d Hd nm) as [[Hn E] | (f & Hf & _ & E)]; (eapply ends_run; [exact E |]).
    + apply ends_ret. split_and!; [done | done |]. by apply step_read_none.
    + destruct (opened_file d Hd nm f Hf) as [_ Hc].
      eapply ends_run; [by apply (opened_read d Hd nm f n position _ Hf Hq Hc) |]. apply ends_ret.
      split_and!; [done | done |]. by apply step_read.
  - destruct Hq as (Hq & Hb & Hlen).
    destruct (Open_spec fresh Hfresh d Hd nm) as [[Hn E] | (f & Hf & _ & E)]; (eapply ends_run; [exact E |]).
    + apply ends_ret. split_and!; [done | done |]. by apply step_write_none.
    + destruct (opened_file d Hd nm f Hf) as [_ Hc]. ends_step.
      eapply ends_mono; [by apply (opened_write fresh Hfresh d Hd nm f from n position _ Hf Hq Hc) |].
      cbv beta. intros r d' H. apply ends_ret. destruct H as (Hr & ? & ? & -> & _). split_and!; [done | done |]. by apply step_write.
Qed.

Lemma serve_too_large fresh d q : fresh_ok fresh → fs_ok d → request_ok q → too_large (files d) q →
  run (serve fresh (fs_of d) q) d = Fault OutOfBounds.
Proof.
  intros Hfresh Hd Hq Hl. destruct q as [nm size | | |]; try done. destruct Hl as [Hmax Emay], Hq as [Hnm _]. cbn [serve].
  by rewrite run_bind, (Create_too_large fresh Hfresh d Hd nm size Hnm Hmax), Emay.
Qed.

Lemma run_serve_cons fresh fs q qs d : run (serve_all fresh fs (q :: qs)) d =
  match run (serve fresh fs q) d with
  | Done (r, d') => match run (serve_all fresh fs qs) d' with Done (rs, d'') => Done (r :: rs, d'') | Fault e => Fault e end
  | Fault e => Fault e
  end.
Proof.
  cbn [serve_all]. rewrite run_bind. destruct (run (serve fresh fs q) d) as [[r d'] |]; [| done].
  rewrite run_bind. by destruct (run (serve_all fresh fs qs) d') as [[rs d''] |].
Qed.

(** The requests [qs] are served on the disk [d] with the replies [rs]. *)
Definition serves_all fresh (d : Sectors) (qs : list fs_request) (rs : list fs_reply) (d' : Sectors) : Prop :=
  run (serve_all fresh (fs_of d) qs) d = Done (rs, d') ∧ fs_ok d' ∧ fs_steps (files d) qs rs (files d').

Lemma serve_all_refines fresh : fresh_ok fresh → ∀ qs d, fs_ok d → Forall request_ok qs →
  (∃ rs d', serves_all fresh d qs rs d') ∨
  (∃ qs1 q qs2 rs d1, qs = qs1 ++ q :: qs2 ∧ serves_all fresh d qs1 rs d1 ∧ too_large (files d1) q ∧
    run (serve_all fresh (fs_of d) qs) d = Fault OutOfBounds).
Proof.
  intros Hfresh qs. unfold serves_all. induction qs as [| q qs IH]; intros d Hd Hqs.
  { left. exists [], d. split; [done |]. split; [done | constructor]. }
  apply Forall_cons in Hqs as [Hq Hqs]. destruct (decide (too_large (files d) q)) as [Hl | Hl].
  { right. exists [], q, qs, [], d. split; [done |]. split; [split; [done |]; split; [done | constructor] |].
    split; [done |]. by rewrite run_serve_cons, (serve_too_large fresh d q Hfresh Hd Hq Hl). }
  destruct (serve_refines fresh d q Hfresh Hd Hq Hl) as (r & d1 & E & Hd1 & Hfs1 & Hstep).
  destruct (IH d1 Hd1 Hqs) as [(rs & d' & E' & Hd' & Hsteps) | (qs1 & q' & qs2 & rs & d' & -> & (E' & Hd' & Hsteps) & Hl' & Hrun)];
    rewrite Hfs1 in E'.
  - left. exists (r :: rs), d'. rewrite run_serve_cons, E, E'. split; [done |]. split; [done |]. by econstructor.
  - right. exists (q :: qs1), q', qs2, (r :: rs), d'. split; [done |]. split.
    + rewrite run_serve_cons, E, E'. split; [done |]. split; [done |]. by econstructor.
    + split; [done |]. rewrite Hfs1 in Hrun. by rewrite run_serve_cons, E, Hrun.
Qed.

Definition sample_requests : list fs_request :=
  [CreateFile [97; 98] 200; CreateFile [97; 98] 10; WriteFile [97; 98] [1; 2; 3; 4] 4 198;
   ReadFile [97; 98] 10 196; RemoveFile [97; 98]; ReadFile [97; 98] 10 0].

Lemma sample_requests_ok : Forall request_ok sample_requests.
Proof. repeat constructor; vm_compute; done. Qed.

(** C9 The disk file system refines a finite map.  From any well-formed disk
    and whatever the allocated memory holds, a sequence of requests to create,
    remove, read and write files, with sizes and positions that are not
    negative and do not overflow an [int], runs to its end without a failed
    assertion or an access outside of an array, unless it comes to a request for
    a file of more than [MaxFileSize] bytes whose name is new and for which an
    entry and enough sectors are free: then, and only then, [Allocate] leaves the
    array of the header.  Up to there, the replies and the files on the disk are
    those of the map of names to contents: a file is created exactly when its
    name is new, an entry is free and its sectors fit; names count up to nine
    characters; reads and writes stop at the end of the file.  The disk is
    well-formed again: no two files share a sector and the free map marks the
    sectors in use. *)
Theorem file_system_refines_map fresh d qs : fresh_ok fresh → fs_ok d → Forall request_ok qs →
  (∃ rs d', run (serve_all fresh (fs_of d) qs) d = Done (rs, d') ∧ fs_ok d' ∧ fs_steps (files d) qs rs (files d')) ∨
  (∃ qs1 nm size qs2 rs d1, qs = qs1 ++ CreateFile nm size :: qs2 ∧
    run (serve_all fresh (fs_of d) qs1) d = Done (rs, d1) ∧ fs_ok d1 ∧ fs_steps (files d) qs1 rs (files d1) ∧
    MaxFileSize < size ∧ may_create (files d1) nm size = true ∧
    run (serve_all fresh (fs_of d) qs) d = Fault OutOfBounds).
Proof.
  intros Hfresh Hd Hqs. destruct (serve_all_refines fresh Hfresh qs d Hd Hqs) as [H | (qs1 & q & qs2 & rs & d1 & E & (H1 & H2 & H3) & Hl & Hrun)];
    [by left | right]. destruct q as [nm size | | |]; try done. destruct Hl as [Hmax Hmay]. by exists qs1, nm, size, qs2, rs, d1.
Qed.

(** The sample requests are served: none is for a file that is too large. *)
Lemma file_system_refines_map_witness :
  ∃ rs d', run (serve_all sample_fresh (fs_of sample_disk) sample_requests) sample_disk = Done (rs, d') ∧
    fs_ok d' ∧ fs_steps (files sample_disk) sample_requests rs (files d').
Proof.
  destruct (file_system_refines_map sample_fresh sample_disk sample_requests sample_fresh_ok (proj1 sample_disk_ok)
    sample_requests_ok) as [H | (qs1 & nm & size & qs2 & rs & d1 & E & _ & _ & _ & Hmax & _)]; [exact H | exfalso].
  assert (CreateFile nm size ∈ sample_requests) as Hin by (rewrite E; apply elem_of_app; right; left).
  assert (forallb (λ q, match q with CreateFile _ n => bool_decide (n ≤ MaxFileSize) | _ => true end) sample_requests = true) as H
    by (vm_compute; reflexivity).
  rewrite forallb_forall in H. apply list_elem_of_In, H in Hin. apply bool_decide_eq_true in Hin. lia.
Defined.

(** C13 [FileSystem::FileSystem(TRUE)] formats any disk: it ends with a
    well-formed file system without files, and the constructor without
    formatting finds the same two system files on that disk. *)
Theorem format_gives_empty_system fresh d : fresh_ok fresh → disk_wf d →
  ∃ fs d', run (FileSystem_new fresh true) d = Done (fs, d') ∧ fs_ok d' ∧ files d' = ∅ ∧
    run (FileSystem_new fresh false) d' = Done (fs, d').
Proof.
  intros Hfresh Hd. destruct (Format_spec fresh Hfresh d Hd) as (fs & d' & E & Hok & -> & Hf).
  exists (fs_of d'), d'. split_and!; [done | done | done |]. cbn [FileSystem_new]. unfold FileSystem_open.
  destruct system_on_disk as [H0 H1]. pose proof (so_disk d' (fo_system d' Hok)) as Hd'.
  rewrite run_bind, (open_sector d' FreeMapSector Hd' H0). by rewrite run_bind, (open_sector d' DirectorySector Hd' H1).
Qed.

Lemma format_gives_empty_system_witness :
  ∃ fs d', run (FileSystem_new sample_fresh true) blank_disk = Done (fs, d') ∧ fs_ok d' ∧ files d' = ∅ ∧
    run (FileSystem_new sample_fresh false) d' = Done (fs, d').
Proof. exact (format_gives_empty_system sample_fresh blank_disk sample_fresh_ok blank_disk_wf). Defined.

(** C12 [FileSystem::Create] decides, for every size that is not negative: when
    the name is not in the directory, an entry is free and the header and the
    data fit in the free sectors, it answers true if the size is at most
    [MaxFileSize], and then the file is there with the size asked for, every
    other file is as it was and every open file stays open; for a larger size it
    stores past the end of [dataSectors].  Otherwise it answers false and not one
    byte of the disk has changed. *)
Theorem FS_Create_decides fresh d nm size : fresh_ok fresh → fs_ok d → Forall byte nm → 0 ≤ size →
  if may_create (files d) nm size then
    if decide (size ≤ MaxFileSize) then
      ∃ d' c, run (FS_Create fresh (fs_of d) nm size) d = Done (true, d') ∧ fs_ok d' ∧
        (∀ nm' f, opened d nm' f → opened d' nm' f) ∧ Z.of_nat (length c) = size ∧ files d' = <[key nm := c]> (files d)
    else run (FS_Create fresh (fs_of d) nm size) d = Fault OutOfBounds
  else run (FS_Create fresh (fs_of d) nm size) d = Done (false, d).
Proof.
  intros Hfresh Hd Hnm Hsize. pose proof (Create_too_large fresh Hfresh d Hd nm size Hnm) as Hlarge.
  destruct (decide (size ≤ MaxFileSize)) as [Hmax | Hmax].
  2:{ rewrite Hlarge by lia. by destruct (may_create (files d) nm size). }
  destruct (Create_spec fresh Hfresh d Hd nm size Hnm ltac:(lia)) as (r & d' & E & -> & HQ).
  destruct (may_create (files d) nm size); [| by subst d'].
  destruct HQ as (? & _ & ? & c & ? & ?). by exists d', c.
Qed.

Lemma FS_Create_decides_witness :
  (∃ d', run (FS_Create sample_fresh (fs_of sample_disk) [97; 98] 200) sample_disk = Done (true, d') ∧
    ∃ c, length c = 200%nat ∧ files d' = {[ [97; 98] := c ]}) ∧
  run (FS_Create sample_fresh (fs_of sample_disk) [97; 98] 4000) sample_disk = Fault OutOfBounds.
Proof.
  destruct sample_disk_ok as [Hok Hf].
  assert (may_create (files sample_disk) [97; 98] 200 = true) as Emay by (rewrite Hf; reflexivity).
  assert (may_create (files sample_disk) [97; 98] 4000 = true) as Emay' by (rewrite Hf; reflexivity).
  assert (Forall byte [97; 98]) as Hnm by (repeat constructor; vm_compute; done).
  pose proof (FS_Create_decides sample_fresh sample_disk [97; 98] 200 sample_fresh_ok Hok Hnm ltac:(lia)) as H.
  pose proof (FS_Create_decides sample_fresh sample_disk [97; 98] 4000 sample_fresh_ok Hok Hnm ltac:(lia)) as H'.
  rewrite Emay in H. rewrite Emay' in H'. rewrite decide_True in H by (vm_compute; discriminate).
  rewrite decide_False in H' by (vm_compute; intros H0; by apply H0). split; [| exact H'].
  destruct H as (d' & c & E & _ & _ & Hc & Hfiles). exists d'. split; [exact E |].
  exists c. split; [lia |]. rewrite Hfiles, Hf. reflexivity.
Defined.

(** Creating a file and removing it gives the files back as they were, and
    as many free sectors as before. *)
Theorem create_remove_restores fresh d nm size : fresh_ok fresh → fs_ok d → Forall byte nm →
  0 ≤ size ≤ MaxFileSize → may_create (files d) nm size = true →
  ∃ d', run (a ← FS_Create fresh (fs_of d) nm size; b ← FS_Remove fresh (fs_of d) nm; mret (a, b)) d =
    Done ((true, true), d') ∧ fs_ok d' ∧ files d' = files d ∧
    length (free (map_at d')) = length (free (map_at d)).
Proof.
  intros Hfresh Hd Hnm Hsize Hmay. destruct (Create_spec fresh Hfresh d Hd nm size Hnm Hsize) as (r & d1 & E & -> & HQ).
  rewrite Hmay in E, HQ. destruct HQ as (Hd1 & Hfs & _ & c & Hc & Hf1).
  destruct (FsRemove_spec fresh Hfresh d1 Hd1 nm) as (r & d2 & E2 & -> & HQ).
  rewrite Hf1, lookup_insert_eq, bool_decide_true in E2, HQ by done. destruct HQ as (Hd2 & _ & Hf2 & _).
  assert (files d2 = files d) as Hfiles.
  { rewrite Hf2, Hf1. apply delete_insert_id. unfold may_create in Hmay.
    apply andb_true_iff in Hmay as [Hm _]. apply andb_true_iff in Hm as [Hm _]. by apply bool_decide_eq_true in Hm. }
  exists d2. rewrite run_bind, E, run_bind, <- Hfs, E2. split_and!; [done | done | done |].
  pose proof (free_count d2 Hd2) as H2. pose proof (free_count d Hd) as H. rewrite Hfiles in H2. lia.
Qed.

Lemma create_remove_restores_witness :
  ∃ d', run (a ← FS_Create sample_fresh (fs_of sample_disk) [120] 3840;
             b ← FS_Remove sample_fresh (fs_of sample_disk) [120]; mret (a, b)) sample_disk =
    Done ((true, true), d') ∧ files d' = ∅.
Proof.
  destruct sample_disk_ok as [Hok Hf].
  destruct (create_remove_restores sample_fresh sample_disk [120] 3840 sample_fresh_ok Hok) as (d' & E & _ & Hf' & _).
  - repeat constructor; vm_compute; done.
  - vm_compute. split; discriminate.
  - rewrite Hf. reflexivity.
  - exists d'. split; [exact E |]. by rewrite Hf'.
Defined.

(** What [OpenFile::WriteAt] writes within an open file, [ReadAt] reads
    back.  Every other file keeps its contents, the file keeps its length, and
    the open files stay open. *)
Theorem write_then_read fresh d nm f c from n position : fresh_ok fresh → fs_ok d → opened d nm f →
  files d !! key nm = Some c → request n position → 0 ≤ n → position + n ≤ Z.of_nat (length c) →
  Forall byte from → n ≤ Z.of_nat (length from) →
  ∃ d', run (r ← DiskFile_WriteAt fresh f from n position; bs ← DiskFile_ReadAt f n position; mret (r, bs)) d =
    Done ((n, take (Z.to_nat n) from), d') ∧ fs_ok d' ∧
    (∀ nm', key nm' ≠ key nm → files d' !! key nm' = files d !! key nm') ∧
    (∃ c', files d' !! key nm = Some c' ∧ length c' = length c) ∧
    (∀ nm' f', opened d nm' f' → opened d' nm' f').
Proof.
  intros Hfresh Hd Ho Hc Hr Hn Hend Hb Hl.
  destruct (opened_write fresh Hfresh d Hd nm f from n position c Ho Hr Hc Hb Hl) as (r & d' & E & Er & Hd' & _ & Hf & Hop).
  replace (Z.max 0 (Z.min n (Z.of_nat (length c) - position))) with n in Er by lia. subst r.
  assert (length (take (Z.to_nat n) from) = Z.to_nat n) as Hlt by (rewrite length_take; lia).
  destruct Hr as (Hp & Hr'). assert (files d' !! key nm = Some (splice c (Z.to_nat position) (take (Z.to_nat n) from)))
    as Hc' by (by rewrite Hf, lookup_insert_eq).
  exists d'. rewrite run_bind, E, run_bind.
  rewrite (opened_read d' Hd' nm f n position _ (Hop nm f Ho) (conj Hp Hr') Hc'). split_and!; [| done | | | done].
  - cbn. do 3 f_equal. rewrite <- Hlt at 1. apply block_splice_same. lia.
  - intros nm' Hne. rewrite Hf. by apply lookup_insert_ne.
  - eexists. split; [exact Hc' |]. apply length_splice. lia.
Qed.

(** The disk after a file of 200 bytes is created. *)
Definition two_hundred : Sectors := final (FS_Create sample_fresh (fs_of sample_disk) [97] 200) sample_disk.

Lemma two_hundred_ok : fs_ok two_hundred ∧ ∃ c, length c = 200%nat ∧ files two_hundred !! [97] = Some c.
Proof.
  destruct sample_disk_ok as [Hok Hf].
  destruct (ends_final _ _ _ (Create_spec sample_fresh sample_fresh_ok sample_disk Hok [97] 200
    ltac:(repeat constructor; vm_compute; done) ltac:(vm_compute; split; discriminate))) as (r & _ & -> & HQ).
  assert (may_create (files sample_disk) [97] 200 = true) as Emay by (rewrite Hf; reflexivity).
  rewrite Emay in HQ. destruct HQ as (Hok' & _ & _ & c & Hc & Hfiles). split; [exact Hok' |].
  exists c. split; [lia |]. unfold two_hundred. rewrite Hfiles. apply lookup_insert_eq.
Qed.

Lemma write_then_read_witness :
  ∃ f d', run (r ← DiskFile_WriteAt sample_fresh f [1; 2; 3; 4; 5] 5 126; bs ← DiskFile_ReadAt f 5 126; mret (r, bs))
    two_hundred = Done ((5, [1; 2; 3; 4; 5]), d') ∧ fs_ok d'.
Proof.
  destruct two_hundred_ok as (Hok & c & Hlen & Hc).
  destruct (Open_spec sample_fresh sample_fresh_ok two_hundred Hok [97]) as [[Hn _] | (f & Hf & _ & _)].
  - exfalso. change (cut _ [97]) with [97] in Hn. rewrite Hc in Hn. discriminate Hn.
  - exists f.
    destruct (write_then_read sample_fresh two_hundred [97] f c [1; 2; 3; 4; 5] 5 126 sample_fresh_ok Hok Hf Hc)
      as (d' & E & Hok' & _).
    + vm_compute. split; [split; [discriminate | reflexivity] | split; [split; [discriminate | reflexivity] | reflexivity]].
    + lia.
    + rewrite Hlen. lia.
    + repeat constructor; vm_compute; done.
    + simpl. lia.
    + exists d'. split; [exact E | exact Hok'].
Defined.

(** [FileHeader::Allocate] does not check the size against the header: for
    a file of more than [MaxFileSize] bytes with enough free sectors, it stores
    sector numbers past the end of [dataSectors]. *)
Theorem Allocate_leaves_header this size b : BitMap_wf b → header_ints this → MaxFileSize < size →
  divRoundUp size SectorSize ≤ Z.of_nat (length (free b)) →
  FileHeader_Allocate this size b = Fault OutOfBounds.
Proof.
  apply Allocate_overflow.
Qed.

Lemma Allocate_leaves_header_witness :
  ∃ b, new_map sample_fresh 0 = Done b ∧ FileHeader_Allocate (new_header sample_fresh 3) 3841 b = Fault OutOfBounds.
Proof.
  destruct (new_map_spec sample_fresh sample_fresh_ok 0) as (b & E & Hb & Hn & Hclear). exists b. split; [exact E |].
  apply (Allocate_leaves_header (new_header sample_fresh 3) 3841 b Hb (header_of_ints _)); [reflexivity |].
  assert (free b = seqZ 0 NumSectors) as ->.
  { unfold free. rewrite filter_all_true, Hn; [done |]. intros s Hs%elem_of_seqZ. apply Hclear. lia. }
  rewrite length_seqZ. vm_compute. discriminate.
Defined.
