(* ===== verification/FsTest.v ===== *)
(** * Clients of the disk file system (filesys/fstest.cc)

    [Copy], [Print] and [PerformanceTest], run by the flags [-cp], [-p] and [-t]
    of threads/main.cc.  They are programs over the disk like those of FileSys.v;
    what they print is part of their result.  The UNIX files are those of
    FileStub.v. *)

From stdpp Require Import base gmap list numbers strings list_numbers.
From Stdlib Require Import ZArith Lia.
From S2P Require Import Prelude BitMap Machine MachineFacts FileStub DiskProg DiskFiles FileSys DiskFacts DiskLayout.
From S2P Require Import DirFacts AllocFacts FsInv FsFacts FsUpdate FsOps FsFormat FsClaims.

(** ** The programs *)

Definition TransferSize : Z := 10.

(** Characters, or the statistics of [stats->Print()]. *)
Inductive printed := Chars (bs : list Z) | Stats.

(** [printf] of a text around a name. *)
Definition message (before : string) (nm : list Z) (after : string) : list printed :=
  [Chars (chars before ++ nm ++ chars after ++ [10])].

Definition FileName : list Z := chars "TestFile".
Definition Contents : list Z := chars "1234567890".
Definition ContentSize : Z := 10.
Definition FileSize : Z := ContentSize * 5000.

Section clients.
Variable fresh : Z → nat → list Z.
Variable fs : FileSystem.

(** The loop of [Copy]: [rest] is what [fread] has not returned yet; each turn
    but the last takes a character at least. *)
Fixpoint copy_loop (fuel : nat) (rest : list Z) (openFile : DiskFile) : prog unit :=
  match fuel with
  | O => Fail OutOfFuel
  | S fuel' =>
      let buffer := take (Z.to_nat TransferSize) rest in
      let amountRead := Z.of_nat (length buffer) in
      if decide (amountRead > 0) then
        r ← DiskFile_Write fresh buffer amountRead openFile;
        copy_loop fuel' (drop (Z.to_nat TransferSize) rest) r.2
      else mret tt
  end.

Definition Copy (unix : Unix) (from : string) (to : list Z) : prog (list printed) :=
  match unix !! from with
  | None => mret (message "Copy: couldn't open input file " (chars from) "")
  | Some contents =>
      let fileLength := s32 (Z.of_nat (length contents)) in
      created ← FS_Create fresh fs to fileLength;
      if negb created then mret (message "Copy: couldn't create output file " to "")
      else
        openFile ← FS_Open fresh fs to;
        match openFile with
        | None => Fail AssertFailed
        | Some openFile => copy_loop (S (length contents)) contents openFile ;; mret []
        end
  end.

(** The loop of [Print]; the file ends after its length in turns at most. *)
Fixpoint print_loop (fuel : nat) (openFile : DiskFile) : prog (list Z) :=
  match fuel with
  | O => Fail OutOfFuel
  | S fuel' =>
      r ← DiskFile_Read TransferSize openFile;
      if decide (Z.of_nat (length r.1) > 0) then rest ← print_loop fuel' r.2; mret (r.1 ++ rest)
      else mret []
  end.

Definition Print (nm : list Z) : prog (list printed) :=
  openFile ← FS_Open fresh fs nm;
  match openFile with
  | None => mret (message "Print: unable to open file " nm "")
  | Some openFile =>
      out ← print_loop (S (Z.to_nat (DiskFile_Length openFile))) openFile;
      mret [Chars out]
  end.

(** [for (i = 0; i < FileSize; i += ContentSize)] makes [n] turns. *)
Fixpoint write_turns (n : nat) (openFile : DiskFile) : prog (list printed) :=
  match n with
  | O => mret []
  | S n' =>
      r ← DiskFile_Write fresh Contents ContentSize openFile;
      if decide (r.1 < 10) then mret (message "Perf test: unable to write " FileName "")
      else write_turns n' r.2
  end.

Definition FileWrite : prog (list printed) :=
  let banner := [Chars (chars "Sequential write of 50000 byte file, in 10 byte chunks" ++ [10])] in
  created ← FS_Create fresh fs FileName 0;
  if negb created then mret (banner ++ message "Perf test: can't create " FileName "")
  else
    openFile ← FS_Open fresh fs FileName;
    match openFile with
    | None => mret (banner ++ message "Perf test: unable to open " FileName "")
    | Some openFile =>
        out ← write_turns (Z.to_nat (FileSize / ContentSize)) openFile; mret (banner ++ out)
    end.

Fixpoint read_turns (n : nat) (openFile : DiskFile) : prog (list printed) :=
  match n with
  | O => mret []
  | S n' =>
      r ← DiskFile_Read ContentSize openFile;
      if decide (Z.of_nat (length r.1) < 10) then mret (message "Perf test: unable to read " FileName "")
      else if negb (strncmp_eq (Z.to_nat ContentSize) r.1 Contents)
      then mret (message "Perf test: unable to read " FileName "")
      else read_turns n' r.2
  end.

Definition FileRead : prog (list printed) :=
  let banner := [Chars (chars "Sequential read of 50000 byte file, in 10 byte chunks" ++ [10])] in
  openFile ← FS_Open fresh fs FileName;
  match openFile with
  | None => mret (banner ++ message "Perf test: unable to open file " FileName "")
  | Some openFile =>
      out ← read_turns (Z.to_nat (FileSize / ContentSize)) openFile; mret (banner ++ out)
  end.

Definition PerformanceTest : prog (list printed) :=
  w ← FileWrite;
  r ← FileRead;
  removed ← FS_Remove fresh fs FileName;
  let start := [Chars (chars "Starting file system performance test:" ++ [10]); Stats] in
  if negb removed then mret (start ++ w ++ r ++ message "Perf test: unable to remove " FileName "")
  else mret (start ++ w ++ r ++ [Stats]).
End clients.

(** ** The loops *)

Section loops.
Variable fresh : Z → nat → list Z.
Hypothesis Hfresh : fresh_ok fresh.

(** [OpenFile::Write] of a whole buffer that fits. *)
Lemma Write_fits d nm f from c : fs_ok d → opened d nm f → files d !! key nm = Some c → 0 ≤ seekPosition f →
  Forall byte from → seekPosition f + Z.of_nat (length from) ≤ Z.of_nat (length c) → Z.of_nat (length c) < 2 ^ 31 →
  ends (DiskFile_Write fresh from (Z.of_nat (length from)) f) (λ r d',
    r = (Z.of_nat (length from), mkDiskFile (hdr f) (seekPosition f + Z.of_nat (length from))) ∧ fs_ok d' ∧
    fs_of d' = fs_of d ∧ files d' = <[key nm := splice c (Z.to_nat (seekPosition f)) from]> (files d) ∧
    ∀ nm' f', opened d nm' f' → opened d' nm' f') d.
Proof.
  intros Hd Ho Hc Hp Hb Hfit Hmax. unfold DiskFile_Write. ends_step.
  eapply ends_mono; [apply (opened_write fresh Hfresh d Hd nm f from _ (seekPosition f) c Ho); try done |].
  { unfold request. lia. }
  cbv beta. intros r d' (-> & Hd' & Hfs & Hf & Hop). apply ends_ret.
  replace (Z.max 0 (Z.min (Z.of_nat (length from)) (Z.of_nat (length c) - seekPosition f))) with (Z.of_nat (length from)) in * by lia.
  rewrite s32_small by lia. rewrite Nat2Z.id, take_ge in Hf by lia. done.
Qed.

Lemma copy_step (c c0 : list Z) (p n : nat) : length c0 = length c → take p c0 = take p c → (p + n ≤ length c)%nat →
  length (splice c0 p (take n (drop p c))) = length c ∧
  take (p + n) (splice c0 p (take n (drop p c))) = take (p + n) c.
Proof.
  intros Hl Htake Hn. assert (length (take n (drop p c)) = n) as Hlen by (rewrite length_take, length_drop; lia).
  split; [rewrite length_splice; lia |]. unfold splice. rewrite Htake, app_assoc, take_take_drop.
  rewrite take_app_le by (rewrite length_take; lia). by rewrite take_take, Nat.min_id.
Qed.

Lemma copy_loop_spec nm c : Forall byte c → Z.of_nat (length c) < 2 ^ 31 → ∀ fuel d f c0 p,
  fs_ok d → opened d nm f → files d !! key nm = Some c0 → seekPosition f = Z.of_nat p → (p ≤ length c)%nat →
  length c0 = length c → take p c0 = take p c → (length c - p < fuel)%nat →
  ends (copy_loop fresh fuel (drop p c) f) (λ _ d', fs_ok d' ∧ fs_of d' = fs_of d ∧
    files d' = <[key nm := c]> (files d)) d.
Proof.
  intros Hb Hmax. induction fuel as [| fuel IH]; intros d f c0 p Hd Ho Hc Hp Hple Hl Htake Hfuel; [lia |].
  cbn [copy_loop]. change (Z.to_nat TransferSize) with 10%nat. set (buf := take 10 (drop p c)).
  assert (length buf = (10 `min` (length c - p))%nat) as Hlen by (unfold buf; rewrite length_take, length_drop; lia).
  case_decide as Hpos.
  - destruct (copy_step c c0 p (length buf) Hl Htake) as [Hl' Htake']; [lia |].
    assert (take (length buf) (drop p c) = buf) as Hbuf.
    { unfold buf at 2. rewrite Hlen. destruct (decide (10 ≤ length c - p)%nat); [by rewrite Nat.min_l by lia |].
      rewrite Nat.min_r by lia. rewrite !take_ge; rewrite ?length_drop; done || lia. }
    rewrite Hbuf in Hl', Htake'. ends_step.
    eapply ends_mono; [apply (Write_fits d nm f buf c0); try done; try lia |].
    { by apply Forall_take, Forall_drop. }
    cbv beta. intros r d1 (-> & Hd1 & Hfs1 & Hf1 & Hop1). cbn [snd].
    replace (drop 10 (drop p c)) with (drop (p + length buf) c).
    2: { rewrite drop_drop. destruct (decide (10 ≤ length c - p)%nat); [by rewrite Hlen, Nat.min_l by lia |].
         rewrite !drop_ge; done || lia. }
    eapply ends_mono; [apply (IH d1 _ (splice c0 p buf) (p + length buf)%nat); try done; try lia |].
    + exact (Hop1 nm f Ho).
    + rewrite Hf1, Hp, Nat2Z.id. apply lookup_insert_eq.
    + cbn [seekPosition]. lia.
    + cbv beta. intros [] d2 (Hd2 & Hfs2 & Hf2). split; [done |]. split; [congruence |].
      by rewrite Hf2, Hf1, insert_insert_eq.
  - apply ends_ret. split; [done |]. split; [done |]. rewrite insert_id; [done |]. rewrite Hc. f_equal.
    rewrite <- (take_ge c0 p), <- (take_ge c p) by lia. done.
Qed.

(** [OpenFile::Read] returns the next bytes and moves on. *)
Lemma Read_next d nm f n c : fs_ok d → opened d nm f → files d !! key nm = Some c → 0 ≤ seekPosition f →
  seekPosition f ≤ Z.of_nat (length c) → 0 ≤ n → Z.of_nat (length c) + n < 2 ^ 31 →
  run (DiskFile_Read n f) d =
    Done ((take (Z.to_nat n) (drop (Z.to_nat (seekPosition f)) c),
      mkDiskFile (hdr f) (seekPosition f + Z.of_nat (length (take (Z.to_nat n) (drop (Z.to_nat (seekPosition f)) c))))), d).
Proof.
  intros Hd Ho Hc Hp Hle Hn Hmax. unfold DiskFile_Read. rewrite run_bind.
  rewrite (opened_read d Hd nm f n (seekPosition f) c Ho); [| unfold request; lia | done].
  cbn. rewrite s32_small; [done |]. rewrite length_take, length_drop. lia.
Qed.

Lemma print_loop_run d nm c : fs_ok d → files d !! key nm = Some c → Z.of_nat (length c) + 10 < 2 ^ 31 → ∀ fuel f p,
  opened d nm f → seekPosition f = Z.of_nat p → (p ≤ length c)%nat → (length c - p < fuel)%nat →
  run (print_loop fuel f) d = Done (drop p c, d).
Proof.
  intros Hd Hc Hmax. induction fuel as [| fuel IH]; intros f p Ho Hp Hple Hfuel; [lia |].
  cbn [print_loop]. rewrite run_bind. unfold TransferSize. rewrite (Read_next d nm f 10 c) by (done || lia).
  rewrite Hp, Nat2Z.id. change (Z.to_nat 10) with 10%nat. cbn [fst snd]. set (buf := take 10 (drop p c)).
  assert (length buf = (10 `min` (length c - p))%nat) as Hlen by (unfold buf; rewrite length_take, length_drop; lia).
  case_decide as Hpos.
  - rewrite run_bind, (IH _ (p + length buf)%nat); [| exact Ho | cbn; lia | lia | lia]. cbn. do 2 f_equal.
    unfold buf at 1. rewrite <- (take_drop 10 (drop p c)) at 2. f_equal. rewrite drop_drop.
    destruct (decide (10 ≤ length c - p)%nat); [by rewrite Hlen, Nat.min_l by lia |]. rewrite !drop_ge; done || lia.
  - cbn. rewrite drop_ge by lia. done.
Qed.
End loops.

(** ** [Copy] and [Print] *)

(** What [Copy] decides and does, for UNIX files that fit in a Nachos file. *)
Lemma Copy_spec fresh d unix from to : fresh_ok fresh → fs_ok d → Forall byte to →
  (∀ c, unix !! from = Some c → Forall byte c ∧ Z.of_nat (length c) ≤ MaxFileSize) →
  ends (Copy fresh (fs_of d) unix from to) (λ out d', fs_ok d' ∧ fs_of d' = fs_of d ∧
    match unix !! from with
    | Some c =>
        if may_create (files d) to (Z.of_nat (length c))
        then out = [] ∧ files d' = <[key to := c]> (files d)
        else out = message "Copy: couldn't create output file " to "" ∧ d' = d
    | None => out = message "Copy: couldn't open input file " (chars from) "" ∧ d' = d
    end) d.
Proof.
  intros Hfresh Hd Hto Hunix. unfold Copy. destruct (unix !! from) as [c |]; [| by apply ends_ret].
  destruct (Hunix c eq_refl) as [Hb Hl]. change MaxFileSize with 3840 in Hl. rewrite s32_small by lia. ends_step.
  eapply ends_mono; [apply (Create_spec fresh Hfresh d Hd to _ Hto); change MaxFileSize with 3840; lia |].
  cbv beta. intros r d1 [-> HQ]. destruct (may_create (files d) to (Z.of_nat (length c))); cbn [negb].
  2: { subst d1. by apply ends_ret. }
  destruct HQ as (Hd1 & Hfs1 & _ & c0 & Hc0 & Hf1). rewrite <- Hfs1.
  assert (files d1 !! key to = Some c0) as Hc by (rewrite Hf1; apply lookup_insert_eq).
  destruct (Open_spec fresh Hfresh d1 Hd1 to) as [[Hn _] | (f & Ho & Hseek & E)]; [congruence |].
  eapply ends_run; [exact E |]. cbv beta iota. ends_step.
  eapply ends_mono; [apply (copy_loop_spec fresh Hfresh to c Hb ltac:(lia) _ d1 f c0 0%nat); try done; lia |].
  cbv beta. intros [] d2 (Hd2 & Hfs2 & Hf2). apply ends_ret. split; [done |]. split; [done |]. split; [done |].
  by rewrite Hf2, Hf1, insert_insert_eq.
Qed.

Lemma Print_run fresh d nm : fresh_ok fresh → fs_ok d →
  run (Print fresh (fs_of d) nm) d =
    Done (match files d !! key nm with
          | Some c => [Chars c]
          | None => message "Print: unable to open file " nm ""
          end, d).
Proof.
  intros Hfresh Hd. unfold Print. rewrite run_bind.
  destruct (Open_spec fresh Hfresh d Hd nm) as [[-> E] | (f & Ho & Hseek & E)]; rewrite E; [done |].
  destruct (opened_file d Hd nm f Ho) as [Hh Hc].
  pose proof (length_content d (so_disk d (fo_system d Hd)) f Hh) as Hl. pose proof (hw_bytes _ Hh) as Hmax.
  change MaxFileSize with 3840 in Hmax. rewrite Hc. rewrite run_bind.
  rewrite (print_loop_run d nm _ Hd Hc ltac:(lia) _ f 0%nat Ho); [done | by rewrite Hseek | lia |].
  unfold DiskFile_Length, FileLength. lia.
Qed.

(** ** The performance test *)

(** What is printed when the file can be created: it stays empty. *)
Definition perf_output : list printed :=
  [Chars (chars "Starting file system performance test:" ++ [10]); Stats] ++
  [Chars (chars "Sequential write of 50000 byte file, in 10 byte chunks" ++ [10])] ++
  message "Perf test: unable to write " FileName "" ++
  [Chars (chars "Sequential read of 50000 byte file, in 10 byte chunks" ++ [10])] ++
  message "Perf test: unable to read " FileName "" ++ [Stats].

Lemma some_turns : ∃ n, Z.to_nat (FileSize / ContentSize) = S n.
Proof. eexists. reflexivity. Qed.

(** Nothing is written to or read from an empty file. *)
Lemma Write_empty fresh d nm f from n : fresh_ok fresh → fs_ok d → opened d nm f → files d !! key nm = Some [] →
  seekPosition f = 0 → 0 ≤ n < 2 ^ 31 → run (DiskFile_Write fresh from n f) d = Done ((0, f), d).
Proof.
  intros Hfresh Hd Ho Hc Hseek Hn. destruct (opened_file d Hd nm f Ho) as [Hh Hc'].
  pose proof (length_content d (so_disk d (fo_system d Hd)) f Hh) as Hl. rewrite Hc in Hc'. injection Hc' as Hc'.
  rewrite <- Hc' in Hl. simpl in Hl. destruct (hw_bytes _ Hh). unfold DiskFile_Write, DiskFile_WriteAt, FileLength.
  rewrite Hseek, clip_spec by (unfold request; lia).
  replace (Z.max 0 (Z.min n (numBytes (hdr f) - 0))) with 0 by lia. rewrite decide_True by done. cbn.
  do 3 f_equal. destruct f. simpl in *. by subst.
Qed.

Lemma FileWrite_spec fresh d : fresh_ok fresh → fs_ok d → may_create (files d) FileName 0 = true →
  ends (FileWrite fresh (fs_of d)) (λ out d', fs_ok d' ∧ fs_of d' = fs_of d ∧ files d' = <[key FileName := []]> (files d) ∧
    out = [Chars (chars "Sequential write of 50000 byte file, in 10 byte chunks" ++ [10])] ++
          message "Perf test: unable to write " FileName "") d.
Proof.
  intros Hfresh Hd Hmay. unfold FileWrite. cbv zeta. ends_step.
  eapply ends_mono; [apply (Create_spec fresh Hfresh d Hd FileName 0) |].
  { repeat constructor; done. } { done. }
  cbv beta. intros r d1 [-> HQ]. rewrite Hmay in *. cbn [negb]. destruct HQ as (Hd1 & Hfs1 & _ & c & Hc & Hf1).
  destruct c; [| simpl in Hc; lia]. rewrite <- Hfs1.
  assert (files d1 !! key FileName = Some []) as Hc1 by (rewrite Hf1; apply lookup_insert_eq).
  destruct (Open_spec fresh Hfresh d1 Hd1 FileName) as [[Hn _] | (f & Ho & Hseek & E)]; [congruence |].
  eapply ends_run; [exact E |]. cbv beta iota. destruct some_turns as [n ->]. cbn [write_turns].
  ends_step. eapply ends_run; [by apply (Write_empty fresh d1 FileName) |]. cbn [fst].
  rewrite decide_True by lia. do 2 apply ends_ret. split_and!; congruence || done.
Qed.

Lemma FileRead_run fresh d : fresh_ok fresh → fs_ok d → files d !! key FileName = Some [] →
  run (FileRead fresh (fs_of d)) d =
    Done ([Chars (chars "Sequential read of 50000 byte file, in 10 byte chunks" ++ [10])] ++
          message "Perf test: unable to read " FileName "", d).
Proof.
  intros Hfresh Hd Hc. unfold FileRead. cbv zeta. rewrite run_bind.
  destruct (Open_spec fresh Hfresh d Hd FileName) as [[Hn _] | (f & Ho & Hseek & E)]; [congruence |]. rewrite E.
  destruct some_turns as [n ->]. cbn [read_turns]. rewrite !run_bind.
  unfold ContentSize. rewrite (Read_next d FileName f 10 []) by (done || simpl; lia). rewrite drop_nil, take_nil. cbn [fst length].
  rewrite decide_True by lia. done.
Qed.

(** ** Claims *)

(** C14 [nachos -cp from to] and [nachos -p to]: on any well-formed disk, [Copy]
    of a UNIX file of at most [MaxFileSize] bytes ends; when the directory and
    the free sectors have room, the disk then holds exactly the bytes of the file
    under its new name, the other files are as they were, and [Print] prints these
    bytes; otherwise it says why and the disk is as it was. *)
Theorem copy_then_print fresh d unix from to c : fresh_ok fresh → fs_ok d → Forall byte to →
  unix !! from = Some c → Forall byte c → Z.of_nat (length c) ≤ MaxFileSize →
  ∃ d', run (a ← Copy fresh (fs_of d) unix from to; b ← Print fresh (fs_of d) to; mret (a, b)) d =
      Done (if may_create (files d) to (Z.of_nat (length c)) then ([], [Chars c])
            else (message "Copy: couldn't create output file " to "",
                  match files d !! key to with
                  | Some old => [Chars old]
                  | None => message "Print: unable to open file " to ""
                  end), d') ∧
    fs_ok d' ∧
    if may_create (files d) to (Z.of_nat (length c)) then files d' = <[key to := c]> (files d) else d' = d.
Proof.
  intros Hfresh Hd Hto Hc Hb Hl.
  destruct (Copy_spec fresh d unix from to Hfresh Hd Hto) as (out & d' & E & Hd' & Hfs & HQ).
  { intros c' Hc'. rewrite Hc in Hc'. by injection Hc' as <-. }
  rewrite Hc in HQ. exists d'. rewrite !run_bind, E, run_bind, <- Hfs, (Print_run fresh d' to Hfresh Hd').
  destruct (may_create (files d) to (Z.of_nat (length c))).
  - destruct HQ as [-> Hf]. split; [| done]. by rewrite Hf, lookup_insert_eq.
  - destruct HQ as [-> ->]. done.
Qed.

Lemma copy_then_print_witness : ∃ d',
  run (a ← Copy sample_fresh (fs_of sample_disk) {[ "motd" := chars "hello, nachos" ]} "motd" (chars "m");
       b ← Print sample_fresh (fs_of sample_disk) (chars "m"); mret (a, b)) sample_disk =
    Done (([], [Chars (chars "hello, nachos")]), d') ∧ fs_ok d'.
Proof.
  destruct sample_disk_ok as [Hok Hf].
  destruct (copy_then_print sample_fresh sample_disk {[ "motd" := chars "hello, nachos" ]} "motd" (chars "m")
    (chars "hello, nachos") sample_fresh_ok Hok) as (d' & E & Hok' & _).
  - repeat constructor; vm_compute; done.
  - apply lookup_singleton_eq.
  - repeat constructor; vm_compute; done.
  - vm_compute. discriminate.
  - exists d'. rewrite Hf in E. split; [exact E | exact Hok'].
Defined.

(** [nachos -t] on this file system: files do not grow, so on any disk where
    the test file can be created the performance test ends, reports that it could
    neither write nor read, and leaves the files as they were. *)
Theorem PerformanceTest_fails fresh d : fresh_ok fresh → fs_ok d → may_create (files d) FileName 0 = true →
  ∃ d', run (PerformanceTest fresh (fs_of d)) d = Done (perf_output, d') ∧ fs_ok d' ∧ files d' = files d.
Proof.
  intros Hfresh Hd Hmay.
  destruct (FileWrite_spec fresh d Hfresh Hd Hmay) as (out & d1 & E & Hd1 & Hfs1 & Hf1 & ->).
  assert (files d1 !! key FileName = Some []) as Hc by (rewrite Hf1; apply lookup_insert_eq).
  destruct (FsRemove_spec fresh Hfresh d1 Hd1 FileName) as (r & d2 & E2 & -> & HQ).
  rewrite Hc, bool_decide_true in E2, HQ by done. destruct HQ as (Hd2 & _ & Hf2 & _).
  exists d2. unfold PerformanceTest. rewrite run_bind, E, run_bind, <- Hfs1, (FileRead_run fresh d1 Hfresh Hd1 Hc), run_bind, E2.
  split; [done |]. split; [done |]. rewrite Hf2, Hf1. apply delete_insert_id. unfold may_create in Hmay.
  apply andb_true_iff in Hmay as [Hm _]. apply andb_true_iff in Hm as [Hm _]. by apply bool_decide_eq_true in Hm.
Qed.

Lemma PerformanceTest_fails_witness : ∃ d',
  run (PerformanceTest sample_fresh (fs_of sample_disk)) sample_disk = Done (perf_output, d') ∧ files d' = ∅.
Proof.
  destruct sample_disk_ok as [Hok Hf].
  destruct (PerformanceTest_fails sample_fresh sample_disk sample_fresh_ok Hok) as (d' & E & _ & Hf').
  - rewrite Hf. reflexivity.
  - exists d'. split; [exact E | exact (eq_trans Hf' Hf)].
Defined.
