(* ===== verification/DiskClaims.v ===== *)
(** * What the disk device and the synchronous disk promise *)

From stdpp Require Import base gmap list numbers list_numbers strings.
From Stdlib Require Import ZArith Lia.
From S2P Require Import Prelude FileStub Machine MachineFacts LinkedList Interrupt DiskProg Disk SynchDisk SynchDiskFacts.

(** A disk made from a file that does not exist yet. *)
Lemma new_disk_ok : ∃ d, Disk_new None = Done d ∧ device_ok d ∧ active d = false ∧ Forall byte (file d).
Proof.
  eexists. split; [reflexivity |]. set (f := pwrite_bytes _ _ _).
  assert (Z.of_nat (length f) = DiskSize ∧ Forall byte f) as [Hl Hf].
  { unfold f. rewrite !length_pwrite by (unfold DiskSize, MagicSize, NumSectors, SectorsPerTrack, NumTracks, SectorSize; lia).
    split; [change DiskSize with 131076; change (length magic_bytes) with 4%nat; rewrite length_le_bytes; simpl length; lia |].
    apply Forall_pwrite; [done | | apply le_bytes_range]. apply Forall_pwrite; [done | constructor | apply le_bytes_range]. }
  clearbody f. split_and!; [split; [exact Hl | split; cbn [lastSector bufferInit]; [change NumSectors with 1024; lia | lia]] | reflexivity | exact Hf].
Qed.

Definition sample_program : prog (list Z) := WriteSector 5 (replicate 128 65) ;; ReadSector 5.

Lemma sample_program_run d : run sample_program (sectors d) = Done (replicate 128 65, <[5%nat := replicate 128 65]> (sectors d)).
Proof.
  assert (length (sectors d) = 1024%nat) as Hl by apply length_sectors. unfold sample_program, WriteSector, ReadSector.
  cbn [mbind prog_mbind prog_bind run]. rewrite !valid_sector_true by done.
  rewrite rd_block_Done by (rewrite ?length_replicate; done). change (take _ _) with (replicate 128 65).
  rewrite wr_Done by (rewrite Hl; done). change (Z.to_nat 5) with 5%nat.
  rewrite (rd_Done _ 5 (replicate 128 65)); [done | done |]. apply list_lookup_insert_eq. rewrite Hl. lia.
Qed.

(** C10 Every program of the file system computes on the simulated device what it
    computes on the array of sectors.  Each [SynchDisk::ReadSector] and
    [WriteSector] takes the lock, makes one request, sleeps until the interrupt
    of the device wakes it, and returns with the lock free, the semaphore at 0
    and no interrupt pending: the machine never halts idle, the loops of [P] and
    [Sleep] end, and the device is never asked while it is active.  The clock
    must be far enough from overflow for the requests of the program. *)
Theorem synchronous_disk_refines {A} (p : prog A) c d a ds : device_ok d → active d = false → 0 ≤ now c →
  now c + call_time * Z.of_nat (requests p (sectors d)) < 2 ^ 31 - 80000 →
  run p (sectors d) = Done (a, ds) →
  ∃ c' d', srun p (quiet c d) = Done (a, quiet c' d') ∧ sectors d' = ds ∧ device_ok d' ∧ active d' = false ∧
    now c ≤ now c'.
Proof. intros Hd Hi H0 Hlim Hrun. exact (srun_run p c d a ds Hd Hi H0 Hlim Hrun). Qed.

Lemma synchronous_disk_refines_witness :
  ∃ d c' d', Disk_new None = Done d ∧ quiet (mkClock 0 0 0 0) d = SynchDisk_new d ∧
    srun sample_program (SynchDisk_new d) = Done (replicate 128 65, quiet c' d').
Proof.
  destruct new_disk_ok as (d & E & Hok & Hi & _).
  destruct (synchronous_disk_refines sample_program (mkClock 0 0 0 0) d (replicate 128 65)
    (<[5%nat := replicate 128 65]> (sectors d)) Hok Hi) as (c' & d' & Hrun & _).
  - done.
  - reflexivity.
  - apply sample_program_run.
  - exists d, c', d'. split; [exact E |]. split; [reflexivity | exact Hrun].
Defined.

(** C40 While the clock is below its bound ([disk_clock]) and the last request
    was for a sector of the disk ([head_ok]), the latency [Disk::ComputeLatency]
    gives to a request is positive and at most 32000 ticks, so that its interrupt
    is always in the future; unless the track buffer serves it, the request ends
    on a sector boundary exactly when the head has passed the sector asked for. *)
Theorem ComputeLatency_ends_after_sector k t s w : head_ok k → disk_clock t → 0 ≤ s < NumSectors →
  RotationTime ≤ ComputeLatency k t s w ≤ 32000 ∧
  (buffered k t s w = false →
     (t + ComputeLatency k t s w) mod RotationTime = 0 ∧
     ((t + ComputeLatency k t s w) / RotationTime - 1) mod SectorsPerTrack = s mod SectorsPerTrack).
Proof.
  intros Hk Ht Hs. split; [by apply ComputeLatency_bounds |]. intros Hb. exact (ComputeLatency_lands k t s w Hk Ht Hs Hb).
Qed.

Lemma ComputeLatency_ends_after_sector_witness :
  RotationTime ≤ ComputeLatency (mkDisk [] false 70 0 0 0) 12345 999 true ≤ 32000 ∧
  (12345 + ComputeLatency (mkDisk [] false 70 0 0 0) 12345 999 true) mod RotationTime = 0.
Proof.
  destruct (ComputeLatency_ends_after_sector (mkDisk [] false 70 0 0 0) 12345 999 true) as [H1 H2].
  - split; cbn [lastSector bufferInit]; [change NumSectors with 1024; lia | lia].
  - unfold disk_clock. lia.
  - split; [lia | reflexivity].
  - split; [exact H1 | apply H2; reflexivity].
Defined.
