(* ===== verification/Monitor.v ===== *)
(** * Threads that synchronise with locks and conditions

    The classes of this part of the system (threads/synchlist.h,
    threads/dinningph.cc, filesys/synchdisk.cc, network/post.cc) are used by
    many threads at once.  A system is a list of threads and the state they
    share; a thread is the list of the statements it has yet to execute, and a
    step executes the first statement of any thread that is not blocked.

    A semaphore is its value: [P] blocks while it is 0 and takes one off, [V]
    adds one, both in one step, which is what Kernel.v and KernelClaims.v
    establish of threads/synch.cc.  [Lock] and [Condition] are the code of
    threads/synch.cc over semaphores, statement by statement: a lock has a mutex
    and a holder, a thread that waits on a condition makes a semaphore of its
    own.  A component adds its actions ([Do]), executed without interruption,
    and what its devices do ([env]): change the data and [V] some semaphores. *)

From stdpp Require Import base gmap list numbers functions.
From Stdlib Require Import ZArith Lia.
From S2P Require Import Prelude.

(** The mutex of a lock, the semaphore of a waiting thread, or one of the
    component's own. *)
Inductive SemId (L U : Type) := Mutex (l : L) | Waiter (n : nat) | Named (u : U).
Arguments Mutex {L U} _.
Arguments Waiter {L U} _.
Arguments Named {L U} _.

#[export] Instance SemId_eq_dec {L U} `{EqDecision L, EqDecision U} : EqDecision (SemId L U).
Proof. solve_decision. Defined.

Inductive stmt (L C U A : Type) :=
| SP (s : SemId L U)
| SV (s : SemId L U)
| Hold (l : L)                 (* lockHolder = currentThread *)
| Unhold (l : L)               (* ASSERT(isHeldByCurrentThread()); lockHolder = NULL *)
| WaitOn (c : C) (l : L)
| SignalTo (c : C) (l : L)
| Do (a : A).
Arguments SP {L C U A} _.
Arguments SV {L C U A} _.
Arguments Hold {L C U A} _.
Arguments Unhold {L C U A} _.
Arguments WaitOn {L C U A} _ _.
Arguments SignalTo {L C U A} _ _.
Arguments Do {L C U A} _.

Definition Acquire {L C U A} (l : L) : list (stmt L C U A) := [SP (Mutex l); Hold l].
Definition Release {L C U A} (l : L) : list (stmt L C U A) := [Unhold l; SV (Mutex l)].

(** The rest of [Condition::Wait] once [waiter] is in the queue. *)
Definition wait_rest {L C U A} (l : L) (n : nat) : list (stmt L C U A) :=
  Release l ++ [SP (Waiter n)] ++ Acquire l.

(** What became of an action or a statement. *)
Inductive reaction (T X E : Type) :=
| Blocked
| Failed
| Next (push : list T) (x : X) (e : option E).
Arguments Blocked {T X E}.
Arguments Failed {T X E}.
Arguments Next {T X E} _ _ _.

Record Shared (L C U D : Type) := mkShared {
  semValue : SemId L U → Z;
  nextWaiter : nat;
  lockHolder : L → option nat;
  waitQueue : C → list nat;
  data : D
}.
Arguments mkShared {L C U D} _ _ _ _ _.
Arguments semValue {L C U D} _ _.
Arguments nextWaiter {L C U D} _.
Arguments lockHolder {L C U D} _ _.
Arguments waitQueue {L C U D} _ _.
Arguments data {L C U D} _.

Record System (L C U A D : Type) := mkSystem {
  threads : list (list (stmt L C U A));
  shared : Shared L C U D
}.
Arguments mkSystem {L C U A D} _ _.
Arguments threads {L C U A D} _.
Arguments shared {L C U A D} _.

Section semantics.
Context {L C U A D E : Type} `{EqDecision L, EqDecision C, EqDecision U}.
Abbreviation stmt := (stmt L C U A).
Abbreviation Shared := (Shared L C U D).
Abbreviation System := (System L C U A D).
Implicit Types (m : Shared) (s : System) (x : SemId L U).

Definition add_value x (v : Z) m : Shared :=
  mkShared (<[x := semValue m x + v]> (semValue m)) (nextWaiter m) (lockHolder m) (waitQueue m) (data m).
Definition set_lock_holder (l : L) (h : option nat) m : Shared :=
  mkShared (semValue m) (nextWaiter m) (<[l := h]> (lockHolder m)) (waitQueue m) (data m).
Definition set_queue (c : C) (q : list nat) m : Shared :=
  mkShared (semValue m) (nextWaiter m) (lockHolder m) (<[c := q]> (waitQueue m)) (data m).
Definition set_data (d : D) m : Shared :=
  mkShared (semValue m) (nextWaiter m) (lockHolder m) (waitQueue m) d.
(** [waiter = new Semaphore("condition", 0); waitQueue->Append(waiter);] *)
Definition new_waiter (c : C) m : Shared :=
  mkShared (<[Waiter (nextWaiter m) := 0]> (semValue m)) (S (nextWaiter m)) (lockHolder m)
    (<[c := waitQueue m c ++ [nextWaiter m]]> (waitQueue m)) (data m).

Variable act : nat → A → D → reaction stmt D E.
Variable env : D → option E → D → list U → Prop.

(** [delete waiter] at the end of [Wait] only frees memory. *)
Definition perform (t : nat) (i : stmt) (m : Shared) : reaction stmt Shared E :=
  match i with
  | SP x => if decide (semValue m x = 0) then Blocked else Next [] (add_value x (-1) m) None
  | SV x => Next [] (add_value x 1 m) None
  | Hold l => Next [] (set_lock_holder l (Some t) m) None
  | Unhold l => if decide (lockHolder m l = Some t) then Next [] (set_lock_holder l None m) None else Failed
  | WaitOn c l =>
      if decide (lockHolder m l = Some t) then Next (wait_rest l (nextWaiter m)) (new_waiter c m) None else Failed
  | SignalTo c l =>
      if decide (lockHolder m l = Some t) then
        match waitQueue m c with
        | [] => Next [] m None
        | n :: q => Next [SV (Waiter n)] (set_queue c q m) None
        end
      else Failed
  | Do a =>
      match act t a (data m) with
      | Blocked => Blocked
      | Failed => Failed
      | Next push d e => Next push (set_data d m) e
      end
  end.

Definition raise_all (us : list U) m : Shared := foldr (λ u, add_value (Named u) 1) m us.

Inductive step : System → option E → System → Prop :=
| step_thread ts m t i r push m' e : ts !! t = Some (i :: r) → perform t i m = Next push m' e →
    step (mkSystem ts m) e (mkSystem (<[t := push ++ r]> ts) m')
| step_device ts m e d us : env (data m) e d us →
    step (mkSystem ts m) e (mkSystem ts (raise_all us (set_data d m))).

(** What was seen on the way, in order. *)
Inductive reach (s : System) : list E → System → Prop :=
| reach_refl : reach s [] s
| reach_step tr s1 e s2 : reach s tr s1 → step s1 e s2 → reach s (tr ++ option_list e) s2.

(** Nothing waits and every lock is free. *)
Definition start (values : U → Z) (d : D) (programs : list (list stmt)) : System :=
  mkSystem programs (mkShared (λ x, match x with Mutex _ => 1 | Waiter _ => 0 | Named u => values u end) 0
    (λ _, None) (λ _, []) d).

(** Runs, for examples: which thread moves. *)
Definition move (t : nat) s : option (System * list E) :=
  match threads s !! t with
  | Some (i :: r) =>
      match perform t i (shared s) with
      | Next push m e => Some (mkSystem (<[t := push ++ r]> (threads s)) m, option_list e)
      | _ => None
      end
  | _ => None
  end.

Fixpoint moves (order : list nat) s : option (System * list E) :=
  match order with
  | [] => Some (s, [])
  | t :: order' =>
      match move t s with
      | Some (s1, e) => match moves order' s1 with Some (s2, es) => Some (s2, e ++ es) | None => None end
      | None => None
      end
  end.

Lemma move_step t s s1 e : move t s = Some (s1, e) → ∃ o, e = option_list o ∧ step s o s1.
Proof.
  destruct s as [ts m]. unfold move. simpl. destruct (ts !! t) as [[| i r] |] eqn:Et; [done | | done].
  destruct (perform t i m) as [| | push m' o] eqn:Ex; [done | done |]. intros [= <- <-]. exists o.
  split; [done |]. by econstructor.
Qed.

Lemma reach_trans s s1 s2 tr tr' : reach s tr s1 → reach s1 tr' s2 → reach s (tr ++ tr') s2.
Proof.
  intros H1 H2. induction H2 as [| tr' s2 e s3 _ IH Hstep]; [by rewrite app_nil_r |].
  rewrite app_assoc. by eapply reach_step.
Qed.

Lemma moves_reach order : ∀ s s' tr, moves order s = Some (s', tr) → reach s tr s'.
Proof.
  induction order as [| t order IH]; intros s s' tr; simpl; [intros [= <- <-]; constructor |].
  destruct (move t s) as [[s1 e] |] eqn:Em; [| done]. destruct (moves order s1) as [[s2 es] |] eqn:Ems; [| done].
  intros [= <- <-]. destruct (move_step _ _ _ _ Em) as (o & -> & Hstep).
  apply (reach_trans _ s1); [| by apply IH]. exact (reach_step s [] s o s1 (reach_refl s) Hstep).
Qed.

Definition scheduled (order : list nat) s : System * list E := default (s, []) (moves order s).

Lemma scheduled_reach order s : bool_decide (is_Some (moves order s)) = true →
  reach s (scheduled order s).2 (scheduled order s).1.
Proof.
  intros [[s' tr] Hm]%bool_decide_eq_true. unfold scheduled. rewrite Hm. by apply (moves_reach order).
Qed.

(** An invariant of the steps holds wherever the system gets. *)
Lemma reach_inv (I : list E → System → Prop) s : I [] s →
  (∀ tr s1 e s2, I tr s1 → step s1 e s2 → I (tr ++ option_list e) s2) → ∀ tr s', reach s tr s' → I tr s'.
Proof. intros H0 Hs tr s' H. induction H; eauto. Qed.
End semantics.
