(* ===== verification/MonitorFacts.v ===== *)
(** * What locks and conditions guarantee

    Where a thread stands with a lock can be read off the statements it has yet
    to execute ([status]).  When these follow the protocol ([lock_wf]), at most
    one thread is between [Acquire] and [Release] of a lock, and no assertion of
    [Lock] or [Condition] fails.  The wake-ups of conditions are conserved: a
    thread that waits is in the queue, or its wake-up is on the way. *)

From stdpp Require Import base gmap list numbers functions list_numbers.
From Stdlib Require Import ZArith Lia.
From S2P Require Import Prelude Monitor.

(** ** Sums over the threads *)

Lemma sum_insert {X} (f : X → nat) (l : list X) t x y : l !! t = Some x →
  (sum_list_with f (<[t := y]> l) + f x = sum_list_with f l + f y)%nat.
Proof.
  revert t. induction l as [| z l IH]; intros [| t] Ht; simpl in *; [done | done | injection Ht as ->; lia |].
  specialize (IH t Ht). lia.
Qed.

Lemma sum_ge {X} (f : X → nat) (l : list X) t x : l !! t = Some x → (f x ≤ sum_list_with f l)%nat.
Proof.
  revert t. induction l as [| z l IH]; intros [| t] Ht; simpl in *; [done | done | injection Ht as ->; lia |].
  specialize (IH t Ht). lia.
Qed.

Lemma sum_two {X} (f : X → nat) (l : list X) t t' x x' : l !! t = Some x → l !! t' = Some x' → t ≠ t' →
  (f x + f x' ≤ sum_list_with f l)%nat.
Proof.
  revert t t'. induction l as [| z l IH]; intros [| t] [| t'] Ht Ht' Hne; simpl in *; try done.
  - injection Ht as ->. pose proof (sum_ge f l t' x' Ht'). lia.
  - injection Ht' as ->. pose proof (sum_ge f l t x Ht). lia.
  - assert (t ≠ t') as Hne' by congruence. specialize (IH t t' Ht Ht' Hne'). lia.
Qed.

Lemma sum_zero {X} (f : X → nat) (l : list X) : (∀ x, x ∈ l → f x = 0%nat) → sum_list_with f l = 0%nat.
Proof.
  induction l as [| x l IH]; intros Hf; simpl; [done |].
  rewrite (Hf x (list_elem_of_here _ _)), IH; [done |]. intros y Hy. by apply Hf, list_elem_of_further.
Qed.

Lemma sum_pos {X} (f : X → nat) (l : list X) : (0 < sum_list_with f l)%nat → ∃ t x, l !! t = Some x ∧ (0 < f x)%nat.
Proof.
  induction l as [| x l IH]; simpl; [lia |]. intros Hp. destruct (decide (0 < f x)%nat) as [Hx | Hx].
  - by exists 0%nat, x.
  - destruct IH as (t & y & Ht & Hy); [lia |]. by exists (S t), y.
Qed.

Lemma lookup_moved {X} (l : list X) t t' x y : <[t := x]> l !! t' = Some y →
  (t' = t ∧ y = x) ∨ (t' ≠ t ∧ l !! t' = Some y).
Proof. rewrite list_lookup_insert_Some. naive_solver. Qed.

Lemma lookup_here {X} (l : list X) t x y : l !! t = Some x → <[t := y]> l !! t = Some y.
Proof. intros Ht. apply list_lookup_insert_eq. by eapply lookup_lt_Some. Qed.

(** ** The state of a lock in a thread *)

Inductive lock_state := LFree | LTaken | LHeld | LLeaving.

#[export] Instance lock_state_eq_dec : EqDecision lock_state.
Proof. solve_decision. Defined.

Section locks.
Context {L C U A D E : Type} `{EqDecision L, EqDecision C, EqDecision U}.
Abbreviation stmt := (stmt L C U A).
Abbreviation Shared := (Shared L C U D).
Abbreviation System := (System L C U A D).

(** [LTaken]: the mutex is taken, the holder not yet set; [LLeaving]: the holder
    is cleared, the mutex not yet given back. *)
Fixpoint status (l : L) (p : list stmt) : lock_state :=
  match p with
  | [] => LFree
  | i :: r =>
      match i with
      | SP (Mutex l') => if decide (l' = l) then LFree else status l r
      | SV (Mutex l') => if decide (l' = l) then LLeaving else status l r
      | Hold l' => if decide (l' = l) then LTaken else status l r
      | Unhold l' | WaitOn _ l' | SignalTo _ l' => if decide (l' = l) then LHeld else status l r
      | _ => status l r
      end
  end.

(** What the actions of the component ask of the locks.  A thread that may have
    to wait for a lock or on a condition holds no other lock. *)
Variable needs : A → L → lock_state → Prop.

Definition stmt_ok (l : L) (i : stmt) (after : lock_state) : Prop :=
  match i with
  | SP (Mutex l') => after = if decide (l' = l) then LTaken else LFree
  | SP (Waiter _) => after = LFree
  | SV (Mutex l') => l' = l → after = LFree
  | Hold l' => l' = l → after = LHeld
  | Unhold l' => l' = l → after = LLeaving
  | WaitOn _ l' => after = if decide (l' = l) then LHeld else LFree
  | SignalTo _ l' => l' = l → after = LHeld
  | Do a => needs a l after
  | _ => True
  end.

Fixpoint lock_wf (l : L) (p : list stmt) : Prop :=
  match p with [] => True | i :: r => stmt_ok l i (status l r) ∧ lock_wf l r end.

Definition busy (l : L) (p : list stmt) : nat := if decide (status l p = LFree) then 0 else 1.

Variable act : nat → A → D → reaction stmt D E.
Variable env : D → option E → D → list U → Prop.

(** Actions leave the locks as they are. *)
Definition acts_ok : Prop := ∀ t a d push d' e l r, act t a d = Next push d' e → lock_wf l r → needs a l (status l r) →
  lock_wf l (push ++ r) ∧ status l (push ++ r) = status l r.

Record locks_ok (s : System) : Prop := {
  lk_wf : ∀ t p l, threads s !! t = Some p → lock_wf l p;
  lk_count : ∀ l, semValue (shared s) (Mutex l) + Z.of_nat (sum_list_with (busy l) (threads s)) = 1;
  lk_value : ∀ l, 0 ≤ semValue (shared s) (Mutex l);
  lk_holder : ∀ t p l, threads s !! t = Some p → status l p = LHeld → lockHolder (shared s) l = Some t
}.

Context (Hact : acts_ok).

(** What is left of a case of [exec_lock] when statement and lock are known. *)
Ltac lock_case :=
  simpl in *; rewrite ?fn_lookup_insert, ?fn_lookup_insert_ne by congruence;
  repeat match goal with
  | H : ?l = ?l → _ |- _ => specialize (H eq_refl); rewrite ?H in *
  end;
  repeat (case_decide; simpl in *; try congruence);
  split_and!; try done; try lia; try (by left); try (by right); try congruence; try naive_solver congruence.

(** One statement, as lock [l] sees it. *)
Lemma exec_lock t i r m push m' e l : lock_wf l (i :: r) → perform act t i m = Next push m' e →
  0 ≤ semValue m (Mutex l) →
  (status l (i :: r) = LHeld → lockHolder m l = Some t) →
  lock_wf l (push ++ r) ∧ 0 ≤ semValue m' (Mutex l) ∧
  semValue m' (Mutex l) + Z.of_nat (busy l (push ++ r)) = semValue m (Mutex l) + Z.of_nat (busy l (i :: r)) ∧
  (status l (push ++ r) = LHeld → lockHolder m' l = Some t) ∧
  (lockHolder m' l = lockHolder m l ∨ status l (i :: r) ≠ LFree).
Proof using Hact.
  intros [Hi Hr] Hx Hv Hh. unfold busy. destruct i as [x | x | l' | l' | c l' | c l' | a]; cbn [perform] in Hx.
  - destruct (decide (semValue m x = 0)) as [? | Hx0]; simplify_eq.
    destruct x as [l' | n | u]; [destruct (decide (l' = l)) as [-> | Hne] | |]; lock_case.
  - simplify_eq. destruct x as [l' | n | u]; [destruct (decide (l' = l)) as [-> | Hne] | |]; lock_case.
  - simplify_eq. destruct (decide (l' = l)) as [-> | Hne]; lock_case.
  - destruct (decide (lockHolder m l' = Some t)); simplify_eq.
    destruct (decide (l' = l)) as [-> | Hne]; lock_case.
  - destruct (decide (lockHolder m l' = Some t)); simplify_eq.
    destruct (decide (l' = l)) as [-> | Hne]; lock_case.
  - destruct (decide (lockHolder m l' = Some t)); simplify_eq.
    destruct (waitQueue m c) as [| n q]; simplify_eq; destruct (decide (l' = l)) as [-> | Hne]; lock_case.
  - destruct (act t a (data m)) as [| | push0 d e0] eqn:Ea; simplify_eq. simpl in Hi.
    destruct (Hact t a (data m) push d e l r Ea Hr Hi) as [Hw Hs]. rewrite Hs. lock_case.
Qed.

Lemma raise_all_value us (m : Shared) x : (∀ u, x ≠ Named u) → semValue (raise_all us m) x = semValue m x.
Proof. intros Hx. induction us as [| u us IH]; simpl; [done |]. by rewrite fn_lookup_insert_ne by (intros Heq; exact (Hx u (eq_sym Heq))). Qed.

Lemma raise_all_rest us (m : Shared) : lockHolder (raise_all us m) = lockHolder m ∧ waitQueue (raise_all us m) = waitQueue m ∧
  nextWaiter (raise_all us m) = nextWaiter m ∧ data (raise_all us m) = data m.
Proof. by induction us. Qed.

(** Two threads are never both between taking and giving back a lock. *)
Lemma lock_exclusive s t t' p p' l : locks_ok s → threads s !! t = Some p → threads s !! t' = Some p' →
  status l p ≠ LFree → status l p' ≠ LFree → t = t'.
Proof.
  intros Hs Ht Ht' Hp Hp'. destruct (decide (t = t')) as [| Hne]; [done | exfalso].
  pose proof (sum_two (busy l) _ _ _ _ _ Ht Ht' Hne) as Hsum. unfold busy in Hsum at 1 2.
  rewrite !decide_False in Hsum by done. pose proof (lk_count s Hs l). pose proof (lk_value s Hs l). lia.
Qed.

Lemma locks_ok_step s e s' : locks_ok s → step act env s e s' → locks_ok s'.
Proof using Hact.
  intros Hs Hstep. pose proof (lock_exclusive s) as Hex. pose proof Hs as [Hwf Hcount Hvalue Hholder].
  destruct Hstep as [ts m t i r push m' e Ht Hx | ts m e d us Hd]; simpl in *.
  - assert (∀ l, _) as Hone by
      (intros l; exact (exec_lock t i r m push m' e l (Hwf t _ l Ht) Hx (Hvalue l) (Hholder t _ l Ht))).
    split; simpl.
    + intros t' p l [[-> ->] | [_ Hp]]%lookup_moved; [apply Hone | by eapply Hwf].
    + intros l. destruct (Hone l) as (_ & _ & Hsum & _). pose proof (sum_insert (busy l) ts t (i :: r) (push ++ r) Ht).
      specialize (Hcount l). lia.
    + intros l. by apply Hone.
    + intros t' p l Hp Hheld. destruct (Hone l) as (_ & _ & _ & Hsame & Hother).
      destruct (lookup_moved _ _ _ _ _ Hp) as [[-> ->] | [Hne Hp']]; [by apply Hsame |].
      destruct Hother as [-> | Hbusy]; [by eapply Hholder |]. destruct Hne. apply (Hex t' t p (i :: r) l); try done. by rewrite Hheld.
  - destruct (raise_all_rest us (set_data d m)) as (Hh & _ & _ & _). split; simpl in *.
    + done.
    + intros l. rewrite raise_all_value by done. apply Hcount.
    + intros l. rewrite raise_all_value by done. apply Hvalue.
    + rewrite Hh. done.
Qed.

(** The only assertions that can fail are the component's own. *)
Lemma locks_ok_safe s t i r : locks_ok s → threads s !! t = Some (i :: r) → perform act t i (shared s) = Failed →
  ∃ a, i = Do a ∧ act t a (data (shared s)) = Failed.
Proof.
  intros Hs Ht Hx. pose proof (λ l, lk_holder s Hs t _ l Ht) as Hh.
  destruct i as [x | x | l | l | c l | c l | a]; simpl in Hx; try done; [by case_decide | exfalso.. |].
  1-3: specialize (Hh l); simpl in Hh; rewrite decide_True in Hh by done;
    rewrite Hh in Hx by done; rewrite decide_True in Hx by done; repeat case_match; done.
  exists a. split; [done |]. by destruct (act t a (data (shared s))).
Qed.

Definition programs_ok (programs : list (list stmt)) : Prop :=
  Forall (λ p, ∀ l, lock_wf l p ∧ status l p = LFree) programs.

Lemma locks_ok_start values d programs : programs_ok programs → locks_ok (start values d programs).
Proof.
  intros Hp. unfold programs_ok in Hp. rewrite Forall_lookup in Hp. split; simpl.
  - intros t p l Ht. by apply (Hp t p Ht l).
  - intros l. rewrite sum_zero; [lia |]. intros p Hin. apply list_elem_of_lookup in Hin as [t Ht].
    unfold busy. rewrite decide_True; [done |]. by apply (Hp t p Ht).
  - lia.
  - intros t p l Ht Hh. destruct (Hp t p Ht l) as [_ Hf]. congruence.
Qed.

Lemma locks_ok_reach s tr s' : locks_ok s → reach act env s tr s' → locks_ok s'.
Proof using Hact.
  intros Hs. apply (reach_inv act env (λ _ s, locks_ok s) s Hs). intros tr1 s1 e s2. apply locks_ok_step.
Qed.
End locks.

(** ** Wake-ups *)

Section wakeups.
Context {L C U A D E : Type} `{EqDecision L, EqDecision C, EqDecision U}.
Abbreviation stmt := (stmt L C U A).
Abbreviation Shared := (Shared L C U D).
Abbreviation System := (System L C U A D).

Definition is_P (n : nat) (i : stmt) : nat :=
  match i with SP (Waiter n') => if decide (n' = n) then 1 else 0 | _ => 0 end.
Definition is_V (n : nat) (i : stmt) : nat :=
  match i with SV (Waiter n') => if decide (n' = n) then 1 else 0 | _ => 0 end.
(** How often a thread will still wait for, or will still signal, waiter [n]. *)
Definition Ps (n : nat) (p : list stmt) : nat := sum_list_with (is_P n) p.
Definition Vs (n : nat) (p : list stmt) : nat := sum_list_with (is_V n) p.
Abbreviation allPs n s := (sum_list_with (Ps n) (threads s)).
Abbreviation allVs n s := (sum_list_with (Vs n) (threads s)).

(** Waiters occur nowhere in programs: [WaitOn] and [SignalTo] introduce them. *)
Definition quiet (p : list stmt) : Prop := ∀ n, Ps n p = 0%nat ∧ Vs n p = 0%nat.

Record wakeups_ok (s : System) : Prop := {
  wk_fresh : ∀ n, (nextWaiter (shared s) ≤ n)%nat → allPs n s = 0%nat ∧ ∀ c, n ∉ waitQueue (shared s) c;
  wk_nodup : ∀ c, NoDup (waitQueue (shared s) c);
  wk_one : ∀ n c c', n ∈ waitQueue (shared s) c → n ∈ waitQueue (shared s) c' → c = c';
  wk_value : ∀ n, 0 ≤ semValue (shared s) (Waiter n);
  wk_queued : ∀ n c, n ∈ waitQueue (shared s) c →
    allPs n s = 1%nat ∧ allVs n s = 0%nat ∧ semValue (shared s) (Waiter n) = 0;
  wk_gone : ∀ n, (∀ c, n ∉ waitQueue (shared s) c) →
    (allPs n s ≤ 1)%nat ∧ Z.of_nat (allPs n s) = semValue (shared s) (Waiter n) + Z.of_nat (allVs n s)
}.

Variable act : nat → A → D → reaction stmt D E.
Variable env : D → option E → D → list U → Prop.
Context (Hact : ∀ t a d push d' e, act t a d = Next push d' e → quiet push).

Lemma Ps_app n p q : Ps n (p ++ q) = (Ps n p + Ps n q)%nat.
Proof. apply sum_list_with_app. Qed.
Lemma Vs_app n p q : Vs n (p ++ q) = (Vs n p + Vs n q)%nat.
Proof. apply sum_list_with_app. Qed.

(** What one thread's move does to the sums. *)
Lemma sums_move ts t (p p' : list stmt) n : ts !! t = Some p →
  (sum_list_with (Ps n) (<[t := p']> ts) + Ps n p = sum_list_with (Ps n) ts + Ps n p' ∧
   sum_list_with (Vs n) (<[t := p']> ts) + Vs n p = sum_list_with (Vs n) ts + Vs n p')%nat.
Proof. intros Ht. by split; apply sum_insert. Qed.

Lemma wakeups_neutral ts m m' t p p' : wakeups_ok (mkSystem ts m) → ts !! t = Some p →
  (∀ n, Ps n p' = Ps n p ∧ Vs n p' = Vs n p) → (∀ n, semValue m' (Waiter n) = semValue m (Waiter n)) →
  waitQueue m' = waitQueue m → nextWaiter m' = nextWaiter m → wakeups_ok (mkSystem (<[t := p']> ts) m').
Proof.
  intros [Hf Hd Ho Hv Hq Hg] Ht Hp Hs Hw Hn. simpl in *.
  assert (∀ n, sum_list_with (Ps n) (<[t := p']> ts) = sum_list_with (Ps n) ts ∧
    sum_list_with (Vs n) (<[t := p']> ts) = sum_list_with (Vs n) ts) as Hsum.
  { intros n. destruct (sums_move ts t p p' n Ht), (Hp n). lia. }
  split; simpl; rewrite ?Hn, ?Hw; try done; intros n; destruct (Hsum n) as [HP HV]; rewrite ?HP, ?HV, ?Hs; eauto.
Qed.

Lemma wakeups_P ts m t n r : wakeups_ok (mkSystem ts m) → ts !! t = Some (SP (Waiter n) :: r) →
  semValue m (Waiter n) ≠ 0 → wakeups_ok (mkSystem (<[t := r]> ts) (add_value (Waiter n) (-1) m)).
Proof.
  intros [Hf Hd Ho Hv Hq Hg] Ht Hn. simpl in *.
  assert (∀ c, n ∉ waitQueue m c) as Hout by (intros c Hc; by destruct (Hq n c Hc) as (_ & _ & ?)).
  assert (∀ k, _) as Hsum by exact (λ k, sums_move ts t _ r k Ht). simpl in Hsum.
  split; simpl; try done.
  - intros k Hk. destruct (Hf k Hk) as [HP Hc]. split; [| done]. destruct (Hsum k). lia.
  - intros k. destruct (decide (k = n)) as [-> | Hne].
    + rewrite fn_lookup_insert. specialize (Hv n). lia.
    + by rewrite fn_lookup_insert_ne by congruence.
  - intros k c Hk. destruct (Hq k c Hk) as (HP & HV & Hval). assert (k ≠ n) as Hne by (intros ->; by apply (Hout c)).
    rewrite fn_lookup_insert_ne by congruence. destruct (Hsum k) as [H1 H2].
    rewrite decide_False in H1 by congruence. lia.
  - intros k Hk. destruct (Hg k Hk) as [HP Heq], (Hsum k) as [H1 H2]. destruct (decide (n = k)) as [-> | Hne].
    + rewrite fn_lookup_insert. lia.
    + rewrite fn_lookup_insert_ne by congruence. lia.
Qed.

Lemma wakeups_V ts m t n r : wakeups_ok (mkSystem ts m) → ts !! t = Some (SV (Waiter n) :: r) →
  wakeups_ok (mkSystem (<[t := r]> ts) (add_value (Waiter n) 1 m)).
Proof.
  intros [Hf Hd Ho Hv Hq Hg] Ht. simpl in *.
  assert (∀ c, n ∉ waitQueue m c) as Hout.
  { intros c Hc. destruct (Hq n c Hc) as (_ & HV & _). pose proof (sum_ge (Vs n) ts t _ Ht) as Hge. simpl in Hge.
    rewrite decide_True in Hge by done. lia. }
  assert (∀ k, _) as Hsum by exact (λ k, sums_move ts t _ r k Ht). simpl in Hsum.
  split; simpl; try done.
  - intros k Hk. destruct (Hf k Hk) as [HP Hc]. split; [| done]. destruct (Hsum k). lia.
  - intros k. destruct (decide (k = n)) as [-> | Hne].
    + rewrite fn_lookup_insert. specialize (Hv n). lia.
    + by rewrite fn_lookup_insert_ne by congruence.
  - intros k c Hk. destruct (Hq k c Hk) as (HP & HV & Hval). assert (k ≠ n) as Hne by (intros ->; by apply (Hout c)).
    rewrite fn_lookup_insert_ne by congruence. destruct (Hsum k) as [H1 H2].
    rewrite decide_False in H2 by congruence. lia.
  - intros k Hk. destruct (Hg k Hk) as [HP Heq], (Hsum k) as [H1 H2]. destruct (decide (n = k)) as [-> | Hne].
    + rewrite fn_lookup_insert. lia.
    + rewrite fn_lookup_insert_ne by congruence. lia.
Qed.

Lemma wakeups_wait ts m t c l r : wakeups_ok (mkSystem ts m) → ts !! t = Some (WaitOn c l :: r) →
  wakeups_ok (mkSystem (<[t := wait_rest l (nextWaiter m) ++ r]> ts) (new_waiter c m)).
Proof.
  intros [Hf Hd Ho Hv Hq Hg] Ht. simpl in *. set (w := nextWaiter m) in *.
  destruct (Hf w ltac:(lia)) as [HPw Hout]. pose proof (Hg w Hout) as [_ Hw]. rewrite HPw in Hw.
  assert (∀ k, _) as Hsum by exact (λ k, sums_move ts t _ (wait_rest l w ++ r) k Ht). simpl in Hsum.
  assert (∀ k c', k ∈ (<[c := waitQueue m c ++ [w]]> (waitQueue m)) c' ↔ k ∈ waitQueue m c' ∨ k = w ∧ c' = c) as Hin.
  { intros k c'. destruct (decide (c' = c)) as [-> | Hne].
    - rewrite fn_lookup_insert, elem_of_app, list_elem_of_singleton. naive_solver.
    - rewrite fn_lookup_insert_ne by done. naive_solver. }
  assert (0 ≤ semValue m (Waiter w)) by apply Hv.
  split; simpl.
  - intros k Hk. destruct (Hf k ltac:(lia)) as [HP Hc], (Hsum k) as [H1 H2]. rewrite decide_False in H1 by lia.
    split; [lia |]. intros c' [Hk' | [-> _]]%Hin; [by eapply Hc | lia].
  - intros c'. destruct (decide (c' = c)) as [-> | Hne].
    + rewrite fn_lookup_insert. apply NoDup_app. split_and!; [done | | apply NoDup_singleton].
      intros k Hk. rewrite list_elem_of_singleton. intros ->. by apply (Hout c).
    + by rewrite fn_lookup_insert_ne.
  - intros k c1 c2 [H1 | [-> ->]]%Hin [H2 | [Hk ->]]%Hin; subst; try done; [eauto | by apply Hout in H1 | by apply Hout in H2].
  - intros k. destruct (decide (k = w)) as [-> | Hne]; [by rewrite fn_lookup_insert |].
    by rewrite fn_lookup_insert_ne by (injection 1; fold w; lia).
  - intros k c' [Hk | [-> ->]]%Hin.
    + destruct (decide (k = w)) as [-> | Hne]; [by apply Hout in Hk |]. destruct (Hsum k) as [H1 H2], (Hq k c' Hk) as (? & ? & ?).
      rewrite decide_False in H1 by congruence. rewrite fn_lookup_insert_ne by (injection 1; fold w; lia). lia.
    + rewrite fn_lookup_insert. destruct (Hsum w) as [H1 H2]. rewrite decide_True in H1 by done. lia.
  - intros k Hk. assert (k ≠ w) as Hne by (intros ->; apply (Hk c), Hin; by right).
    rewrite fn_lookup_insert_ne by (injection 1; fold w; lia). destruct (Hsum k) as [H1 H2]. rewrite decide_False in H1 by congruence.
    destruct (Hg k) as [? ?]; [| lia]. intros c' Hc. apply (Hk c'), Hin. by left.
Qed.

Lemma wakeups_signal ts m t c l r n q : wakeups_ok (mkSystem ts m) → ts !! t = Some (SignalTo c l :: r) →
  waitQueue m c = n :: q → wakeups_ok (mkSystem (<[t := SV (Waiter n) :: r]> ts) (set_queue c q m)).
Proof.
  intros [Hf Hd Ho Hv Hq Hg] Ht Hc. simpl in *.
  assert (∀ k, _) as Hsum by exact (λ k, sums_move ts t _ (SV (Waiter n) :: r) k Ht). simpl in Hsum.
  pose proof (Hd c) as Hdup. rewrite Hc in Hdup. apply NoDup_cons in Hdup as [Hnq Hdup].
  assert (∀ k c', k ∈ (<[c := q]> (waitQueue m)) c' ↔ k ∈ waitQueue m c' ∧ k ≠ n) as Hin.
  { intros k c'. destruct (decide (c' = c)) as [-> | Hne].
    - rewrite fn_lookup_insert, Hc, elem_of_cons. naive_solver.
    - rewrite fn_lookup_insert_ne by done. split; [| by intros []]. intros Hk. split; [done |]. intros ->.
      apply Hne, (Ho n c' c Hk). rewrite Hc. apply list_elem_of_here. }
  destruct (Hq n c) as (HPn & HVn & Hvn); [rewrite Hc; apply list_elem_of_here |].
  split; simpl; try done.
  - intros k Hk. destruct (Hf k Hk) as [HP Hk'], (Hsum k) as [H1 H2]. split; [lia |]. intros c' [Hkc _]%Hin. by eapply Hk'.
  - intros c'. destruct (decide (c' = c)) as [-> | Hne]; [by rewrite fn_lookup_insert | by rewrite fn_lookup_insert_ne].
  - intros k c1 c2 [H1 _]%Hin [H2 _]%Hin. eauto.
  - intros k c' [Hk Hne]%Hin. destruct (Hsum k) as [H1 H2], (Hq k c' Hk) as (? & ? & ?).
    rewrite decide_False in H2 by congruence. lia.
  - intros k Hk. destruct (Hsum k) as [H1 H2]. destruct (decide (n = k)) as [-> | Hne]; [lia |].
    destruct (Hg k) as [? ?]; [| lia]. intros c' Hkc. apply (Hk c'), Hin. done.
Qed.

Lemma exec_push t i m push m' e n : perform act t i m = Next push m' e → Vs n (tail push) = 0%nat.
Proof using Hact.
  intros Hx. destruct i as [x | x | l | l | c l | c l | a]; simpl in Hx; repeat case_match; simplify_eq; try done.
  match goal with H : act _ _ _ = _ |- _ => destruct (Hact _ _ _ _ _ _ H n) as [_ HV] end.
  unfold Vs in *. destruct push; simpl in *; lia.
Qed.

Lemma wakeups_ok_step s e s' : wakeups_ok s → step act env s e s' → wakeups_ok s'.
Proof using Hact.
  intros Hs Hstep. destruct Hstep as [ts m t i r push m' e' Ht Hx | ts m e' d us Hd].
  - destruct i as [[l | n | u] | [l | n | u] | l | l | c l | c l | a]; simpl in Hx; repeat case_match; simplify_eq; simpl;
      try (by eapply wakeups_neutral; simpl; intros; rewrite ?fn_lookup_insert_ne).
    + by apply wakeups_P.
    + by apply wakeups_V.
    + by eapply (wakeups_wait ts m t c l r).
    + by eapply wakeups_signal.
    + eapply wakeups_neutral; [done | exact Ht | intros n | done..]. rewrite Ps_app, Vs_app.
      match goal with H : act _ _ _ = _ |- _ => destruct (Hact _ _ _ _ _ _ H n) as [-> ->] end. done.
  - destruct (raise_all_rest us (set_data d m)) as (_ & Hq & Hn & _). destruct Hs as [Hf Hdup Ho Hv Hqd Hg].
    split; simpl in *; rewrite ?Hq, ?Hn; try done; intros n; rewrite raise_all_value by done; eauto.
Qed.

Lemma wakeups_ok_start values d programs : Forall quiet programs → wakeups_ok (start values d programs).
Proof.
  intros Hp. rewrite Forall_forall in Hp.
  assert (∀ n, sum_list_with (Ps n) programs = 0%nat ∧ sum_list_with (Vs n) programs = 0%nat) as Hsum
    by (intros n; split; apply sum_zero; intros p Hin; by apply Hp).
  split; simpl; try done.
  - intros n _. split; [apply Hsum | by intros c ?%not_elem_of_nil].
  - intros c. apply NoDup_nil_2.
  - by intros n c c' ?%not_elem_of_nil.
  - by intros n c ?%not_elem_of_nil.
  - intros n _. destruct (Hsum n) as [-> ->]. lia.
Qed.

(** A thread that is to wake another does so at once. *)
Definition heads_ok (s : System) : Prop := ∀ t i r n, threads s !! t = Some (i :: r) → Vs n r = 0%nat.

Lemma heads_ok_step s e s' : heads_ok s → step act env s e s' → heads_ok s'.
Proof using Hact.
  intros Hs Hstep. destruct Hstep as [ts m t i r push m' e' Ht Hx | ts m e' d us Hd]; [| exact Hs].
  intros t' i' r' n Ht'. simpl in Ht'. destruct (lookup_moved _ _ _ _ _ Ht') as [[-> Heq] | [_ Hold]]; [| by eapply Hs].
  pose proof (Hs t i r n Ht) as Hr. pose proof (exec_push t i m push m' e' n Hx) as Hpush.
  destruct push as [| j push]; simpl in *; simplify_eq.
  - unfold Vs in *. simpl in Hr. lia.
  - rewrite Vs_app. lia.
Qed.

Lemma heads_ok_start values d programs : Forall quiet programs → heads_ok (start values d programs).
Proof.
  intros Hp t i r n Ht. simpl in Ht. rewrite Forall_lookup in Hp. destruct (Hp t _ Ht n) as [_ HV].
  unfold Vs in *. simpl in HV. lia.
Qed.

(** As many threads as a queue is long have a wait ahead of them. *)
Definition is_wait (i : stmt) : nat := match i with SP (Waiter _) => 1 | _ => 0 end.
Definition waits (p : list stmt) : nat := sum_list_with is_wait p.

Lemma sum_add {X} (f g : X → nat) (l : list X) :
  sum_list_with (λ x, f x + g x)%nat l = (sum_list_with f l + sum_list_with g l)%nat.
Proof. induction l as [| x l IH]; simpl; lia. Qed.

Lemma waits_bound (q : list nat) p : NoDup q → (sum_list_with (λ n, Ps n p) q ≤ waits p)%nat.
Proof.
  intros Hq. induction p as [| i p IH]; [by rewrite sum_zero |]. unfold Ps, waits in *. simpl. rewrite sum_add.
  assert (sum_list_with (λ n, is_P n i) q ≤ is_wait i)%nat; [| lia]. clear IH.
  destruct i as [[l | k | u] | x | l | l | c l | c l | a]; simpl; try (by rewrite sum_zero).
  induction Hq as [| n q Hn Hq IH]; simpl; [lia |]. case_decide as Hk; [| lia]. subst n.
  rewrite sum_zero; [lia |]. intros n Hin. rewrite decide_False; [done |]. by intros ->.
Qed.

Lemma sum_swap {X Y} (f : X → Y → nat) (l : list X) (k : list Y) :
  sum_list_with (λ x, sum_list_with (f x) k) l = sum_list_with (λ y, sum_list_with (λ x, f x y) l) k.
Proof. induction l as [| x l IH]; simpl; [by rewrite sum_zero |]. by rewrite sum_add, IH. Qed.

Lemma sum_le {X} (f g : X → nat) (l : list X) : (∀ x, x ∈ l → f x ≤ g x)%nat → (sum_list_with f l ≤ sum_list_with g l)%nat.
Proof.
  induction l as [| x l IH]; intros Hf; simpl; [done |]. pose proof (Hf x (list_elem_of_here _ _)).
  enough (sum_list_with f l ≤ sum_list_with g l)%nat by lia. apply IH. intros y Hy. by apply Hf, list_elem_of_further.
Qed.

Lemma queue_le_waits s c : wakeups_ok s → (length (waitQueue (shared s) c) ≤ sum_list_with waits (threads s))%nat.
Proof.
  intros Hs. set (q := waitQueue (shared s) c).
  transitivity (sum_list_with (λ n, sum_list_with (Ps n) (threads s)) q).
  - transitivity (sum_list_with (λ _, 1%nat) q); [clear; induction q; simpl; lia |].
    apply sum_le. intros n Hn. destruct (wk_queued s Hs n c Hn) as [-> _]. done.
  - rewrite sum_swap. apply sum_le. intros p _. apply waits_bound, (wk_nodup s Hs).
Qed.
End wakeups.

(** ** When nothing moves

    Without devices and with actions that do not block, a system in which no
    thread can move holds no lock, and its threads wait in the queues of
    conditions. *)

Section progress.
Context {L C U A D E : Type} `{EqDecision L, EqDecision C, EqDecision U}.
Abbreviation System := (System L C U A D).
Variable needs : A → L → lock_state → Prop.
Variable act : nat → A → D → reaction (stmt L C U A) D E.

Definition idle (s : System) : Prop := ∀ t i r push m e,
  threads s !! t = Some (i :: r) → perform act t i (shared s) ≠ Next push m e.

(** The statements at the heads of the threads neither wait for a semaphore of
    the component nor block nor fail in an action. *)
Definition plain (s : System) : Prop := ∀ t i r, threads s !! t = Some (i :: r) →
  (∀ u, i ≠ SP (Named u)) ∧ ∀ a, i = Do a → ∃ push d e, act t a (data (shared s)) = Next push d e.

Lemma idle_head s t i r : locks_ok needs s → plain s → idle s → threads s !! t = Some (i :: r) →
  (∃ l, i = SP (Mutex l) ∧ semValue (shared s) (Mutex l) = 0) ∨ (∃ n, i = SP (Waiter n) ∧ semValue (shared s) (Waiter n) = 0).
Proof.
  intros Hl Hp Hi Ht. destruct (perform act t i (shared s)) as [| | push m e] eqn:Hx; [| exfalso | by edestruct Hi].
  - destruct (Hp t i r Ht) as [Hu Ha]. destruct i as [[l | n | u] | x | l | l | c l | c l | a]; simpl in Hx;
      repeat case_match; simplify_eq; [left; eauto | right; eauto | by destruct (Hu u) |].
    destruct (Ha _ eq_refl) as (? & ? & ? & ?). congruence.
  - destruct (locks_ok_safe needs act s t i r Hl Ht Hx) as (a & -> & Hfail). destruct (Hp t _ r Ht) as [_ Ha].
    destruct (Ha _ eq_refl) as (? & ? & ? & ?). congruence.
Qed.

Lemma idle_free s t i r l : locks_ok needs s → plain s → idle s → threads s !! t = Some (i :: r) →
  status l (i :: r) = LFree.
Proof.
  intros Hl Hp Hi Ht. pose proof (lk_wf needs s Hl t _ l Ht) as [Hok _].
  destruct (idle_head s t i r Hl Hp Hi Ht) as [(l' & -> & _) | (n & -> & _)]; simpl in *; [by case_decide | done].
Qed.

(** [conditions]: where threads may wait. *)
Lemma idle_waits (conditions : list C) s t i r : locks_ok needs s → wakeups_ok s → heads_ok s → plain s → idle s →
  (∀ n c, n ∈ waitQueue (shared s) c → c ∈ conditions) →
  threads s !! t = Some (i :: r) → ∃ n c, i = SP (Waiter n) ∧ n ∈ waitQueue (shared s) c.
Proof.
  intros Hl Hw Hh Hp Hi Hcs Ht. destruct (idle_head s t i r Hl Hp Hi Ht) as [(l & -> & Hv) | (n & -> & Hv)].
  - exfalso. pose proof (lk_count needs s Hl l) as Hc. rewrite Hv in Hc.
    destruct (sum_pos (busy l) (threads s)) as (t' & p & Hp' & Hb); [lia |]. unfold busy in Hb.
    case_decide as Hf; [lia |]. destruct p as [| i' r']; [done |]. by rewrite (idle_free s t' i' r' l) in Hf.
  - exists n. destruct (decide (Exists (λ c, n ∈ waitQueue (shared s) c) conditions)) as [(c & _ & Hc)%Exists_exists | Hno];
      [by exists c | exfalso].
    destruct (wk_gone s Hw n) as [_ Hsum]; [intros c Hc; apply Hno, Exists_exists; eauto |]. rewrite Hv in Hsum.
    pose proof (sum_ge (Ps n) _ t _ Ht) as Hge. simpl in Hge. rewrite decide_True in Hge by done.
    destruct (sum_pos (Vs n) (threads s)) as (t' & p & Hp' & HV); [lia |]. destruct p as [| i' r']; [simpl in HV; lia |].
    pose proof (Hh t' i' r' n Hp') as Hr. unfold Vs in HV, Hr. simpl in HV. rewrite Hr in HV.
    destruct (idle_head s t' i' r' Hl Hp Hi Hp') as [(l & -> & _) | (k & -> & _)]; simpl in HV; lia.
Qed.
End progress.
