(* ===== verification/SynchList.v ===== *)
(** * Synchronized lists (threads/synchlist.h)

    [SynchList] is a [List] with a lock and a condition.  Its three operations
    are programs of Monitor.v; the list is the sequence of its items, which is
    what LinkedList.v proves of threads/list.h, and an access to it is one
    action: the lock keeps the others out while it lasts, which is part of what
    is proved.  Any number of threads call any operations in any order.

    The items come out in the order in which they went in, every call takes
    effect exactly once and between its [Acquire] and its [Release], no
    assertion fails, and no wake-up is lost: when no thread can go on, the list
    is empty and the threads that have not finished wait in [Remove]. *)

From stdpp Require Import base gmap list numbers functions list_numbers.
From Stdlib Require Import ZArith Lia.
From S2P Require Import Prelude Monitor MonitorFacts.

Section synchlist.
Context {Item : Type}.

Inductive SynchListAct :=
| ListAppend (item : Item)
| WhileEmpty               (* while (list->IsEmpty()) listEmpty->Wait(lock) *)
| ListRemove
| ListApply.

(** The call of [t] took effect: what was appended, removed ([None] is [NULL])
    or visited. *)
Inductive SynchListEvent :=
| Appended (t : nat) (item : Item)
| Removed (t : nat) (item : option Item)
| Applied (t : nat) (items : list Item).

Abbreviation stmt := (stmt unit unit Empty_set SynchListAct).
Abbreviation System := (System unit unit Empty_set SynchListAct (list Item)).

Definition act (t : nat) (a : SynchListAct) (l : list Item) : reaction stmt (list Item) SynchListEvent :=
  match a with
  | ListAppend item => Next [] (l ++ [item]) (Some (Appended t item))
  | WhileEmpty => match l with [] => Next [WaitOn tt tt; Do WhileEmpty] [] None | _ => Next [] l None end
  | ListRemove =>
      match l with
      | [] => Next [] [] (Some (Removed t None))
      | item :: l' => Next [] l' (Some (Removed t (Some item)))
      end
  | ListApply => Next [] l (Some (Applied t l))
  end.

Definition Append (item : Item) : list stmt :=
  Acquire tt ++ [Do (ListAppend item); SignalTo tt tt] ++ Release tt.
Definition Remove : list stmt := Acquire tt ++ [Do WhileEmpty; Do ListRemove] ++ Release tt.
Definition Apply : list stmt := Acquire tt ++ [Do ListApply] ++ Release tt.

Inductive SynchListCall := CAppend (item : Item) | CRemove | CApply.

Definition body (c : SynchListCall) : list stmt :=
  match c with CAppend item => Append item | CRemove => Remove | CApply => Apply end.
Definition program (cs : list SynchListCall) : list stmt := mjoin (body <$> cs).

Definition no_device (d : list Item) (e : option SynchListEvent) (d' : list Item) (us : list Empty_set) : Prop := False.

(** [new SynchList], used by one thread for each element of [css]. *)
Definition SynchList_new (css : list (list SynchListCall)) : System :=
  start (λ _, 0) [] (program <$> css).

Definition SynchList_run (css : list (list SynchListCall)) : list SynchListEvent → System → Prop :=
  reach act no_device (SynchList_new css).

(** ** Locks and wake-ups *)

(** Actions are executed with the lock held. *)
Definition needs (a : SynchListAct) (l : unit) (after : lock_state) : Prop := after = LHeld.

Lemma sl_act_locks : acts_ok needs act.
Proof.
  intros t a d push d' e [] r Ha Hw Hn. unfold needs in Hn.
  destruct a; simpl in Ha; repeat case_match; simplify_eq; simpl; rewrite ?Hn; done.
Qed.

Lemma sl_act_quiet t a d push d' e : act t a d = Next push d' e → quiet push.
Proof. intros Ha n. destruct a; simpl in Ha; repeat case_match; simplify_eq; done. Qed.

Lemma sl_program_locks cs : lock_wf needs tt (program cs) ∧ status tt (program cs) = LFree.
Proof.
  unfold program. induction cs as [| [item | |] cs [IHw IHs]]; simpl; unfold needs; rewrite ?IHs; done.
Qed.

Lemma program_quiet cs : quiet (program cs).
Proof. intros n. unfold program. by induction cs as [| [item | |] cs IH]. Qed.

(** ** The shape of a thread *)

(** What follows a statement: the list is only taken from after the test, and
    waited for after the test, and appending is followed by the signal. *)
Definition link (i : stmt) (next : option stmt) : Prop :=
  match i with
  | Do WhileEmpty => next = Some (Do ListRemove)
  | WaitOn _ _ => next = Some (Do WhileEmpty)
  | Do (ListAppend _) => next = Some (SignalTo tt tt)
  | _ => match next with
         | Some (Do ListRemove) | Some (WaitOn _ _) | Some (SignalTo _ _) => False
         | _ => True
         end
  end.

Fixpoint linked (p : list stmt) : Prop :=
  match p with [] => True | i :: r => link i (head r) ∧ linked r end.

(** A thread on its way through [Wait]. *)
Definition asleep (n : nat) (r : list stmt) : list stmt :=
  SP (Waiter n) :: SP (Mutex tt) :: Hold tt :: Do WhileEmpty :: r.
Definition in_wait (p : list stmt) : Prop :=
  waits p = 0%nat ∨ ∃ n r, waits r = 0%nat ∧
    (p = asleep n r ∨ p = SV (Mutex tt) :: asleep n r ∨ p = Unhold tt :: SV (Mutex tt) :: asleep n r).

(** Whether the next thing a thread does about the list is to take from it or
    to wake another that will. *)
Fixpoint credit (p : list stmt) : nat :=
  match p with
  | [] => 0
  | SignalTo _ _ :: _ => 1
  | Do WhileEmpty :: _ | Do ListRemove :: _ => 1
  | Do _ :: _ => 0
  | _ :: r => credit r
  end.

Lemma in_wait_credit p : in_wait p → (waits p ≤ credit p)%nat.
Proof.
  intros [H | (n & r & Hr & [-> | [-> | ->]])]; [rewrite H; lia | ..]; unfold waits in *; simpl; rewrite Hr; lia.
Qed.

Lemma program_shape cs : linked (program cs) ∧ waits (program cs) = 0%nat ∧
  match head (program cs) with Some (SP (Mutex _)) | None => True | _ => False end.
Proof.
  unfold program. induction cs as [| c cs (IHl & IHw & IHh)]; [done |]. cbn [fmap list_fmap mjoin list_join].
  set (q := mjoin (body <$> cs)) in *. clearbody q.
  destruct c as [item | |]; simpl; (split_and!; try done; destruct q as [| [] ?]; simpl in *; done).
Qed.

Lemma in_wait_tail i r : in_wait (i :: r) → in_wait r.
Proof.
  intros [H | (n & q & Hq & [H | [H | H]])]; unfold in_wait, waits, asleep in *; simplify_eq; simpl in *.
  - left. lia.
  - by left.
  - right. by exists n, q; eauto.
  - right. exists n, q. eauto.
Qed.

Lemma in_wait_none i r : in_wait (i :: r) → match i with WaitOn _ _ | SignalTo _ _ | Do _ => waits r = 0%nat | _ => True end.
Proof. intros [H | (n & q & Hq & [H | [H | H]])]; unfold asleep in *; simplify_eq; [| done..]. unfold waits in H. destruct i; simpl in H; done || lia. Qed.

Lemma exec_shape t i r m push m' e : linked (i :: r) → in_wait (i :: r) →
  perform act t i m = Next push m' e → linked (push ++ r) ∧ in_wait (push ++ r).
Proof.
  intros [Hi Hr] Hw Hx. pose proof (in_wait_tail i r Hw) as Ht. pose proof (in_wait_none i r Hw) as Hn.
  destruct i as [x | x | l | l | c l | c l | a]; simpl in Hx; repeat case_match; simplify_eq; simpl in *; try done.
  - destruct r as [| j r]; [done |]. injection Hi as ->. split; [split_and!; try done; apply Hr |]. right. exists (nextWaiter m), r. destruct l. auto.
  - split; [done |]. by left.
  - destruct a as [item | | |]; simpl in *; repeat case_match; simplify_eq; simpl; try done.
    split; [done |]. by left.
Qed.

(** ** The list *)

(** What a thread that is about to wait or to take an item has seen. *)
Definition seen (p : list stmt) (l : list Item) : Prop :=
  match p with WaitOn _ _ :: _ => l = [] | Do ListRemove :: _ => l ≠ [] | _ => True end.

Lemma exec_seen t i r m push m' e : linked (i :: r) → seen (i :: r) (data m) → perform act t i m = Next push m' e →
  seen (push ++ r) (data m').
Proof.
  intros [Hi Hr] Hs Hx. destruct i as [x | x | l | l | c l | c l | [item | | |]]; simpl in Hx; repeat case_match;
    simplify_eq; simpl in *; try done; destruct r as [| [| | | | | | []] ?]; simpl in *; simplify_eq; try done.
Qed.

(** Every waiter, and every item while there is a waiter, is matched by a
    thread that will take an item or wake another. *)
Record list_ok (s : System) : Prop := {
  li_shape : ∀ t p, threads s !! t = Some p → linked p ∧ in_wait p;
  li_seen : ∀ t p, threads s !! t = Some p → seen p (data (shared s));
  li_credit : waitQueue (shared s) tt ≠ [] →
    (length (data (shared s)) + length (waitQueue (shared s) tt) ≤ sum_list_with credit (threads s))%nat
}.

Lemma exec_credit t i r m push m' e : linked (i :: r) → seen (i :: r) (data m) → perform act t i m = Next push m' e →
  waitQueue m' tt ≠ [] →
  (waitQueue m tt ≠ [] ∧
   length (data m') + length (waitQueue m' tt) + credit (i :: r) ≤
   length (data m) + length (waitQueue m tt) + credit (push ++ r))%nat ∨
  (∃ c l, i = WaitOn c l) ∧ data m' = [] ∧ length (waitQueue m' tt) = S (length (waitQueue m tt)) ∧
    credit (push ++ r) = 1%nat ∧ credit (i :: r) = 1%nat.
Proof.
  intros [Hi Hr] Hs Hx Hq. destruct i as [x | x | l | l | [] l | [] l | [item | | |]]; simpl in Hx; repeat case_match;
    simplify_eq; simpl in *; try (left; split; [done | lia]).
  - right. rewrite fn_lookup_insert, length_app. destruct r as [| j r]; [done |]. injection Hi as ->. simpl.
    split_and!; [eauto | done | lia | done | done].
  - left. rewrite fn_lookup_insert. split; [done |]. lia.
  - left. split; [done |]. destruct r as [| j r]; [done |]. injection Hi as ->. rewrite length_app. simpl. lia.
  - left. split; [done |]. destruct r as [| j r]; [done |]. injection Hi as ->. simpl. lia.
Qed.

(** A thread that is about to wait or to take an item holds the lock, and so
    does one that is about to change the list. *)
Lemma seen_others s t t' i r p push m' e : locks_ok needs s → threads s !! t = Some (i :: r) →
  threads s !! t' = Some p → t' ≠ t → perform act t i (shared s) = Next push m' e →
  seen p (data (shared s)) → seen p (data m').
Proof.
  intros Hl Ht Ht' Hne Hx Hs. destruct (decide (status tt p = LFree)) as [Hf | Hb].
  - destruct p as [| [| | | | [] [] | | []] q]; simpl in *; try done.
    pose proof (lk_wf needs s Hl t' _ tt Ht') as [Hn _]. simpl in Hn. unfold needs in Hn. congruence.
  - assert (status tt (i :: r) = LFree) as Hi.
    { destruct (decide (status tt (i :: r) = LFree)) as [| Hi]; [done |]. destruct Hne.
      exact (lock_exclusive needs s t' t p (i :: r) tt Hl Ht' Ht Hb Hi). }
    pose proof (lk_wf needs s Hl t _ tt Ht) as [Hn _].
    destruct i as [x | x | l | l | c l | c l | a]; simpl in Hx; repeat case_match; simplify_eq; try done.
    simpl in *. unfold needs in Hn. congruence.
Qed.

Lemma list_ok_step s e s' : locks_ok needs s → wakeups_ok s → list_ok s → step act no_device s e s' → list_ok s'.
Proof.
  intros Hl Hw Hs Hstep. pose proof (λ t t' i r p push m' e, seen_others s t t' i r p push m' e Hl) as Hother.
  destruct Hs as [Hsh Hse Hcr]. destruct Hstep as [ts m t i r push m' e' Ht Hx | ts m e' d us []]. simpl in *.
  destruct (Hsh t _ Ht) as [Hlk Hiw]. pose proof (Hse t _ Ht) as Hsn.
  split; simpl.
  - intros t' p [[-> ->] | [_ Hp]]%lookup_moved; [by eapply exec_shape | by eapply Hsh].
  - intros t' p [[-> ->] | [Hne Hp]]%lookup_moved; [by eapply exec_seen |]. by eapply (Hother t t'); eauto.
  - intros Hq. pose proof (sum_insert credit ts t _ (push ++ r) Ht) as Hsum.
    destruct (exec_credit t i r m push m' e' Hlk Hsn Hx Hq) as [[Hq0 Hle] | ((c & l & ->) & -> & Hlen & Hc1 & Hc2)].
    + specialize (Hcr Hq0). lia.
    + pose proof (queue_le_waits _ tt Hw) as Hqw. simpl in Hqw. rewrite Hlen, Hc1, Hc2 in *.
      enough (S (sum_list_with waits ts) ≤ sum_list_with credit ts)%nat by (simpl; lia).
      pose proof (sum_insert waits ts t _ [] Ht) as Hw0. pose proof (sum_insert credit ts t _ [] Ht) as Hc0.
      assert (sum_list_with waits (<[t := []]> ts) ≤ sum_list_with credit (<[t := []]> ts))%nat.
      { apply sum_le. intros p Hp. apply list_elem_of_lookup in Hp as [t' Hp].
        apply in_wait_credit. apply lookup_moved in Hp as [[_ ->] | [_ Hp]]; [by left | by eapply Hsh]. }
      assert (waits (WaitOn c l :: r) = 0%nat) as Hnone by exact (in_wait_none _ _ Hiw).
      rewrite Hnone in Hw0. rewrite Hc2 in Hc0. simpl in Hw0, Hc0. lia.
Qed.

Record synchlist_ok (s : System) : Prop := {
  sl_locks : locks_ok needs s;
  sl_wakeups : wakeups_ok s;
  sl_heads : heads_ok s;
  sl_list : list_ok s
}.

Lemma synchlist_ok_step s e s' : synchlist_ok s → step act no_device s e s' → synchlist_ok s'.
Proof.
  intros [H1 H2 H3 H4] Hstep. split.
  - exact (locks_ok_step needs act no_device sl_act_locks s e s' H1 Hstep).
  - exact (wakeups_ok_step act no_device sl_act_quiet s e s' H2 Hstep).
  - exact (heads_ok_step act no_device sl_act_quiet s e s' H3 Hstep).
  - exact (list_ok_step s e s' H1 H2 H4 Hstep).
Qed.

Lemma sl_program_lookup (css : list (list SynchListCall)) (t : nat) p : (program <$> css) !! t = Some p → ∃ cs, css !! t = Some cs ∧ p = program cs.
Proof. rewrite list_lookup_fmap. destruct (css !! t) as [cs |]; [| done]. intros [= <-]. eauto. Qed.

Lemma SynchList_new_ok css : synchlist_ok (SynchList_new css).
Proof.
  split.
  - apply locks_ok_start, Forall_lookup. intros t p (cs & _ & ->)%sl_program_lookup []. apply sl_program_locks.
  - apply wakeups_ok_start, Forall_lookup. intros t p (cs & _ & ->)%sl_program_lookup. apply program_quiet.
  - apply heads_ok_start, Forall_lookup. intros t p (cs & _ & ->)%sl_program_lookup. apply program_quiet.
  - split; simpl; [| | done].
    + intros t p (cs & _ & ->)%sl_program_lookup. destruct (program_shape cs) as (? & ? & _). split; [done | by left].
    + intros t p (cs & _ & ->)%sl_program_lookup. destruct (program_shape cs) as (_ & _ & Hh).
      destruct (program cs) as [| [] ?]; done.
Qed.

Lemma run_ok css tr s : SynchList_run css tr s → synchlist_ok s.
Proof.
  apply (reach_inv act no_device (λ _ s, synchlist_ok s)); [apply SynchList_new_ok |].
  intros tr0 s1 e s2. apply synchlist_ok_step.
Qed.

(** ** The calls as operations of a queue *)

Context `{EqDecision Item}.

(** One event on the queue of items, and a sequence of them; [None] when the
    queue does not allow it. *)
Definition fifo_event (l : list Item) (e : SynchListEvent) : option (list Item) :=
  match e with
  | Appended _ x => Some (l ++ [x])
  | Removed _ o =>
      match l, o with x :: l', Some y => if decide (x = y) then Some l' else None | _, _ => None end
  | Applied _ xs => if decide (xs = l) then Some l else None
  end.

Fixpoint fifo (l : list Item) (es : list SynchListEvent) : option (list Item) :=
  match es with [] => Some l | e :: es' => fifo_event l e ≫= λ l', fifo l' es' end.

Lemma fifo_app es : ∀ l es', fifo l (es ++ es') = fifo l es ≫= λ l', fifo l' es'.
Proof.
  induction es as [| e es IH]; intros l es'; simpl; [done |]. destruct (fifo_event l e); simpl; [apply IH | done].
Qed.

(** The calls of a thread that took effect, and those that have yet to. *)
Definition done_by (t : nat) (es : list SynchListEvent) : list SynchListCall :=
  omap (λ e, match e with
    | Appended t' x => if decide (t' = t) then Some (CAppend x) else None
    | Removed t' _ => if decide (t' = t) then Some CRemove else None
    | Applied t' _ => if decide (t' = t) then Some CApply else None
    end) es.

Definition pending (p : list stmt) : list SynchListCall :=
  omap (λ i, match i with
    | Do (ListAppend x) => Some (CAppend x)
    | Do ListRemove => Some CRemove
    | Do ListApply => Some CApply
    | _ => None
    end) p.

Lemma exec_event t i r m push m' e : seen (i :: r) (data m) → perform act t i m = Next push m' e →
  fifo (data m) (option_list e) = Some (data m') ∧
  done_by t (option_list e) ++ pending (push ++ r) = pending (i :: r) ∧
  ∀ t', t' ≠ t → done_by t' (option_list e) = [].
Proof.
  intros Hs Hx. destruct i as [x | x | l | l | c l | c l | [item | | |]]; simpl in Hx; repeat case_match;
    simplify_eq; simpl in *; rewrite ?decide_True by done; try done;
    split_and!; try done; intros t' Hne; by rewrite decide_False by done.
Qed.

Lemma sl_pending_program cs : pending (program cs) = cs.
Proof. unfold program. induction cs as [| [item | |] cs IH]; simpl; [done | f_equal; exact IH..]. Qed.

Lemma run_threads css tr s t cs : SynchList_run css tr s → css !! t = Some cs → ∃ p, threads s !! t = Some p.
Proof.
  intros Hr Ht. assert (length (threads s) = length css) as Hlen.
  { revert tr s Hr. apply (reach_inv act no_device (λ _ s, length (threads s) = length css)); [by simpl; rewrite length_fmap |].
    intros tr s1 e s2 Hl Hstep. destruct Hstep; [simpl in *; by rewrite length_insert | done]. }
  apply lookup_lt_is_Some. rewrite Hlen. by eapply lookup_lt_Some.
Qed.

(** C15 A [SynchList] used by any number of threads is a queue: the calls take
    effect one after the other, each exactly once and in the order of its
    thread, [Append] at the end, [Remove] at the front and only from a list that
    is not empty, and [Apply] visits the items that are in the list. *)
Theorem synchlist_linearizable css tr s : SynchList_run css tr s →
  fifo [] tr = Some (data (shared s)) ∧
  ∀ t cs, css !! t = Some cs → ∃ p, threads s !! t = Some p ∧ done_by t tr ++ pending p = cs.
Proof.
  intros Hrun. pose proof (λ t cs, run_threads css tr s t cs Hrun) as Hts.
  enough (synchlist_ok s ∧ fifo [] tr = Some (data (shared s)) ∧
    ∀ t cs p, css !! t = Some cs → threads s !! t = Some p → done_by t tr ++ pending p = cs) as (_ & Hf & Hd).
  { split; [done |]. intros t cs Ht. destruct (Hts t cs Ht) as [p Hp]. eauto. }
  clear Hts. revert tr s Hrun.
  apply (reach_inv act no_device (λ tr s, synchlist_ok s ∧ fifo [] tr = Some (data (shared s)) ∧
    ∀ t cs p, css !! t = Some cs → threads s !! t = Some p → done_by t tr ++ pending p = cs)).
  - split_and!; [apply SynchList_new_ok | done |]. intros t cs p Ht (cs' & Ht' & ->)%sl_program_lookup.
    simplify_eq. apply sl_pending_program.
  - intros tr s1 e s2 (Hok & Hf & Hd) Hstep. split; [by eapply synchlist_ok_step |].
    destruct Hstep as [ts m t i r push m' e Ht Hx | ts m e d us []]. simpl in *.
    destruct (exec_event t i r m push m' e (li_seen _ (sl_list _ Hok) t _ Ht) Hx) as (He & Ho & Hn).
    split; [rewrite fifo_app, Hf; exact He |]. unfold done_by in *.
    intros t' cs p Hcs [[-> ->] | [Hne Hp]]%lookup_moved; rewrite omap_app.
    + rewrite <- app_assoc, Ho. by apply (Hd t).
    + rewrite Hn, app_nil_r by done. by apply (Hd t').
Qed.

(** The lock of a [SynchList] excludes: at most one thread is between
    [Acquire] and [Release], a thread touches the list only there, and no
    assertion of [Lock] or [Condition] fails. *)
Theorem synchlist_exclusive css tr s : SynchList_run css tr s →
  (∀ t i r, threads s !! t = Some (i :: r) → perform act t i (shared s) ≠ Failed) ∧
  (∀ t t' p p', threads s !! t = Some p → threads s !! t' = Some p' → status tt p ≠ LFree → status tt p' ≠ LFree → t = t') ∧
  (∀ t a r, threads s !! t = Some (Do a :: r) → status tt (Do a :: r) = LHeld ∧ lockHolder (shared s) tt = Some t).
Proof.
  intros Hrun. destruct (run_ok css tr s Hrun) as [Hl _ _ _]. split_and!.
  - intros t i r Ht Hx. destruct (locks_ok_safe needs act s t i r Hl Ht Hx) as (a & -> & Hf).
    destruct a; simpl in Hf; repeat case_match; done.
  - intros t t' p p'. by apply (lock_exclusive needs s).
  - intros t a r Ht. pose proof (lk_wf needs s Hl t _ tt Ht) as [Hn _]. unfold stmt_ok, needs in Hn.
    split; [exact Hn |]. by apply (lk_holder needs s Hl t _ tt Ht).
Qed.

Lemma synchlist_plain css tr s : SynchList_run css tr s → plain act s.
Proof.
  intros _ t i r _. split; [by intros [] |]. intros a _. destruct a; simpl; repeat case_match; eauto.
Qed.

(** C20 No wake-up of a [SynchList] is lost: when no thread can go on, every
    thread that has not finished waits on [listEmpty] in a [Remove], and the
    list is empty. *)
Theorem synchlist_no_lost_wakeup css tr s : SynchList_run css tr s → idle act s →
  ∀ t i r, threads s !! t = Some (i :: r) →
  data (shared s) = [] ∧ (∃ n, i = SP (Waiter n) ∧ n ∈ waitQueue (shared s) tt) ∧ head (pending (i :: r)) = Some CRemove.
Proof.
  intros Hrun Hidle t i r Ht. pose proof (run_ok css tr s Hrun) as [Hl Hw Hh [Hsh _ Hcr]].
  assert (∀ t i r, threads s !! t = Some (i :: r) → ∃ n, i = SP (Waiter n) ∧ n ∈ waitQueue (shared s) tt) as Hall.
  { intros t' i' r' Ht'. destruct (idle_waits needs act [tt] s t' i' r') as (n & [] & -> & Hn); eauto using synchlist_plain.
    intros ? [] _. apply list_elem_of_here. }
  destruct (Hall t i r Ht) as (n & -> & Hn). split_and!; [| eauto |].
  - set (q := waitQueue (shared s) tt) in *. assert (q ≠ []) as Hq by (intros Heq; rewrite Heq in Hn; by apply not_elem_of_nil in Hn).
    specialize (Hcr Hq). enough (sum_list_with credit (threads s) ≤ length q)%nat by (destruct (data (shared s)); simpl in *; [done | lia]).
    transitivity (sum_list_with (λ k, sum_list_with (Ps k) (threads s)) q).
    + rewrite sum_swap. apply sum_le. intros p [t' Hp]%list_elem_of_lookup. destruct p as [| i' r']; [simpl; lia |].
      destruct (Hall t' i' r' Hp) as (k & -> & Hk). transitivity 1%nat.
      * destruct (Hsh t' _ Hp) as [_ [H0 | (k' & r0 & _ & [H0 | [H0 | H0]])]]; unfold asleep in *; simplify_eq; done.
      * apply list_elem_of_lookup in Hk as [j Hj].
        etransitivity; [| exact (sum_ge (λ x, Ps x (SP (Waiter k) :: r')) q j k Hj)]. simpl. rewrite decide_True by done. lia.
    + transitivity (sum_list_with (λ _, 1%nat) q); [| clear; induction q; simpl; lia].
      apply sum_le. intros k Hk. destruct (wk_queued s Hw k tt Hk) as [-> _]. done.
  - destruct (Hsh t _ Ht) as [Hlk [H0 | (k & r0 & _ & [H0 | [H0 | H0]])]]; unfold asleep in *; simplify_eq.
    destruct Hlk as (_ & _ & _ & Hlk & _). destruct r0 as [| j r0]; [done |]. injection Hlk as ->. done.
Qed.
End synchlist.

(** A [Remove] that finds the list empty, and an [Append] that wakes it. *)
Definition demo : list (list (SynchListCall (Item := Z))) := [[CRemove]; [CAppend 7; CApply]].
Definition demo_order : list nat := replicate 6 0%nat ++ replicate 12 1%nat ++ replicate 7 0%nat.
Definition demo_end := scheduled act demo_order (SynchList_new demo).

Lemma synchlist_linearizable_witness : SynchList_run demo (demo_end.2) (demo_end.1) ∧
  demo_end.2 = [Appended 1 7; Applied 1 [7]; Removed 0 (Some 7)] ∧
  fifo [] (demo_end.2) = Some (data (shared (demo_end.1))).
Proof.
  assert (SynchList_run demo (demo_end.2) (demo_end.1)) as Hrun by (apply scheduled_reach; vm_compute; reflexivity).
  split; [exact Hrun |]. split; [vm_compute; reflexivity |]. exact (proj1 (synchlist_linearizable _ _ _ Hrun)).
Defined.

Lemma synchlist_exclusive_witness : lockHolder (shared (scheduled act (replicate 2 1%nat) (SynchList_new demo)).1) tt = Some 1%nat.
Proof.
  assert (SynchList_run demo _ (scheduled act (replicate 2 1%nat) (SynchList_new demo)).1) as Hrun
    by (apply (scheduled_reach act no_device); vm_compute; reflexivity).
  destruct (synchlist_exclusive _ _ _ Hrun) as (_ & _ & Hheld). eapply (Hheld 1%nat). vm_compute. reflexivity.
Defined.

Lemma synchlist_no_lost_wakeup_witness :
  data (shared (scheduled act (replicate 6 0%nat) (SynchList_new (Item := Z) [[CRemove]])).1) = [].
Proof.
  assert (SynchList_run [[CRemove]] _ (scheduled act (replicate 6 0%nat) (SynchList_new (Item := Z) [[CRemove]])).1) as Hrun
    by (apply (scheduled_reach act no_device); vm_compute; reflexivity).
  refine (proj1 (synchlist_no_lost_wakeup _ _ _ Hrun _ 0%nat _ _ _)); [| vm_compute; reflexivity].
  intros [| t] i r push m e; vm_compute; [intros [= <- <-]; done | destruct t; done].
Defined.
