(* ===== verification/Dining.v ===== *)
(** * The dining philosophers (threads/dinningph.{h,cc}, threads/threadtest.cc)

    A monitor: five conditions, one lock, and a table of states that is only
    changed with the lock held.  The operations are programs of Monitor.v; the
    clients are the five threads of threadtest.cc, philosopher [k] being thread
    [k], that pick up, eat and put down a number of times.

    Neighbours never eat at the same time, a philosopher that returns from
    [pickup] is eating, no assertion fails, and the philosophers never all wait:
    as long as one has not finished, some thread can go on. *)

From stdpp Require Import base gmap list numbers functions list_numbers.
From Stdlib Require Import ZArith Lia.
From S2P Require Import Prelude Monitor MonitorFacts.

Inductive PhState := Thinking | Hungry | Eating.

#[export] Instance PhState_eq_dec : EqDecision PhState.
Proof. solve_decision. Defined.

Definition left_of (i : nat) : nat := ((i + 4) `mod` 5)%nat.
Definition right_of (i : nat) : nat := ((i + 1) `mod` 5)%nat.

Inductive PhAct :=
| SetState (who : nat) (st : PhState)   (* state[who] = st *)
| Test (i : nat)                        (* test(i) *)
| IfHungry (who : nat)                  (* if (state[who] == Hungry) self[who]->Wait(dp) *)
| Eat (who : nat).                      (* between pickup and putdown *)

(** Philosopher [who] ate. *)
Inductive PhEvent := Ate (who : nat).

Abbreviation stmt := (stmt unit nat Empty_set PhAct).
Abbreviation System := (System unit nat Empty_set PhAct (nat → PhState)).
Abbreviation Shared := (Shared unit nat Empty_set (nat → PhState)).

Definition act (t : nat) (a : PhAct) (state : nat → PhState) : reaction stmt (nat → PhState) PhEvent :=
  match a with
  | SetState who st => Next [] (<[who := st]> state) None
  | Test i =>
      if bool_decide (state (left_of i) ≠ Eating) && bool_decide (state i = Hungry)
         && bool_decide (state (right_of i) ≠ Eating)
      then Next [SignalTo i tt] (<[i := Eating]> state) None
      else Next [] state None
  | IfHungry who => if decide (state who = Hungry) then Next [WaitOn who tt] state None else Next [] state None
  | Eat who => Next [] state (Some (Ate who))
  end.

Definition pickup (who : nat) : list stmt :=
  Acquire tt ++ [Do (SetState who Hungry); Do (Test who); Do (IfHungry who)] ++ Release tt.
Definition putdown (who : nat) : list stmt :=
  Acquire tt ++ [Do (SetState who Thinking); Do (Test (left_of who)); Do (Test (right_of who))] ++ Release tt.

(** The loop of [Philo], [n] times. *)
Fixpoint Philo (who n : nat) : list stmt :=
  match n with O => [] | S n' => pickup who ++ [Do (Eat who)] ++ putdown who ++ Philo who n' end.

Definition no_device (d : nat → PhState) (e : option PhEvent) (d' : nat → PhState) (us : list Empty_set) : Prop := False.

(** [new DinningPh], and the five threads with their numbers of rounds. *)
Definition DinningPh_new (rounds : list nat) : System :=
  start (λ _, 0) (λ _, Thinking) (imap Philo rounds).

Definition dining_run (rounds : list nat) : list PhEvent → System → Prop :=
  reach act no_device (DinningPh_new rounds).

(** ** Locks and wake-ups *)

(** The table is changed with the lock held; the philosophers eat without. *)
Definition needs (a : PhAct) (l : unit) (after : lock_state) : Prop :=
  match a with Eat _ => after = LFree | _ => after = LHeld end.

Lemma dp_act_locks : acts_ok needs act.
Proof.
  intros t a d push d' e [] r Ha Hw Hn. destruct a as [who st | i | who | who]; simpl in *; repeat case_match;
    simplify_eq; simpl; rewrite ?Hn; done.
Qed.

Lemma dp_act_quiet t a d push d' e : act t a d = Next push d' e → quiet push.
Proof. intros Ha n. destruct a; simpl in Ha; repeat case_match; simplify_eq; done. Qed.

Lemma Philo_locks who n : lock_wf needs tt (Philo who n) ∧ status tt (Philo who n) = LFree.
Proof. induction n as [| n [IHw IHs]]; simpl; rewrite ?IHs; done. Qed.

Lemma Philo_quiet who n : quiet (Philo who n).
Proof. intros k. by induction n. Qed.

(** ** The phase of a philosopher *)

(** Where a philosopher is in its round, by what it does next with its state. *)
Inductive phase := PThinking | PHungry | PDecided | PEating | PWaiting (n : nat).

Fixpoint phase_of (t : nat) (p : list stmt) : phase :=
  match p with
  | [] => PThinking
  | Do (SetState _ Hungry) :: _ => PThinking
  | Do (SetState _ _) :: _ => PEating
  | Do (Test i) :: _ => if decide (i = t) then PHungry else PThinking
  | Do (IfHungry _) :: _ => PDecided
  | Do (Eat _) :: _ => PEating
  | WaitOn _ _ :: _ => PHungry
  | SP (Waiter n) :: _ => PWaiting n
  | _ :: r => phase_of t r
  end.

(** [test(i)] is still to come before the lock is given back. *)
Fixpoint will_test (i : nat) (p : list stmt) : bool :=
  match p with
  | [] | Unhold _ :: _ | SP _ :: _ => false
  | Do (Test j) :: r => bool_decide (j = i) || will_test i r
  | _ :: r => will_test i r
  end.

(** What follows each statement. *)
Definition follows (t : nat) (i : stmt) (r : list stmt) : Prop :=
  let after := phase_of t r in
  match i with
  | Do (SetState who Hungry) => who = t ∧ after = PHungry ∧ will_test t r = true
  | Do (SetState who Thinking) =>
      who = t ∧ after = PThinking ∧ will_test (left_of t) r = true ∧ will_test (right_of t) r = true
  | Do (SetState _ Eating) => False
  | Do (Test i) => (i < 5)%nat ∧ after = if decide (i = t) then PDecided else PThinking
  | Do (IfHungry who) => who = t ∧ after = PEating ∧ ∀ i, will_test i r = false
  | Do (Eat who) => who = t ∧ after = PEating
  | WaitOn c _ => c = t ∧ after = PEating ∧ ∀ i, will_test i r = false
  | SP (Waiter _) => after = PEating
  | SP _ | SV (Mutex _) | Hold _ | Unhold _ => after ≠ PHungry ∧ after ≠ PDecided
  | _ => True
  end.

Fixpoint phases_ok (t : nat) (p : list stmt) : Prop :=
  match p with [] => True | i :: r => follows t i r ∧ phases_ok t r end.

Definition is_signal (i : stmt) : nat := match i with SignalTo _ _ => 1 | _ => 0 end.

Lemma left_ne i : (i < 5)%nat → left_of i ≠ i ∧ right_of i ≠ i.
Proof. intros Hi. do 5 (destruct i as [| i]; [by vm_compute |]). lia. Qed.

Lemma near_bound i : (left_of i < 5)%nat ∧ (right_of i < 5)%nat.
Proof. split; apply Nat.mod_upper_bound; lia. Qed.

Lemma Philo_phases t n : (t < 5)%nat →
  phases_ok t (Philo t n) ∧ phase_of t (Philo t n) = PThinking ∧ sum_list_with is_signal (Philo t n) = 0%nat.
Proof.
  intros Ht. destruct (left_ne t Ht) as [Hl Hr]. destruct (near_bound t) as [Hlb Hrb].
  induction n as [| n (IHp & IHs & IHn)]; [done |]. cbn -[left_of right_of].
  rewrite !(decide_False (P := left_of t = t)), !(decide_False (P := right_of t = t)), !decide_True, IHs by done.
  rewrite !bool_decide_true by done. split_and!; try done. rewrite (bool_decide_true (right_of t = _)) by done.
  apply orb_true_r.
Qed.

(** ** The invariant *)

(** What the state of philosopher [t] is in each phase.  One that is still in
    the queue is hungry, unless it is about to be signalled. *)
Definition means (t : nat) (ph : phase) (s : System) : Prop :=
  let state := data (shared s) in
  match ph with
  | PThinking => state t = Thinking
  | PHungry => state t = Hungry
  | PDecided => state t ≠ Thinking
  | PEating => state t = Eating
  | PWaiting n => state t = Eating ∧ (n ∈ waitQueue (shared s) t → ∃ t' l r, threads s !! t' = Some (SignalTo t l :: r)) ∨
                  state t = Hungry ∧ n ∈ waitQueue (shared s) t
  end.

Record dine_ok (s : System) : Prop := {
  dn_five : length (threads s) = 5%nat;
  dn_phases : ∀ t p, threads s !! t = Some p → phases_ok t p ∧ sum_list_with is_signal (tail p) = 0%nat;
  dn_means : ∀ t p, threads s !! t = Some p → means t (phase_of t p) s;
  dn_signal : ∀ t c l r, threads s !! t = Some (SignalTo c l :: r) → data (shared s) c = Eating;
  dn_queue : ∀ n c, n ∈ waitQueue (shared s) c → ∃ p, threads s !! c = Some p ∧ phase_of c p = PWaiting n;
  dn_near : ∀ i, (i < 5)%nat → data (shared s) i = Eating → data (shared s) (right_of i) ≠ Eating;
  dn_hungry : ∀ i, (i < 5)%nat → data (shared s) i = Hungry →
    data (shared s) (left_of i) = Eating ∨ data (shared s) (right_of i) = Eating ∨
    ∃ t p, threads s !! t = Some p ∧ will_test i p = true
}.

(** A philosopher that is hungry or deciding holds the lock. *)
Lemma phase_held t p : phases_ok t p → lock_wf needs tt p → phase_of t p = PHungry ∨ phase_of t p = PDecided →
  status tt p = LHeld.
Proof.
  induction p as [| i p IH]; intros Hp Hl Hph; [by destruct Hph |]. destruct Hp as [Hf Hp], Hl as [Hn Hl].
  destruct i as [[[] | n | []] | [[] | n | []] | [] | [] | c [] | c [] | [who [] | i | who | who]]; simpl in *; try done;
    try (by naive_solver).
Qed.

(** The shape is kept, whatever the thread does. *)
Lemma exec_phases t i r m push m' e : phases_ok t (i :: r) → sum_list_with is_signal r = 0%nat →
  perform act t i m = Next push m' e →
  phases_ok t (push ++ r) ∧ sum_list_with is_signal (tail (push ++ r)) = 0%nat.
Proof.
  intros [Hf Hp] Hs Hx. assert (sum_list_with is_signal (tail r) = 0%nat) by (destruct r; simpl in *; lia).
  destruct i as [x | x | l | l | c l | c l | [who st | i | who | who]]; cbn -[left_of right_of] in Hx;
    repeat case_match; simplify_eq; cbn -[left_of right_of] in *; split_and!;
    first [done | naive_solver | by destruct Hf as (_ & -> & _)].
Qed.

(** Moves that change neither the states nor the queues. *)
Lemma dine_neutral ts m m' t p p' : dine_ok (mkSystem ts m) → ts !! t = Some p →
  data m' = data m → waitQueue m' = waitQueue m →
  phases_ok t p' → sum_list_with is_signal p' = 0%nat → (∀ c l r, p ≠ SignalTo c l :: r) →
  means t (phase_of t p') (mkSystem ts m) →
  (∀ n, phase_of t p = PWaiting n → n ∈ waitQueue m t → phase_of t p' = PWaiting n) →
  (∀ i, will_test i p = true → data m i = Hungry →
    will_test i p' = true ∨ data m (left_of i) = Eating ∨ data m (right_of i) = Eating) →
  dine_ok (mkSystem (<[t := p']> ts) m').
Proof.
  intros [H5 Hph Hm Hs Hq Hn Hh] Ht Hd Hw Hp' Hsig Hns Hmean Hkeep Htest. simpl in *.
  assert (∀ t' ph, means t' ph (mkSystem ts m) → means t' ph (mkSystem (<[t := p']> ts) m')) as Hlift.
  { intros t' ph. unfold means. simpl. rewrite Hd, Hw. destruct ph as [| | | | n]; try done.
    intros [[He Hsg] | Hr]; [left; split; [done |] | by right]. intros Hin.
    destruct (Hsg Hin) as (t1 & l & r & Ht1). exists t1, l, r. rewrite list_lookup_insert_ne; [done |].
    intros <-. rewrite Ht in Ht1. injection Ht1 as ->. by eapply Hns. }
  split; simpl; rewrite ?Hd, ?Hw.
  - by rewrite length_insert.
  - intros t' q [[-> ->] | [_ Hold]]%lookup_moved; [| by eapply Hph]. split; [done |]. destruct p'; simpl in *; lia.
  - intros t' q [[-> ->] | [_ Hold]]%lookup_moved; apply Hlift; [done | by apply Hm].
  - intros t' c l r [[-> Heq] | [_ Hold]]%lookup_moved; [| by eapply Hs]. subst p'. simpl in Hsig. lia.
  - intros n c Hin. destruct (Hq n c Hin) as (q & Hc & Hpq). destruct (decide (c = t)) as [-> | Hne].
    + rewrite Ht in Hc. injection Hc as <-. exists p'. split; [by eapply lookup_here | by apply Hkeep].
    + exists q. by rewrite list_lookup_insert_ne.
  - done.
  - intros i Hi Hhun. destruct (Hh i Hi Hhun) as [? | [? | (t1 & q & Hq1 & Hw1)]]; [by left | by right; left |].
    destruct (decide (t1 = t)) as [-> | Hne].
    + rewrite Ht in Hq1. injection Hq1 as <-. destruct (Htest i Hw1 Hhun) as [Hw' | [? | ?]]; [| by left | by right; left].
      right; right. exists t, p'. split; [by eapply lookup_here | done].
    + right; right. exists t1, q. by rewrite list_lookup_insert_ne.
Qed.

Lemma dine_wait ts m t l r : dine_ok (mkSystem ts m) → ts !! t = Some (WaitOn t l :: r) →
  dine_ok (mkSystem (<[t := wait_rest l (nextWaiter m) ++ r]> ts) (new_waiter t m)).
Proof.
  intros [H5 Hph Hm Hs Hq Hn Hh] Ht. simpl in *. set (p' := wait_rest l (nextWaiter m) ++ r).
  destruct (Hph t _ Ht) as [[Hf Hp] Hsig]. pose proof (Hm t _ Ht) as Hmt. simpl in Hf, Hp, Hsig, Hmt.
  split; simpl.
  - by rewrite length_insert.
  - intros t' q [[-> ->] | [_ Hold]]%lookup_moved; [| by eapply Hph]. unfold p'. simpl.
    destruct Hf as (_ & -> & _). split_and!; done.
  - intros t' q [[-> ->] | [Hne Hold]]%lookup_moved.
    + simpl. right. split; [done |]. rewrite fn_lookup_insert. apply elem_of_app. right. apply list_elem_of_here.
    + specialize (Hm t' q Hold). unfold means in *. simpl in *. destruct (phase_of t' q) as [| | | | n]; try done.
      rewrite fn_lookup_insert_ne by congruence. destruct Hm as [[He Hsg] | Hr]; [left; split; [done |] | by right].
      intros Hin. destruct (Hsg Hin) as (t1 & l1 & r1 & Ht1). exists t1, l1, r1. rewrite list_lookup_insert_ne; [done |].
      intros <-. by rewrite Ht in Ht1.
  - intros t' c l' r' [[-> Heq] | [_ Hold]]%lookup_moved; [done | by eapply Hs].
  - intros n c Hin. destruct (decide (c = t)) as [-> | Hne].
    + exists p'. split; [by eapply lookup_here |]. simpl. f_equal.
      rewrite fn_lookup_insert, elem_of_app, list_elem_of_singleton in Hin. destruct Hin as [Hin | ->]; [| done].
      destruct (Hq n t Hin) as (q & Hc & Hpq). rewrite Ht in Hc. injection Hc as <-. done.
    + rewrite fn_lookup_insert_ne in Hin by done. destruct (Hq n c Hin) as (q & Hc & Hpq).
      exists q. by rewrite list_lookup_insert_ne.
  - done.
  - intros i Hi Hhun. destruct (Hh i Hi Hhun) as [? | [? | (t1 & q & Hq1 & Hw1)]]; [by left | by right; left |].
    right; right. exists t1, q. rewrite list_lookup_insert_ne; [done |]. intros <-. rewrite Ht in Hq1. injection Hq1 as <-.
    simpl in Hw1. destruct Hf as (_ & _ & Hno). by rewrite Hno in Hw1.
Qed.

(** A signal empties the queue, which holds one waiter at most. *)
Lemma dine_signalled ts m m' t c l r p' : dine_ok (mkSystem ts m) → ts !! t = Some (SignalTo c l :: r) →
  data m' = data m → (∀ c', c' ≠ c → waitQueue m' c' = waitQueue m c') → (∀ n, n ∉ waitQueue m' c) →
  phases_ok t p' → phase_of t p' = phase_of t r → sum_list_with is_signal p' = 0%nat →
  (∀ i, will_test i p' = will_test i r) → dine_ok (mkSystem (<[t := p']> ts) m').
Proof.
  intros [H5 Hph Hm Hs Hq Hn Hh] Ht Hd Hw Hgone Hp' Hph' Hsig' Hwt'. simpl in *. pose proof (Hs t c l r Ht) as Hec.
  assert (∀ t' ph, means t' ph (mkSystem ts m) → means t' ph (mkSystem (<[t := p']> ts) m')) as Hlift.
  { intros t' ph. unfold means. simpl. rewrite Hd. destruct ph as [| | | | n]; try done. intros Hmn.
    destruct (decide (t' = c)) as [-> | Hne]; [left; split; [done | by intros ?%Hgone] |].
    rewrite Hw by done. destruct Hmn as [[He Hsg] | Hr]; [left; split; [done |] | by right]. intros Hin.
    destruct (Hsg Hin) as (t1 & l1 & r1 & Ht1). exists t1, l1, r1. rewrite list_lookup_insert_ne; [done |].
    intros <-. rewrite Ht in Ht1. by injection Ht1. }
  split; simpl; rewrite ?Hd.
  - by rewrite length_insert.
  - intros t' q [[-> ->] | [_ Hold]]%lookup_moved; [| by eapply Hph]. split; [done |]. destruct p'; simpl in *; lia.
  - intros t' q [[-> ->] | [_ Hold]]%lookup_moved; apply Hlift; [rewrite Hph'; exact (Hm t _ Ht) | by apply Hm].
  - intros t' c' l' r' [[-> Heq] | [_ Hold]]%lookup_moved; [| by eapply Hs]. subst p'. simpl in Hsig'. lia.
  - intros n c' Hin. destruct (decide (c' = c)) as [-> | Hne]; [by apply Hgone in Hin |]. rewrite Hw in Hin by done.
    destruct (Hq n c' Hin) as (q & Hc & Hpq). destruct (decide (c' = t)) as [-> | Hne'].
    + rewrite Ht in Hc. injection Hc as <-. exists p'. split; [by eapply lookup_here | by rewrite Hph'].
    + exists q. by rewrite list_lookup_insert_ne.
  - done.
  - intros i Hi Hhun. destruct (Hh i Hi Hhun) as [? | [? | (t1 & q & Hq1 & Hw1)]]; [by left | by right; left |].
    right; right. destruct (decide (t1 = t)) as [-> | Hne].
    + rewrite Ht in Hq1. injection Hq1 as <-. exists t, p'. split; [by eapply lookup_here | by rewrite Hwt'].
    + exists t1, q. by rewrite list_lookup_insert_ne.
Qed.

Lemma dine_signal ts m t c l r n q : dine_ok (mkSystem ts m) → NoDup (waitQueue m c) →
  ts !! t = Some (SignalTo c l :: r) → waitQueue m c = n :: q →
  dine_ok (mkSystem (<[t := SV (Waiter n) :: r]> ts) (set_queue c q m)).
Proof.
  intros Hs Hdup Ht Hc. destruct (dn_phases _ Hs t _ Ht) as [[_ Hp] Hsig].
  eapply (dine_signalled ts m _ t c l r); simpl; try done.
  - intros c' Hne. by rewrite fn_lookup_insert_ne.
  - intros k Hk. rewrite fn_lookup_insert in Hk. rewrite Hc in Hdup. apply NoDup_cons in Hdup as [Hnq _].
    destruct (dn_queue _ Hs n c) as (q1 & Hq1 & Hp1); [simpl; rewrite Hc; apply list_elem_of_here |].
    destruct (dn_queue _ Hs k c) as (q2 & Hq2 & Hp2); [simpl; rewrite Hc; by apply list_elem_of_further |]. congruence.
Qed.

Lemma near_inverse i : (i < 5)%nat → right_of (left_of i) = i ∧ left_of (right_of i) = i.
Proof. intros Hi. do 5 (destruct i as [| i]; [by vm_compute |]). lia. Qed.

(** Only the thread that holds the lock is about to signal. *)
Lemma only_signal (s : System) t p t' c l r : locks_ok needs s → threads s !! t = Some p → status tt p ≠ LFree →
  threads s !! t' = Some (SignalTo c l :: r) → t' = t.
Proof. intros Hl Ht Hb Ht'. destruct l. by apply (lock_exclusive needs s t' t _ p tt Hl Ht' Ht). Qed.

Lemma no_signal (s : System) t a r : locks_ok needs s → threads s !! t = Some (Do a :: r) → (∀ who, a ≠ Eat who) →
  status tt r = LHeld ∧ ∀ t' c l r', threads s !! t' = Some (SignalTo c l :: r') → False.
Proof.
  intros Hl Ht Ha. pose proof (lk_wf needs s Hl t _ tt Ht) as [Hn _].
  assert (status tt r = LHeld) as Hheld by (destruct a; simpl in Hn; try done; by edestruct Ha). split; [done |].
  intros t' c l r' Ht'. assert (t' = t) as -> by (eapply (only_signal s t _ t' c l r' Hl Ht); simpl; [by rewrite Hheld | done]).
  by rewrite Ht in Ht'.
Qed.

(** Hungry philosophers still have an eating neighbour or are still tested. *)
Lemma dine_set_hungry ts m t st r i : dine_ok (mkSystem ts m) → ts !! t = Some (Do (SetState t st) :: r) →
  (i < 5)%nat → (<[t := st]> (data m)) i = Hungry →
  (<[t := st]> (data m)) (left_of i) = Eating ∨ (<[t := st]> (data m)) (right_of i) = Eating ∨
  ∃ t' p, <[t := r]> ts !! t' = Some p ∧ will_test i p = true.
Proof.
  intros Hs Ht Hi Hhun. destruct (dn_phases _ Hs t _ Ht) as [[Hf _] _]. pose proof (dn_means _ Hs t _ Ht) as Hmt.
  assert (will_test i r = true → ∃ t' p, <[t := r]> ts !! t' = Some p ∧ will_test i p = true) as Hmine
    by (intros Hw; exists t, r; split; [by eapply lookup_here | done]).
  destruct (near_inverse i Hi) as [Hrl Hlr]. simpl in Hf, Hmt.
  destruct (decide (i = t)) as [-> | Hne].
  { rewrite fn_lookup_insert in Hhun. subst st. destruct Hf as (_ & _ & Hw). auto. }
  rewrite fn_lookup_insert_ne in Hhun by done. destruct (dn_hungry _ Hs i Hi Hhun) as [He | [He | (t1 & q & Hq1 & Hw1)]]; simpl in *.
  - destruct (decide (left_of i = t)) as [<- | Hn']; [| left; by rewrite fn_lookup_insert_ne].
    right; right. apply Hmine. destruct st; [| simpl in Hmt; congruence | done]. destruct Hf as (_ & _ & _ & Hw). by rewrite Hrl in Hw.
  - destruct (decide (right_of i = t)) as [<- | Hn']; [| right; left; by rewrite fn_lookup_insert_ne].
    right; right. apply Hmine. destruct st; [| simpl in Hmt; congruence | done]. destruct Hf as (_ & _ & Hw & _). by rewrite Hlr in Hw.
  - right; right. destruct (decide (t1 = t)) as [-> | Hn'].
    + rewrite Ht in Hq1. injection Hq1 as <-. auto.
    + exists t1, q. by rewrite list_lookup_insert_ne.
Qed.

(** [state[t] = st] by thread [t], which holds the lock. *)
Lemma dine_set ts m t st r : dine_ok (mkSystem ts m) → locks_ok needs (mkSystem ts m) →
  ts !! t = Some (Do (SetState t st) :: r) → dine_ok (mkSystem (<[t := r]> ts) (set_data (<[t := st]> (data m)) m)).
Proof.
  intros Hs Hl Ht. destruct (dn_phases _ Hs t _ Ht) as [[Hf Hp] Hsig]. pose proof (dn_means _ Hs t _ Ht) as Hmt.
  assert (st ≠ Eating) as Hst by (intros ->; exact Hf).
  destruct (no_signal _ t _ r Hl Ht) as [_ Hnosig]; [done |].
  pose proof (λ i, dine_set_hungry ts m t st r i Hs Ht) as Hhungry.
  destruct Hs as [H5 Hph Hm Hs Hq Hn Hh]. simpl in *.
  split; simpl.
  - by rewrite length_insert.
  - intros t' q [[-> ->] | [_ Hold]]%lookup_moved; [| by eapply Hph]. split; [done |]. destruct r; simpl in *; lia.
  - intros t' q [[-> ->] | [Hne Hold]]%lookup_moved.
    + unfold means. simpl. destruct st; [| | done]; destruct Hf as (_ & -> & _); by rewrite fn_lookup_insert.
    + specialize (Hm t' q Hold). unfold means in *. simpl in *. rewrite fn_lookup_insert_ne by congruence.
      destruct (phase_of t' q) as [| | | | n]; try done. destruct Hm as [[He Hsg] | Hr]; [left; split; [done |] | by right].
      intros Hin. destruct (Hsg Hin) as (t1 & l1 & r1 & Ht1). by apply Hnosig in Ht1.
  - intros t' c l' r' [[-> Heq] | [_ Hold]]%lookup_moved; [| by apply Hnosig in Hold]. subst r. simpl in Hsig. lia.
  - intros n c Hin. destruct (Hq n c Hin) as (q & Hc & Hpq). exists q. rewrite list_lookup_insert_ne; [done |].
    intros <-. rewrite Ht in Hc. injection Hc as <-. by destruct st.
  - intros i Hi Hei. assert (i ≠ t) as Hne by (intros ->; by rewrite fn_lookup_insert in Hei).
    rewrite fn_lookup_insert_ne in Hei by done. destruct (decide (right_of i = t)) as [<- | Hne'].
    + by rewrite fn_lookup_insert.
    + rewrite fn_lookup_insert_ne by done. by apply Hn.
  - exact Hhungry.
Qed.

(** A philosopher that does not hold the lock is neither deciding nor testing. *)
Lemma outsiders (s : System) t p t' q : locks_ok needs s → threads s !! t = Some p → status tt p ≠ LFree →
  threads s !! t' = Some q → t' ≠ t → phases_ok t' q → phase_of t' q ≠ PHungry ∧ phase_of t' q ≠ PDecided.
Proof.
  intros Hl Ht Hb Hold Hne Hpq. destruct (decide (status tt q = LHeld)) as [Hheld | Hfree].
  - destruct Hne. apply (lock_exclusive needs s t' t q p tt Hl Hold Ht); [by rewrite Hheld | done].
  - split; intros Hph; apply Hfree; apply (phase_held t' q Hpq); auto; exact (lk_wf needs s Hl t' q tt Hold).
Qed.

Lemma dine_test_hungry ts m t i r j : dine_ok (mkSystem ts m) → ts !! t = Some (Do (Test i) :: r) →
  (j < 5)%nat → (<[i := Eating]> (data m)) j = Hungry →
  (<[i := Eating]> (data m)) (left_of j) = Eating ∨ (<[i := Eating]> (data m)) (right_of j) = Eating ∨
  ∃ t' p, <[t := SignalTo i tt :: r]> ts !! t' = Some p ∧ will_test j p = true.
Proof.
  intros Hs Ht Hj Hhj. assert (j ≠ i) as Hne by (intros ->; by rewrite fn_lookup_insert in Hhj).
  rewrite fn_lookup_insert_ne in Hhj by done.
  assert (∀ k, data m k = Eating → (<[i := Eating]> (data m)) k = Eating) as Hmono.
  { intros k Hk. destruct (decide (k = i)) as [-> | ?]; [by rewrite fn_lookup_insert | by rewrite fn_lookup_insert_ne]. }
  destruct (dn_hungry _ Hs j Hj Hhj) as [? | [? | (t1 & q & Hq1 & Hw1)]]; cbn [threads shared] in *; auto; [].
  right; right. destruct (decide (t1 = t)) as [-> | Hne1].
  + rewrite Ht in Hq1. injection Hq1 as <-. exists t, (SignalTo i tt :: r). split; [by eapply lookup_here |].
    simpl in *. rewrite bool_decide_false in Hw1 by done. done.
  + exists t1, q. by rewrite list_lookup_insert_ne.
Qed.

(** [test(i)] lets philosopher [i] eat. *)
Lemma dine_test ts m t i r : dine_ok (mkSystem ts m) → locks_ok needs (mkSystem ts m) →
  ts !! t = Some (Do (Test i) :: r) →
  data m (left_of i) ≠ Eating → data m i = Hungry → data m (right_of i) ≠ Eating →
  dine_ok (mkSystem (<[t := SignalTo i tt :: r]> ts) (set_data (<[i := Eating]> (data m)) m)).
Proof.
  intros Hs Hl Ht Hle Hhi Hre. destruct (dn_phases _ Hs t _ Ht) as [[[Hi5 Hf] Hp] Hsig].
  pose proof (dn_means _ Hs t _ Ht) as Hmt. simpl in Hf, Hp, Hsig, Hmt.
  destruct (no_signal _ t _ r Hl Ht) as [Hheld Hnosig]; [done |].
  pose proof (λ t' q, outsiders _ t (Do (Test i) :: r) t' q Hl Ht ltac:(simpl; by rewrite Hheld)) as Hout.
  pose proof (λ j, dine_test_hungry ts m t i r j Hs Ht) as Hhungry.
  destruct (left_ne i Hi5) as [_ Hri]. destruct Hs as [H5 Hph Hm Hs Hq Hn Hh]. simpl in *.
  split; simpl.
  - by rewrite length_insert.
  - intros t' q [[-> ->] | [_ Hold]]%lookup_moved; [| by eapply Hph]. done.
  - intros t' q [[-> ->] | [Hne Hold]]%lookup_moved.
    + simpl. rewrite Hf. unfold means. simpl. case_decide as Hit; [subst i; by rewrite fn_lookup_insert |].
      rewrite fn_lookup_insert_ne by done. done.
    + specialize (Hm t' q Hold). destruct (Hout t' q Hold Hne (proj1 (Hph t' q Hold))) as [Ho1 Ho2].
      unfold means in *. simpl in *. destruct (decide (t' = i)) as [-> | Hti].
      * rewrite fn_lookup_insert. destruct (phase_of i q) as [| | | | n]; try congruence.
        left. split; [done |]. intros _. exists t, tt, r. by eapply lookup_here.
      * rewrite fn_lookup_insert_ne by congruence. destruct (phase_of t' q) as [| | | | n]; try done.
        destruct Hm as [[He Hsg] | Hr]; [left; split; [done |] | by right].
        intros Hin. destruct (Hsg Hin) as (t1 & l1 & r1 & Ht1). by apply Hnosig in Ht1.
  - intros t' c l' r' [[-> Heq] | [_ Hold]]%lookup_moved; [| by apply Hnosig in Hold]. injection Heq as -> _ _.
    by rewrite fn_lookup_insert.
  - intros n c Hin. destruct (Hq n c Hin) as (q & Hc & Hpq). exists q. rewrite list_lookup_insert_ne; [done |].
    intros <-. rewrite Ht in Hc. injection Hc as <-. simpl in Hpq. by case_decide.
  - intros j Hj Hej. destruct (decide (j = i)) as [-> | Hne]; [by rewrite fn_lookup_insert_ne by done |].
    rewrite fn_lookup_insert_ne in Hej by done. destruct (decide (right_of j = i)) as [<- | Hne'].
    + destruct (near_inverse j Hj) as [_ Hlr]. by rewrite Hlr in Hle.
    + rewrite fn_lookup_insert_ne by done. by apply Hn.
  - exact Hhungry.
Qed.

Lemma means_eating s t n : means t (PWaiting n) s → n ∉ waitQueue (shared s) t → data (shared s) t = Eating.
Proof. simpl. by intros [[He _] | [_ Hin]]. Qed.

(** [test(i)] finds that [i] is not hungry or has an eating neighbour. *)
Lemma dine_tested ts m t i r : dine_ok (mkSystem ts m) → ts !! t = Some (Do (Test i) :: r) →
  bool_decide (data m (left_of i) ≠ Eating) && bool_decide (data m i = Hungry) &&
    bool_decide (data m (right_of i) ≠ Eating) = false →
  dine_ok (mkSystem (<[t := r]> ts) (set_data (data m) m)).
Proof.
  intros Hs Ht Hb. destruct (dn_phases _ Hs t _ Ht) as [[[Hi5 Hf] Hp] Hsig]. pose proof (dn_means _ Hs t _ Ht) as Hmt.
  simpl in Hf, Hmt, Hsig. eapply (dine_neutral ts m _ t); try done.
  - rewrite Hf. case_decide as Hit; [| done]. simpl in *. by rewrite Hmt.
  - intros n. simpl. by case_decide.
  - intros j Hj Hhj. cbn -[left_of right_of] in Hj. destruct (decide (i = j)) as [<- | Hne].
    + right. rewrite (bool_decide_true (data m i = Hungry)), andb_true_r in Hb by done.
      apply andb_false_iff in Hb as [Hb | Hb]; apply bool_decide_eq_false, dec_stable in Hb; auto.
    + left. by rewrite bool_decide_false in Hj.
Qed.

Lemma dine_ok_step s e s' : locks_ok needs s → wakeups_ok s → dine_ok s → step act no_device s e s' → dine_ok s'.
Proof.
  intros Hl Hw Hs Hstep. destruct Hstep as [ts m t i r push m' e' Ht Hx | ts m e' d us []].
  destruct (dn_phases _ Hs t _ Ht) as [[Hf Hp] Hsig]. pose proof (dn_means _ Hs t _ Ht) as Hmt.
  destruct i as [[l | n | []] | [l | n | []] | l | l | c l | c l | [who st | i | who | who]].
  - simpl in Hx. case_decide; simplify_eq. eapply dine_neutral; simpl; eauto; done.
  - simpl in Hx. case_decide as Hv; simplify_eq. simpl in *.
    assert (n ∉ waitQueue m t) as Hnq by (intros Hin; by destruct (wk_queued _ Hw n t Hin) as (_ & _ & ?)).
    eapply dine_neutral; simpl; eauto; try done.
    + rewrite Hf. exact (means_eating (mkSystem ts m) t n Hmt Hnq).
    + by intros k [= <-] ?.
  - simpl in Hx. simplify_eq. eapply dine_neutral; simpl; eauto; done.
  - simpl in Hx. simplify_eq. eapply dine_neutral; simpl; eauto; done.
  - simpl in Hx. simplify_eq. eapply dine_neutral; simpl; eauto; done.
  - simpl in Hx. case_decide; simplify_eq. eapply dine_neutral; simpl; eauto; done.
  - simpl in Hx. case_decide; simplify_eq. destruct Hf as [-> _]. by apply dine_wait.
  - simpl in Hx. case_decide; simplify_eq. destruct (waitQueue m c) as [| n q] eqn:Hc; simplify_eq.
    + eapply (dine_signalled ts m' m' t c l r); eauto; [| done..]. intros n. rewrite Hc. apply not_elem_of_nil.
    + eapply dine_signal; eauto. apply (wk_nodup _ Hw).
  - simpl in Hx. simplify_eq. destruct st; destruct Hf as [-> _] || done; by apply dine_set.
  - cbn -[left_of right_of] in Hx. destruct Hf as [Hi5 Hf].
    destruct (bool_decide (data m (left_of i) ≠ Eating) && bool_decide (data m i = Hungry) &&
      bool_decide (data m (right_of i) ≠ Eating)) eqn:Hb; simplify_eq.
    + apply andb_prop in Hb as [[Hb1 Hb2]%andb_prop Hb3].
      apply bool_decide_eq_true in Hb1, Hb2, Hb3. by apply dine_test.
    + exact (dine_tested ts m t i r Hs Ht Hb).
  - simpl in Hx. destruct Hf as (-> & Hf & Hno). simpl in Hmt. case_decide as Hhun; simplify_eq.
    + eapply dine_neutral; simpl; eauto; done.
    + eapply dine_neutral; simpl; eauto; try done. rewrite Hf. simpl. by destruct (data m t).
  - simpl in Hx. simplify_eq. destruct Hf as [-> Hf]. eapply dine_neutral; simpl; eauto; try done.
    by rewrite Hf.
Qed.

Record philosophers_ok (s : System) : Prop := {
  ph_locks : locks_ok needs s;
  ph_wakeups : wakeups_ok s;
  ph_heads : heads_ok s;
  ph_dine : dine_ok s
}.

Lemma philosophers_ok_step s e s' : philosophers_ok s → step act no_device s e s' → philosophers_ok s'.
Proof.
  intros [H1 H2 H3 H4] Hstep. split.
  - exact (locks_ok_step needs act no_device dp_act_locks s e s' H1 Hstep).
  - exact (wakeups_ok_step act no_device dp_act_quiet s e s' H2 Hstep).
  - exact (heads_ok_step act no_device dp_act_quiet s e s' H3 Hstep).
  - exact (dine_ok_step s e s' H1 H2 H4 Hstep).
Qed.

Lemma Philo_lookup (rounds : list nat) (t : nat) p : imap Philo rounds !! t = Some p →
  ∃ n, rounds !! t = Some n ∧ p = Philo t n.
Proof. rewrite list_lookup_imap. destruct (rounds !! t) as [n |]; [| done]. intros [= <-]. eauto. Qed.

Lemma DinningPh_new_ok rounds : length rounds = 5%nat → philosophers_ok (DinningPh_new rounds).
Proof.
  intros H5. split.
  - apply locks_ok_start, Forall_lookup. intros t p (n & _ & ->)%Philo_lookup []. apply Philo_locks.
  - apply wakeups_ok_start, Forall_lookup. intros t p (n & _ & ->)%Philo_lookup. apply Philo_quiet.
  - apply heads_ok_start, Forall_lookup. intros t p (n & _ & ->)%Philo_lookup. apply Philo_quiet.
  - assert (∀ t p, imap Philo rounds !! t = Some p →
      phases_ok t p ∧ phase_of t p = PThinking ∧ sum_list_with is_signal p = 0%nat) as Hph.
    { intros t p (n & Hn & ->)%Philo_lookup. apply Philo_phases. rewrite <- H5. by eapply lookup_lt_Some. }
    split; simpl; try done.
    + by rewrite length_imap.
    + intros t p Ht. destruct (Hph t p Ht) as (? & _ & Hs). split; [done |]. destruct p; simpl in *; lia.
    + intros t p Ht. destruct (Hph t p Ht) as (_ & -> & _). done.
    + intros t c l r Ht. destruct (Hph t _ Ht) as (_ & _ & Hs). simpl in Hs. lia.
    + by intros n c ?%not_elem_of_nil.
Qed.

Lemma dining_ok rounds tr s : length rounds = 5%nat → dining_run rounds tr s → philosophers_ok s.
Proof.
  intros H5. apply (reach_inv act no_device (λ _ s, philosophers_ok s)); [by apply DinningPh_new_ok |].
  intros tr0 s1 e s2. apply philosophers_ok_step.
Qed.

(** C21 Neighbours never eat at the same time; a philosopher that has returned
    from [pickup] and not yet called [putdown] is eating; and no assertion of
    [Lock] or [Condition] fails. *)
Theorem dining_neighbours rounds tr s : length rounds = 5%nat → dining_run rounds tr s →
  (∀ i, (i < 5)%nat → ¬ (data (shared s) i = Eating ∧ data (shared s) (right_of i) = Eating)) ∧
  (∀ t who r, threads s !! t = Some (Do (Eat who) :: r) → who = t ∧ data (shared s) t = Eating) ∧
  (∀ t i r, threads s !! t = Some (i :: r) → perform act t i (shared s) ≠ Failed).
Proof.
  intros H5 Hrun. destruct (dining_ok rounds tr s H5 Hrun) as [Hl _ _ Hd]. split_and!.
  - intros i Hi [He Hr]. by apply (dn_near s Hd i Hi He).
  - intros t who r Ht. destruct (dn_phases s Hd t _ Ht) as [[[-> _] _] _]. split; [done |]. exact (dn_means s Hd t _ Ht).
  - intros t i r Ht Hx. destruct (locks_ok_safe needs act s t i r Hl Ht Hx) as (a & -> & Hf).
    destruct a; simpl in Hf; repeat case_match; done.
Qed.

(** How often philosopher [t] ate, and how often it is still going to. *)
Definition meals (t : nat) (tr : list PhEvent) : nat :=
  sum_list_with (λ e, match e with Ate who => if decide (who = t) then 1%nat else 0%nat end) tr.
Definition meals_left (p : list stmt) : nat := sum_list_with (λ i, match i with Do (Eat _) => 1%nat | _ => 0%nat end) p.

Lemma exec_meals t i r m push m' e : phases_ok t (i :: r) → perform act t i m = Next push m' e →
  (meals t (option_list e) + meals_left (push ++ r) = meals_left (i :: r))%nat ∧
  ∀ t', t' ≠ t → meals t' (option_list e) = 0%nat.
Proof.
  intros [Hf _] Hx. destruct i as [x | x | l | l | c l | c l | [who st | i | who | who]]; cbn -[left_of right_of] in Hx;
    repeat case_match; simplify_eq; try done.
  destruct Hf as [-> _]. unfold meals. simpl. rewrite decide_True by done. split; [done |].
  intros t' Hne. by rewrite decide_False.
Qed.

Lemma dining_meals rounds tr s : length rounds = 5%nat → dining_run rounds tr s →
  ∀ t p n, threads s !! t = Some p → rounds !! t = Some n → (meals t tr + meals_left p = n)%nat.
Proof.
  intros H5 Hrun.
  enough (philosophers_ok s ∧
    ∀ t p n, threads s !! t = Some p → rounds !! t = Some n → (meals t tr + meals_left p = n)%nat) as [_ ?]; [done |].
  revert tr s Hrun. apply (reach_inv act no_device (λ tr s, philosophers_ok s ∧
    ∀ t p n, threads s !! t = Some p → rounds !! t = Some n → (meals t tr + meals_left p = n)%nat)).
  - split; [by apply DinningPh_new_ok |]. intros t p n (k & Hk & ->)%Philo_lookup Hn. assert (k = n) as -> by congruence.
    clear. simpl. unfold meals_left. induction n as [| n IH]; simpl; [done | by f_equal].
  - intros tr s1 e s2 [Hok Hm] Hstep. split; [by eapply philosophers_ok_step |].
    destruct Hstep as [ts m t i r push m' e Ht Hx | ts m e d us []]. simpl in *.
    destruct (exec_meals t i r m push m' e (proj1 (dn_phases _ (ph_dine _ Hok) t _ Ht)) Hx) as [Hown Hoth].
    unfold meals in *. intros t' p n [[-> ->] | [Hne Hp]]%lookup_moved Hn; rewrite sum_list_with_app.
    + specialize (Hm t _ n Ht Hn). lia.
    + rewrite Hoth by done. specialize (Hm t' _ n Hp Hn). lia.
Qed.

(** When nothing moves, a philosopher that has not finished waits, hungry. *)
Lemma idle_hungry s : philosophers_ok s → idle act s →
  ∀ t i r, threads s !! t = Some (i :: r) → ∃ n, i = SP (Waiter n) ∧ data (shared s) t = Hungry.
Proof.
  intros [Hl Hw Hh Hd] Hidle.
  assert (∀ t i r, threads s !! t = Some (i :: r) → ∃ n c, i = SP (Waiter n) ∧ n ∈ waitQueue (shared s) c) as Hall.
  { intros t i r Ht. apply (idle_waits needs act (seq 0 5) s t i r); try done.
    - intros t' i' r' _. split; [by intros [] |]. intros a _. destruct a; cbn -[left_of right_of]; repeat case_match; eauto.
    - intros n c Hin. destruct (dn_queue s Hd n c Hin) as (q & Hq & _). apply elem_of_seq.
      apply lookup_lt_Some in Hq. rewrite (dn_five s Hd) in Hq. lia. }
  intros t i r Ht. destruct (Hall t i r Ht) as (n & c & -> & Hin). exists n. split; [done |].
  destruct (dn_queue s Hd n c Hin) as (q & Hq & Hpq). destruct q as [| i' r']; [done |].
  destruct (Hall c i' r' Hq) as (n' & c' & -> & _). injection Hpq as ->.
  assert (c = t) as ->.
  { destruct (decide (c = t)) as [| Hne]; [done | exfalso]. pose proof (sum_two (Ps n) _ _ _ _ _ Ht Hq (not_eq_sym Hne)) as H2.
    destruct (wk_queued s Hw n c Hin) as [H1 _]. simpl in H2. rewrite decide_True in H2 by done. lia. }
  destruct (dn_means s Hd t _ Ht) as [[_ Hsg] | [Hhun _]]; [| done].
  destruct (Hsg Hin) as (t1 & l1 & r1 & Ht1). by destruct (Hall t1 _ r1 Ht1) as (? & ? & ? & _).
Qed.

(** C18 The philosophers do not deadlock: when no thread can go on, each of them
    has finished and has eaten as often as it wanted to. *)
Theorem dining_no_deadlock rounds tr s : length rounds = 5%nat → dining_run rounds tr s → idle act s →
  ∀ t p, threads s !! t = Some p → p = [] ∧ rounds !! t = Some (meals t tr).
Proof.
  intros H5 Hrun Hidle. pose proof (dining_ok rounds tr s H5 Hrun) as Hok. pose proof (idle_hungry s Hok Hidle) as Hall.
  pose proof (dining_meals rounds tr s H5 Hrun) as Hmeals. pose proof (ph_dine s Hok) as Hd.
  assert (∀ j, (j < 5)%nat → data (shared s) j ≠ Eating) as Hnone.
  { intros j Hj He. rewrite <- (dn_five s Hd) in Hj. apply lookup_lt_is_Some in Hj as [q Hq].
    destruct q as [| i r]; [pose proof (dn_means s Hd j _ Hq); simpl in *; congruence |].
    destruct (Hall j i r Hq) as (_ & _ & ?). congruence. }
  intros t p Ht. assert (t < 5)%nat as Ht5 by (rewrite <- (dn_five s Hd); by eapply lookup_lt_Some).
  assert (p = []) as ->.
  { destruct p as [| i r]; [done | exfalso]. destruct (Hall t i r Ht) as (n & _ & Hhun). destruct (near_bound t) as [Hlb Hrb].
    destruct (dn_hungry s Hd t Ht5 Hhun) as [He | [He | (t1 & q & Hq & Hw)]]; [by apply Hnone in He.. |].
    destruct q as [| i1 r1]; [done |]. by destruct (Hall t1 i1 r1 Hq) as (? & -> & _). }
  split; [done |]. rewrite <- H5 in Ht5. apply lookup_lt_is_Some in Ht5 as [n Hn].
  specialize (Hmeals t [] n Ht Hn). simpl in Hmeals. rewrite Hn. f_equal. lia.
Qed.

(** Philosopher 1 waits for philosopher 0, who lets it eat. *)
Definition feast : list nat := [1; 1; 0; 0; 0]%nat.
Definition feast_order : list nat := (replicate 8 0 ++ replicate 8 1 ++ replicate 10 0 ++ replicate 13 1)%nat.
Definition feast_end := scheduled act feast_order (DinningPh_new feast).

Lemma feast_run : dining_run feast (feast_end.2) (feast_end.1).
Proof. apply scheduled_reach. vm_compute. reflexivity. Qed.

Lemma dining_neighbours_witness : ¬ (data (shared (feast_end.1)) 0%nat = Eating ∧ data (shared (feast_end.1)) 1%nat = Eating).
Proof. exact (proj1 (dining_neighbours feast _ _ eq_refl feast_run) 0%nat ltac:(lia)). Defined.

Lemma dining_no_deadlock_witness : meals 1 (feast_end.2) = 1%nat ∧ feast !! 1%nat = Some (meals 1 (feast_end.2)).
Proof.
  split; [vm_compute; reflexivity |].
  assert (threads (feast_end.1) = replicate 5 []) as Hend by (vm_compute; reflexivity).
  refine (proj2 (dining_no_deadlock feast _ _ eq_refl feast_run _ 1%nat _ _)); [| rewrite Hend; reflexivity].
  intros t i r push m e. rewrite Hend. by intros [? _]%lookup_replicate.
Defined.
