(* ===== verification/SharedDisk.v ===== *)
(** * The synchronous disk used by several threads (filesys/synchdisk.{h,cc})

    SynchDisk.v runs one thread through the simulated device; here any number of
    threads call [ReadSector] and [WriteSector] at any time, as programs of
    Monitor.v.  Of the device (Disk.v) there is what matters between threads: it
    transfers the sector when it is asked, is then active, and interrupts at
    some later time, when [RequestDone] does [semaphore->V()].

    The device is never asked while it is active, the calls take effect one
    after the other, a call returns only after its own request is done, and when
    neither the threads nor the device can go on, all the threads have
    finished. *)

From stdpp Require Import base gmap list numbers functions list_numbers.
From Stdlib Require Import ZArith Lia.
From S2P Require Import Prelude Machine DiskProg Monitor MonitorFacts.

Record DiskState := mkDiskState { active : bool; sectors : list (list Z) }.

Inductive DiskAct := ReadRequest (sectorNumber : Z) | WriteRequest (sectorNumber : Z) (data : list Z).

Inductive DiskEvent := DidRead (t : nat) (sectorNumber : Z) (data : list Z) | DidWrite (t : nat) (sectorNumber : Z) (data : list Z).

Abbreviation stmt := (stmt unit Empty_set unit DiskAct).
Abbreviation System := (System unit Empty_set unit DiskAct DiskState).
Abbreviation Shared := (Shared unit Empty_set unit DiskState).

(** What the two requests have in common: [ASSERT(!active)], the check of the
    sector number, the transfer [f], [active = true]. *)
Definition request (d : DiskState) (sectorNumber : Z) (f : outcome (list (list Z) * DiskEvent)) : reaction stmt DiskState DiskEvent :=
  if active d then Failed
  else if valid_sector sectorNumber then
    match f with Done (d', e) => Next [] (mkDiskState true d') (Some e) | Fault _ => Failed end
  else Failed.

Definition transfer (t : nat) (a : DiskAct) (d : list (list Z)) : outcome (list (list Z) * DiskEvent) :=
  match a with
  | ReadRequest s => match rd d s with Done bs => Done (d, DidRead t s bs) | Fault e => Fault e end
  | WriteRequest s data =>
      match rd_block data 0 SectorSize with
      | Done bs => match wr d s bs with Done d' => Done (d', DidWrite t s bs) | Fault e => Fault e end
      | Fault e => Fault e
      end
  end.

Definition act (t : nat) (a : DiskAct) (d : DiskState) : reaction stmt DiskState DiskEvent :=
  match a with ReadRequest s | WriteRequest s _ => request d s (transfer t a (sectors d)) end.

(** [Disk::HandleInterrupt] and [SynchDisk::RequestDone]. *)
Definition device (d : DiskState) (e : option DiskEvent) (d' : DiskState) (us : list unit) : Prop :=
  active d = true ∧ e = None ∧ d' = mkDiskState false (sectors d) ∧ us = [tt].

(** [ReadSector] and [WriteSector] around their request. *)
Definition SectorCall (a : DiskAct) : list stmt :=
  Acquire tt ++ [Do a; SP (Named tt)] ++ Release tt.
Definition ReadSector (sectorNumber : Z) : list stmt := SectorCall (ReadRequest sectorNumber).
Definition WriteSector (sectorNumber : Z) (data : list Z) : list stmt := SectorCall (WriteRequest sectorNumber data).

Definition program (calls : list DiskAct) : list stmt := mjoin (SectorCall <$> calls).

(** [new SynchDisk] over the sectors [d], used by one thread for each element
    of [css]. *)
Definition SharedDisk_new (d : list (list Z)) (css : list (list DiskAct)) : System :=
  start (λ _, 0) (mkDiskState false d) (program <$> css).

Definition disk_run (d : list (list Z)) (css : list (list DiskAct)) : list DiskEvent → System → Prop :=
  reach act device (SharedDisk_new d css).

(** ** Locks *)

Definition needs (a : DiskAct) (l : unit) (after : lock_state) : Prop := after = LHeld.

Lemma act_next t a d push d' e : act t a d = Next push d' e →
  push = [] ∧ active d = false ∧ ∃ ev, e = Some ev ∧ transfer t a (sectors d) = Done (sectors d', ev) ∧ active d' = true.
Proof.
  intros Ha. unfold act in Ha.
  assert (∃ s, request d s (transfer t a (sectors d)) = Next push d' e) as [s Hr] by (destruct a; eauto).
  unfold request in Hr. destruct (active d); [done |]. destruct (valid_sector s); [| done].
  destruct (transfer t a (sectors d)) as [[d1 ev] |]; simplify_eq. eauto 10.
Qed.

Lemma sd_act_locks : acts_ok needs act.
Proof. intros t a d push d' e l r (-> & _)%act_next Hw Hn. done. Qed.

Lemma sd_program_locks cs : lock_wf needs tt (program cs) ∧ status tt (program cs) = LFree.
Proof. unfold program. induction cs as [| c cs [IHw IHs]]; simpl; unfold needs; rewrite ?IHs; done. Qed.

(** ** The request under way *)

(** A request is followed by the wait for it, which nothing else precedes, and
    is made with the lock. *)
Definition link (i : stmt) (next : option stmt) : Prop :=
  match i with
  | Do _ => next = Some (SP (Named tt))
  | SP (Named _) => next = Some (Unhold tt)
  | SV (Named _) | SP (Waiter _) | SV (Waiter _) => False
  | _ => next ≠ Some (SP (Named tt))
  end.
Fixpoint linked (p : list stmt) : Prop := match p with [] => True | i :: r => link i (head r) ∧ linked r end.

(** The thread has made its request and waits for the interrupt. *)
Definition in_request (p : list stmt) : nat := match p with SP (Named _) :: _ => 1 | _ => 0 end.

Lemma program_linked cs : linked (program cs) ∧ head (program cs) ≠ Some (SP (Named tt)).
Proof. unfold program. induction cs as [| c cs [IHl IHh]]; simpl; [done |]. split_and!; done. Qed.

Definition asked (d : DiskState) : Z := if active d then 1 else 0.

Record disk_ok (s : System) : Prop := {
  dk_locks : locks_ok needs s;
  dk_linked : ∀ t p, threads s !! t = Some p → linked p;
  dk_value : 0 ≤ semValue (shared s) (Named tt);
  dk_request : Z.of_nat (sum_list_with in_request (threads s)) =
    semValue (shared s) (Named tt) + asked (data (shared s))
}.

Lemma in_request_held p : lock_wf needs tt p → linked p → in_request p = 1%nat → status tt p = LHeld.
Proof.
  destruct p as [| [[] | | | | | |] r]; try done. simpl. intros _ [Hn _] _. destruct r as [| j r]; [done |].
  by injection Hn as ->.
Qed.

(** While a thread holds the lock and does not wait, the device is idle. *)
Lemma lock_idle s t q : disk_ok s → threads s !! t = Some q → status tt q ≠ LFree → in_request q = 0%nat →
  active (data (shared s)) = false ∧ semValue (shared s) (Named tt) = 0.
Proof.
  intros [Hl Hk Hv Hr] Ht Hb Hnot.
  assert (sum_list_with in_request (threads s) = 0%nat) as H0.
  { apply sum_zero. intros p [t' Hp]%list_elem_of_lookup. destruct (in_request p) as [| [|]] eqn:Hin; [done | exfalso |].
    - assert (t' = t) as ->; [| congruence].
      apply (lock_exclusive needs s t' t p q tt Hl Hp Ht); [| done].
      by rewrite (in_request_held p (lk_wf needs s Hl t' p tt Hp) (Hk t' p Hp) Hin).
    - destruct p as [| [[] | | | | | |] ?]; done. }
  rewrite H0 in Hr. unfold asked in Hr. destruct (active _); [lia |]. split; [done | lia].
Qed.

Lemma request_idle s t a r : disk_ok s → threads s !! t = Some (Do a :: r) →
  active (data (shared s)) = false ∧ semValue (shared s) (Named tt) = 0.
Proof.
  intros Hs Ht. apply (lock_idle s t (Do a :: r)); try done. pose proof (lk_wf needs s (dk_locks s Hs) t _ tt Ht) as [Hn _].
  simpl in *. by rewrite Hn.
Qed.

Lemma exec_request t i r m push m' e : linked (i :: r) → 0 ≤ semValue m (Named tt) → perform act t i m = Next push m' e →
  linked (push ++ r) ∧ 0 ≤ semValue m' (Named tt) ∧
  Z.of_nat (in_request (push ++ r)) + semValue m (Named tt) + asked (data m) =
  Z.of_nat (in_request (i :: r)) + semValue m' (Named tt) + asked (data m').
Proof.
  intros [Hi Hr] Hv Hx. destruct i as [[l | n | []] | [l | n | []] | l | l | [] l | [] l | a]; simpl in Hx;
    repeat case_match; simplify_eq; cbn [app] in *; try done.
  6: { apply act_next in H as (-> & Ha & ev & -> & _ & Ha'). unfold asked. simpl. rewrite Ha, Ha'. simpl in Hi.
       destruct r as [| j r]; [done |]. injection Hi as ->. split; [exact Hr |]. split; [done |]. simpl. lia. }
  all: simpl in *; rewrite ?fn_lookup_insert_ne, ?fn_lookup_insert by done; split; [done |]; split; [try done; lia |].
  all: destruct r as [| [[| | []] | | | | | |] r]; simpl in *; try done; lia.
Qed.

Lemma disk_ok_step s e s' : disk_ok s → step act device s e s' → disk_ok s'.
Proof.
  intros Hs Hstep. pose proof (locks_ok_step needs act device sd_act_locks s e s' (dk_locks s Hs) Hstep) as Hl'.
  destruct Hstep as [ts m t i r push m' e' Ht Hx | ts m e' d us (Ha & -> & -> & ->)]; destruct Hs as [Hl Hk Hv Hr]; simpl in *.
  - destruct (exec_request t i r m push m' e' (Hk t _ Ht) Hv Hx) as (Hk' & Hv' & Hsum).
    split; [done | | done |]; simpl.
    + intros t' p [[-> ->] | [_ Hp]]%lookup_moved; [done | by eapply Hk].
    + pose proof (sum_insert in_request ts t _ (push ++ r) Ht). lia.
  - split; [done | done | |]; simpl in *; rewrite fn_lookup_insert; [lia |]. unfold asked in *. rewrite Ha in Hr. simpl. lia.
Qed.

(** ** The calls as operations of the array of sectors *)

Definition replay_event (d : list (list Z)) (e : DiskEvent) : option (list (list Z)) :=
  match e with
  | DidRead _ s bs => match rd d s with Done bs' => if decide (bs' = bs) then Some d else None | Fault _ => None end
  | DidWrite _ s bs => match wr d s bs with Done d' => Some d' | Fault _ => None end
  end.

Fixpoint replay (d : list (list Z)) (es : list DiskEvent) : option (list (list Z)) :=
  match es with [] => Some d | e :: es' => replay_event d e ≫= λ d', replay d' es' end.

Lemma replay_app es : ∀ d es', replay d (es ++ es') = replay d es ≫= λ d', replay d' es'.
Proof.
  induction es as [| e es IH]; intros d es'; simpl; [done |]. destruct (replay_event d e); simpl; [apply IH | done].
Qed.

Definition done_by (t : nat) (es : list DiskEvent) : list DiskAct :=
  omap (λ e, match e with
    | DidRead t' s _ => if decide (t' = t) then Some (ReadRequest s) else None
    | DidWrite t' s bs => if decide (t' = t) then Some (WriteRequest s bs) else None
    end) es.

Definition pending (p : list stmt) : list DiskAct := omap (λ i, match i with Do a => Some a | _ => None end) p.

(** The callers pass the number of a sector, and a sector of data. *)
Definition call_ok (a : DiskAct) : Prop :=
  match a with
  | ReadRequest s => 0 ≤ s < NumSectors
  | WriteRequest s data => 0 ≤ s < NumSectors ∧ is_sector data
  end.

Lemma transfer_ok t a d : disk_wf d → call_ok a → ∃ d' e, transfer t a d = Done (d', e) ∧ disk_wf d' ∧
  replay d [e] = Some d' ∧ done_by t [e] = [a] ∧ ∀ t', t' ≠ t → done_by t' [e] = [].
Proof.
  intros Hd Ha. destruct a as [s | s data]; simpl in *.
  - destruct (lookup_lt_is_Some_2 d (Z.to_nat s)) as [bs Hbs]; [pose proof (dw_length d Hd); lia |].
    rewrite (rd_Done d s bs) by (done || lia). eexists d, _. split; [done |]. simpl. rewrite (rd_Done d s bs) by (done || lia).
    rewrite !decide_True by done. split_and!; try done. intros t' Hne. by rewrite decide_False.
  - destruct Ha as [Hs Hb]. pose proof Hb as [Hlen _]. change (Z.to_nat SectorSize) with 128%nat in Hlen.
    rewrite rd_block_Done by (unfold SectorSize; lia). change (Z.to_nat 0) with 0%nat.
    rewrite drop_0, take_ge by (change (Z.to_nat SectorSize) with 128%nat; lia).
    rewrite wr_Done by (rewrite (dw_length d Hd); lia). eexists _, _. split; [done |]. simpl.
    rewrite wr_Done by (rewrite (dw_length d Hd); lia). rewrite decide_True by done.
    split_and!; try done; [by apply disk_wf_insert |]. intros t' Hne. by rewrite decide_False.
Qed.

Lemma act_ok t a d : disk_wf (sectors d) → call_ok a → active d = false →
  ∃ d' e, act t a d = Next [] d' (Some e) ∧ transfer t a (sectors d) = Done (sectors d', e).
Proof.
  intros Hd Ha Hact. destruct (transfer_ok t a (sectors d) Hd Ha) as (d' & e & Ht & _).
  exists (mkDiskState true d'), e. split; [| done]. unfold act.
  destruct a as [s | s bs]; unfold request; rewrite Hact, Ht; simpl in Ha; by rewrite valid_sector_true by lia.
Qed.

Record shared_disk_ok (d : list (list Z)) (css : list (list DiskAct)) (tr : list DiskEvent) (s : System) : Prop := {
  so_disk : disk_ok s;
  so_wf : disk_wf (sectors (data (shared s)));
  so_calls : ∀ t p, threads s !! t = Some p → Forall call_ok (pending p);
  so_replay : replay d tr = Some (sectors (data (shared s)));
  so_order : ∀ t cs, css !! t = Some cs → ∃ p, threads s !! t = Some p ∧ done_by t tr ++ pending p = cs
}.

(** Only requests have an effect on the sectors. *)
Lemma exec_disk t i r m push m' e : disk_wf (sectors (data m)) → Forall call_ok (pending (i :: r)) →
  perform act t i m = Next push m' e →
  disk_wf (sectors (data m')) ∧ replay (sectors (data m)) (option_list e) = Some (sectors (data m')) ∧
  done_by t (option_list e) ++ pending (push ++ r) = pending (i :: r) ∧
  ∀ t', t' ≠ t → done_by t' (option_list e) = [].
Proof.
  intros Hd Hc Hx. destruct i as [x | x | l | l | [] l | [] l | a]; simpl in Hx; repeat case_match; simplify_eq; try done.
  simpl in Hc. apply Forall_cons in Hc as [Ha _]. match goal with H : act _ _ _ = _ |- _ => apply act_next in H as (-> & _ & ev & -> & Ht & _) end.
  destruct (transfer_ok t a (sectors (data m)) Hd Ha) as (d' & e & Ht' & Hd' & Hr & Hb & Ho).
  rewrite Ht in Ht'. injection Ht' as Heq ->. cbn [option_list set_data data]. rewrite Heq. split_and!; try done.
  change (option_list (Some e)) with [e]. change (pending (Do a :: r)) with (a :: pending r). by rewrite Hb.
Qed.

Lemma shared_disk_ok_step d css tr s e s' : shared_disk_ok d css tr s → step act device s e s' →
  shared_disk_ok d css (tr ++ option_list e) s'.
Proof.
  intros [Hok Hwf Hcalls Hrep Hord] Hstep. pose proof (disk_ok_step s e s' Hok Hstep) as Hok'.
  destruct Hstep as [ts m t i r push m' e Ht Hx | ts m e d1 us (Ha & -> & -> & ->)]; simpl in *.
  - destruct (exec_disk t i r m push m' e Hwf (Hcalls t _ Ht) Hx) as (Hwf' & Hrep' & Hmine & Hothers).
    split; simpl; try done.
    + intros t' p [[-> ->] | [_ Hp]]%lookup_moved; [| by eapply Hcalls]. specialize (Hcalls t _ Ht).
      rewrite <- Hmine in Hcalls. by apply Forall_app in Hcalls as [_ ?].
    + by rewrite replay_app, Hrep.
    + intros t' cs Hcs. destruct (Hord t' cs Hcs) as (p & Hp & Heq). unfold done_by in *. rewrite omap_app.
      destruct (decide (t' = t)) as [-> | Hne].
      * exists (push ++ r). split; [by eapply lookup_here |]. rewrite <- app_assoc, Hmine. congruence.
      * exists p. by rewrite list_lookup_insert_ne, Hothers, app_nil_r by done.
  - rewrite app_nil_r. split; done.
Qed.

Lemma sd_program_lookup (css : list (list DiskAct)) (t : nat) p : (program <$> css) !! t = Some p →
  ∃ cs, css !! t = Some cs ∧ p = program cs.
Proof. rewrite list_lookup_fmap. destruct (css !! t) as [cs |]; [| done]. intros [= <-]. eauto. Qed.

Lemma sd_pending_program cs : pending (program cs) = cs.
Proof. unfold program. induction cs as [| c cs IH]; simpl; [done | f_equal; exact IH]. Qed.

Lemma SharedDisk_new_ok d css : disk_wf d → Forall (Forall call_ok) css → shared_disk_ok d css [] (SharedDisk_new d css).
Proof.
  intros Hd Hc. rewrite Forall_lookup in Hc. split; simpl; try done.
  - split; simpl; try done.
    + apply locks_ok_start, Forall_lookup. intros t p (cs & _ & ->)%sd_program_lookup []. apply sd_program_locks.
    + intros t p (cs & _ & ->)%sd_program_lookup. apply program_linked.
    + rewrite sum_zero; [done |]. intros p [t (cs & _ & ->)%sd_program_lookup]%list_elem_of_lookup.
      destruct (program_linked cs) as [_ Hh]. destruct (program cs) as [| [[| | []] | | | | | |] ?]; done.
  - intros t p (cs & Ht & ->)%sd_program_lookup. rewrite sd_pending_program. by apply (Hc t).
  - intros t cs Ht. exists (program cs). rewrite list_lookup_fmap, Ht. split; [done | apply sd_pending_program].
Qed.

Lemma disk_run_ok d css tr s : disk_wf d → Forall (Forall call_ok) css → disk_run d css tr s → shared_disk_ok d css tr s.
Proof.
  intros Hd Hc. apply (reach_inv act device (shared_disk_ok d css)); [by apply SharedDisk_new_ok |].
  intros tr0 s1 e s2. apply shared_disk_ok_step.
Qed.

Lemma disk_no_failure d css tr s : shared_disk_ok d css tr s →
  ∀ t i r, threads s !! t = Some (i :: r) → perform act t i (shared s) ≠ Failed.
Proof.
  intros [Hok Hwf Hcalls _ _] t i r Ht Hx.
  destruct (locks_ok_safe needs act s t i r (dk_locks s Hok) Ht Hx) as (a & -> & Hf).
  specialize (Hcalls t _ Ht). simpl in Hcalls. apply Forall_cons in Hcalls as [Ha _].
  destruct (act_ok t a _ Hwf Ha (proj1 (request_idle s t a r Hok Ht))) as (d' & e & Hn & _). congruence.
Qed.

(** C17 The synchronous disk serialises its callers: the reads and writes of all
    threads take effect on the sectors one after the other, each exactly once
    and in the order of its thread, and a read returns what the last write left;
    no assertion fails, in particular the device is never asked while it is
    active, and a thread that is past its wait finds its request done. *)
Theorem shared_disk_serialised d css tr s : disk_wf d → Forall (Forall call_ok) css → disk_run d css tr s →
  replay d tr = Some (sectors (data (shared s))) ∧
  (∀ t cs, css !! t = Some cs → ∃ p, threads s !! t = Some p ∧ done_by t tr ++ pending p = cs) ∧
  (∀ t i r, threads s !! t = Some (i :: r) → perform act t i (shared s) ≠ Failed) ∧
  (∀ t r, threads s !! t = Some (Unhold tt :: r) →
    active (data (shared s)) = false ∧ semValue (shared s) (Named tt) = 0).
Proof.
  intros Hd Hc Hrun. pose proof (disk_run_ok d css tr s Hd Hc Hrun) as Hok. split_and!.
  - exact (so_replay _ _ _ _ Hok).
  - exact (so_order _ _ _ _ Hok).
  - exact (disk_no_failure d css tr s Hok).
  - intros t r Ht. by apply (lock_idle s t (Unhold tt :: r) (so_disk _ _ _ _ Hok)).
Qed.

(** What a thread waits for when nothing moves. *)
Lemma idle_heads d css tr s t i r : shared_disk_ok d css tr s → idle act s → threads s !! t = Some (i :: r) →
  ∃ x, i = SP x ∧ semValue (shared s) x = 0 ∧ ∀ n, x ≠ Waiter n.
Proof.
  intros Hok Hidle Ht. pose proof (dk_linked s (so_disk _ _ _ _ Hok) t _ Ht) as [Hi _].
  destruct (perform act t i (shared s)) as [| | push m e] eqn:Hx; [| by apply (disk_no_failure d css tr s Hok t i r Ht) in Hx | by edestruct Hidle].
  destruct i as [x | x | l | l | [] l | [] l | a]; simpl in Hx; repeat case_match; simplify_eq.
  - exists x. split_and!; try done. by intros n ->.
  - unfold act, request in *. repeat case_match; done.
Qed.

(** Every call of the synchronous disk comes to an end: while a thread has
    not finished, some thread can go on or the device is at work. *)
Theorem shared_disk_progress d css tr s : disk_wf d → Forall (Forall call_ok) css → disk_run d css tr s →
  idle act s → active (data (shared s)) = false → ∀ t p, threads s !! t = Some p → p = [].
Proof.
  intros Hd Hc Hrun Hidle Hact t p Ht. pose proof (disk_run_ok d css tr s Hd Hc Hrun) as Hok.
  pose proof (λ t i r, idle_heads d css tr s t i r Hok Hidle) as Hheads. destruct (so_disk _ _ _ _ Hok) as [Hl Hk Hv Hr].
  assert (∀ t r, threads s !! t = Some (SP (Named tt) :: r) → semValue (shared s) (Named tt) = 0 → False) as Hnot.
  { intros t' r' Ht' H0. pose proof (sum_ge in_request _ t' _ Ht') as Hge. unfold asked in Hr. rewrite Hact in Hr. simpl in Hge. lia. }
  destruct p as [| i r]; [done | exfalso]. destruct (Hheads t i r Ht) as (x & -> & Hx & Hnw).
  destruct x as [[] | n | []]; [| by eapply Hnw | by eapply Hnot].
  pose proof (lk_count needs s Hl tt) as Hcount. rewrite Hx in Hcount.
  destruct (sum_pos (busy tt) (threads s)) as (t' & q & Hq & Hb); [lia |]. unfold busy in Hb. case_decide as Hf; [lia |].
  destruct q as [| i' r']; [done |]. destruct (Hheads t' i' r' Hq) as (y & -> & Hy & Hny).
  destruct y as [[] | n | []]; [done | by eapply Hny | by eapply Hnot].
Qed.

(** An interrupt, and a call of thread [t] with nothing in between. *)
Definition interrupt (s : System) : System :=
  mkSystem (threads s) (raise_all [tt] (set_data (mkDiskState false (sectors (data (shared s)))) (shared s))).
Definition whole_call (t : nat) (s : System) : System * list DiskEvent :=
  let '(s1, tr) := scheduled act (replicate 3 t) s in
  ((scheduled act (replicate 3 t) (interrupt s1)).1, tr).

Lemma whole_call_reach t s : bool_decide (is_Some (moves act (replicate 3 t) s)) = true →
  active (data (shared (scheduled act (replicate 3 t) s).1)) = true →
  bool_decide (is_Some (moves act (replicate 3 t) (interrupt (scheduled act (replicate 3 t) s).1))) = true →
  (scheduled act (replicate 3 t) (interrupt (scheduled act (replicate 3 t) s).1)).2 = [] →
  reach act device s (whole_call t s).2 (whole_call t s).1.
Proof.
  intros H1 Ha H2 H3. pose proof (scheduled_reach act device _ _ H1) as R1. pose proof (scheduled_reach act device _ _ H2) as R2.
  unfold whole_call. destruct (scheduled act (replicate 3 t) s) as [s1 tr]. simpl in *. rewrite H3 in R2.
  rewrite <- (app_nil_r tr). eapply reach_trans; [| exact R2]. rewrite <- (app_nil_r tr).
  eapply (reach_step act device s tr s1 None); [done |]. destruct s1 as [ts m]. by constructor.
Qed.

(** Thread 0 writes a sector, then thread 1 reads it. *)
Definition blank : list (list Z) := replicate (Z.to_nat NumSectors) (replicate (Z.to_nat SectorSize) 0).
Definition sevens : list Z := replicate (Z.to_nat SectorSize) 7.
Definition two_users : list (list DiskAct) := [[WriteRequest 3 sevens]; [ReadRequest 3]].
Definition written := whole_call 0 (SharedDisk_new blank two_users).
Definition read_back := whole_call 1 (written.1).

Lemma blank_wf : disk_wf blank.
Proof.
  split; [reflexivity |]. unfold blank. apply Forall_replicate. split; [reflexivity |]. apply Forall_replicate. unfold byte. lia.
Qed.

Lemma two_users_ok : Forall (Forall call_ok) two_users.
Proof.
  assert (is_sector sevens) by (split; [reflexivity |]; apply Forall_replicate; unfold byte; lia).
  repeat constructor; simpl; unfold NumSectors, SectorsPerTrack, NumTracks; (lia || done).
Qed.

Lemma two_users_run : disk_run blank two_users (written.2 ++ read_back.2) (read_back.1).
Proof. eapply reach_trans; apply whole_call_reach; vm_compute; reflexivity. Qed.

Lemma shared_disk_serialised_witness :
  written.2 ++ read_back.2 = [DidWrite 0 3 sevens; DidRead 1 3 sevens] ∧
  replay blank (written.2 ++ read_back.2) = Some (sectors (data (shared (read_back.1)))).
Proof.
  split; [vm_compute; reflexivity |].
  exact (proj1 (shared_disk_serialised _ _ _ _ blank_wf two_users_ok two_users_run)).
Defined.

Lemma shared_disk_progress_witness : threads (read_back.1) = [[]; []] ∧ ∀ p, threads (read_back.1) !! 1%nat = Some p → p = [].
Proof.
  assert (threads (read_back.1) = [[]; []]) as Hend by (vm_compute; reflexivity). split; [exact Hend |].
  apply (shared_disk_progress _ _ _ _ blank_wf two_users_ok two_users_run); [| vm_compute; reflexivity].
  intros t i r push m e. rewrite Hend. by destruct t as [| [| t]].
Defined.
