(* ===== verification/Network.v ===== *)
(** * The network device and the format of messages
    (machine/network.{h,cc}, the classes of network/post.h)

    A packet is 64 bytes: a [PacketHeader], and a payload that begins with the
    [MailHeader] of the post office; the headers are three little-endian words.
    What is behind the payload is whatever [new char[]] returned ([garbage]).

    [sock] is the queue of the UNIX socket of the machine, and [sending] counts
    the [NetworkSendDone] interrupts that are scheduled.  [CheckPktAvail] and
    [SendDone] are what the device does at an interrupt. *)

From stdpp Require Import base gmap list numbers.
From Stdlib Require Import ZArith Lia QArith.
From S2P Require Import Prelude Machine MachineFacts.
Open Scope Z_scope.

Record PacketHeader := mkPacketHeader { p_to : Z; p_from : Z; p_length : Z }.
Record MailHeader := mkMailHeader { m_to : Z; m_from : Z; m_length : Z }.

Definition header_size : Z := 12.                             (* sizeof(PacketHeader), sizeof(MailHeader) *)
Definition MaxWireSize : Z := 64.
Definition MaxPacketSize : Z := MaxWireSize - header_size.
Definition MaxMailSize : Z := MaxPacketSize - header_size.

#[export] Instance PacketHeader_eq_dec : EqDecision PacketHeader.
Proof. solve_decision. Defined.
#[export] Instance MailHeader_eq_dec : EqDecision MailHeader.
Proof. solve_decision. Defined.

(** ** Headers in memory *)

Definition words_of_header (a b c : Z) : list Z := le_bytes 4 a ++ le_bytes 4 b ++ le_bytes 4 c.
Definition word_at (k : nat) (bs : list Z) : Z := le_value (take 4 (drop k bs)).

Definition packet_header_bytes (h : PacketHeader) : list Z := words_of_header (p_to h) (p_from h) (p_length h).
Definition packet_header (bs : list Z) : PacketHeader :=
  mkPacketHeader (s32 (word_at 0 bs)) (s32 (word_at 4 bs)) (word_at 8 bs).
Definition mail_header_bytes (h : MailHeader) : list Z := words_of_header (m_to h) (m_from h) (m_length h).
Definition mail_header (bs : list Z) : MailHeader :=
  mkMailHeader (s32 (word_at 0 bs)) (s32 (word_at 4 bs)) (word_at 8 bs).

(** [bcopy(from, to, n)]: the first [n] bytes of [to] are replaced. *)
Definition bcopy (from to : list Z) (n : Z) : list Z := take (Z.to_nat n) from ++ drop (Z.to_nat n) to.

(** ** [Mail] *)

(** The bytes of [data] that are initialised. *)
Record Mail := mkMail { pktHdr : PacketHeader; mailHdr : MailHeader; mail_data : list Z }.

#[export] Instance Mail_eq_dec : EqDecision Mail.
Proof. solve_decision. Defined.

Definition Mail_new (pktH : PacketHeader) (mailH : MailHeader) (msgData : list Z) : option Mail :=
  if decide (m_length mailH <= MaxMailSize) then Some (mkMail pktH mailH (take (Z.to_nat (m_length mailH)) msgData)) else None.

(** ** The device *)

Record Network := mkNetwork {
  ident : Z;
  chanceToWork : Q;
  sendBusy : bool;
  inHdr : PacketHeader;
  inbox : list Z;
  sending : nat;
  sock : list (list Z)
}.

Definition Network_new (addr : Z) (reliability : Q) (box : list Z) (uninit : PacketHeader) : Network :=
  mkNetwork addr
    (if Qle_bool 0 reliability then if Qle_bool reliability 1 then reliability else 1%Q else 0%Q)
    false (mkPacketHeader (p_to uninit) (p_from uninit) 0) box 0 [].

Definition set_sock (q : list (list Z)) (n : Network) : Network :=
  mkNetwork (ident n) (chanceToWork n) (sendBusy n) (inHdr n) (inbox n) (sending n) q.

(** [Random() % 100 >= chanceToWork * 100]. *)
Definition loses (n : Network) (random : Z) : bool := Qle_bool (chanceToWork n * 100) (inject_Z (Z.rem random 100)).

(** The buffer that [Send] hands to the socket. *)
Definition wire (hdr : PacketHeader) (data garbage : list Z) : list Z :=
  packet_header_bytes hdr ++ bcopy data (drop (Z.to_nat header_size) garbage) (p_length hdr).

(** [None] when the assertion fails; else the device, and the packet for the
    socket of [hdr.to] unless it is lost. *)
Definition Network_Send (hdr : PacketHeader) (data : list Z) (random : Z) (garbage : list Z) (n : Network) :
    option (Network * option (list Z)) :=
  if negb (sendBusy n) && bool_decide (p_length hdr > 0) && bool_decide (p_length hdr <= MaxPacketSize)
     && bool_decide (p_from hdr = ident n)
  then
    let n' := mkNetwork (ident n) (chanceToWork n) (sendBusy n) (inHdr n) (inbox n) (S (sending n)) (sock n) in
    Some (n', if loses n random then None else Some (wire hdr data garbage))
  else None.

Inductive poll := Nothing | Broken | Arrived (n : Network).

Definition Network_CheckPktAvail (n : Network) : poll :=
  if decide (p_length (inHdr n) ≠ 0) then Nothing
  else match sock n with
  | [] => Nothing
  | buffer :: q =>
      if decide (Z.of_nat (length buffer) = MaxWireSize) then       (* ReadFromSocket *)
        let hdr := packet_header buffer in
        if bool_decide (p_to hdr = ident n) && bool_decide (p_length hdr <= MaxPacketSize) then
          Arrived (mkNetwork (ident n) (chanceToWork n) (sendBusy n) hdr
            (bcopy (drop (Z.to_nat header_size) buffer) (inbox n) (p_length hdr)) (sending n) q)
        else Broken
      else Broken
  end.

Definition Network_SendDone (n : Network) : option Network :=
  match sending n with
  | O => None
  | S k => Some (mkNetwork (ident n) (chanceToWork n) false (inHdr n) (inbox n) k (sock n))
  end.

(** The header, the contents of [data] afterwards, and the device. *)
Definition Network_Receive (data : list Z) (n : Network) : PacketHeader * list Z * Network :=
  let hdr := inHdr n in
  (hdr,
   if decide (p_length hdr ≠ 0) then bcopy (inbox n) data (p_length hdr) else data,
   mkNetwork (ident n) (chanceToWork n) (sendBusy n) (mkPacketHeader (p_to hdr) (p_from hdr) 0) (inbox n) (sending n) (sock n)).

(** ** What travels *)

Definition header_range (a b c : Z) : Prop := int_range a ∧ int_range b ∧ 0 ≤ c < 2 ^ 32.

Lemma words_length a b c : length (words_of_header a b c) = 12%nat.
Proof. done. Qed.

Lemma word_at_app k a w b : length a = k → word_at k (a ++ le_bytes 4 w ++ b) = w mod 2 ^ 32.
Proof.
  intros <-. unfold word_at. rewrite drop_app_length, take_app_length' by done. apply (le_value_bytes 4).
Qed.

Lemma header_words_roundtrip a b c rest : header_range a b c →
  s32 (word_at 0 (words_of_header a b c ++ rest)) = a ∧ s32 (word_at 4 (words_of_header a b c ++ rest)) = b ∧
  word_at 8 (words_of_header a b c ++ rest) = c.
Proof.
  intros (Ha & Hb & Hc). unfold words_of_header. rewrite <- !app_assoc.
  pose proof (word_at_app 0 [] a (le_bytes 4 b ++ le_bytes 4 c ++ rest) eq_refl) as H0.
  pose proof (word_at_app 4 (le_bytes 4 a) b (le_bytes 4 c ++ rest) eq_refl) as H4.
  pose proof (word_at_app 8 (le_bytes 4 a ++ le_bytes 4 b) c rest eq_refl) as H8.
  rewrite <- app_assoc in H8. rewrite H8, H4. cbn [app] in H0. rewrite H0.
  change (a mod 2 ^ 32) with (u32 a). change (b mod 2 ^ 32) with (u32 b). rewrite !s32_u32, !s32_small by done.
  by rewrite Z.mod_small.
Qed.

Lemma packet_header_roundtrip h rest : header_range (p_to h) (p_from h) (p_length h) →
  packet_header (packet_header_bytes h ++ rest) = h.
Proof.
  destruct h as [a b c]. intros Hh. unfold packet_header, packet_header_bytes. cbn [p_to p_from p_length] in *.
  by destruct (header_words_roundtrip a b c rest Hh) as (-> & -> & ->).
Qed.

Lemma mail_header_roundtrip h rest : header_range (m_to h) (m_from h) (m_length h) →
  mail_header (mail_header_bytes h ++ rest) = h.
Proof.
  destruct h as [a b c]. intros Hh. unfold mail_header, mail_header_bytes. cbn [m_to m_from m_length] in *.
  by destruct (header_words_roundtrip a b c rest Hh) as (-> & -> & ->).
Qed.

(** What [PostOffice::Send] builds: the header for the network layer, and
    [MailHeader] and data in a buffer of [MaxPacketSize] bytes. *)
Definition post_header (netAddr : Z) (pkt : PacketHeader) (mail : MailHeader) : PacketHeader :=
  mkPacketHeader (p_to pkt) netAddr (u32 (m_length mail + header_size)).
Definition post_buffer (mail : MailHeader) (data garbage : list Z) : list Z :=
  mail_header_bytes mail ++ bcopy data (drop (Z.to_nat header_size) garbage) (m_length mail).

(** The mail in a payload, and in a packet. *)
Definition mail_in (hdr : PacketHeader) (payload : list Z) : Mail :=
  mkMail hdr (mail_header payload) (take (Z.to_nat (m_length (mail_header payload))) (drop (Z.to_nat header_size) payload)).
Definition packet_mail (packet : list Z) : Mail := mail_in (packet_header packet) (drop (Z.to_nat header_size) packet).

(** A message that machine [netAddr] may send. *)
Record message_ok (netAddr : Z) (pkt : PacketHeader) (mail : MailHeader) (data : list Z) : Prop := {
  mo_addr : int_range netAddr;
  mo_to : int_range (p_to pkt);
  mo_box : int_range (m_to mail) ∧ int_range (m_from mail);
  mo_size : 0 ≤ m_length mail ≤ MaxMailSize;
  mo_data : m_length mail ≤ Z.of_nat (length data)
}.

Lemma post_header_length netAddr pkt mail data : message_ok netAddr pkt mail data →
  p_length (post_header netAddr pkt mail) = m_length mail + 12.
Proof.
  intros [_ _ _ Hs _]. unfold post_header, header_size. simpl. apply u32_small.
  unfold MaxMailSize, MaxPacketSize, MaxWireSize, header_size in Hs. lia.
Qed.

Lemma post_header_range netAddr pkt mail data : message_ok netAddr pkt mail data →
  header_range (p_to (post_header netAddr pkt mail)) (p_from (post_header netAddr pkt mail)) (p_length (post_header netAddr pkt mail)).
Proof.
  intros Hm. pose proof (post_header_length netAddr pkt mail data Hm) as Hl. destruct Hm as [Ha Ht _ Hs _].
  split; [exact Ht |]. split; [exact Ha |]. rewrite Hl. unfold MaxMailSize, MaxPacketSize, MaxWireSize, header_size in Hs. lia.
Qed.

Lemma mail_header_range netAddr pkt mail data : message_ok netAddr pkt mail data →
  header_range (m_to mail) (m_from mail) (m_length mail).
Proof.
  intros [_ _ [Ht Hf] Hs _]. split; [exact Ht |]. split; [exact Hf |]. unfold MaxMailSize, MaxPacketSize, MaxWireSize, header_size in Hs. lia.
Qed.

(** The first [len] bytes of the payload decide which mail it holds. *)
Lemma mail_in_prefix netAddr pkt mail data garbage rest : message_ok netAddr pkt mail data →
  mail_in (post_header netAddr pkt mail)
    (take (Z.to_nat (m_length mail + 12)) (post_buffer mail data garbage) ++ rest) =
  mkMail (post_header netAddr pkt mail) mail (take (Z.to_nat (m_length mail)) data).
Proof.
  intros Hm. pose proof (mail_header_range _ _ _ _ Hm) as Hr. destruct Hm as [_ _ _ Hs Hd].
  assert (take (Z.to_nat (m_length mail + 12)) (post_buffer mail data garbage) =
    mail_header_bytes mail ++ take (Z.to_nat (m_length mail)) data) as ->.
  { unfold post_buffer, bcopy. rewrite take_app_ge by (change (length (mail_header_bytes mail)) with 12%nat; lia). f_equal.
    change (length (mail_header_bytes mail)) with 12%nat. rewrite take_app_le by (rewrite length_take; lia).
    rewrite take_take. f_equal. lia. }
  unfold mail_in. rewrite <- app_assoc, mail_header_roundtrip by done. f_equal.
  change (Z.to_nat header_size) with (length (mail_header_bytes mail)). rewrite drop_app_length.
  rewrite take_app_le by (rewrite length_take; lia). rewrite take_take. f_equal. lia.
Qed.

Lemma wire_length hdr data garbage : 0 ≤ p_length hdr ≤ MaxPacketSize → p_length hdr ≤ Z.of_nat (length data) →
  length garbage = Z.to_nat MaxWireSize → length (wire hdr data garbage) = Z.to_nat MaxWireSize.
Proof.
  intros Hl Hd Hg. unfold wire, bcopy. rewrite !length_app, length_take, !length_drop, Hg.
  change (length (packet_header_bytes hdr)) with 12%nat.
  unfold MaxPacketSize, MaxWireSize, header_size in *. lia.
Qed.

Lemma post_buffer_length mail data garbage : 0 ≤ m_length mail ≤ MaxMailSize → m_length mail ≤ Z.of_nat (length data) →
  length garbage = Z.to_nat MaxPacketSize → length (post_buffer mail data garbage) = Z.to_nat MaxPacketSize.
Proof.
  intros Hl Hd Hg. unfold post_buffer, bcopy. rewrite !length_app, length_take, !length_drop, Hg.
  change (length (mail_header_bytes mail)) with 12%nat.
  unfold MaxMailSize, MaxPacketSize, MaxWireSize, header_size in *. lia.
Qed.

(** The packet of a legal message holds it. *)
Lemma wire_mail netAddr pkt mail data g1 g2 : message_ok netAddr pkt mail data →
  length g1 = Z.to_nat MaxPacketSize → length g2 = Z.to_nat MaxWireSize →
  let p := wire (post_header netAddr pkt mail) (post_buffer mail data g1) g2 in
  length p = Z.to_nat MaxWireSize ∧ packet_header p = post_header netAddr pkt mail ∧
  packet_mail p = mkMail (post_header netAddr pkt mail) mail (take (Z.to_nat (m_length mail)) data).
Proof.
  intros Hm H1 H2 p. pose proof (post_header_length _ _ _ _ Hm) as Hl. pose proof (post_header_range _ _ _ _ Hm) as Hr.
  pose proof (mo_size _ _ _ _ Hm) as Hs. pose proof (post_buffer_length mail data g1 Hs (mo_data _ _ _ _ Hm) H1) as Hb.
  assert (packet_header p = post_header netAddr pkt mail) as Hh by (by apply packet_header_roundtrip).
  unfold MaxMailSize, MaxPacketSize, MaxWireSize, header_size in *.
  split_and!; [| done |].
  - apply wire_length; [rewrite Hl; unfold MaxPacketSize, MaxWireSize, header_size; lia | rewrite Hl, Hb; lia | done].
  - unfold packet_mail. rewrite Hh. unfold p, wire, bcopy. rewrite Hl.
    change (Z.to_nat header_size) with (length (packet_header_bytes (post_header netAddr pkt mail))) at 1.
    rewrite drop_app_length. by apply (mail_in_prefix netAddr pkt mail data g1).
Qed.

Lemma word_at_prefix k len payload rest : (k + 4 ≤ len)%nat → (len ≤ length payload)%nat →
  word_at k (take len payload ++ rest) = word_at k payload.
Proof.
  intros Hk Hl. unfold word_at. rewrite drop_app_le by (rewrite length_take; lia).
  rewrite take_app_le by (rewrite length_drop, length_take; lia). f_equal. rewrite skipn_firstn_comm, take_take. f_equal. lia.
Qed.

(** A payload that was copied whole holds the same mail. *)
Lemma mail_in_copy h payload old len : let m := mail_header payload in
  12 ≤ len ≤ Z.of_nat (length payload) → 0 ≤ m_length m → m_length m + 12 ≤ len →
  mail_in h (bcopy payload old len) = mail_in h payload.
Proof.
  intros m Hlen Hm0 Hm. assert (mail_header (bcopy payload old len) = m) as Hh.
  { unfold m, mail_header, bcopy. by rewrite !word_at_prefix by lia. }
  unfold mail_in. rewrite Hh. f_equal. unfold bcopy, header_size. rewrite drop_app_le by (rewrite length_take; lia).
  rewrite take_app_le by (rewrite length_drop, length_take; lia). fold m. rewrite skipn_firstn_comm, take_take. f_equal. lia.
Qed.

(** A mail that the device of machine [k] accepts. *)
Record mail_fits (k : Z) (m : Mail) : Prop := {
  ml_to : p_to (pktHdr m) = k;
  ml_length : p_length (pktHdr m) = m_length (mailHdr m) + 12;
  ml_size : 0 ≤ m_length (mailHdr m) ≤ MaxMailSize
}.

(** A packet with such a mail arrives as it is. *)
Lemma CheckPktAvail_fits n p q : p_length (inHdr n) = 0 → sock n = p :: q → length p = Z.to_nat MaxWireSize →
  mail_fits (ident n) (packet_mail p) →
  ∃ n', Network_CheckPktAvail n = Arrived n' ∧ mail_in (inHdr n') (inbox n') = packet_mail p ∧ sock n' = q ∧
    ident n' = ident n ∧ sending n' = sending n ∧ sendBusy n' = sendBusy n ∧ p_length (inHdr n') ≠ 0 ∧
    (length (inbox n) = Z.to_nat MaxPacketSize → length (inbox n') = Z.to_nat MaxPacketSize).
Proof.
  intros H0 Hs Hlen [Hto Hl Hsz]. unfold Network_CheckPktAvail. rewrite decide_False by lia. rewrite Hs.
  unfold MaxMailSize, MaxPacketSize, MaxWireSize, header_size in *. simpl in Hto, Hl, Hsz.
  rewrite decide_True by lia. rewrite (bool_decide_true (p_to _ = _)) by done. rewrite (bool_decide_true (p_length _ <= _)) by (simpl; lia). eexists. split; [done |]. simpl.
  split_and!; try done; try lia.
  - unfold packet_mail. apply mail_in_copy; simpl; [rewrite length_drop |..]; unfold header_size in *; lia.
  - intros Hi. unfold bcopy. rewrite length_app, length_take, !length_drop, Hi. unfold header_size. lia.
Qed.

Lemma CheckPktAvail_reads n : Network_CheckPktAvail n ≠ Nothing → p_length (inHdr n) = 0 ∧ ∃ p q, sock n = p :: q.
Proof.
  unfold Network_CheckPktAvail. destruct (decide (p_length (inHdr n) ≠ 0)) as [Hn | Hn]; [done |]. apply dec_stable in Hn.
  destruct (sock n); [done | eauto].
Qed.

(** What the worker finds in its buffer after [Receive]. *)
Lemma Receive_mail n data : mail_fits (p_to (inHdr n)) (mail_in (inHdr n) (inbox n)) →
  length (inbox n) = Z.to_nat MaxPacketSize →
  let '(hdr, data', n') := Network_Receive data n in
  hdr = inHdr n ∧ mail_in hdr data' = mail_in (inHdr n) (inbox n) ∧ p_length (inHdr n') = 0 ∧ sock n' = sock n.
Proof.
  intros [_ Hl Hsz] Hi. unfold Network_Receive. simpl in Hl, Hsz.
  unfold MaxMailSize, MaxPacketSize, MaxWireSize, header_size in *.
  rewrite decide_True by lia. split_and!; try done. apply mail_in_copy; simpl; lia.
Qed.

Lemma message_fits netAddr pkt mail data : message_ok netAddr pkt mail data →
  mail_fits (p_to pkt) (mkMail (post_header netAddr pkt mail) mail (take (Z.to_nat (m_length mail)) data)).
Proof. intros Hm. split; simpl; [done | exact (post_header_length _ _ _ _ Hm) | exact (mo_size _ _ _ _ Hm)]. Qed.

(** [Send] of the device for the post office. *)
Lemma Network_Send_post n pkt mail data random g1 g2 : message_ok (ident n) pkt mail data → sendBusy n = false →
  ∃ n', Network_Send (post_header (ident n) pkt mail) (post_buffer mail data g1) random g2 n =
    Some (n', if loses n random then None else Some (wire (post_header (ident n) pkt mail) (post_buffer mail data g1) g2)) ∧
  sending n' = S (sending n) ∧ sock n' = sock n ∧ inHdr n' = inHdr n ∧ inbox n' = inbox n ∧ ident n' = ident n ∧
  sendBusy n' = false.
Proof.
  intros Hm Hb. pose proof (post_header_length _ _ _ _ Hm) as Hl. pose proof (mo_size _ _ _ _ Hm) as Hs.
  unfold MaxMailSize, MaxPacketSize, MaxWireSize, header_size in *.
  unfold Network_Send. rewrite Hb, (bool_decide_true (p_length _ > 0)), (bool_decide_true (p_length _ <= _)), (bool_decide_true (p_from _ = _));
    [eexists; simpl; split_and!; try done | done | unfold MaxPacketSize, MaxWireSize, header_size; lia | lia].
Qed.

(** C24 What one machine sends, another receives: a message that the network does
    not lose goes through [PostOffice::Send], [Network::Send], the socket,
    [CheckPktAvail], [Receive] and the constructor of [Mail], and comes out with
    the same headers and data, whatever the buffers held before. *)
Theorem message_roundtrip n1 n2 pkt mail data random g1 g2 buffer q :
  message_ok (ident n1) pkt mail data → sendBusy n1 = false → loses n1 random = false →
  length g1 = Z.to_nat MaxPacketSize → length g2 = Z.to_nat MaxWireSize →
  ident n2 = p_to pkt → p_length (inHdr n2) = 0 → length (inbox n2) = Z.to_nat MaxPacketSize →
  ∃ n1' packet, Network_Send (post_header (ident n1) pkt mail) (post_buffer mail data g1) random g2 n1 = Some (n1', Some packet) ∧
  ∃ n3, Network_CheckPktAvail (set_sock (packet :: q) n2) = Arrived n3 ∧
  let '(hdr, buffer', n4) := Network_Receive buffer n3 in
  mail_header buffer' = mail ∧
  Mail_new hdr (mail_header buffer') (drop (Z.to_nat header_size) buffer') =
    Some (mkMail (post_header (ident n1) pkt mail) mail (take (Z.to_nat (m_length mail)) data)) ∧
  p_length (inHdr n4) = 0 ∧ sock n4 = q.
Proof.
  intros Hm Hb Hlose H1 H2 Hid H0 Hi.
  destruct (Network_Send_post n1 pkt mail data random g1 g2 Hm Hb) as (n1' & Hsend & _). rewrite Hlose in Hsend.
  eexists n1', _. split; [exact Hsend |]. destruct (wire_mail _ _ _ _ g1 g2 Hm H1 H2) as (Hlen & _ & Hmail).
  set (packet := wire _ _ _) in *. pose proof (message_fits _ _ _ _ Hm) as Hfit. rewrite <- Hmail in Hfit.
  destruct (CheckPktAvail_fits (set_sock (packet :: q) n2) packet q) as (n3 & Harr & Hin & Hq & _ & _ & _ & _ & Hbox);
    [done | done | done | simpl; by rewrite Hid |].
  exists n3. split; [exact Harr |]. specialize (Hbox Hi). assert (inHdr n3 = post_header (ident n1) pkt mail) as Hh
    by exact (f_equal pktHdr (eq_trans Hin Hmail)).
  assert (mail_fits (p_to (inHdr n3)) (mail_in (inHdr n3) (inbox n3))) as Hfit3 by (rewrite Hin, Hh; exact Hfit).
  pose proof (Receive_mail n3 buffer Hfit3 Hbox) as Hrec. destruct (Network_Receive buffer n3) as [[hdr buffer'] n4].
  destruct Hrec as (-> & Hrec & Hz & Hsock). rewrite Hin, Hmail in Hrec.
  pose proof (f_equal mailHdr Hrec) as Hmh. pose proof (f_equal mail_data Hrec) as Hdata. cbn [mailHdr mail_data mail_in] in Hmh, Hdata.
  split_and!; [done | | done | congruence]. rewrite Hmh in *. unfold Mail_new. rewrite decide_True by apply (mo_size _ _ _ _ Hm).
  by rewrite Hh, Hdata.
Qed.

Lemma message_roundtrip_witness : ∃ n1' packet,
  Network_Send (post_header 0 (mkPacketHeader 1 9 9) (mkMailHeader 0 1 3)) (post_buffer (mkMailHeader 0 1 3) [72; 105; 0] (replicate 52 1))
    7 (replicate 64 2) (Network_new 0 1%Q (replicate 52 0) (mkPacketHeader 0 0 0)) = Some (n1', Some packet) ∧
  ∃ n3, Network_CheckPktAvail (set_sock [packet] (Network_new 1 1%Q (replicate 52 0) (mkPacketHeader 0 0 0))) = Arrived n3 ∧
  let '(hdr, buffer', n4) := Network_Receive (replicate 52 3) n3 in
  mail_header buffer' = mkMailHeader 0 1 3 ∧
  Mail_new hdr (mail_header buffer') (drop (Z.to_nat header_size) buffer') =
    Some (mkMail (mkPacketHeader 1 0 15) (mkMailHeader 0 1 3) [72; 105; 0]) ∧ p_length (inHdr n4) = 0 ∧ sock n4 = [].
Proof.
  apply (message_roundtrip (Network_new 0 1%Q (replicate 52 0) (mkPacketHeader 0 0 0)) (Network_new 1 1%Q (replicate 52 0) (mkPacketHeader 0 0 0))
    (mkPacketHeader 1 9 9) (mkMailHeader 0 1 3) [72; 105; 0] 7 (replicate 52 1) (replicate 64 2) (replicate 52 3) []); try reflexivity.
  split; unfold int_range, MaxMailSize, MaxPacketSize, MaxWireSize, header_size; simpl; lia.
Defined.

(** A reliability of 1 or more never loses a packet, 0 or less loses them all. *)
Lemma reliability_extremes addr (reliability : Q) box uninit random : 0 ≤ random →
  ((1 <= reliability)%Q → loses (Network_new addr reliability box uninit) random = false) ∧
  ((reliability <= 0)%Q → loses (Network_new addr reliability box uninit) random = true).
Proof.
  intros Hr. pose proof (Z.rem_bound_pos random 100 Hr ltac:(lia)) as Hb. unfold loses, Network_new. cbn [chanceToWork].
  split; intros Hq.
  - assert (Qle_bool 0 reliability = true) as -> by (apply Qle_bool_iff; apply (Qle_trans _ 1); [done | exact Hq]).
    assert (∀ c : Q, (1 <= c)%Q → Qle_bool (c * 100) (inject_Z (Z.rem random 100)) = false) as Hlose.
    { intros c Hc. apply not_true_is_false. intros Hle%Qle_bool_iff. 
      assert (1 * 100 <= inject_Z (Z.rem random 100))%Q as Hbad
        by (apply (Qle_trans _ (c * 100)); [by apply Qmult_le_compat_r | exact Hle]).
      unfold Qle, inject_Z in Hbad. simpl in Hbad. lia. }
    destruct (Qle_bool reliability 1); by apply Hlose.
  - assert (∀ c : Q, (c <= 0)%Q → Qle_bool (c * 100) (inject_Z (Z.rem random 100)) = true) as Hlose.
    { intros c Hc. apply Qle_bool_iff. apply (Qle_trans _ (0 * 100)); [by apply Qmult_le_compat_r |].
      unfold Qle, inject_Z. simpl. lia. }
    destruct (Qle_bool 0 reliability), (Qle_bool reliability 1) eqn:H1; try (by apply Hlose).
    exfalso. assert (Qle_bool reliability 1 = true) by (apply Qle_bool_iff; apply (Qle_trans _ 0); [exact Hq | done]). congruence.
Qed.
