(* ===== verification/PostOffice.v ===== *)
(** * Post offices on a network (network/post.{h,cc}, machine/network.cc)

    A number of machines, each with its network device (Network.v), its post
    office and the thread of its postal worker; on each machine any number of
    threads send and receive.  The threads of all machines are programs of
    Monitor.v; a mailbox is the queue that SynchList.v proves a [SynchList] to
    be, with [Get] blocked while it is empty.  The interrupts of the devices
    happen at any time, and each send carries the random number that decides
    whether its packet is lost and what its buffers held before.

    For legal messages no assertion fails, and each mailbox hands out, in order
    and once, the messages for it that the network did not lose. *)

From stdpp Require Import base gmap list numbers functions list_numbers.
From Stdlib Require Import ZArith Lia QArith.
From S2P Require Import Prelude Network Monitor MonitorFacts.
Open Scope Z_scope.

Record PostOffice := mkPostOffice {
  network : Network;
  boxes : list (list Mail);
  buffer : list Z             (* of PostalDelivery *)
}.

Definition numBoxes (po : PostOffice) : Z := Z.of_nat (length (boxes po)).
Definition set_network (n : Network) (po : PostOffice) : PostOffice := mkPostOffice n (boxes po) (buffer po).
Definition set_box (b : nat) (q : list Mail) (po : PostOffice) : PostOffice :=
  mkPostOffice (network po) (<[b := q]> (boxes po)) (buffer po).

Inductive PostSem := messageAvailable (k : nat) | messageSent (k : nat).
#[export] Instance PostSem_eq_dec : EqDecision PostSem.
Proof. solve_decision. Defined.

(** [k] is the machine. *)
Inductive PostAct :=
| SendCheck (k : nat) (mail : MailHeader) (data : list Z)
| NetSend (k : nat) (hdr : PacketHeader) (data : list Z) (random : Z) (garbage : list Z)
| NetReceive (k : nat)
| Put (k : nat) (hdr : PacketHeader) (mail : MailHeader) (data : list Z)
| Again (k : nat)
| Get (k : nat) (box : Z).

(** A packet was put into the socket of [to] or lost; a mail was put into a
    mailbox or taken out of it by thread [t]; an assertion failed in an interrupt
    handler of [k]. *)
Inductive PostEvent :=
| Wired (to : nat) (m : Mail)
| Lost (hdr : PacketHeader)
| PutIn (k : nat) (m : Mail)
| Got (t k : nat) (box : Z) (m : Mail)
| Broke (k : nat).

Abbreviation stmt := (stmt nat Empty_set PostSem PostAct).
Abbreviation System := (System nat Empty_set PostSem PostAct (list PostOffice)).
Abbreviation Shared := (Shared nat Empty_set PostSem (list PostOffice)).
Abbreviation answer := (reaction stmt (list PostOffice) PostEvent).

(** [PostOffice::PostalDelivery]: wait, take the packet, put it, again. *)
Definition PostalDelivery (k : nat) : list stmt :=
  [SP (Named (messageAvailable k)); Do (NetReceive k); Do (Again k)].

(** The assertions of [Send], and that [bcopy] reads only the message. *)
Definition check_send (po : PostOffice) (mail : MailHeader) (data : list Z) : bool :=
  bool_decide (m_length mail <= MaxMailSize) && bool_decide (0 <= m_to mail) && bool_decide (m_to mail < numBoxes po)
  && bool_decide (m_length mail <= Z.of_nat (length data)).

(** [network->Send(pktHdr, buffer)]; [SendToSocket] fails when nobody has the
    address. *)
Definition net_send (k : nat) (hdr : PacketHeader) (data : list Z) (random : Z) (garbage : list Z) (po : PostOffice)
    (d : list PostOffice) : answer :=
  match Network_Send hdr data random garbage (network po) with
  | None => Failed
  | Some (n, None) => Next [] (<[k := set_network n po]> d) (Some (Lost hdr))
  | Some (n, Some packet) =>
      let d' := <[k := set_network n po]> d in
      if decide (p_to hdr < 0) then Failed
      else match d' !! Z.to_nat (p_to hdr) with
      | None => Failed
      | Some dest =>
          Next [] (<[Z.to_nat (p_to hdr) := set_network (set_sock (sock (network dest) ++ [packet]) (network dest)) dest]> d')
            (Some (Wired (Z.to_nat (p_to hdr)) (packet_mail packet)))
      end
  end.

Definition net_receive (k : nat) (po : PostOffice) (d : list PostOffice) : answer :=
  let '(hdr, buf, n) := Network_Receive (buffer po) (network po) in
  Next [Do (Put k hdr (mail_header buf) (drop (Z.to_nat header_size) buf))] (<[k := mkPostOffice n (boxes po) buf]> d) None.

(** The assertions of [PostalDelivery], and [MailBox::Put]. *)
Definition put (k : nat) (hdr : PacketHeader) (mail : MailHeader) (data : list Z) (po : PostOffice) (d : list PostOffice) : answer :=
  if bool_decide (0 <= m_to mail) && bool_decide (m_to mail < numBoxes po) && bool_decide (m_length mail <= MaxMailSize) then
    match boxes po !! Z.to_nat (m_to mail), Mail_new hdr mail data with
    | Some q, Some m => Next [] (<[k := set_box (Z.to_nat (m_to mail)) (q ++ [m]) po]> d) (Some (PutIn k m))
    | _, _ => Failed
    end
  else Failed.

(** [PostOffice::Receive] and [MailBox::Get]. *)
Definition get_mail (t k : nat) (box : Z) (po : PostOffice) (d : list PostOffice) : answer :=
  if bool_decide (box >= 0) && bool_decide (box < numBoxes po) then
    match boxes po !! Z.to_nat box with
    | None => Failed
    | Some [] => Blocked
    | Some (m :: q) =>
        if decide (m_length (mailHdr m) <= MaxMailSize)
        then Next [] (<[k := set_box (Z.to_nat box) q po]> d) (Some (Got t k box m))
        else Failed
    end
  else Failed.

Definition machine_of (a : PostAct) : nat :=
  match a with SendCheck k _ _ | NetSend k _ _ _ _ | NetReceive k | Put k _ _ _ | Again k | Get k _ => k end.

Definition act (t : nat) (a : PostAct) (d : list PostOffice) : answer :=
  match d !! machine_of a with
  | None => Failed
  | Some po =>
      match a with
      | SendCheck k mail data => if check_send po mail data then Next [] d None else Failed
      | NetSend k hdr data random garbage => net_send k hdr data random garbage po d
      | NetReceive k => net_receive k po d
      | Put k hdr mail data => put k hdr mail data po d
      | Again k => Next (PostalDelivery k) d None
      | Get k box => get_mail t k box po d
      end
  end.

(** The interrupts: [SendDone] calls [PacketSent], and [CheckPktAvail] calls
    [IncomingPacket] when it has read a packet. *)
Inductive device (d : list PostOffice) : option PostEvent → list PostOffice → list PostSem → Prop :=
| device_sent k po n : d !! k = Some po → Network_SendDone (network po) = Some n →
    device d None (<[k := set_network n po]> d) [messageSent k]
| device_arrived k po n : d !! k = Some po → Network_CheckPktAvail (network po) = Arrived n →
    device d None (<[k := set_network n po]> d) [messageAvailable k]
| device_broken k po : d !! k = Some po → Network_CheckPktAvail (network po) = Broken →
    device d (Some (Broke k)) d [].

(** ** Clients *)

Inductive PostCall :=
| CSend (pkt : PacketHeader) (mail : MailHeader) (data : list Z) (random : Z) (g1 g2 : list Z)
| CReceive (box : Z).

(** [PostOffice::Send] of machine [k]. *)
Definition Send (k : nat) (pkt : PacketHeader) (mail : MailHeader) (data : list Z) (random : Z) (g1 g2 : list Z) : list stmt :=
  [Do (SendCheck k mail data)] ++ Acquire k ++
  [Do (NetSend k (post_header (Z.of_nat k) pkt mail) (post_buffer mail data g1) random g2); SP (Named (messageSent k))] ++
  Release k.
Definition Receive (k : nat) (box : Z) : list stmt := [Do (Get k box)].

Definition body (k : nat) (c : PostCall) : list stmt :=
  match c with CSend pkt mail data random g1 g2 => Send k pkt mail data random g1 g2 | CReceive box => Receive k box end.
Definition program (kc : nat * list PostCall) : list stmt := mjoin (body kc.1 <$> kc.2).

(** How a machine starts: its reliability, its mailboxes, and what its buffers
    hold. *)
Record Setup := mkSetup { reliability : Q; nBoxes : nat; old_inbox : list Z; old_hdr : PacketHeader; old_buffer : list Z }.

Definition PostOffice_new (addr : nat) (u : Setup) : PostOffice :=
  mkPostOffice (Network_new (Z.of_nat addr) (reliability u) (old_inbox u) (old_hdr u)) (replicate (nBoxes u) []) (old_buffer u).

(** The postal workers are the first threads. *)
Definition post_start (us : list Setup) (clients : list (nat * list PostCall)) : System :=
  start (λ _, 0) (imap PostOffice_new us) (imap (λ k _, PostalDelivery k) us ++ (program <$> clients)).

Definition post_run (us : list Setup) (clients : list (nat * list PostCall)) : list PostEvent → System → Prop :=
  reach act device (post_start us clients).
