(* ===== verification/PostFacts.v ===== *)
(** * What the post offices guarantee

    [host_ok] follows the messages of one machine from the socket through the
    device, the hands of the postal worker and the mailboxes to the receivers;
    every step of a thread or of a device keeps it. *)

From stdpp Require Import base gmap list numbers functions list_numbers.
From Stdlib Require Import ZArith Lia QArith.
From S2P Require Import Prelude Network Monitor MonitorFacts PostOffice.
Open Scope Z_scope.

(** ** What the clients may ask for *)

Definition setup_ok (u : Setup) : Prop :=
  length (old_inbox u) = Z.to_nat MaxPacketSize ∧ length (old_buffer u) = Z.to_nat MaxPacketSize.

Definition box_ok (us : list Setup) (k : nat) (box : Z) : Prop := ∃ u, us !! k = Some u ∧ 0 ≤ box < Z.of_nat (nBoxes u).

(** The mailbox exists on both machines: the sender asserts it for its own. *)
Definition send_ok (us : list Setup) (k : nat) (pkt : PacketHeader) (mail : MailHeader) (data : list Z) (g1 g2 : list Z) : Prop :=
  message_ok (Z.of_nat k) pkt mail data ∧ length g1 = Z.to_nat MaxPacketSize ∧ length g2 = Z.to_nat MaxWireSize ∧
  box_ok us k (m_to mail) ∧ 0 ≤ p_to pkt ∧ box_ok us (Z.to_nat (p_to pkt)) (m_to mail).

Definition call_ok (us : list Setup) (k : nat) (c : PostCall) : Prop :=
  match c with
  | CSend pkt mail data _ g1 g2 => send_ok us k pkt mail data g1 g2
  | CReceive box => box_ok us k box
  end.

(** ** Locks *)

Definition needs (a : PostAct) (l : nat) (after : lock_state) : Prop :=
  match a with NetSend k _ _ _ _ => after = if decide (k = l) then LHeld else LFree | _ => after = LFree end.

Lemma act_push t a d push d' e : act t a d = Next push d' e →
  push = [] ∨ (∃ k, a = Again k ∧ push = PostalDelivery k) ∨ (∃ k hdr mail body, a = NetReceive k ∧ push = [Do (Put k hdr mail body)]).
Proof.
  unfold act. destruct (d !! machine_of a) as [po |]; [| done]. destruct a as [k mail data | k hdr data r g | k | k hdr mail data | k | k box];
    unfold net_send, net_receive, put, get_mail; intros Ha; repeat case_match; simplify_eq; eauto 10.
Qed.

Lemma post_act_locks : acts_ok needs act.
Proof.
  intros t a d push d' e l r Ha Hw Hn.
  destruct (act_push _ _ _ _ _ _ Ha) as [-> | [(k & -> & ->) | (k & hdr & mail & bod & -> & ->)]]; simpl in *; done.
Qed.

Lemma body_locks k c l q : lock_wf needs l q → status l q = LFree →
  lock_wf needs l (body k c ++ q) ∧ status l (body k c ++ q) = LFree.
Proof.
  intros Hw Hs. destruct c as [pkt mail data random g1 g2 | box]; simpl; rewrite ?Hs; [| done].
  case_decide; split_and!; try done; intros; simplify_eq; repeat case_decide; done.
Qed.

Lemma post_program_locks kc l : lock_wf needs l (program kc) ∧ status l (program kc) = LFree.
Proof.
  destruct kc as [k cs]. unfold program. simpl. induction cs as [| c cs [IHw IHs]]; [done |]. by apply body_locks.
Qed.

(** ** Statements of clients *)

Definition stmt_legal (us : list Setup) (i : stmt) : Prop :=
  match i with
  | Do (SendCheck k mail data) =>
      box_ok us k (m_to mail) ∧ m_length mail ≤ MaxMailSize ∧ m_length mail ≤ Z.of_nat (length data)
  | Do (NetSend k hdr data random garbage) => ∃ pkt mail msg g1,
      send_ok us k pkt mail msg g1 garbage ∧ hdr = post_header (Z.of_nat k) pkt mail ∧ data = post_buffer mail msg g1
  | Do (Get k box) => box_ok us k box
  | SP (Named (messageSent k)) => is_Some (us !! k)
  | Do _ | SP (Named (messageAvailable _)) | SV (Named _) | SP (Waiter _) | SV (Waiter _) => False
  | _ => True
  end.

Definition link (i : stmt) (next : option stmt) : Prop :=
  match i with
  | Do (NetSend k _ _ _ _) => next = Some (SP (Named (messageSent k)))
  | SP (Named (messageSent k)) => next = Some (Unhold k)
  | _ => match next with Some (SP (Named _)) => False | _ => True end
  end.
Fixpoint linked (p : list stmt) : Prop := match p with [] => True | i :: r => link i (head r) ∧ linked r end.

Record client_ok (us : list Setup) (p : list stmt) : Prop := { cl_legal : Forall (stmt_legal us) p; cl_linked : linked p }.

Lemma body_client us k c q : call_ok us k c → client_ok us q → match head q with Some (SP (Named _)) => False | _ => True end →
  client_ok us (body k c ++ q) ∧ match head (body k c ++ q) with Some (SP (Named _)) => False | _ => True end.
Proof.
  intros Hc [Hl Hk] Hq. destruct c as [pkt mail data random g1 g2 | box]; simpl in *.
  - destruct Hc as (Hm & H1 & H2 & Hb & Ht & Hb'). split; [| done]. split; [| simpl; done].
    repeat constructor; try done.
    + apply (mo_size _ _ _ _ Hm).
    + apply (mo_data _ _ _ _ Hm).
    + exists pkt, mail, data, g1. done.
    + destruct Hb as (u & Hu & _). by exists u.
  - split; [| done]. split; [by constructor | done].
Qed.

Lemma program_client us k cs : Forall (call_ok us k) cs → client_ok us (program (k, cs)) ∧
  match head (program (k, cs)) with Some (SP (Named _)) => False | _ => True end.
Proof.
  intros Hc. unfold program. simpl. induction Hc as [| c cs Hc _ [IH1 IH2]]; [by split; [split |] |]. by apply body_client.
Qed.

(** ** One machine *)

Definition mail_ok (j : nat) (u : Setup) (m : Mail) : Prop :=
  mail_fits (Z.of_nat j) m ∧ 0 ≤ m_to (mailHdr m) < Z.of_nat (nBoxes u).

(** Where the postal worker is in its loop. *)
Inductive worker_at (j : nat) (u : Setup) : list stmt → Prop :=
| at_wait : worker_at j u (PostalDelivery j)
| at_receive : worker_at j u [Do (NetReceive j); Do (Again j)]
| at_put hdr mail data : mail_ok j u (mkMail hdr mail (take (Z.to_nat (m_length mail)) data)) →
    worker_at j u [Do (Put j hdr mail data); Do (Again j)]
| at_again : worker_at j u [Do (Again j)].

Definition receiving (p : list stmt) : Z := match p with Do (NetReceive _) :: _ => 1 | _ => 0 end.
(** The mail in the hands of the worker, and in the device. *)
Definition hand (p : list stmt) : list Mail :=
  match p with Do (Put _ hdr mail data) :: _ => [mkMail hdr mail (take (Z.to_nat (m_length mail)) data)] | _ => [] end.
Definition held_mail (n : Network) : list Mail :=
  if decide (p_length (inHdr n) = 0) then [] else [mail_in (inHdr n) (inbox n)].

Definition wired (j : nat) (tr : list PostEvent) : list Mail :=
  omap (λ e, match e with Wired k m => if decide (k = j) then Some m else None | _ => None end) tr.
Definition putin (j : nat) (tr : list PostEvent) : list Mail :=
  omap (λ e, match e with PutIn k m => if decide (k = j) then Some m else None | _ => None end) tr.
Definition got (j : nat) (b : Z) (tr : list PostEvent) : list Mail :=
  omap (λ e, match e with Got _ k box m => if decide (k = j ∧ box = b) then Some m else None | _ => None end) tr.
Definition for_box (b : Z) (ms : list Mail) : list Mail := filter (λ m, m_to (mailHdr m) = b) ms.

(** [p] is the program of the worker, [v] the value of [messageAvailable]. *)
Record host_ok (j : nat) (u : Setup) (po : PostOffice) (p : list stmt) (v : Z) (tr : list PostEvent) : Prop := {
  h_ident : ident (network po) = Z.of_nat j;
  h_idle : sendBusy (network po) = false;
  h_boxes : length (boxes po) = nBoxes u;
  h_inbox : length (inbox (network po)) = Z.to_nat MaxPacketSize;
  h_sock : Forall (λ pk, length pk = Z.to_nat MaxWireSize ∧ mail_ok j u (packet_mail pk)) (sock (network po));
  h_inhdr : p_length (inHdr (network po)) ≠ 0 → mail_ok j u (mail_in (inHdr (network po)) (inbox (network po)));
  h_mails : Forall (Forall (λ m, m_length (mailHdr m) ≤ MaxMailSize)) (boxes po);
  h_worker : worker_at j u p;
  h_value : 0 ≤ v ∧ v + receiving p = if decide (p_length (inHdr (network po)) = 0) then 0 else 1;
  h_wired : wired j tr = putin j tr ++ hand p ++ held_mail (network po) ++ (packet_mail <$> sock (network po));
  h_got : ∀ b q, boxes po !! b = Some q → for_box (Z.of_nat b) (putin j tr) = got j (Z.of_nat b) tr ++ q
}.

(** Events of other machines leave the trace of this one as it is. *)
Definition about (e : PostEvent) (j : nat) : Prop :=
  match e with Wired k _ | PutIn k _ | Got _ k _ _ => k = j | Lost _ | Broke _ => False end.

Lemma trace_other j tr e : (∀ ev, e = Some ev → ¬ about ev j) → wired j (tr ++ option_list e) = wired j tr ∧
  putin j (tr ++ option_list e) = putin j tr ∧ ∀ b, got j b (tr ++ option_list e) = got j b tr.
Proof.
  intros He. unfold wired, putin, got. setoid_rewrite omap_app. destruct e as [ev |]; [| simpl; setoid_rewrite app_nil_r; done].
  specialize (He ev eq_refl). destruct ev as [to m | hdr | k m | t k box m | k]; simpl in *;
    repeat (rewrite decide_False by done); split_and!; try by rewrite app_nil_r.
  all: intros b; rewrite ?decide_False by naive_solver; by rewrite app_nil_r.
Qed.

Lemma host_other j u po p v tr e : (∀ ev, e = Some ev → ¬ about ev j) → host_ok j u po p v tr → host_ok j u po p v (tr ++ option_list e).
Proof.
  intros He [H1 H2 H3 H4 H5 H6 H7 H8 H9 H10 H11]. destruct (trace_other j tr e He) as (Hw & Hp & Hg).
  split; try done; rewrite ?Hw, ?Hp; [done |]. intros b q Hq. rewrite Hg. by apply H11.
Qed.

(** The device may change in what is not a packet on its way in. *)
Lemma host_network j u po p v tr n : host_ok j u po p v tr → ident n = ident (network po) → sendBusy n = false →
  inHdr n = inHdr (network po) → inbox n = inbox (network po) → sock n = sock (network po) →
  host_ok j u (set_network n po) p v tr.
Proof.
  intros [H1 H2 H3 H4 H5 H6 H7 H8 H9 H10 H11] Hi Hb Hh Hx Hs. unfold held_mail in *.
  split; simpl; unfold held_mail; rewrite ?Hi, ?Hh, ?Hx, ?Hs; done.
Qed.

(** ** What happens to a message *)

Ltac trace_simpl := unfold wired, putin, got in *; rewrite ?omap_app; simpl; rewrite ?decide_True by done; rewrite ?app_nil_r.

Lemma host_wire j u po p v tr packet : host_ok j u po p v tr → length packet = Z.to_nat MaxWireSize →
  mail_ok j u (packet_mail packet) →
  host_ok j u (set_network (set_sock (sock (network po) ++ [packet]) (network po)) po) p v (tr ++ [Wired j (packet_mail packet)]).
Proof.
  intros [H1 H2 H3 H4 H5 H6 H7 H8 H9 H10 H11] Hl Hm. split; simpl; try done.
  - apply Forall_app. split; [done |]. by apply Forall_singleton.
  - trace_simpl. rewrite H10, fmap_app. by rewrite <- !app_assoc.
  - intros b q Hq. trace_simpl. by apply H11.
Qed.

(** The device reads a packet and raises [messageAvailable]. *)
Lemma host_arrive j u po p v tr n : host_ok j u po p v tr → Network_CheckPktAvail (network po) = Arrived n →
  host_ok j u (set_network n po) p (v + 1) tr ∧ sending n = sending (network po).
Proof.
  intros [H1 H2 H3 H4 H5 H6 H7 H8 H9 H10 H11] Hc. unfold held_mail in H10.
  destruct (CheckPktAvail_reads (network po)) as (H0 & packet & q & Hs); [by rewrite Hc |]. rewrite Hs in *.
  apply Forall_cons in H5 as [[Hlen [Hfit Hbox]] H5]. rewrite <- H1 in Hfit.
  destruct (CheckPktAvail_fits (network po) packet q H0 Hs Hlen Hfit) as (n' & Harr & Hin & Hq & Hid & Hsend & Hbusy & Hne & Hib).
  rewrite Hc in Harr. injection Harr as <-. rewrite decide_True in H9 by done. rewrite decide_True in H10 by done. split; [| done].
  split; simpl; try done; unfold held_mail; rewrite ?Hin, ?Hq; try congruence; auto.
  - intros _. split; [| done]. by rewrite <- H1.
  - rewrite decide_False by done. lia.
  - rewrite decide_False by done. exact H10.
Qed.

Lemma host_not_broken j u po p v tr : host_ok j u po p v tr → Network_CheckPktAvail (network po) ≠ Broken.
Proof.
  intros [H1 H2 H3 H4 H5 H6 H7 H8 H9 H10 H11] Hc.
  destruct (CheckPktAvail_reads (network po)) as (H0 & packet & q & Hs); [by rewrite Hc |]. rewrite Hs in *.
  apply Forall_cons in H5 as [[Hlen [Hfit Hbox]] H5]. rewrite <- H1 in Hfit.
  destruct (CheckPktAvail_fits (network po) packet q H0 Hs Hlen Hfit) as (n' & Harr & _). congruence.
Qed.

(** The worker waits for a packet, ... *)
Lemma host_waited j u po v tr : host_ok j u po (PostalDelivery j) v tr → v ≠ 0 →
  host_ok j u po [Do (NetReceive j); Do (Again j)] (v - 1) tr.
Proof.
  intros [H1 H2 H3 H4 H5 H6 H7 H8 H9 H10 H11] Hv. split; try done; [constructor |]. simpl in *. lia.
Qed.

(** ... takes it from the device, ... *)
Lemma host_received j u po v tr d push d' e : host_ok j u po [Do (NetReceive j); Do (Again j)] v tr →
  net_receive j po d = Next push d' e → ∃ po', d' = <[j := po']> d ∧ e = None ∧ sending (network po') = sending (network po) ∧
  host_ok j u po' (push ++ [Do (Again j)]) v tr.
Proof.
  intros [H1 H2 H3 H4 H5 H6 H7 H8 H9 H10 H11] Hx. unfold net_receive in Hx.
  unfold held_mail in H10. simpl in H9. case_decide as H0; [lia |]. specialize (H6 H0). destruct H6 as [Hfit Hbox].
  assert (mail_fits (p_to (inHdr (network po))) (mail_in (inHdr (network po)) (inbox (network po)))) as Hfit'.
  { destruct Hfit as [Ha Hb Hc]. by split. }
  pose proof (Receive_mail (network po) (buffer po) Hfit' H4) as Hrec.
  destruct (Network_Receive (buffer po) (network po)) as [[hdr buf] n] eqn:Hr. destruct Hrec as (-> & Hmail & Hz & Hs).
  assert (ident n = ident (network po) ∧ sendBusy n = sendBusy (network po) ∧ inbox n = inbox (network po) ∧
    sending n = sending (network po)) as (Hi & Hb & Hx' & Hse) by (unfold Network_Receive in Hr; injection Hr as _ <-; done).
  injection Hx as <- <- <-. eexists. split; [done |]. split; [done |]. split; [done |].
  split; simpl; try done; try congruence.
  - apply at_put. change (mail_ok j u (mail_in (inHdr (network po)) buf)). by rewrite Hmail.
  - rewrite decide_True by done. lia.
  - unfold held_mail. rewrite decide_True, Hs, H10 by done. simpl. do 2 f_equal. symmetry. exact Hmail.
Qed.

(** ... and puts it into its mailbox. *)
Lemma host_put j u po v tr hdr mail data d : host_ok j u po [Do (Put j hdr mail data); Do (Again j)] v tr →
  ∃ po' m, put j hdr mail data po d = Next [] (<[j := po']> d) (Some (PutIn j m)) ∧
  sending (network po') = sending (network po) ∧ host_ok j u po' [Do (Again j)] v (tr ++ [PutIn j m]).
Proof.
  intros [H1 H2 H3 H4 H5 H6 H7 H8 H9 H10 H11]. set (m := mkMail hdr mail (take (Z.to_nat (m_length mail)) data)).
  assert (mail_ok j u m) as [Hfit Hbox] by (by inversion H8). destruct Hfit as [_ _ Hsz]. simpl in Hbox, Hsz.
  assert (0 ≤ m_to mail < numBoxes po) as Hb by (unfold numBoxes; lia).
  destruct (lookup_lt_is_Some_2 (boxes po) (Z.to_nat (m_to mail))) as [q Hq]; [unfold numBoxes in Hb; lia |].
  exists (set_box (Z.to_nat (m_to mail)) (q ++ [m]) po), m. unfold put.
  rewrite !bool_decide_true by lia. rewrite Hq. unfold Mail_new. rewrite decide_True by lia. split; [done |]. split; [done |].
  split; simpl; try done.
  - by rewrite length_insert.
  - apply Forall_insert; [done |]. apply Forall_app. split; [by eapply Forall_lookup_1 in H7 | apply Forall_singleton; simpl; lia].
  - constructor.
  - trace_simpl. rewrite H10. simpl. by rewrite <- app_assoc.
  - intros b q' Hq'. trace_simpl. unfold for_box in *. rewrite filter_app.
    destruct (decide (b = Z.to_nat (m_to mail))) as [-> | Hne].
    + rewrite (lookup_here _ _ _ _ Hq) in Hq'. injection Hq' as <-. rewrite (H11 _ q Hq). rewrite filter_cons_True by (simpl; lia).
      by rewrite filter_nil, app_assoc.
    + rewrite list_lookup_insert_ne in Hq' by done. rewrite (H11 _ q' Hq'). rewrite filter_cons_False by (simpl; lia).
      by rewrite filter_nil, app_nil_r.
Qed.

Lemma host_again j u po v tr : host_ok j u po [Do (Again j)] v tr → host_ok j u po (PostalDelivery j) v tr.
Proof. intros [H1 H2 H3 H4 H5 H6 H7 H8 H9 H10 H11]. split; try done. constructor. Qed.

(** A receiver takes the first mail of a box. *)
Lemma host_get j u po p v tr t box d : host_ok j u po p v tr → 0 ≤ box < Z.of_nat (nBoxes u) →
  (get_mail t j box po d = Blocked ∧ boxes po !! Z.to_nat box = Some []) ∨
  ∃ po' m, get_mail t j box po d = Next [] (<[j := po']> d) (Some (Got t j box m)) ∧
    sending (network po') = sending (network po) ∧ host_ok j u po' p v (tr ++ [Got t j box m]).
Proof.
  intros [H1 H2 H3 H4 H5 H6 H7 H8 H9 H10 H11] Hb. unfold get_mail. rewrite !bool_decide_true by (unfold numBoxes; lia). simpl.
  destruct (lookup_lt_is_Some_2 (boxes po) (Z.to_nat box)) as [[| m q] Hq]; [lia | rewrite Hq; by left |]. right. rewrite Hq.
  pose proof (Forall_lookup_1 _ _ _ _ H7 Hq) as Hms. apply Forall_cons in Hms as [Hm Hms]. rewrite decide_True by done.
  exists (set_box (Z.to_nat box) q po), m. split; [done |]. split; [done |]. split; simpl; try done.
  - by rewrite length_insert.
  - by apply Forall_insert.
  - by trace_simpl.
  - intros b q' Hq'. trace_simpl. destruct (decide (b = Z.to_nat box)) as [-> | Hne].
    + rewrite (lookup_here _ _ _ _ Hq) in Hq'. injection Hq' as <-. rewrite (H11 _ _ Hq), decide_True by (split; [done | lia]).
      by rewrite <- app_assoc.
    + rewrite list_lookup_insert_ne in Hq' by done. rewrite (H11 _ _ Hq'), decide_False by (intros [_ ?]; lia). by rewrite app_nil_r.
Qed.

(** ** A step of a client *)

Definition in_send (k : nat) (p : list stmt) : nat :=
  match p with SP (Named (messageSent k')) :: _ => if decide (k' = k) then 1 else 0 | _ => 0 end.
Definition sends (k : nat) (i : stmt) : nat :=
  match i with Do (NetSend k' _ _ _ _) => if decide (k' = k) then 1 else 0 | _ => 0 end.

Lemma act_length t a d push d' e : act t a d = Next push d' e → length d' = length d.
Proof.
  unfold act. destruct (d !! machine_of a) as [po |]; [| done]. destruct a as [k mail data | k hdr data r g | k | k hdr mail data | k | k box];
    unfold net_send, net_receive, put, get_mail; intros Ha; repeat case_match; simplify_eq; by rewrite ?length_insert.
Qed.

(** The semaphores, as a client uses them. *)
Lemma exec_client us t i r m push m' e : client_ok us (i :: r) → perform act t i m = Next push m' e →
  push = [] ∧ client_ok us r ∧
  (∀ k, semValue m' (Named (messageAvailable k)) = semValue m (Named (messageAvailable k))) ∧
  (∀ k, 0 ≤ semValue m (Named (messageSent k)) → 0 ≤ semValue m' (Named (messageSent k))) ∧
  ∀ k, Z.of_nat (in_send k r) + semValue m (Named (messageSent k)) =
       Z.of_nat (in_send k (i :: r)) + semValue m' (Named (messageSent k)) + Z.of_nat (sends k i).
Proof.
  intros [[Hi Hl]%Forall_cons [Hk Hr]] Hx. assert (client_ok us r) as Hc by done.
  assert (match i with Do (NetSend _ _ _ _ _) => False | _ => True end → ∀ k, in_send k r = 0%nat) as Hno.
  { intros Hns k. destruct i as [[| | [|]] | | | | | |[]]; simpl in *; try done; destruct r as [| [[| | []] | | | | | |] ?]; simpl in *; done. }
  destruct i as [[l | n | [k0 | k0]] | [l | n | u0] | l | l | [] l | [] l | a]; simpl in Hi; try done; simpl in Hx.
  - case_decide; simplify_eq. split_and!; try done; intros k; simpl; rewrite ?fn_lookup_insert_ne by done; rewrite ?Hno by done; lia.
  - case_decide as Hv; simplify_eq. split_and!; try done; intros k; simpl.
    + intros H0. destruct (decide (k0 = k)) as [-> | Hne]; [rewrite fn_lookup_insert; lia | by rewrite fn_lookup_insert_ne by congruence].
    + rewrite Hno by done. case_decide as Hkk; [subst; rewrite fn_lookup_insert | rewrite fn_lookup_insert_ne by congruence]; lia.
  - simplify_eq. split_and!; try done; intros k; simpl; rewrite ?fn_lookup_insert_ne by done; rewrite ?Hno by done; lia.
  - simplify_eq. split_and!; try done. intros k. simpl. rewrite ?Hno by done. lia.
  - case_decide; simplify_eq. split_and!; try done. intros k. simpl. rewrite ?Hno by done. lia.
  - destruct (act t a (data m)) as [| | push0 d0 e0] eqn:Ha; simplify_eq. simpl.
    destruct (act_push _ _ _ _ _ _ Ha) as [-> | [(k & -> & _) | (k & ? & ? & ? & -> & _)]]; [| done..].
    split_and!; try done. intros k. destruct a as [| k0 | | | |]; try done; simpl; try (rewrite Hno by done; lia).
    simpl in Hk. destruct r as [| j r]; [done |]. injection Hk as ->. simpl. case_decide; lia.
Qed.

(** The machines, as a client changes them. *)
Definition devices_ok (us : list Setup) (d : list PostOffice) : Prop :=
  length d = length us ∧ ∀ j po, d !! j = Some po → ident (network po) = Z.of_nat j ∧ sendBusy (network po) = false.

Lemma send_result us t k hdr data random g d : stmt_legal us (Do (NetSend k hdr data random g)) → devices_ok us d →
  ∃ po n, d !! k = Some po ∧ sending n = S (sending (network po)) ∧ sock n = sock (network po) ∧ inHdr n = inHdr (network po) ∧
    inbox n = inbox (network po) ∧ ident n = ident (network po) ∧ sendBusy n = false ∧
    let d1 := <[k := set_network n po]> d in
    (act t (NetSend k hdr data random g) d = Next [] d1 (Some (Lost hdr)) ∨
     ∃ j u dest packet, us !! j = Some u ∧ d1 !! j = Some dest ∧ length packet = Z.to_nat MaxWireSize ∧ mail_ok j u (packet_mail packet) ∧
       act t (NetSend k hdr data random g) d =
       Next [] (<[j := set_network (set_sock (sock (network dest) ++ [packet]) (network dest)) dest]> d1) (Some (Wired j (packet_mail packet)))).
Proof.
  intros (pkt & mail & msg & g1 & (Hm & H1 & H2 & (uk & Huk & _) & Hto & (uj & Huj & Hbox)) & -> & ->) [Hlen Hd].
  destruct (lookup_lt_is_Some_2 d k) as [po Hpo]; [rewrite Hlen; by eapply lookup_lt_Some |].
  destruct (Hd k po Hpo) as [Hid Hbusy]. rewrite <- Hid in Hm.
  destruct (Network_Send_post (network po) pkt mail msg random g1 g Hm Hbusy) as (n & Hsend & Hs & Hsk & Hh & Hi & Hidn & Hb).
  exists po, n. split_and!; try done. simpl. unfold act. simpl. rewrite Hpo. unfold net_send. rewrite <- Hid, Hsend.
  destruct (loses (network po) random); [by left | right].
  destruct (wire_mail _ _ _ _ g1 g Hm H1 H2) as (Hwl & _ & Hwm). pose proof (message_fits _ _ _ _ Hm) as Hfit.
  simpl. rewrite decide_False by lia. set (j := Z.to_nat (p_to pkt)) in *.
  destruct (lookup_lt_is_Some_2 (<[k := set_network n po]> d) j) as [dest Hdest];
    [rewrite length_insert, Hlen; by eapply lookup_lt_Some |]. rewrite Hdest.
  eexists j, uj, dest, _. split_and!; try done. rewrite Hwm. split; [| exact Hbox]. by replace (Z.of_nat j) with (p_to pkt) by lia.
Qed.

Lemma send_hosts us t k hdr data random g d d' push e tr : stmt_legal us (Do (NetSend k hdr data random g)) → devices_ok us d →
  act t (NetSend k hdr data random g) d = Next push d' e →
  ∀ j u po po' p v, us !! j = Some u → d !! j = Some po → d' !! j = Some po' → host_ok j u po p v tr →
    host_ok j u po' p v (tr ++ option_list e) ∧
    sending (network po') = (sending (network po) + sends j (Do (NetSend k hdr data random g)))%nat.
Proof.
  intros Hleg Hd Hx j u po po' p v Hu Hpo Hpo' Hh.
  destruct (send_result us t k hdr data random g d Hleg Hd) as (pok & n & Hpok & Hs & Hsk & Hih & Hib & Hid & Hb & Hcase). simpl in Hcase.
  (* after the device of [k] has the packet *)
  assert (∀ po1, <[k := set_network n pok]> d !! j = Some po1 → host_ok j u po1 p v tr ∧
    sending (network po1) = (sending (network po) + if decide (k = j) then 1 else 0)%nat) as Hmid.
  { intros po1 H1. destruct (decide (k = j)) as [-> | Hne].
    - rewrite (lookup_here _ _ _ _ Hpok) in H1. injection H1 as <-. rewrite Hpo in Hpok. injection Hpok as <-.
      split; [by apply host_network | simpl; lia].
    - rewrite list_lookup_insert_ne in H1 by done. rewrite Hpo in H1. injection H1 as <-. split; [done | lia]. }
  destruct Hcase as [Hl | (j' & u' & dest & packet & Hu' & Hdest & Hlen & Hmok & Hw)].
  - rewrite Hl in Hx. injection Hx as <- <- <-. destruct (Hmid po' Hpo') as [Hok Hsend]. split; [| done].
    apply (host_other _ _ _ _ _ _ (Some _)); [| done]. by intros ev [= <-] [].
  - rewrite Hw in Hx. injection Hx as <- <- <-. simpl. destruct (decide (j' = j)) as [-> | Hne].
    + rewrite (lookup_here _ _ _ _ Hdest) in Hpo'. injection Hpo' as <-. destruct (Hmid dest Hdest) as [Hok Hsend].
      split; [| done]. rewrite Hu in Hu'. injection Hu' as <-. by apply host_wire.
    + rewrite list_lookup_insert_ne in Hpo' by done. destruct (Hmid po' Hpo') as [Hok Hsend]. split; [| done].
      apply (host_other _ _ _ _ _ _ (Some _)); [| done]. by intros ev [= <-].
Qed.

Lemma client_hosts us t i r m push m' e tr : client_ok us (i :: r) → devices_ok us (data m) → perform act t i m = Next push m' e →
  (∀ j u po, us !! j = Some u → data m !! j = Some po → ∃ p v, host_ok j u po p v tr) →
  ∀ j u po po' p v, us !! j = Some u → data m !! j = Some po → data m' !! j = Some po' → host_ok j u po p v tr →
    host_ok j u po' p v (tr ++ option_list e) ∧ sending (network po') = (sending (network po) + sends j i)%nat.
Proof.
  intros [[Hleg _]%Forall_cons _] Hd Hx Hall j u po po' p v Hu Hpo Hpo' Hh.
  assert (data m' = data m → e = None → sends j i = 0%nat →
    host_ok j u po' p v (tr ++ option_list e) ∧ sending (network po') = (sending (network po) + sends j i)%nat) as Hsame.
  { intros Heq -> ->. rewrite Heq, Hpo in Hpo'. injection Hpo' as <-. simpl. rewrite app_nil_r. split; [done | lia]. }
  destruct i as [x | x | l | l | [] l | [] l | a]; simpl in Hx.
  - case_decide; simplify_eq. by apply Hsame.
  - simplify_eq. by apply Hsame.
  - simplify_eq. by apply Hsame.
  - case_decide; simplify_eq. by apply Hsame.
  - destruct (act t a (data m)) as [| | push0 d0 e0] eqn:Ha; simplify_eq. simpl in Hpo'.
    destruct a as [k mail data | k hdr data r0 g | k | k hdr mail data | k | k box]; simpl in Hleg; try done.
    + unfold act in Ha. simpl in Ha. repeat case_match; simplify_eq. by apply Hsame.
    + exact (send_hosts us t k hdr data r0 g _ _ _ e tr Hleg Hd Ha j u po po' p v Hu Hpo Hpo' Hh).
    + destruct Hleg as (uk & Huk & Hbox). unfold act in Ha. simpl in Ha. destruct (Monitor.data m !! k) as [pok |] eqn:Hk; [| done].
      destruct (Hall k uk pok Huk Hk) as (pk & vk & Hhk).
      destruct (decide (k = j)) as [-> | Hne].
      * assert (pok = po) as -> by congruence. assert (uk = u) as -> by congruence.
        destruct (host_get j u po p v tr t box (Monitor.data m) Hh Hbox) as [[Hb _] | (po1 & m1 & Hg & Hs & Hok)]; [congruence |].
        rewrite Hg in Ha. injection Ha as <- <- <-. rewrite (lookup_here _ _ _ _ Hpo) in Hpo'. injection Hpo' as <-.
        simpl. split; [done | lia].
      * destruct (host_get k uk pok pk vk tr t box (Monitor.data m) Hhk Hbox) as [[Hb _] | (po1 & m1 & Hg & Hs & Hok)]; [congruence |].
        rewrite Hg in Ha. injection Ha as <- <- <-. rewrite list_lookup_insert_ne in Hpo' by done.
        assert (po' = po) as -> by congruence. split; [| simpl; lia].
        apply (host_other _ _ _ _ _ _ (Some _)); [| done]. by intros ev [= <-].
Qed.

(** ** All machines *)

Record post_ok (us : list Setup) (tr : list PostEvent) (s : System) : Prop := {
  pk_locks : locks_ok needs s;
  pk_length : length (data (shared s)) = length us;
  pk_threads : (length us ≤ length (threads s))%nat;
  pk_host : ∀ j u po p, us !! j = Some u → data (shared s) !! j = Some po → threads s !! j = Some p →
    host_ok j u po p (semValue (shared s) (Named (messageAvailable j))) tr;
  pk_client : ∀ t p, (length us ≤ t)%nat → threads s !! t = Some p → client_ok us p;
  pk_value : ∀ k, 0 ≤ semValue (shared s) (Named (messageSent k));
  pk_sent : ∀ k po, data (shared s) !! k = Some po → Z.of_nat (sum_list_with (in_send k) (threads s)) =
    semValue (shared s) (Named (messageSent k)) + Z.of_nat (sending (network po))
}.

(** What belongs to a machine. *)
Lemma host_parts us tr s j u : post_ok us tr s → us !! j = Some u → ∃ po p, data (shared s) !! j = Some po ∧ threads s !! j = Some p ∧
  host_ok j u po p (semValue (shared s) (Named (messageAvailable j))) tr.
Proof.
  intros Hs Hu. pose proof (lookup_lt_Some _ _ _ Hu) as Hlt.
  destruct (lookup_lt_is_Some_2 (data (shared s)) j) as [po Hpo]; [rewrite (pk_length _ _ _ Hs); lia |].
  destruct (lookup_lt_is_Some_2 (threads s) j) as [p Hp]; [pose proof (pk_threads _ _ _ Hs); lia |].
  exists po, p. split_and!; try done. by apply (pk_host _ _ _ Hs).
Qed.

Lemma post_devices us tr s : post_ok us tr s → devices_ok us (data (shared s)).
Proof.
  intros Hs. split; [apply (pk_length _ _ _ Hs) |]. intros j po Hpo.
  destruct (lookup_lt_is_Some_2 us j) as [u Hu]; [rewrite <- (pk_length _ _ _ Hs); by eapply lookup_lt_Some |].
  destruct (host_parts us tr s j u Hs Hu) as (po' & p & Hpo' & _ & Hh). assert (po' = po) as -> by congruence.
  split; [apply (h_ident _ _ _ _ _ _ Hh) | apply (h_idle _ _ _ _ _ _ Hh)].
Qed.

Lemma post_client_step us tr ts m t i r push m' e : post_ok us tr (mkSystem ts m) → (length us ≤ t)%nat →
  ts !! t = Some (i :: r) → perform act t i m = Next push m' e → locks_ok needs (mkSystem (<[t := push ++ r]> ts) m') →
  post_ok us (tr ++ option_list e) (mkSystem (<[t := push ++ r]> ts) m').
Proof.
  intros Hs Hlt Ht Hx Hlk. pose proof (pk_client _ _ _ Hs t _ Hlt Ht) as Hc.
  destruct (exec_client us t i r m push m' e Hc Hx) as (-> & Hc' & Hav & Hv & Hin). simpl app in *.
  pose proof (client_hosts us t i r m [] m' e tr Hc (post_devices _ _ _ Hs) Hx) as Hhosts.
  assert (∀ j u po, us !! j = Some u → data m !! j = Some po → ∃ p v, host_ok j u po p v tr) as Hall.
  { intros j u po Hu Hpo. destruct (host_parts us tr _ j u Hs Hu) as (po1 & p & Hpo1 & _ & Hh). simpl in *.
    assert (po1 = po) as -> by congruence. eauto. }
  specialize (Hhosts Hall). assert (length (data m') = length (data m)) as Hlen.
  { destruct i as [x | x | l | l | [] l | [] l | a]; simpl in Hx; repeat case_match; simplify_eq; simpl; try done. by eapply act_length. }
  destruct Hs as [_ Hl Hth Hh Hcl Hval Hsent]. cbn [threads shared] in *.
  split; cbn [threads shared]; try done.
  - congruence.
  - by rewrite length_insert.
  - intros j u po' p Hu Hpo' Hp. rewrite list_lookup_insert_ne in Hp by (apply lookup_lt_Some in Hu; lia). rewrite Hav.
    destruct (lookup_lt_is_Some_2 (data m) j) as [po Hpo]; [rewrite <- Hlen; by eapply lookup_lt_Some |].
    by eapply (Hhosts j u po po'); eauto.
  - intros t' p Hge [[-> ->] | [_ Hp]]%lookup_moved; [done | by eapply Hcl].
  - intros k. by apply Hv.
  - intros k po' Hpo'. destruct (lookup_lt_is_Some_2 (data m) k) as [po Hpo]; [rewrite <- Hlen; by eapply lookup_lt_Some |].
    destruct (lookup_lt_is_Some_2 us k) as [u Hu]; [rewrite <- Hl; by eapply lookup_lt_Some |].
    destruct (Hall k u po Hu Hpo) as (p & v & Hok). destruct (Hhosts k u po po' p v Hu Hpo Hpo' Hok) as [_ ->].
    pose proof (sum_insert (in_send k) ts t _ r Ht). specialize (Hsent k po Hpo). specialize (Hin k). lia.
Qed.

(** A step that concerns one machine and its worker. *)
Lemma post_update us tr ts m m' e j u po po' p p' : post_ok us tr (mkSystem ts m) → us !! j = Some u →
  data m !! j = Some po → ts !! j = Some p → data m' = <[j := po']> (data m) →
  host_ok j u po' p' (semValue m' (Named (messageAvailable j))) (tr ++ option_list e) →
  (∀ k, k ≠ j → semValue m' (Named (messageAvailable k)) = semValue m (Named (messageAvailable k))) →
  (∀ k, semValue m' (Named (messageSent k)) = semValue m (Named (messageSent k))) →
  sending (network po') = sending (network po) → (∀ ev k, e = Some ev → k ≠ j → ¬ about ev k) →
  (∀ k, in_send k p' = in_send k p) → locks_ok needs (mkSystem (<[j := p']> ts) m') →
  post_ok us (tr ++ option_list e) (mkSystem (<[j := p']> ts) m').
Proof.
  intros [_ Hl Hth Hh Hcl Hval Hsent] Hu Hpo Hp Hd Hok Hav Hse Hsend Hev Hin Hlk. cbn [threads shared] in *.
  split; cbn [threads shared]; try done.
  - by rewrite Hd, length_insert.
  - by rewrite length_insert.
  - intros j' u' po1 p1 Hu' Hpo1 Hp1. rewrite Hd in Hpo1. destruct (decide (j' = j)) as [-> | Hne].
    + rewrite (lookup_here _ _ _ _ Hpo) in Hpo1. rewrite (lookup_here _ _ _ _ Hp) in Hp1. congruence.
    + rewrite list_lookup_insert_ne in Hpo1 by done. rewrite list_lookup_insert_ne in Hp1 by done. rewrite Hav by done.
      apply host_other; [| by apply Hh]. intros ev Hev'. by apply Hev.
  - intros t p1 Hge Hp1. rewrite list_lookup_insert_ne in Hp1 by (apply lookup_lt_Some in Hu; lia). by eapply Hcl.
  - intros k. by rewrite Hse.
  - intros k po1 Hpo1. rewrite Hse, Hd in *. pose proof (sum_insert (in_send k) ts j p p' Hp) as Hsum. rewrite Hin in Hsum.
    assert (sum_list_with (in_send k) (<[j := p']> ts) = sum_list_with (in_send k) ts) as -> by lia.
    destruct (decide (k = j)) as [-> | Hne].
    + rewrite (lookup_here _ _ _ _ Hpo) in Hpo1. injection Hpo1 as <-. rewrite Hsend. by apply Hsent.
    + rewrite list_lookup_insert_ne in Hpo1 by done. by apply Hsent.
Qed.

Lemma post_worker_step us tr ts m t u i r push m' e : post_ok us tr (mkSystem ts m) → us !! t = Some u →
  ts !! t = Some (i :: r) → perform act t i m = Next push m' e → locks_ok needs (mkSystem (<[t := push ++ r]> ts) m') →
  post_ok us (tr ++ option_list e) (mkSystem (<[t := push ++ r]> ts) m').
Proof.
  intros Hs Hu Ht Hx Hlk. destruct (host_parts us tr _ t u Hs Hu) as (po & p & Hpo & Hp & Hh). cbn [threads shared] in *.
  rewrite Ht in Hp. injection Hp as <-. pose proof (h_worker _ _ _ _ _ _ Hh) as Hw. inversion Hw; subst; simpl in Hx.
  - case_decide as Hv; simplify_eq. eapply (post_update us tr ts m _ None t u po po); try done.
    + simpl. by rewrite list_insert_id.
    + rewrite app_nil_r. simpl. rewrite fn_lookup_insert. by apply host_waited.
    + intros k Hne. simpl. by rewrite fn_lookup_insert_ne by congruence.
  - unfold act in Hx. simpl in Hx. rewrite Hpo in Hx. destruct (net_receive t po (data m)) as [| | push1 d1 e1] eqn:Hr; simplify_eq.
    destruct (host_received t u po _ tr (data m) push d1 e Hh Hr) as (po' & -> & -> & Hsend & Hok).
    eapply (post_update us tr ts m _ None t u po po'); try done.
    + rewrite app_nil_r. exact Hok.
    + intros k. unfold net_receive, Network_Receive in Hr. by injection Hr as <- _.
  - unfold act in Hx. simpl in Hx. rewrite Hpo in Hx.
    destruct (host_put t u po _ tr hdr mail data (Monitor.data m) Hh) as (po' & m1 & Hput & Hsend & Hok). rewrite Hput in Hx. simplify_eq.
    eapply (post_update us tr ts m _ (Some (PutIn t m1)) t u po po'); try done. intros ev k [= <-] Hne. simpl. congruence.
  - unfold act in Hx. simpl in Hx. rewrite Hpo in Hx. simplify_eq.
    eapply (post_update us tr ts m _ None t u po po); try done.
    + simpl. by rewrite list_insert_id.
    + replace (tr ++ option_list None) with tr by (by rewrite app_nil_r). exact (host_again _ _ _ _ _ Hh).
Qed.

Lemma post_device_step us tr ts m e d qs : post_ok us tr (mkSystem ts m) → device (data m) e d qs →
  locks_ok needs (mkSystem ts (raise_all qs (set_data d m))) → e = None ∧ post_ok us tr (mkSystem ts (raise_all qs (set_data d m))).
Proof.
  intros Hs Hd Hlk. destruct Hd as [k po n Hpo Hn | k po n Hpo Hn | k po Hpo Hn].
  all: destruct (lookup_lt_is_Some_2 us k) as [u Hu]; [rewrite <- (pk_length _ _ _ Hs); by eapply lookup_lt_Some |].
  all: destruct (host_parts us tr _ k u Hs Hu) as (po' & p & Hpo' & Hp & Hh); cbn [threads shared] in *; assert (po' = po) as -> by congruence.
  - split; [done |]. unfold Network_SendDone in Hn. destruct (sending (network po)) as [| q] eqn:Hq; [done |]. injection Hn as <-.
    destruct Hs as [_ Hl Hth Hho Hcl Hval Hsent]. cbn [threads shared] in *. split; cbn [threads shared]; try done; simpl.
    + by rewrite length_insert.
    + intros j u' po1 p1 Hu' Hpo1 Hp1. rewrite fn_lookup_insert_ne by done. destruct (decide (j = k)) as [-> | Hne].
      * rewrite (lookup_here _ _ _ _ Hpo) in Hpo1. injection Hpo1 as <-. assert (u' = u) as -> by congruence.
        apply host_network; try done. assert (p1 = p) as -> by congruence. done.
      * rewrite list_lookup_insert_ne in Hpo1 by done. by apply Hho.
    + intros j. destruct (decide (j = k)) as [-> | Hne]; [rewrite fn_lookup_insert; specialize (Hval k); lia |].
      by rewrite fn_lookup_insert_ne by congruence.
    + intros j po1 Hpo1. destruct (decide (j = k)) as [-> | Hne].
      * rewrite (lookup_here _ _ _ _ Hpo) in Hpo1. injection Hpo1 as <-. rewrite fn_lookup_insert. simpl.
        specialize (Hsent k po Hpo). rewrite Hq in Hsent. lia.
      * rewrite list_lookup_insert_ne in Hpo1 by done. rewrite fn_lookup_insert_ne by congruence. by apply Hsent.
  - split; [done |]. destruct (host_arrive k u po p _ tr n Hh Hn) as [Hok Hsend].
    rewrite <- (app_nil_r tr). rewrite <- (list_insert_id ts k p Hp). eapply (post_update us tr ts m _ None k u po (set_network n po)); try done.
    + rewrite app_nil_r. simpl. by rewrite fn_lookup_insert.
    + intros k' Hne. simpl. by rewrite fn_lookup_insert_ne by congruence.
    + by rewrite list_insert_id.
  - by apply (host_not_broken _ _ _ _ _ _ Hh) in Hn.
Qed.
