(* ===== verification/PostClaims.v ===== *)
(** * The properties of the post offices

    No assertion fails, messages arrive in order and once, and nothing stays on
    the way: proved of every run of any number of machines and threads. *)

From stdpp Require Import base gmap list numbers functions list_numbers.
From Stdlib Require Import ZArith Lia QArith.
From S2P Require Import Prelude Network Monitor MonitorFacts PostOffice PostFacts.
Open Scope Z_scope.

Definition clients_ok (us : list Setup) (clients : list (nat * list PostCall)) : Prop :=
  Forall (λ kc, Forall (call_ok us kc.1) kc.2) clients.

Lemma post_ok_step us tr s e s' : post_ok us tr s → step act device s e s' → post_ok us (tr ++ option_list e) s'.
Proof.
  intros Hs Hstep. pose proof (locks_ok_step needs act device post_act_locks s e s' (pk_locks _ _ _ Hs) Hstep) as Hl.
  destruct Hstep as [ts m t i r push m' e Ht Hx | ts m e d qs Hd].
  - destruct (us !! t) as [u |] eqn:Hu; [by eapply post_worker_step |].
    apply (post_client_step us tr ts m t i r push m' e Hs); try done. by apply lookup_ge_None.
  - destruct (post_device_step us tr ts m e d qs Hs Hd Hl) as [-> Hok]. by rewrite app_nil_r.
Qed.

Lemma start_threads us clients t p : (imap (λ k (_ : Setup), PostalDelivery k) us ++ (program <$> clients)) !! t = Some p →
  (∃ u, us !! t = Some u ∧ p = PostalDelivery t) ∨
  (length us ≤ t ∧ ∃ kc, clients !! (t - length us)%nat = Some kc ∧ p = program kc)%nat.
Proof.
  intros [Ht | [Hge Ht]]%lookup_app_Some.
  - left. rewrite list_lookup_imap in Ht. destruct (us !! t) as [u |]; [| done]. injection Ht as <-. eauto.
  - right. rewrite length_imap in Hge, Ht. split; [done |]. rewrite list_lookup_fmap in Ht.
    destruct (clients !! (t - length us)%nat) as [kc |]; [| done]. injection Ht as <-. eauto.
Qed.

Lemma PostOffice_new_ok j u : setup_ok u → host_ok j u (PostOffice_new j u) (PostalDelivery j) 0 [].
Proof.
  intros [Hi Hb]. split; simpl; try done.
  - by rewrite length_replicate.
  - apply Forall_replicate. constructor.
  - constructor.
  - intros b q Hq. by apply lookup_replicate in Hq as [-> _].
Qed.

Lemma post_start_ok us clients : Forall setup_ok us → clients_ok us clients → post_ok us [] (post_start us clients).
Proof.
  intros Hus Hcs. unfold clients_ok in Hcs. rewrite Forall_lookup in Hus. rewrite Forall_lookup in Hcs.
  split; simpl; try done.
  - apply locks_ok_start, Forall_lookup.
    intros t p [(u & _ & ->) | (_ & kc & _ & ->)]%start_threads l; [done | apply post_program_locks].
  - by rewrite length_imap.
  - rewrite length_app, length_imap. lia.
  - intros j u po p Hu Hpo Hp. rewrite list_lookup_imap, Hu in Hpo. injection Hpo as <-.
    apply start_threads in Hp as [(u' & _ & ->) | (Hge & _)]; [apply PostOffice_new_ok; by eapply Hus |].
    apply lookup_lt_Some in Hu. lia.
  - intros t p Hge [(u & Hu & _) | (_ & [k cs] & Hkc & ->)]%start_threads; [apply lookup_lt_Some in Hu; lia |].
    apply program_client. exact (Hcs _ _ Hkc).
  - intros k po Hpo. rewrite list_lookup_imap in Hpo. destruct (us !! k) as [u |]; [| done]. injection Hpo as <-.
    rewrite sum_zero; [done |]. intros p [t Hp]%list_elem_of_lookup.
    apply start_threads in Hp as [(u' & _ & ->) | (_ & [k' cs] & Hkc & ->)]; [done |].
    destruct (program_client us k' cs (Hcs _ _ Hkc)) as [_ Hh].
    destruct (program (k', cs)) as [| [[| | []] | | | | | |] ?]; done.
Qed.

Lemma post_run_ok us clients tr s : Forall setup_ok us → clients_ok us clients → post_run us clients tr s → post_ok us tr s.
Proof.
  intros Hus Hcs. apply (reach_inv act device (post_ok us)); [by apply post_start_ok |].
  intros tr0 s1 e s2. apply post_ok_step.
Qed.

(** ** No assertion fails *)

(** At most one thread of a machine waits for its packet to be sent. *)
Lemma one_send us tr s k : post_ok us tr s → (sum_list_with (in_send k) (threads s) ≤ 1)%nat.
Proof.
  intros Hs. pose proof (lk_count needs s (pk_locks _ _ _ Hs) k) as Hc. pose proof (lk_value needs s (pk_locks _ _ _ Hs) k) as Hv.
  enough (sum_list_with (in_send k) (threads s) ≤ sum_list_with (busy k) (threads s))%nat by lia.
  apply sum_le. intros p [t Hp]%list_elem_of_lookup. destruct (us !! t) as [u |] eqn:Hu.
  - destruct (host_parts us tr s t u Hs Hu) as (po & p' & _ & Hp' & Hh). assert (p' = p) as -> by congruence.
    pose proof (h_worker _ _ _ _ _ _ Hh) as Hw. inversion Hw; subst; simpl; lia.
  - apply lookup_ge_None in Hu. destruct (pk_client _ _ _ Hs t p Hu Hp) as [_ Hlink].
    destruct p as [| [[| | [|k0]] | | | | | |] r]; simpl; try lia. case_decide as Hk; [subst k0 | lia].
    simpl in Hlink. destruct Hlink as [Hn _]. destruct r as [| i r]; [done |]. injection Hn as ->. unfold busy. simpl.
    rewrite (decide_True (P := k = k)) by done. rewrite decide_False by done. lia.
Qed.

(** What an action of a thread does, failure excluded. *)
Lemma action_ok us tr s t a r : post_ok us tr s → threads s !! t = Some (Do a :: r) →
  (∃ push d e, act t a (data (shared s)) = Next push d e) ∨
  act t a (data (shared s)) = Blocked ∧ ∃ k box po, a = Get k box ∧ data (shared s) !! k = Some po ∧ boxes po !! Z.to_nat box = Some [].
Proof.
  intros Hs Ht. destruct (us !! t) as [u |] eqn:Hu.
  - left. destruct (host_parts us tr s t u Hs Hu) as (po & p & Hpo & Hp & Hh). assert (p = Do a :: r) as -> by congruence.
    pose proof (h_worker _ _ _ _ _ _ Hh) as Hw. inversion Hw; subst; unfold act; simpl; rewrite Hpo.
    + unfold net_receive. destruct (Network_Receive (buffer po) (network po)) as [[hdr buf] n]. eauto.
    + destruct (host_put t u po _ tr hdr mail data (Monitor.data (shared s)) Hh) as (po' & m1 & -> & _). eauto.
    + eauto.
  - apply lookup_ge_None in Hu. destruct (pk_client _ _ _ Hs t _ Hu Ht) as [[Hleg _]%Forall_cons _].
    destruct a as [k mail data | k hdr data r0 g | k | k hdr mail data | k | k box]; simpl in Hleg; try done.
    + destruct Hleg as ((uk & Huk & Hbox) & Hlen & Hdat). destruct (host_parts us tr s k uk Hs Huk) as (po & p & Hpo & _ & Hh).
      left. unfold act. simpl. rewrite Hpo. unfold check_send, numBoxes. rewrite (h_boxes _ _ _ _ _ _ Hh), !bool_decide_true by lia.
      eauto.
    + left. destruct (send_result us t k hdr data r0 g _ Hleg (post_devices _ _ _ Hs)) as (po & n & _ & _ & _ & _ & _ & _ & _ & Hcase).
      simpl in Hcase. destruct Hcase as [-> | (j & uj & dest & packet & _ & _ & _ & _ & ->)]; eauto.
    + destruct Hleg as (uk & Huk & Hbox). destruct (host_parts us tr s k uk Hs Huk) as (po & p & Hpo & _ & Hh).
      unfold act. simpl. rewrite Hpo.
      destruct (host_get k uk po p _ tr t box (Monitor.data (shared s)) Hh Hbox) as [[Hb Hq] | (po' & m1 & Hg & _)].
      * right. split; [exact Hb |]. exists k, box, po. done.
      * left. rewrite Hg. eauto.
Qed.

Lemma no_failure us tr s t i r : post_ok us tr s → threads s !! t = Some (i :: r) → perform act t i (shared s) ≠ Failed.
Proof.
  intros Hs Ht Hx. destruct (locks_ok_safe needs act s t i r (pk_locks _ _ _ Hs) Ht Hx) as (a & -> & Hf).
  destruct (action_ok us tr s t a r Hs Ht) as [(push & d & e & Hn) | [Hb _]]; congruence.
Qed.

(** C19 The post offices never stop with an assertion when the threads send legal
    messages: not in [Send], [Receive] or the postal worker, not in the
    interrupt handler that reads packets, and no machine ever has two packets
    on their way out. *)
Theorem post_offices_safe us clients tr s : Forall setup_ok us → clients_ok us clients → post_run us clients tr s →
  (∀ t i r, threads s !! t = Some (i :: r) → perform act t i (shared s) ≠ Failed) ∧
  (∀ k, Broke k ∉ tr) ∧
  (∀ k po, data (shared s) !! k = Some po → (sending (network po) ≤ 1)%nat).
Proof.
  intros Hus Hcs Hrun. pose proof (post_run_ok us clients tr s Hus Hcs Hrun) as Hs. split_and!.
  - intros t i r. by apply (no_failure us tr).
  - clear Hs. enough (post_ok us tr s ∧ ∀ k, Broke k ∉ tr) as [_ ?]; [done |]. revert tr s Hrun.
    apply (reach_inv act device (λ tr s, post_ok us tr s ∧ ∀ k, Broke k ∉ tr)).
    + split; [by apply post_start_ok |]. intros k. apply not_elem_of_nil.
    + intros tr s1 e s2 [Hok Hno] Hstep. split; [by eapply post_ok_step |]. intros k [Hin | Hin]%elem_of_app; [by eapply Hno |].
      pose proof (locks_ok_step needs act device post_act_locks s1 e s2 (pk_locks _ _ _ Hok) Hstep) as Hl.
      destruct Hstep as [ts m t i r push m' e Ht Hx | ts m e d qs Hd].
      * destruct i as [x | x | l | l | [] l | [] l | a]; simpl in Hx; repeat case_match; simplify_eq; try by apply not_elem_of_nil in Hin.
        unfold act, net_send, net_receive, put, get_mail in *. repeat case_match; simplify_eq; simpl in Hin; set_solver.
      * destruct (post_device_step us tr ts m e d qs Hok Hd Hl) as [-> _]. by apply not_elem_of_nil in Hin.
  - intros k po Hpo. pose proof (one_send us tr s k Hs). pose proof (pk_sent _ _ _ Hs k po Hpo). pose proof (pk_value _ _ _ Hs k). lia.
Qed.

(** ** Where the messages come from *)

(** [m] is a message to machine [j] that one of the clients passes to [Send]. *)
Definition sent_by (clients : list (nat * list PostCall)) (j : nat) (m : Mail) : Prop :=
  ∃ k cs pkt mail data random g1 g2, (k, cs) ∈ clients ∧ CSend pkt mail data random g1 g2 ∈ cs ∧ Z.to_nat (p_to pkt) = j ∧
    m = mkMail (post_header (Z.of_nat k) pkt mail) mail (take (Z.to_nat (m_length mail)) data).

Lemma program_sends k cs k' hdr data random g : Do (NetSend k' hdr data random g) ∈ program (k, cs) →
  ∃ pkt mail msg g1, CSend pkt mail msg random g1 g ∈ cs ∧ k' = k ∧ hdr = post_header (Z.of_nat k) pkt mail ∧ data = post_buffer mail msg g1.
Proof.
  unfold program. simpl. induction cs as [| c cs IH]; simpl; [by intros ?%not_elem_of_nil |].
  intros [Hin | Hin]%elem_of_app.
  - destruct c as [pkt mail msg random' g1 g2 | box]; simpl in Hin;
      repeat (apply elem_of_cons in Hin as [Hin | Hin]; [try discriminate Hin |]); try (by apply not_elem_of_nil in Hin).
    injection Hin as -> -> -> -> ->. exists pkt, mail, msg, g1. split; [apply list_elem_of_here | done].
  - destruct (IH Hin) as (pkt & mail & msg & g1 & Hc & ?). exists pkt, mail, msg, g1. split; [by apply list_elem_of_further | done].
Qed.

Lemma act_wired t a d push d' j m : act t a d = Next push d' (Some (Wired j m)) →
  ∃ k hdr data random g, a = NetSend k hdr data random g ∧ j = Z.to_nat (p_to hdr) ∧ m = packet_mail (wire hdr data g).
Proof.
  unfold act. destruct (d !! machine_of a) as [po |]; [| done]. destruct a as [k mail data | k hdr data r g | k | k hdr mail data | k | k box];
    unfold net_send, net_receive, put, get_mail, Network_Send; intros Ha; repeat case_match; simplify_eq. eauto 10.
Qed.

(** A client has the rest of its program ahead of it. *)
Definition rests (us : list Setup) (clients : list (nat * list PostCall)) (s : System) : Prop :=
  ∀ t p, (length us ≤ t)%nat → threads s !! t = Some p → ∃ kc, kc ∈ clients ∧ p `suffix_of` program kc.

Lemma rests_step us clients tr s e s' : post_ok us tr s → rests us clients s → step act device s e s' → rests us clients s'.
Proof.
  intros Hs Hr Hstep. destruct Hstep as [ts m t i r push m' e Ht Hx | ts m e d qs Hd]; [| exact Hr].
  intros t' p Hge [[-> ->] | [_ Hp]]%lookup_moved; [| by eapply Hr]. cbn [threads shared] in *.
  destruct (exec_client us t i r m push m' e (pk_client _ _ _ Hs t _ Hge Ht) Hx) as (-> & _).
  destruct (Hr t _ Hge Ht) as (kc & Hkc & Hsuf). exists kc. split; [done |]. etransitivity; [| exact Hsuf]. by apply suffix_cons_r.
Qed.

Lemma wired_sent us clients tr s : Forall setup_ok us → clients_ok us clients → post_run us clients tr s →
  ∀ j m, Wired j m ∈ tr → sent_by clients j m.
Proof.
  intros Hus Hcs Hrun. enough (post_ok us tr s ∧ rests us clients s ∧ ∀ j m, Wired j m ∈ tr → sent_by clients j m) as (_ & _ & ?); [done |].
  revert tr s Hrun. apply (reach_inv act device (λ tr s, post_ok us tr s ∧ rests us clients s ∧ ∀ j m, Wired j m ∈ tr → sent_by clients j m)).
  - split; [by apply post_start_ok |]. split; [| by intros j m ?%not_elem_of_nil].
    intros t p Hge [(u & Hu & _) | (_ & kc & Hkc & ->)]%start_threads; [apply lookup_lt_Some in Hu; lia |].
    exists kc. split; [by eapply list_elem_of_lookup_2 | done].
  - intros tr s1 e s2 (Hok & Hr & Hw) Hstep. split; [by eapply post_ok_step |]. split; [by eapply rests_step |].
    intros j m [Hin | Hin]%elem_of_app; [by apply Hw |]. destruct e as [ev |]; [| by apply not_elem_of_nil in Hin].
    apply list_elem_of_singleton in Hin as <-. pose proof (post_ok_step _ _ _ _ _ Hok Hstep) as Hok2.
    inversion Hstep as [ts m0 t i r push m' e' Ht Hx | ts m0 e' d qs Hd]; subst; [| by inversion Hd].
    destruct i as [x | x | l | l | [] l | [] l | a]; simpl in Hx; repeat case_match; simplify_eq.
    match goal with H : act _ _ _ = _ |- _ => destruct (act_wired _ _ _ _ _ _ _ H) as (k & hdr & data & random & g & -> & -> & ->) end.
    destruct (us !! t) as [u |] eqn:Hu.
    + destruct (host_parts us tr _ t u Hok Hu) as (po & p & _ & Hp & Hh). cbn [threads] in Hp. rewrite Ht in Hp. injection Hp as <-.
      pose proof (h_worker _ _ _ _ _ _ Hh) as Hwk. by inversion Hwk.
    + apply lookup_ge_None in Hu. destruct (Hr t _ Hu Ht) as ([k' cs] & Hkc & [pre Hpre]).
      destruct (program_sends k' cs k hdr data random g) as (pkt & mail & msg & g1 & Hc & -> & -> & ->);
        [rewrite Hpre; apply elem_of_app; right; apply list_elem_of_here |].
      unfold clients_ok in Hcs. rewrite Forall_forall in Hcs. specialize (Hcs _ Hkc). rewrite Forall_forall in Hcs.
      destruct (Hcs _ Hc) as (Hm & H1 & H2 & _). exists k', cs, pkt, mail, msg, random, g1, g. split_and!; try done.
      by destruct (wire_mail _ _ _ _ g1 g Hm H1 H2) as (_ & _ & Hwm).
Qed.

(** C16 Every mailbox is a queue of the messages that the network did not lose:
    what its receivers got, followed by what is in it, is the beginning of what
    was put on the wire for it, and all of that was passed to [Send] with these
    headers and this data; nothing is duplicated, reordered, altered, made up or
    delivered to another box. *)
Theorem mail_in_order us clients tr s j po b q : Forall setup_ok us → clients_ok us clients → post_run us clients tr s →
  data (shared s) !! j = Some po → boxes po !! b = Some q →
  (∃ transit, for_box (Z.of_nat b) (wired j tr) = got j (Z.of_nat b) tr ++ q ++ transit) ∧
  Forall (sent_by clients j) (wired j tr).
Proof.
  intros Hus Hcs Hrun Hpo Hq. pose proof (post_run_ok us clients tr s Hus Hcs Hrun) as Hs. split.
  - destruct (lookup_lt_is_Some_2 us j) as [u Hu]; [rewrite <- (pk_length _ _ _ Hs); by eapply lookup_lt_Some |].
    destruct (host_parts us tr s j u Hs Hu) as (po' & p & Hpo' & _ & Hh). assert (po' = po) as -> by congruence.
    eexists. rewrite (h_wired _ _ _ _ _ _ Hh). unfold for_box. rewrite filter_app.
    pose proof (h_got _ _ _ _ _ _ Hh b q Hq) as Hg. unfold for_box in Hg. rewrite Hg. by rewrite <- app_assoc.
  - apply Forall_forall. intros m Hm. apply (wired_sent us clients tr s Hus Hcs Hrun).
    unfold wired in Hm. apply list_elem_of_omap in Hm as ([k m' | | | |] & Hin & Heq); try done. case_decide; simplify_eq. done.
Qed.

(** When nothing moves, the postal workers wait and nothing is on the way in. *)
Lemma quiet_host us tr s j u : post_ok us tr s → idle act s → (∀ e d qs, ¬ device (data (shared s)) e d qs) → us !! j = Some u →
  threads s !! j = Some (PostalDelivery j) ∧ wired j tr = putin j tr.
Proof.
  intros Hs Hidle Hdev Hu. destruct (host_parts us tr s j u Hs Hu) as (po & p & Hpo & Hp & Hh).
  assert (∀ a r, p ≠ Do a :: r) as Hno.
  { intros a r ->. destruct (action_ok us tr s j a r Hs Hp) as [(push & d & e & Hn) | [_ (k & box & po' & -> & _)]].
    - eapply (Hidle j (Do a) r); [done |]. simpl. by rewrite Hn.
    - pose proof (h_worker _ _ _ _ _ _ Hh) as Hw. by inversion Hw. }
  pose proof (h_worker _ _ _ _ _ _ Hh) as Hw. inversion Hw; subst; try (by exfalso; eapply Hno). split; [done |].
  assert (semValue (shared s) (Named (messageAvailable j)) = 0) as Hv.
  { destruct (decide (semValue (shared s) (Named (messageAvailable j)) = 0)) as [| Hne]; [done | exfalso].
    eapply (Hidle j (SP (Named (messageAvailable j))) _); [exact Hp |]. simpl. by rewrite decide_False. }
  pose proof (h_value _ _ _ _ _ _ Hh) as [_ Hval]. rewrite Hv in Hval. simpl in Hval. case_decide as H0; [| done].
  rewrite (h_wired _ _ _ _ _ _ Hh). unfold held_mail. rewrite decide_True by done. simpl.
  destruct (sock (network po)) as [| packet q] eqn:Hsock; [by rewrite app_nil_r |]. exfalso.
  pose proof (h_sock _ _ _ _ _ _ Hh) as Hall. rewrite Hsock in Hall. apply Forall_cons in Hall as [[Hlen [Hfit _]] _].
  rewrite <- (h_ident _ _ _ _ _ _ Hh) in Hfit.
  destruct (CheckPktAvail_fits (network po) packet q H0 Hsock Hlen Hfit) as (n & Harr & _).
  by eapply Hdev, (device_arrived _ j po n).
Qed.

(** What a client waits for when nothing moves: a lock, or a message. *)
Definition waits_for_mail (s : System) (i : stmt) : Prop :=
  ∃ k box po, i = Do (Get k box) ∧ data (shared s) !! k = Some po ∧ boxes po !! Z.to_nat box = Some [].

Lemma quiet_client us tr s t i r : post_ok us tr s → idle act s → (∀ e d qs, ¬ device (data (shared s)) e d qs) →
  (length us ≤ t)%nat → threads s !! t = Some (i :: r) →
  (∃ l, i = SP (Mutex l) ∧ semValue (shared s) (Mutex l) = 0) ∨ waits_for_mail s i.
Proof.
  intros Hs Hidle Hdev Hge Ht. destruct (pk_client _ _ _ Hs t _ Hge Ht) as [[Hleg _]%Forall_cons _].
  destruct (perform act t i (shared s)) as [| | push m e] eqn:Hx; [| by apply (no_failure us tr s t i r Hs Ht) in Hx | by edestruct Hidle].
  destruct i as [x | x | l | l | [] l | [] l | a]; simpl in Hx; try (by repeat case_match).
  - case_decide as Hv; [| done]. destruct x as [l | n | [k | k]]; simpl in Hleg; try done; [by left; exists l |]. exfalso.
    destruct Hleg as [u Hu]. destruct (host_parts us tr s k u Hs Hu) as (po & p & Hpo & _).
    pose proof (sum_ge (in_send k) _ t _ Ht) as Hin. simpl in Hin. rewrite decide_True in Hin by done.
    pose proof (pk_sent _ _ _ Hs k po Hpo) as Hsum. destruct (sending (network po)) as [| q] eqn:Hq; [lia |].
    eapply Hdev, (device_sent _ k po); [done |]. unfold Network_SendDone. by rewrite Hq.
  - right. destruct (action_ok us tr s t a r Hs Ht) as [(push & d & e & Hn) | [_ (k & box & po & -> & Hpo & Hq)]].
    + by rewrite Hn in Hx.
    + by exists k, box, po.
Qed.

(** Then no client waits for a lock: its holder would be able to go on. *)
Lemma quiet_waits us tr s t i r : post_ok us tr s → idle act s → (∀ e d qs, ¬ device (data (shared s)) e d qs) →
  (length us ≤ t)%nat → threads s !! t = Some (i :: r) → waits_for_mail s i.
Proof.
  intros Hs Hidle Hdev Hge Ht. destruct (quiet_client us tr s t i r Hs Hidle Hdev Hge Ht) as [(l & -> & Hv) | ?]; [exfalso | done].
  pose proof (lk_count needs s (pk_locks _ _ _ Hs) l) as Hc. rewrite Hv in Hc.
  destruct (sum_pos (busy l) (threads s)) as (t' & p & Hp & Hb); [lia |]. unfold busy in Hb. case_decide as Hf; [lia |]. apply Hf.
  destruct (us !! t') as [u |] eqn:Hu.
  - destruct (quiet_host us tr s t' u Hs Hidle Hdev Hu) as [Hw _]. rewrite Hp in Hw. by injection Hw as ->.
  - apply lookup_ge_None in Hu. destruct p as [| i' r']; [done |].
    pose proof (lk_wf needs s (pk_locks _ _ _ Hs) t' _ l Hp) as [Hok _].
    destruct (quiet_client us tr s t' i' r' Hs Hidle Hdev Hu Hp) as [(l' & -> & _) | (k & box & po & -> & _)]; simpl in *; [| done].
    by case_decide.
Qed.

(** C22 Nothing stays on the way: when neither a thread nor a device can go on,
    every message that was put on the wire is in its mailbox or was received,
    and every thread that has not finished waits in [Receive] at an empty box. *)
Theorem post_offices_progress us clients tr s : Forall setup_ok us → clients_ok us clients → post_run us clients tr s →
  idle act s → (∀ e d qs, ¬ device (data (shared s)) e d qs) →
  (∀ j u, us !! j = Some u → wired j tr = putin j tr) ∧
  (∀ t i r, (length us ≤ t)%nat → threads s !! t = Some (i :: r) → waits_for_mail s i).
Proof.
  intros Hus Hcs Hrun Hidle Hdev. pose proof (post_run_ok us clients tr s Hus Hcs Hrun) as Hs.
  split; [intros j u Hu; by eapply quiet_host |]. intros t i r. by apply (quiet_waits us tr).
Qed.

(** ** A run *)

(** Interrupts, for examples: a packet arrives at [k], or its packet is sent. *)
Definition raised (k : nat) (n : Network) (q : PostSem) (s : System) : System :=
  match data (shared s) !! k with
  | Some po => mkSystem (threads s) (raise_all [q] (set_data (<[k := set_network n po]> (data (shared s))) (shared s)))
  | None => s
  end.
Definition arrive (k : nat) (s : System) : option System :=
  match data (shared s) !! k with
  | Some po => match Network_CheckPktAvail (network po) with Arrived n => Some (raised k n (messageAvailable k) s) | _ => None end
  | None => None
  end.
Definition finish_send (k : nat) (s : System) : option System :=
  match data (shared s) !! k with
  | Some po => match Network_SendDone (network po) with Some n => Some (raised k n (messageSent k) s) | _ => None end
  | None => None
  end.

Lemma arrive_reach k s s' : arrive k s = Some s' → reach act device s [] s'.
Proof.
  unfold arrive, raised. destruct s as [ts m]. simpl. destruct (data m !! k) as [po |] eqn:Hpo; [| done].
  destruct (Network_CheckPktAvail (network po)) as [| | n] eqn:Hn; [done.. |]. intros [= <-].
  apply (reach_step act device (mkSystem ts m) [] (mkSystem ts m) None); [constructor |].
  exact (step_device act device ts m None _ [messageAvailable k] (device_arrived _ k po n Hpo Hn)).
Qed.

Lemma finish_send_reach k s s' : finish_send k s = Some s' → reach act device s [] s'.
Proof.
  unfold finish_send, raised. destruct s as [ts m]. simpl. destruct (data m !! k) as [po |] eqn:Hpo; [| done].
  destruct (Network_SendDone (network po)) as [n |] eqn:Hn; [| done]. intros [= <-].
  apply (reach_step act device (mkSystem ts m) [] (mkSystem ts m) None); [constructor |].
  exact (step_device act device ts m None _ [messageSent k] (device_sent _ k po n Hpo Hn)).
Qed.

Definition quiet_office (po : PostOffice) : bool :=
  match Network_CheckPktAvail (network po), Network_SendDone (network po) with Nothing, None => true | _, _ => false end.

Lemma quiet_devices d : forallb quiet_office d = true → ∀ e d' qs, ¬ device d e d' qs.
Proof.
  intros Hall e d' qs Hd. rewrite forallb_forall in Hall.
  destruct Hd as [k po n Hpo Hn | k po n Hpo Hn | k po Hpo Hn]; apply list_elem_of_lookup_2, list_elem_of_In, Hall in Hpo;
    unfold quiet_office in Hpo; rewrite Hn in Hpo; by destruct (Network_CheckPktAvail (network po)).
Qed.

(** Machine 0 sends [Hi] to mailbox 0 of machine 1, where a thread waits. *)
Definition two_machines : list Setup := replicate 2 (mkSetup 1%Q 2 (replicate 52 0) (mkPacketHeader 0 0 0) (replicate 52 0)).
Definition hello : PostCall := CSend (mkPacketHeader 1 0 0) (mkMailHeader 0 1 3) [72; 105; 0] 7 (replicate 52 1) (replicate 64 2).
Definition two_clients : list (nat * list PostCall) := [(0%nat, [hello]); (1%nat, [CReceive 0])].
Definition on_wire := scheduled act [2; 2; 2; 2]%nat (post_start two_machines two_clients).
Definition in_device := default (on_wire.1) (arrive 1 (on_wire.1)).
Definition delivered := scheduled act [1; 1; 1; 1; 3]%nat in_device.
Definition acknowledged := default (delivered.1) (finish_send 0 (delivered.1)).
Definition all_done := scheduled act [2; 2; 2]%nat acknowledged.
Definition hello_trace : list PostEvent := on_wire.2 ++ [] ++ delivered.2 ++ [] ++ all_done.2.

Lemma two_machines_ok : Forall setup_ok two_machines.
Proof. by repeat constructor. Qed.

Lemma two_clients_ok : clients_ok two_machines two_clients.
Proof.
  assert (∀ k, (k < 2)%nat → box_ok two_machines k 0) as Hbox.
  { intros [| [|]] Hk; [eexists; split; [done | simpl; lia].. | lia]. }
  unfold clients_ok, two_clients. rewrite !Forall_cons, !Forall_nil. simpl. rewrite !Forall_singleton. split; [| split; [| done]].
  - unfold hello. simpl. split_and!; try done; try (apply Hbox; simpl; lia).
  - simpl. apply Hbox. lia.
Qed.

Lemma hello_run : post_run two_machines two_clients hello_trace (all_done.1).
Proof.
  unfold hello_trace. eapply reach_trans; [apply scheduled_reach; vm_compute; reflexivity |].
  eapply reach_trans; [apply (arrive_reach 1 _ in_device); vm_compute; reflexivity |].
  eapply reach_trans; [apply scheduled_reach; vm_compute; reflexivity |].
  eapply reach_trans; [apply (finish_send_reach 0 _ acknowledged); vm_compute; reflexivity |].
  apply scheduled_reach. vm_compute. reflexivity.
Qed.

Definition hello_mail : Mail := mkMail (mkPacketHeader 1 0 15) (mkMailHeader 0 1 3) [72; 105; 0].

Lemma post_offices_safe_witness : hello_trace = [Wired 1 hello_mail; PutIn 1 hello_mail; Got 3 1 0 hello_mail] ∧ ∀ k, Broke k ∉ hello_trace.
Proof.
  split; [vm_compute; reflexivity |].
  exact (proj1 (proj2 (post_offices_safe _ _ _ _ two_machines_ok two_clients_ok hello_run))).
Defined.

Lemma mail_in_order_witness : got 1 0 hello_trace = [hello_mail] ∧
  (∃ transit, for_box 0 (wired 1 hello_trace) = got 1 0 hello_trace ++ [] ++ transit) ∧ Forall (sent_by two_clients 1) (wired 1 hello_trace).
Proof.
  split; [vm_compute; reflexivity |].
  refine (mail_in_order _ _ _ _ 1 _ 0 [] two_machines_ok two_clients_ok hello_run _ _); [vm_compute; reflexivity | reflexivity].
Defined.

Lemma post_offices_progress_witness : wired 1 hello_trace = putin 1 hello_trace.
Proof.
  refine (proj1 (post_offices_progress _ _ _ _ two_machines_ok two_clients_ok hello_run _ _) 1%nat _ eq_refl).
  - intros t i r push m e. assert (threads (all_done.1) = [PostalDelivery 0; PostalDelivery 1; []; []]) as -> by (vm_compute; reflexivity).
    assert (∀ k, (k < 2)%nat → perform act k (SP (Named (messageAvailable k))) (shared (all_done.1)) = Blocked) as Hwait.
    { intros [| [|]] Hk; [vm_compute; reflexivity.. | lia]. }
    destruct t as [| [| [| [| t]]]]; try done; intros [= <- <-]; by rewrite Hwait by lia.
  - apply quiet_devices. vm_compute. reflexivity.
Defined.
