(* ===== verification/MailTest.v ===== *)
(** * The test of the network (network/nettest.cc)

    Two machines run [MailTest] with each other's address: each sends a message,
    waits for the other's, acknowledges it, and waits for the acknowledgment.
    The calls are those of a client of PostOffice.v.  The acknowledgment is
    addressed with what [Receive] returned; the address is an argument of
    [MailTest] here, and [MailTest_completes] shows that it is the one in the
    message that was received.  The list ends with the last [Receive]: the
    [interrupt->Halt()] after it, which ends the program, is not a call to the
    post office and is not in the model. *)

From stdpp Require Import base gmap list numbers strings functions list_numbers.
From Stdlib Require Import ZArith Lia QArith.
From S2P Require Import Prelude MachineFacts Network Monitor MonitorFacts PostOffice PostFacts PostClaims.
Open Scope Z_scope.

(** The strings [data] and [ack], with their 0. *)
Definition data_text : list Z := chars "Hello there!" ++ [0].
Definition ack_text : list Z := chars "Got it!" ++ [0].

(** What is not determined by the program: the fields of [outPktHdr] that [Send]
    sets, the random numbers of the device, and what the buffers held. *)
Record Noise := mkNoise {
  junk : PacketHeader; random1 : Z; random2 : Z;
  buffer1 : list Z; buffer2 : list Z; packet1 : list Z; packet2 : list Z
}.

(** [in_from] and [in_box] are [inPktHdr.from] and [inMailHdr.from] after the
    first [Receive]. *)
Definition MailTest (farAddr in_from in_box : Z) (z : Noise) : list PostCall :=
  let outPktHdr to := mkPacketHeader to (p_from (junk z)) (p_length (junk z)) in
  [CSend (outPktHdr farAddr) (mkMailHeader 0 1 (Z.of_nat (length data_text))) data_text (random1 z) (buffer1 z) (packet1 z);
   CReceive 0;
   CSend (outPktHdr in_from) (mkMailHeader in_box 1 (Z.of_nat (length ack_text))) ack_text (random2 z) (buffer2 z) (packet2 z);
   CReceive 1].

(** The line that is printed after a [Receive]: the text, the machine and the box. *)
Definition printed_line (m : Mail) : list Z * Z * Z :=
  (take (Z.to_nat (m_length (mailHdr m)) - 1) (mail_data m), p_from (pktHdr m), m_from (mailHdr m)).

Definition noise_ok (z : Noise) : Prop :=
  length (buffer1 z) = Z.to_nat MaxPacketSize ∧ length (buffer2 z) = Z.to_nat MaxPacketSize ∧
  length (packet1 z) = Z.to_nat MaxWireSize ∧ length (packet2 z) = Z.to_nat MaxWireSize.

(** A machine for the test: two mailboxes at least, and a network that loses nothing. *)
Definition test_setup (u : Setup) : Prop := setup_ok u ∧ (2 ≤ nBoxes u)%nat ∧ reliability u = 1%Q.

Definition far (k : nat) : nat := (1 - k)%nat.
Definition sent_data (k : nat) : Mail := mkMail (mkPacketHeader (Z.of_nat (far k)) (Z.of_nat k) 25) (mkMailHeader 0 1 13) data_text.
Definition sent_ack (k : nat) : Mail := mkMail (mkPacketHeader (Z.of_nat (far k)) (Z.of_nat k) 20) (mkMailHeader 1 1 8) ack_text.

(** ** Nothing is lost *)

Definition reliable (d : list PostOffice) : Prop := ∀ j po, d !! j = Some po → chanceToWork (network po) = 1%Q.

Lemma reliable_insert d k po : reliable d → chanceToWork (network po) = 1%Q → reliable (<[k := po]> d).
Proof. intros Hd Hpo j po' [[-> ->] | [_ Hj]]%lookup_moved; [done | by eapply Hd]. Qed.

Lemma reliable_act t a d push d' e : act t a d = Next push d' e → reliable d → reliable d'.
Proof.
  intros Ha Hd. unfold act in Ha. destruct (d !! machine_of a) as [po |] eqn:Hpo; [| done]. pose proof (Hd _ _ Hpo) as Hc.
  destruct a as [k mail data | k hdr data r g | k | k hdr mail data | k | k box]; simpl in Hpo;
    unfold net_send, net_receive, put, get_mail, Network_Send, Network_Receive in Ha.
  all: repeat case_match; simplify_eq/=; try done; repeat apply reliable_insert; try done.
  assert (reliable (<[k := set_network (mkNetwork (ident (network po)) (chanceToWork (network po)) (sendBusy (network po))
    (inHdr (network po)) (inbox (network po)) (S (sending (network po))) (sock (network po))) po]> d)) as Hd1 by (by apply reliable_insert).
  simpl. eapply Hd1. eassumption.
Qed.

Lemma reliable_step s e s' : step act device s e s' → reliable (data (shared s)) → reliable (data (shared s')).
Proof.
  intros Hstep Hr. destruct Hstep as [ts m t i r push m' e Ht Hx | ts m e d qs Hd]; cbn [shared] in *.
  - destruct i as [x | x | l | l | [] l | [] l | a]; simpl in Hx; repeat case_match; simplify_eq; try done. by eapply reliable_act.
  - assert (∀ us (m0 : Shared), data (raise_all us m0) = data m0) as Hraise by (intros us; by induction us).
    rewrite Hraise. simpl. destruct Hd as [k po n Hpo Hn | k po n Hpo Hn | k po Hpo Hn]; [| | done];
      apply reliable_insert; try done; simpl; rewrite <- (Hr k po Hpo).
    + unfold Network_SendDone in Hn. destruct (sending (network po)); by simplify_eq.
    + unfold Network_CheckPktAvail in Hn. by repeat case_match; simplify_eq.
Qed.

Lemma reliable_keeps n random : chanceToWork n = 1%Q → loses n random = false.
Proof.
  intros Hc. unfold loses. rewrite Hc. apply not_true_is_false. intros Hle%Qle_bool_iff.
  pose proof (Z.rem_bound_abs random 100). unfold Qle, inject_Z in Hle. simpl in Hle. lia.
Qed.

(** ** Where a client is *)

Section test.
Context (u0 u1 : Setup) (z0 z1 : Noise).
Hypothesis Hu0 : test_setup u0.
Hypothesis Hu1 : test_setup u1.
Hypothesis Hz0 : noise_ok z0.
Hypothesis Hz1 : noise_ok z1.

Definition test_calls (k : nat) : list PostCall :=
  MailTest (Z.of_nat (far k)) (Z.of_nat (far k)) 1 (if decide (k = 0%nat) then z0 else z1).
Definition test_clients : list (nat * list PostCall) := [(0%nat, test_calls 0); (1%nat, test_calls 1)].
Definition test_program (k : nat) : list stmt := program (k, test_calls k).

Lemma test_setups : Forall setup_ok [u0; u1].
Proof using Hu0 Hu1. rewrite !Forall_cons, Forall_nil. split_and!; done || apply Hu0 || apply Hu1. Qed.

Lemma test_message k box text : (k < 2)%nat → box ∈ [0; 1] → (length text ≤ 40)%nat → ∀ pf pl,
  message_ok (Z.of_nat k) (mkPacketHeader (Z.of_nat (far k)) pf pl) (mkMailHeader box 1 (Z.of_nat (length text))) text.
Proof.
  intros Hk Hbox Hlen pf pl. assert (box = 0 ∨ box = 1) as Hb by set_solver. unfold far.
  split; simpl; unfold int_range, MaxMailSize, MaxPacketSize, MaxWireSize, header_size; lia.
Qed.

Lemma test_box k box : (k < 2)%nat → 0 ≤ box ≤ 1 → box_ok [u0; u1] k box.
Proof using Hu0 Hu1.
  destruct Hu0 as (_ & H0 & _), Hu1 as (_ & H1 & _). intros Hk Hb. destruct k as [| [| k]]; [eexists; split; [done | lia].. | lia].
Qed.

Lemma test_clients_ok : clients_ok [u0; u1] test_clients.
Proof using Hu0 Hu1 Hz0 Hz1.
  assert (∀ k, (k < 2)%nat → Forall (call_ok [u0; u1] k) (test_calls k)) as Hk.
  { intros k Hk. assert (noise_ok (if decide (k = 0%nat) then z0 else z1)) as (H1 & H2 & H3 & H4) by (by case_decide).
    assert (0 ≤ Z.of_nat (far k)) by lia. assert (far k < 2)%nat by (unfold far; lia).
    unfold test_calls, MailTest. rewrite !Forall_cons, Forall_nil. unfold call_ok, send_ok. cbn [p_to m_to]. rewrite Nat2Z.id.
    split_and!; try done; try (apply test_box; lia); apply test_message; try done; try set_solver; simpl; lia. }
  unfold clients_ok, test_clients. rewrite !Forall_cons, Forall_nil. simpl. split_and!; try done; apply Hk; lia.
Qed.

(** The event of each of the sixteen statements. *)
Definition test_event (k t n : nat) (e : option PostEvent) : Prop :=
  match n with
  | 3%nat => e = Some (Wired (far k) (sent_data k))
  | 7%nat => ∃ m, e = Some (Got t k 0 m)
  | 11%nat => e = Some (Wired (far k) (sent_ack k))
  | 15%nat => ∃ m, e = Some (Got t k 1 m)
  | _ => e = None
  end.

Lemma send_event k t box text random g1 g2 pf pl m push m' e : (k < 2)%nat → box ∈ [0; 1] → (length text ≤ 40)%nat →
  length g1 = Z.to_nat MaxPacketSize → length g2 = Z.to_nat MaxWireSize → reliable (data m) →
  perform act t (Do (NetSend k (post_header (Z.of_nat k) (mkPacketHeader (Z.of_nat (far k)) pf pl) (mkMailHeader box 1 (Z.of_nat (length text))))
    (post_buffer (mkMailHeader box 1 (Z.of_nat (length text))) text g1) random g2)) m = Next push m' e →
  e = Some (Wired (far k) (mkMail (post_header (Z.of_nat k) (mkPacketHeader (Z.of_nat (far k)) pf pl)
    (mkMailHeader box 1 (Z.of_nat (length text)))) (mkMailHeader box 1 (Z.of_nat (length text))) text)).
Proof.
  intros Hk Hbox Hlen H1 H2 Hrel Hx. pose proof (test_message k box text Hk Hbox Hlen pf pl) as Hm.
  destruct (wire_mail _ _ _ _ g1 g2 Hm H1 H2) as (_ & _ & Hw). cbn [m_length] in Hw. rewrite Nat2Z.id, take_ge in Hw by done.
  cbn [perform] in Hx. unfold act in Hx. cbn [machine_of] in Hx. destruct (data m !! k) as [po |] eqn:Hpo; [| done].
  unfold net_send, Network_Send in Hx. rewrite (reliable_keeps _ _ (Hrel _ _ Hpo)) in Hx.
  repeat case_match; simplify_eq. do 2 f_equal; [simpl; lia | exact Hw].
Qed.

Lemma test_step_event k t n i m push m' e : (k < 2)%nat → reliable (data m) → test_program k !! n = Some i →
  perform act t i m = Next push m' e → test_event k t n e.
Proof using Hu0 Hu1 Hz0 Hz1.
  intros Hk Hrel Hi Hx. assert (noise_ok (if decide (k = 0%nat) then z0 else z1)) as (H1 & H2 & H3 & H4) by (by case_decide).
  unfold test_program, program, test_calls, MailTest in Hi. set (z := if decide (k = 0%nat) then z0 else z1) in *. clearbody z.
  destruct n as [| [| [| [| [| [| [| [| [| [| [| [| [| [| [| [| n]]]]]]]]]]]]]]]]; [injection Hi as <-.. | done].
  all: cbn [test_event].
  4: { refine (send_event k t 0 data_text _ _ _ _ _ m push m' e Hk _ _ _ _ Hrel Hx); [set_solver | simpl; lia | done | done]. }
  11: { refine (send_event k t 1 ack_text _ _ _ _ _ m push m' e Hk _ _ _ _ Hrel Hx); [set_solver | simpl; lia | done | done]. }
  all: simpl in Hx; unfold act, get_mail in Hx; simpl in Hx; repeat case_match; simplify_eq; eauto.
Qed.

(** Client [k] has executed [n] statements, and what is seen of it. *)
Record test_at (k n : nat) (tr : list PostEvent) (s : System) : Prop := {
  ta_thread : threads s !! (2 + k)%nat = Some (drop n (test_program k));
  ta_bound : (n ≤ 16)%nat;
  ta_data : (3 < n)%nat → Wired (far k) (sent_data k) ∈ tr;
  ta_ack : (11 < n)%nat → Wired (far k) (sent_ack k) ∈ tr;
  ta_got0 : length (got k 0 tr) = if decide (7 < n)%nat then 1%nat else 0%nat;
  ta_got1 : length (got k 1 tr) = if decide (15 < n)%nat then 1%nat else 0%nat
}.

Definition test_inv (tr : list PostEvent) (s : System) : Prop :=
  post_ok [u0; u1] tr s ∧ reliable (data (shared s)) ∧ length (threads s) = 4%nat ∧ ∀ k, (k < 2)%nat → ∃ n, test_at k n tr s.

(** How many messages of box [b] of machine [k] an event takes out. *)
Definition gets_from (k : nat) (b : Z) (e : option PostEvent) : nat :=
  match e with Some (Got _ k' b' _) => if decide (k' = k ∧ b' = b) then 1 else 0 | _ => 0 end.

Lemma gets_of_event k t n e b : test_event k t n e → (n < 16)%nat →
  gets_from k b e = if decide (n = 7%nat ∧ b = 0 ∨ n = 15%nat ∧ b = 1) then 1%nat else 0%nat.
Proof.
  intros Hev Hn. destruct n as [| [| [| [| [| [| [| [| [| [| [| [| [| [| [| [| n]]]]]]]]]]]]]]]]; [.. | lia]; cbn [test_event] in Hev;
    match type of Hev with ex _ => destruct Hev as [mail ->] | _ => subst e end; unfold gets_from;
    repeat case_decide; try done; naive_solver.
Qed.

Lemma event_machine k t n t' k' b m : test_event k t n (Some (Got t' k' b m)) → k' = k.
Proof. destruct n as [| [| [| [| [| [| [| [| [| [| [| [| [| [| [| [| n]]]]]]]]]]]]]]]]; cbn [test_event]; naive_solver. Qed.

Lemma got_app k b tr e : length (got k b (tr ++ option_list e)) =
  (length (got k b tr) + gets_from k b e)%nat.
Proof.
  unfold got, gets_from. rewrite omap_app, length_app. f_equal. destruct e as [[| | | |] |]; try done. simpl. by case_decide.
Qed.

(** The client's own statement. *)
Lemma test_at_own k n tr ts (m : Shared) i r push m' e : (k < 2)%nat → reliable (data m) →
  test_at k n tr (mkSystem ts m) → ts !! (2 + k)%nat = Some (i :: r) → perform act (2 + k) i m = Next push m' e → push = [] →
  test_at k (S n) (tr ++ option_list e) (mkSystem (<[(2 + k)%nat := push ++ r]> ts) m').
Proof using Hu0 Hu1 Hz0 Hz1.
  intros Hk Hrel [H1 H2 H3 H4 H5 H6] Ht Hx ->. cbn [threads] in *. rewrite Ht in H1. injection H1 as H1.
  assert (test_program k !! n = Some i ∧ r = drop (S n) (test_program k)) as [Hi ->].
  { pose proof (lookup_drop (test_program k) n 0) as Hl. rewrite <- H1, Nat.add_0_r in Hl. split; [done |].
    rewrite <- Nat.add_1_r, <- drop_drop, <- H1. done. }
  pose proof (test_step_event k (2 + k) n i m [] m' e Hk Hrel Hi Hx) as Hev.
  assert (n < 16)%nat as Hn by (apply lookup_lt_Some in Hi; exact Hi).
  split; cbn [threads]; rewrite ?got_app.
  - by apply (lookup_here _ _ (i :: drop (S n) (test_program k))).
  - lia.
  - intros Hn3. apply elem_of_app. destruct (decide (n = 3%nat)) as [-> |]; [right; rewrite Hev; set_solver | left; apply H3; lia].
  - intros Hn3. apply elem_of_app. destruct (decide (n = 11%nat)) as [-> |]; [right; rewrite Hev; set_solver | left; apply H4; lia].
  - rewrite H5, (gets_of_event k (2 + k) n) by done. repeat case_decide; lia.
  - rewrite H6, (gets_of_event k (2 + k) n) by done. repeat case_decide; lia.
Qed.

(** A step of another thread, or of a device. *)
Lemma test_at_other k n tr s e s' : test_at k n tr s → threads s' !! (2 + k)%nat = threads s !! (2 + k)%nat →
  (∀ t k' b m, e = Some (Got t k' b m) → k' ≠ k) → test_at k n (tr ++ option_list e) s'.
Proof.
  intros [H1 H2 H3 H4 H5 H6] Hsame He.
  assert (∀ b, length (got k b (tr ++ option_list e)) = length (got k b tr)) as Hg.
  { intros b. rewrite got_app. unfold gets_from. destruct e as [[| | | t k' b' m |] |]; try lia. rewrite decide_False; [lia |].
    intros [-> ->]. by eapply He. }
  split; rewrite ?Hg, ?Hsame; try done; intros; apply elem_of_app; auto.
Qed.

Lemma test_start : test_inv [] (post_start [u0; u1] test_clients).
Proof using Hu0 Hu1 Hz0 Hz1.
  split; [by apply post_start_ok; [apply test_setups | apply test_clients_ok] |]. split_and!; [| done |].
  - destruct Hu0 as (_ & _ & H0), Hu1 as (_ & _ & H1).
    intros [| [| j]] po Hpo; simpl in Hpo; simplify_eq; simpl; rewrite ?H0, ?H1; reflexivity.
  - intros k Hk. exists 0%nat. split; try done; try lia. destruct k as [| [| k]]; [done.. | lia].
Qed.

(** Only the client of a machine takes messages out of its boxes. *)
Lemma got_owner tr ts (m : Shared) t i r push m' t' k b mail : test_inv tr (mkSystem ts m) → ts !! t = Some (i :: r) →
  perform act t i m = Next push m' (Some (Got t' k b mail)) → t = (2 + k)%nat.
Proof using Hu0 Hu1 Hz0 Hz1.
  intros (Hok & Hrel & Hlen & Hat) Ht Hx. cbn [threads shared] in *.
  assert (∃ b', i = Do (Get k b')) as [b' ->].
  { destruct i as [x | x | l | l | [] l | [] l | a]; simpl in Hx; repeat case_match; simplify_eq.
    match goal with H : act _ a _ = _ |- _ => rename H into Ha end.
    unfold act in Ha. destruct (data m !! machine_of a); [| done].
    destruct a; unfold net_send, net_receive, put, get_mail in Ha; repeat case_match; simplify_eq; eauto. }
  destruct (decide (t < 2)%nat) as [Hlt | Hge].
  - destruct (lookup_lt_is_Some_2 [u0; u1] t) as [u Hu]; [done |].
    destruct (host_parts _ tr _ t u Hok Hu) as (po & p & _ & Hp & Hh). cbn [threads] in Hp. rewrite Ht in Hp. injection Hp as <-.
    pose proof (h_worker _ _ _ _ _ _ Hh) as Hw. by inversion Hw.
  - assert (t < 4)%nat by (apply lookup_lt_Some in Ht; lia). replace t with (2 + (t - 2))%nat in * by lia.
    destruct (Hat (t - 2)%nat) as [n [H1 _ _ _ _ _]]; [lia |]. cbn [threads] in H1. rewrite Ht in H1. injection H1 as H1.
    assert (test_program (t - 2) !! n = Some (Do (Get k b'))) as Hi.
    { pose proof (lookup_drop (test_program (t - 2)) n 0) as Hl. by rewrite <- H1, Nat.add_0_r in Hl. }
    pose proof (test_step_event (t - 2) _ n _ m push m' _ ltac:(lia) Hrel Hi Hx) as Hev.
    apply event_machine in Hev. lia.
Qed.

Lemma test_inv_step tr s e s' : test_inv tr s → step act device s e s' → test_inv (tr ++ option_list e) s'.
Proof using Hu0 Hu1 Hz0 Hz1.
  intros Hinv Hstep. pose proof Hinv as (Hok & Hrel & Hlen & Hat).
  split; [by eapply post_ok_step |]. split; [by eapply reliable_step |].
  destruct Hstep as [ts m t i r push m' e Ht Hx | ts m e d qs Hd]; cbn [shared] in *.
  - split; [cbn [threads]; by rewrite length_insert |]. intros k Hk. destruct (Hat k Hk) as [n Hn]. destruct (decide (t = 2 + k)%nat) as [-> | Hne].
    + exists (S n). apply (test_at_own k n tr ts m i r push m' e); try done.
      by destruct (exec_client [u0; u1] _ i r m push m' e (pk_client _ _ _ Hok (2 + k) _ ltac:(simpl; lia) Ht) Hx) as (-> & _).
    + exists n. apply (test_at_other k n tr _ e _ Hn); [by apply list_lookup_insert_ne |].
      intros t' k' b mail -> ->. apply Hne. by eapply got_owner.
  - split; [done |]. intros k Hk. destruct (Hat k Hk) as [n Hn]. exists n. apply (test_at_other k n tr _ e _ Hn); [done |].
    intros t' k' b mail ->. by inversion Hd.
Qed.

Lemma test_run_inv tr s : post_run [u0; u1] test_clients tr s → test_inv tr s.
Proof using Hu0 Hu1 Hz0 Hz1.
  apply (reach_inv act device test_inv); [apply test_start |]. intros tr0 s1 e s2. apply test_inv_step.
Qed.

Lemma get_position k n k' b : test_program k !! n = Some (Do (Get k' b)) →
  k' = k ∧ (n = 7%nat ∧ b = 0 ∨ n = 15%nat ∧ b = 1).
Proof. destruct n as [| [| [| [| [| [| [| [| [| [| [| [| [| [| [| [| n]]]]]]]]]]]]]]]]; try done; intros [= <- <-]; naive_solver. Qed.

(** ** When nothing moves *)

Section quiet.
Context (tr : list PostEvent) (s : System).
Hypothesis Hrun : post_run [u0; u1] test_clients tr s.
Hypothesis Hidle : idle act s.
Hypothesis Hdev : ∀ e d qs, ¬ device (data (shared s)) e d qs.

Lemma quiet_box k b : (k < 2)%nat → 0 ≤ b ≤ 1 → ∃ po q, data (shared s) !! k = Some po ∧ boxes po !! Z.to_nat b = Some q ∧
  for_box b (wired k tr) = got k b tr ++ q.
Proof using All.
  intros Hk Hb. destruct (test_run_inv tr s Hrun) as (Hok & _ & _ & _).
  destruct (test_box k b Hk Hb) as (u & Hu & Hbox). destruct (quiet_host _ tr s k u Hok Hidle Hdev Hu) as [_ ->].
  destruct (host_parts _ tr s k u Hok Hu) as (po & p & Hpo & _ & Hh). exists po.
  destruct (lookup_lt_is_Some_2 (boxes po) (Z.to_nat b)) as [q Hq]; [rewrite (h_boxes _ _ _ _ _ _ Hh); lia |].
  exists q. split_and!; try done. pose proof (h_got _ _ _ _ _ _ Hh _ _ Hq) as Hg. by rewrite Z2Nat.id in Hg by lia.
Qed.

(** A client has finished or waits at an empty box. *)
Lemma quiet_position k : (k < 2)%nat → ∃ n, test_at k n tr s ∧ (n = 16%nat ∨
  ∃ b, (n = 7%nat ∧ b = 0 ∨ n = 15%nat ∧ b = 1) ∧ for_box b (wired k tr) = got k b tr).
Proof using All.
  intros Hk. destruct (test_run_inv tr s Hrun) as (Hok & _ & _ & Hat). destruct (Hat k Hk) as [n Hn]. exists n. split; [done |].
  destruct (decide (n = 16%nat)) as [| Hne]; [by left | right]. pose proof (ta_thread _ _ _ _ Hn) as Ht. pose proof (ta_bound _ _ _ _ Hn).
  destruct (lookup_lt_is_Some_2 (test_program k) n) as [i Hi]; [change (length (test_program k)) with 16%nat; lia |].
  rewrite (drop_S _ i) in Ht by done.
  destruct (quiet_waits [u0; u1] tr s (2 + k) i _ Hok Hidle Hdev ltac:(simpl; lia) Ht) as (k' & b & po & -> & Hpo & Hq).
  destruct (get_position k n k' b Hi) as [-> Hpos]. exists b. split; [done |].
  destruct (quiet_box k b Hk) as (po' & q & Hpo' & Hq' & Hbox); [lia |].
  assert (po' = po) as -> by congruence. assert (q = []) as -> by congruence. by rewrite app_nil_r in Hbox.
Qed.

Lemma far_far k : (k < 2)%nat → far (far k) = k ∧ (far k < 2)%nat.
Proof. unfold far. lia. Qed.

(** A message of the other machine that is on the wire is in its box. *)
Lemma wired_for k m : (k < 2)%nat → Wired (far (far k)) m ∈ tr → m ∈ for_box (m_to (mailHdr m)) (wired k tr).
Proof using.
  intros Hk Hin. destruct (far_far k Hk) as [Hf _]. rewrite Hf in Hin. apply list_elem_of_filter. split; [done |].
  apply list_elem_of_omap. exists (Wired k m). split; [done |]. by rewrite decide_True.
Qed.

Lemma quiet_finished k : (k < 2)%nat → test_at k 16 tr s.
Proof using All.
  assert (∀ k, (k < 2)%nat → ∃ n, test_at k n tr s ∧ (15 ≤ n)%nat ∧ (n = 16%nat ∨ for_box 1 (wired k tr) = got k 1 tr)) as Hlate.
  { intros j Hj. destruct (quiet_position j Hj) as (n & Hn & [-> | (b & [[-> ->] | [-> ->]] & Hbox)]); [by exists 16%nat; auto with lia | exfalso | by exists 15%nat; auto].
    destruct (far_far j Hj) as [_ Hfj]. destruct (quiet_position (far j) Hfj) as (n' & Hn' & Hpos).
    assert (sent_data (far j) ∈ for_box 0 (wired j tr)) as Hin by (apply (wired_for j (sent_data (far j)) Hj), (ta_data _ _ _ _ Hn'); naive_solver lia).
    rewrite Hbox in Hin. pose proof (ta_got0 _ _ _ _ Hn) as Hg. rewrite decide_False in Hg by lia.
    apply nil_length_inv in Hg. rewrite Hg in Hin. by apply not_elem_of_nil in Hin. }
  intros Hk. destruct (Hlate k Hk) as (n & Hn & Hge & [-> | Hbox]); [done |].
  destruct (decide (n = 16%nat)) as [-> | Hne]; [done | exfalso].
  destruct (far_far k Hk) as [_ Hfk]. destruct (Hlate (far k) Hfk) as (n' & Hn' & Hge' & _).
  assert (sent_ack (far k) ∈ for_box 1 (wired k tr)) as Hin by (apply (wired_for k (sent_ack (far k)) Hk), (ta_ack _ _ _ _ Hn'); lia).
  rewrite Hbox in Hin. pose proof (ta_got1 _ _ _ _ Hn) as Hg. pose proof (ta_bound _ _ _ _ Hn). rewrite decide_False in Hg by lia.
  apply nil_length_inv in Hg. rewrite Hg in Hin. by apply not_elem_of_nil in Hin.
Qed.

Lemma wired_known k m : (k < 2)%nat → m ∈ wired k tr → m = sent_data (far k) ∨ m = sent_ack (far k).
Proof using Hu0 Hu1 Hz0 Hz1 Hrun.
  intros Hk Hin. apply list_elem_of_omap in Hin as ([j m' | | | |] & Hin & Heq); try done. case_decide; simplify_eq.
  destruct (wired_sent _ _ tr s test_setups test_clients_ok Hrun k m Hin) as (j & cs & pkt & mail & text & r & g1 & g2 & Hcs & Hc & Hto & ->).
  assert (j < 2 ∧ cs = test_calls j)%nat as [Hj ->].
  { unfold test_clients in Hcs. rewrite !elem_of_cons, elem_of_nil in Hcs. destruct Hcs as [[= -> ->] | [[= -> ->] | []]]; auto. }
  unfold test_calls, MailTest in Hc. rewrite !elem_of_cons, elem_of_nil in Hc.
  assert (∀ to, to = Z.of_nat (far j) → Z.to_nat to = k → far k = j) as Hfar by (unfold far; lia).
  destruct Hc as [[= -> -> -> -> -> ->] | [Hc | [[= -> -> -> -> -> ->] | [Hc | []]]]]; try discriminate Hc;
    cbn [p_to] in Hto; apply Hfar in Hto as <-; try done.
  - left. unfold sent_data. destruct (far_far k Hk) as [-> _]. reflexivity.
  - right. unfold sent_ack. destruct (far_far k Hk) as [-> _]. reflexivity.
Qed.

(** A box out of which one message was taken. *)
Lemma one_got k b m : (k < 2)%nat → 0 ≤ b ≤ 1 → length (got k b tr) = 1%nat →
  (∀ m', m' ∈ wired k tr → m_to (mailHdr m') = b → m' = m) → got k b tr = [m].
Proof using All.
  intros Hk Hb Hlen Hall. destruct (quiet_box k b Hk Hb) as (po & q & _ & _ & Hbox).
  destruct (got k b tr) as [| m' [| ? ?]]; try done. f_equal.
  assert (m' ∈ for_box b (wired k tr)) as Hin by (rewrite Hbox; set_solver).
  apply list_elem_of_filter in Hin as [Hto Hin]. by apply Hall.
Qed.

Lemma quiet_result k : (k < 2)%nat → threads s !! (2 + k)%nat = Some [] ∧
  got k 0 tr = [sent_data (far k)] ∧ got k 1 tr = [sent_ack (far k)].
Proof using All.
  intros Hk. destruct (quiet_finished k Hk) as [H1 _ _ _ H5 H6]. split; [exact H1 |]. split; apply one_got; try done; try lia.
  - intros m Hm Hto. by destruct (wired_known k m Hk Hm) as [-> | ->].
  - intros m Hm Hto. by destruct (wired_known k m Hk Hm) as [-> | ->].
Qed.
End quiet.
End test.

(** ** Claims *)

(** C23 The network test completes: two machines that run [MailTest] with each
    other over a network that loses nothing, under any schedule and with
    interrupts at any time, stop only when both tests have run to their end;
    each machine got the greeting of the other in box 0 and its acknowledgment
    in box 1, from the address and the reply box that [MailTest] answers to, and
    prints both. *)
Theorem MailTest_completes u0 u1 z0 z1 tr s : test_setup u0 → test_setup u1 → noise_ok z0 → noise_ok z1 →
  post_run [u0; u1] (test_clients z0 z1) tr s → idle act s → (∀ e d qs, ¬ device (data (shared s)) e d qs) →
  ∀ k, (k < 2)%nat → threads s !! (2 + k)%nat = Some [] ∧
    ∃ data ack, got k 0 tr = [data] ∧ got k 1 tr = [ack] ∧
      test_calls z0 z1 k = MailTest (Z.of_nat (far k)) (p_from (pktHdr data)) (m_from (mailHdr data)) (if decide (k = 0%nat) then z0 else z1) ∧
      printed_line data = (chars "Hello there!", Z.of_nat (far k), 1) ∧
      printed_line ack = (chars "Got it!", Z.of_nat (far k), 1).
Proof.
  intros Hu0 Hu1 Hz0 Hz1 Hrun Hidle Hdev k Hk.
  destruct (quiet_result u0 u1 z0 z1 Hu0 Hu1 Hz0 Hz1 tr s Hrun Hidle Hdev k Hk) as (Ht & H0 & H1).
  split; [done |]. by exists (sent_data (far k)), (sent_ack (far k)).
Qed.

(** *** A run of the test *)

Definition test_machine : Setup := mkSetup 1%Q 10 (replicate 52 0) (mkPacketHeader 0 0 0) (replicate 52 0).
Definition test_noise : Noise := mkNoise (mkPacketHeader 5 6 7) 8 99 (replicate 52 1) (replicate 52 2) (replicate 64 3) (replicate 64 4).

(** A schedule: a thread moves, a packet arrives, or one has been sent. *)
Inductive event_of_run := Moves (t : nat) | Arrives (k : nat) | IsSent (k : nat).

Fixpoint play (es : list event_of_run) (s : System) : option (System * list PostEvent) :=
  match es with
  | [] => Some (s, [])
  | e :: es' =>
      let next := match e with
        | Moves t => move act t s
        | Arrives k => (λ s', (s', [])) <$> arrive k s
        | IsSent k => (λ s', (s', [])) <$> finish_send k s
        end in
      match next with
      | Some (s1, tr1) => match play es' s1 with Some (s2, tr2) => Some (s2, tr1 ++ tr2) | None => None end
      | None => None
      end
  end.

Lemma play_reach es : ∀ s s' tr, play es s = Some (s', tr) → reach act device s tr s'.
Proof.
  induction es as [| e es IH]; intros s s' tr; simpl; [intros [= <- <-]; constructor |].
  destruct (match e with Moves t => _ | Arrives k => _ | IsSent k => _ end) as [[s1 tr1] |] eqn:Hn; [| done].
  destruct (play es s1) as [[s2 tr2] |] eqn:Hp; [| done]. intros [= <- <-]. apply (reach_trans _ _ _ s1); [| by apply IH].
  destruct e as [t | k | k].
  - destruct (move_step act device _ _ _ _ Hn) as (o & -> & Hstep). exact (reach_step act device s [] s o s1 (reach_refl act device s) Hstep).
  - apply fmap_Some in Hn as (s0 & Ha & [= -> ->]). by apply (arrive_reach k).
  - apply fmap_Some in Hn as (s0 & Ha & [= -> ->]). by apply (finish_send_reach k).
Qed.

(** Both send; both packets are delivered, and both senders go on. *)
Definition round (n : nat) : list event_of_run :=
  replicate n (Moves 2) ++ replicate n (Moves 3) ++
  Arrives 1 :: replicate 4 (Moves 1) ++ Arrives 0 :: replicate 4 (Moves 0) ++ [IsSent 0; IsSent 1].
Definition test_schedule : list event_of_run :=
  round 4 ++ round 8 ++ replicate 4 (Moves 2) ++ replicate 4 (Moves 3).
Definition test_end : System * list PostEvent :=
  let s := post_start [test_machine; test_machine] (test_clients test_noise test_noise) in
  default (s, []) (play test_schedule s).

Lemma test_end_run : post_run [test_machine; test_machine] (test_clients test_noise test_noise) test_end.2 test_end.1.
Proof. apply (play_reach test_schedule). vm_compute. reflexivity. Qed.

Lemma MailTest_completes_witness :
  printed_line <$> got 0 0 test_end.2 = [(chars "Hello there!", 1, 1)] ∧ printed_line <$> got 0 1 test_end.2 = [(chars "Got it!", 1, 1)].
Proof.
  assert (test_setup test_machine) as Hu by (split_and!; [split; reflexivity | simpl; lia | reflexivity]).
  assert (noise_ok test_noise) as Hz by (split_and!; reflexivity).
  assert (idle act test_end.1) as Hidle.
  { intros t i r push m e. assert (threads test_end.1 = [PostalDelivery 0; PostalDelivery 1; []; []]) as -> by (vm_compute; reflexivity).
    assert (∀ k, (k < 2)%nat → perform act k (SP (Named (messageAvailable k))) (shared test_end.1) = Blocked) as Hwait.
    { intros [| [|]] Hk; [vm_compute; reflexivity.. | lia]. }
    destruct t as [| [| [| [| t]]]]; try discriminate; intros [= <- <-]; rewrite Hwait by lia; discriminate. }
  assert (∀ e d qs, ¬ device (data (shared test_end.1)) e d qs) as Hdev by (apply quiet_devices; vm_compute; reflexivity).
  destruct (MailTest_completes _ _ _ _ _ _ Hu Hu Hz Hz test_end_run Hidle Hdev 0%nat ltac:(lia)) as (_ & data & ack & H0 & H1 & _ & Hd & Ha).
  rewrite H0, H1. cbn [fmap list_fmap]. rewrite Hd, Ha. split; reflexivity.
Defined.
