(* ===== verification/Console.v ===== *)
(** * The console device and its test
    (machine/console.{h,cc}, [ConsoleTest] of userprog/progtest.cc)

    The keyboard is a terminal: [typed] holds the bytes that were typed and not
    yet read, and more can be typed at any time.  [writing] counts the
    [ConsoleWriteDone] interrupts that are scheduled.  [ConsoleTest] is a program
    of Monitor.v that echoes what is typed until a [q].

    A [char] is signed: the byte 255 is read as -1, which is also the [EOF] that
    says that there is none. *)

From stdpp Require Import base gmap list numbers functions list_numbers.
From Stdlib Require Import ZArith Lia.
From S2P Require Import Prelude Monitor MonitorFacts.

Definition EOF : Z := -1.
Definition to_char (b : Z) : Z := if decide (b < 128) then b else b - 256.
Definition to_byte (c : Z) : Z := c mod 256.

Record Console := mkConsole {
  incoming : Z;
  putBusy : bool;
  writing : nat;
  typed : list Z;
  display : list Z
}.

Definition Console_new : Console := mkConsole EOF false 0 [] [].

(** [None] when there is nothing to do. *)
Definition Console_CheckCharAvail (c : Console) : option Console :=
  if decide (incoming c ≠ EOF) then None
  else match typed c with
  | [] => None                                         (* !PollFile(readFileNo) *)
  | b :: q => Some (mkConsole (to_char b) (putBusy c) (writing c) q (display c))
  end.

Definition Console_WriteDone (c : Console) : option Console :=
  match writing c with
  | O => None
  | S k => Some (mkConsole (incoming c) false k (typed c) (display c))
  end.

Definition Console_GetChar (c : Console) : Z * Console :=
  (incoming c, mkConsole EOF (putBusy c) (writing c) (typed c) (display c)).

(** [None] when the assertion fails. *)
Definition Console_PutChar (ch : Z) (c : Console) : option Console :=
  if putBusy c then None
  else Some (mkConsole (incoming c) true (S (writing c)) (typed c) (display c ++ [to_byte ch])).

(** ** [ConsoleTest] *)

Inductive ConsoleSem := readAvail | writeDone.
#[export] Instance ConsoleSem_eq_dec : EqDecision ConsoleSem.
Proof. solve_decision. Defined.

Inductive ConsoleAct := GetChar | PutChar (ch : Z) | UnlessQ (ch : Z).
Inductive ConsoleEvent := Typed (b : Z).

Abbreviation stmt := (stmt Empty_set Empty_set ConsoleSem ConsoleAct).
Abbreviation System := (System Empty_set Empty_set ConsoleSem ConsoleAct Console).

(** One round of the loop; the rest of it depends on the character. *)
Definition ConsoleTest : list stmt := [SP (Named readAvail); Do GetChar].

Definition act (t : nat) (a : ConsoleAct) (c : Console) : reaction stmt Console ConsoleEvent :=
  match a with
  | GetChar =>
      let '(ch, c') := Console_GetChar c in Next [Do (PutChar ch); SP (Named writeDone); Do (UnlessQ ch)] c' None
  | PutChar ch => match Console_PutChar ch c with Some c' => Next [] c' None | None => Failed end
  | UnlessQ ch => if decide (ch = 113) then Next [] c None else Next ConsoleTest c None
  end.

Definition type_byte (b : Z) (c : Console) : Console :=
  mkConsole (incoming c) (putBusy c) (writing c) (typed c ++ [b]) (display c).

(** Somebody types, and the interrupts of the device, whose handlers [V]. *)
Inductive device (c : Console) : option ConsoleEvent → Console → list ConsoleSem → Prop :=
| device_type b : 0 ≤ b < 256 → device c (Some (Typed b)) (type_byte b c) []
| device_read c' : Console_CheckCharAvail c = Some c' → device c None c' [readAvail]
| device_written c' : Console_WriteDone c = Some c' → device c None c' [writeDone].

Definition console_start : System := start (λ _, 0) Console_new [ConsoleTest].
Definition console_run : list ConsoleEvent → System → Prop := reach act device console_start.

Definition keys (tr : list ConsoleEvent) : list Z := (λ e, match e with Typed b => b end) <$> tr.

(** ** The invariant *)

(** Where the loop is, and the character in hand. *)
Inductive loop_at : list stmt → list Z → Prop :=
| at_read : loop_at ConsoleTest []
| at_get : loop_at [Do GetChar] []
| at_put ch : loop_at [Do (PutChar ch); SP (Named writeDone); Do (UnlessQ ch)] [ch]
| at_wait ch : loop_at [SP (Named writeDone); Do (UnlessQ ch)] []
| at_test ch : loop_at [Do (UnlessQ ch)] []
| at_end : loop_at [] [].

Definition getting (p : list stmt) : Z := match p with [Do GetChar] => 1 | _ => 0 end.
Definition waiting (p : list stmt) : Z := match p with SP (Named writeDone) :: _ => 1 | _ => 0 end.
Definition held_char (c : Console) : list Z := if decide (incoming c = EOF) then [] else [to_byte (incoming c)].

Definition is_char (ch : Z) : Prop := -128 ≤ ch < 128 ∧ ch ≠ EOF.
(** What the last character shown says about the end of the loop. *)
Definition decided (p : list stmt) (shown : list Z) : Prop :=
  match p with
  | [] => ∃ before, shown = before ++ [113] ∧ (113 ∉ before)
  | [SP (Named writeDone); Do (UnlessQ ch)] | [Do (UnlessQ ch)] => ∃ before, shown = before ++ [to_byte ch] ∧ (113 ∉ before) ∧ is_char ch
  | [Do (PutChar ch); SP _; Do (UnlessQ ch')] => (113 ∉ shown) ∧ is_char ch ∧ ch' = ch
  | _ => 113 ∉ shown
  end.

Record console_ok (tr : list ConsoleEvent) (s : System) : Prop := {
  co_loop : ∃ p hand, threads s = [p] ∧ loop_at p hand ∧ decided p (display (data (shared s))) ∧
    keys tr = display (data (shared s)) ++ (to_byte <$> hand) ++ held_char (data (shared s)) ++ typed (data (shared s)) ∧
    semValue (shared s) (Named readAvail) + getting p = (if decide (incoming (data (shared s)) = EOF) then 0 else 1) ∧
    semValue (shared s) (Named writeDone) + Z.of_nat (writing (data (shared s))) = waiting p;
  co_values : 0 ≤ semValue (shared s) (Named readAvail) ∧ 0 ≤ semValue (shared s) (Named writeDone);
  co_busy : putBusy (data (shared s)) = true → writing (data (shared s)) = 1%nat;
  co_incoming : incoming (data (shared s)) ≠ EOF → is_char (incoming (data (shared s)));
  co_typed : Forall (λ b, 0 ≤ b < 255) (typed (data (shared s)))
}.

Lemma char_roundtrip b : 0 ≤ b < 255 → to_byte (to_char b) = b ∧ is_char (to_char b) ∧ to_char b ≠ EOF.
Proof.
  intros Hb. unfold to_byte, to_char, is_char, EOF. case_decide; (split; [| lia]); [apply Z.mod_small; lia |].
  replace (b - 256) with (b + (-1) * 256) by lia. rewrite Z_mod_plus_full. apply Z.mod_small. lia.
Qed.

Lemma to_byte_q ch : is_char ch → to_byte ch = 113 → ch = 113.
Proof.
  unfold is_char, to_byte, EOF. intros [Hr _] Hq. destruct (decide (0 ≤ ch)) as [H0 | H0]; [by rewrite Z.mod_small in Hq by lia |].
  replace ch with ((ch + 256) + (-1) * 256) in Hq by lia. rewrite Z_mod_plus_full, Z.mod_small in Hq by lia. lia.
Qed.

Lemma console_thread_step tr ts m t i r push m' e : console_ok tr (mkSystem ts m) → ts !! t = Some (i :: r) →
  perform act t i m = Next push m' e → console_ok (tr ++ option_list e) (mkSystem (<[t := push ++ r]> ts) m').
Proof.
  intros [(p & hand & Hts & Hat & Hdec & Hk & Hr & Hw) [Hv1 Hv2] Hb Hi Ht] Hp Hx. simpl in *. subst ts.
  destruct t as [| t]; [| by destruct t]. injection Hp as ->. cbn [list_insert insert].
  inversion Hat; subst; simpl in Hx.
  - case_decide as Hv; simplify_eq. rewrite app_nil_r. split; simpl; rewrite ?fn_lookup_insert, ?fn_lookup_insert_ne by done; try done; [| lia].
    exists [Do GetChar], []. split_and!; try done; [apply at_get | simpl in *; lia].
  - simplify_eq. rewrite app_nil_r. simpl in Hr; case_decide as H0; [lia |]. unfold held_char in Hk. rewrite decide_False in Hk by done.
    split; simpl; try done. exists [Do (PutChar (incoming (data m))); SP (Named writeDone); Do (UnlessQ (incoming (data m)))], [incoming (data m)].
    split_and!; try done; [apply at_put | split_and!; [exact Hdec | by apply Hi | done] | simpl; lia].
  - unfold Console_PutChar in Hx. destruct (putBusy (data m)) eqn:Hpb; simplify_eq. rewrite app_nil_r. destruct Hdec as (Hq & Hch & _).
    split; simpl; try done; [| intros _; simpl in Hw; lia]. exists [SP (Named writeDone); Do (UnlessQ ch)], [].
    split_and!; try done; [apply at_wait | by exists (display (data m)) | by rewrite <- !app_assoc | simpl in *; lia].
  - case_decide as Hv; simplify_eq. rewrite app_nil_r. split; simpl; rewrite ?fn_lookup_insert, ?fn_lookup_insert_ne by done; try done; [| lia].
    exists [Do (UnlessQ ch)], []. split_and!; try done; [apply at_test | simpl in *; lia].
  - destruct Hdec as (before & Hsh & Hq & Hch). case_decide as H113; simplify_eq; rewrite app_nil_r.
    + split; simpl; try done. exists [], []. split_and!; try done; [apply at_end | by exists before].
    + split; simpl; try done. exists ConsoleTest, []. split_and!; try done; [apply at_read |].
      simpl. rewrite Hsh, elem_of_app, list_elem_of_singleton. intros [? | Heq]; [done |]. by apply H113, to_byte_q.
Qed.

Lemma console_device_step tr ts m e c' qs : console_ok tr (mkSystem ts m) → device (data m) e c' qs →
  (255 ∉ keys (tr ++ option_list e)) → console_ok (tr ++ option_list e) (mkSystem ts (raise_all qs (set_data c' m))).
Proof.
  intros [(p & hand & Hts & Hat & Hdec & Hk & Hr & Hw) [Hv1 Hv2] Hb Hi Ht] Hd Hno. simpl in *.
  destruct Hd as [b Hbb | c' Hc | c' Hc].
  - assert (b ≠ 255) as Hb255.
    { intros ->. apply Hno. unfold keys. rewrite fmap_app. apply elem_of_app. right. apply list_elem_of_here. }
    split; simpl; try done; [| apply Forall_app; split; [done | apply Forall_singleton; lia]].
    exists p, hand. split_and!; try done. unfold keys in *. rewrite fmap_app, Hk. unfold held_char. simpl. by rewrite <- !app_assoc.
  - rewrite app_nil_r. unfold Console_CheckCharAvail in Hc. destruct (decide (incoming (data m) ≠ EOF)) as [| H0]; [done |].
    apply dec_stable in H0. destruct (typed (data m)) as [| b q] eqn:Hq; simplify_eq. apply Forall_cons in Ht as [Hbb Ht].
    destruct (char_roundtrip b Hbb) as (Hrt & Hch & Hne). unfold held_char in Hk. rewrite decide_True in Hk by done. rewrite decide_True in Hr by done.
    split; simpl; rewrite ?fn_lookup_insert, ?fn_lookup_insert_ne by done; try done; [| lia].
    exists p, hand. unfold held_char. simpl. rewrite decide_False, Hrt by done. split_and!; try done. rewrite decide_False by done. lia.
  - rewrite app_nil_r. unfold Console_WriteDone in Hc. destruct (writing (data m)) as [| k] eqn:Hq; simplify_eq.
    split; simpl; rewrite ?fn_lookup_insert, ?fn_lookup_insert_ne by done; try done; [| lia].
    exists p, hand. split_and!; try done. lia.
Qed.

Lemma console_run_ok tr s : console_run tr s → (255 ∉ keys tr) → console_ok tr s.
Proof.
  revert tr s. apply (reach_inv act device (λ tr s, (255 ∉ keys tr) → console_ok tr s)).
  - intros _. split; simpl; try done. exists ConsoleTest, []. split_and!; try done; [apply at_read | apply not_elem_of_nil].
  - intros tr s1 e s2 IH Hstep Hno.
    assert (255 ∉ keys tr) as Hno1 by (intros Hin; apply Hno; unfold keys; rewrite fmap_app; apply elem_of_app; by left).
    specialize (IH Hno1). destruct Hstep as [ts m t i r push m' e Ht Hx | ts m e c' qs Hd].
    + by eapply console_thread_step.
    + by apply console_device_step.
Qed.

(** C25 [ConsoleTest] echoes: when the byte 255 is not typed, the display shows a
    prefix of what was typed, the assertion of [PutChar] never fails, the test
    ends after showing the first [q], and when neither the test nor the device
    has anything to do, it has ended or all that was typed is shown. *)
Theorem console_echo tr s : console_run tr s → (255 ∉ keys tr) →
  display (data (shared s)) `prefix_of` keys tr ∧
  (∀ t i r, threads s !! t = Some (i :: r) → perform act t i (shared s) ≠ Failed) ∧
  (threads s = [[]] → ∃ before, display (data (shared s)) = before ++ [113] ∧ 113 ∉ before) ∧
  (idle act s → Console_CheckCharAvail (data (shared s)) = None → Console_WriteDone (data (shared s)) = None →
    threads s = [[]] ∨ display (data (shared s)) = keys tr).
Proof.
  intros Hrun Hno. destruct (console_run_ok tr s Hrun Hno) as [(p & hand & Hts & Hat & Hdec & Hk & Hr & Hw) [Hv1 Hv2] Hb Hi Ht].
  split_and!.
  - rewrite Hk. by apply prefix_app_r.
  - intros t i r Hp. rewrite Hts in Hp. destruct t as [| t]; [| by destruct t]. injection Hp as ->.
    inversion Hat; subst; simpl; try done; try (by match goal with |- context [decide ?P] => destruct (decide P) end). unfold Console_PutChar.
    destruct (putBusy (data (shared s))); [| done]. simpl in Hw. specialize (Hb eq_refl). lia.
  - rewrite Hts. intros [= ->]. exact Hdec.
  - intros Hidle Hc Hd. rewrite Hts. inversion Hat; subst; simpl in *.
    all: try (exfalso; eapply (Hidle 0%nat); [by rewrite Hts | simpl; by unfold Console_PutChar]).
    + right. destruct (decide (incoming (data (shared s)) = EOF)) as [H0 | H0].
      * rewrite Hk. unfold held_char. rewrite decide_True by done. unfold Console_CheckCharAvail in Hc. rewrite decide_False in Hc by congruence.
        destruct (typed (data (shared s))); [by rewrite app_nil_r | done].
      * exfalso. eapply (Hidle 0%nat); [by rewrite Hts |]. simpl. rewrite decide_False by lia. done.
    + exfalso. eapply (Hidle 0%nat); [by rewrite Hts |]. simpl. unfold Console_PutChar. destruct (putBusy (data (shared s))) eqn:Hpb; [| done].
      specialize (Hb eq_refl). lia.
    + exfalso. unfold Console_WriteDone in Hd. destruct (writing (data (shared s))); [| done].
      eapply (Hidle 0%nat); [by rewrite Hts |]. simpl. rewrite decide_False by lia. done.
    + exfalso. destruct (decide (ch = 113)) eqn:Hq; (eapply (Hidle 0%nat); [by rewrite Hts |]; simpl; by rewrite Hq).
    + by left.
Qed.

(** Scripts, for examples: what happens next. *)
Inductive happening := Key (b : Z) | Poll | Shown | Run.

Definition interrupt (c : option Console) (q : ConsoleSem) (s : System) : option (System * list ConsoleEvent) :=
  match c with Some c' => Some (mkSystem (threads s) (raise_all [q] (set_data c' (shared s))), []) | None => None end.

Definition happens (h : happening) (s : System) : option (System * list ConsoleEvent) :=
  match h with
  | Key b =>
      if decide (0 ≤ b < 256) then Some (mkSystem (threads s) (set_data (type_byte b (data (shared s))) (shared s)), [Typed b]) else None
  | Poll => interrupt (Console_CheckCharAvail (data (shared s))) readAvail s
  | Shown => interrupt (Console_WriteDone (data (shared s))) writeDone s
  | Run => move act 0 s
  end.

Fixpoint script (hs : list happening) (s : System) : option (System * list ConsoleEvent) :=
  match hs with
  | [] => Some (s, [])
  | h :: hs' => match happens h s with
      | Some (s1, e) => match script hs' s1 with Some (s2, es) => Some (s2, e ++ es) | None => None end
      | None => None
      end
  end.

Lemma happens_reach h s s' e : happens h s = Some (s', e) → reach act device s e s'.
Proof.
  assert (∀ o s', step act device s o s' → e = option_list o → reach act device s e s') as Hone.
  { intros o s1 Hs ->. exact (reach_step act device s [] s o s1 (reach_refl _ _ s) Hs). }
  destruct h as [b | | |]; simpl; destruct s as [ts m]; simpl.
  - case_decide as Hb; [| done]. intros [= <- <-]. apply (Hone (Some (Typed b))); [| done].
    exact (step_device act device ts m _ _ [] (device_type _ b Hb)).
  - destruct (Console_CheckCharAvail (data m)) as [c |] eqn:Hc; [| done]. intros [= <- <-]. apply (Hone None); [| done].
    exact (step_device act device ts m _ _ [readAvail] (device_read _ c Hc)).
  - destruct (Console_WriteDone (data m)) as [c |] eqn:Hc; [| done]. intros [= <- <-]. apply (Hone None); [| done].
    exact (step_device act device ts m _ _ [writeDone] (device_written _ c Hc)).
  - intros Hm. destruct (move_step act device _ _ _ _ Hm) as (o & -> & Hs). by apply (Hone o).
Qed.

Lemma script_reach hs : ∀ s s' tr, script hs s = Some (s', tr) → reach act device s tr s'.
Proof.
  induction hs as [| h hs IH]; intros s s' tr; simpl; [intros [= <- <-]; constructor |].
  destruct (happens h s) as [[s1 e] |] eqn:Hh; [| done]. destruct (script hs s1) as [[s2 es] |] eqn:Hsc; [| done].
  intros [= <- <-]. eapply reach_trans; [by eapply happens_reach | by apply IH].
Qed.

Definition played (hs : list happening) : System * list ConsoleEvent := default (console_start, []) (script hs console_start).

Lemma played_run hs : bool_decide (is_Some (script hs console_start)) = true → console_run (played hs).2 (played hs).1.
Proof. intros [[s tr] Hs]%bool_decide_eq_true. unfold played. rewrite Hs. by apply (script_reach hs). Qed.

(** [A], then [q]. *)
Definition echo_one : list happening := [Poll; Run; Run; Run; Shown; Run; Run].
Definition echo_Aq : list happening := Key 65 :: Key 113 :: echo_one ++ echo_one.

Lemma console_echo_witness : display (data (shared (played echo_Aq).1)) = [65; 113] ∧
  display (data (shared (played echo_Aq).1)) `prefix_of` keys (played echo_Aq).2.
Proof.
  split; [vm_compute; reflexivity |].
  assert (console_run (played echo_Aq).2 (played echo_Aq).1) as Hrun by (apply played_run; vm_compute; reflexivity).
  refine (proj1 (console_echo _ _ Hrun _)). vm_compute. intros Hin. by repeat (apply elem_of_cons in Hin as [? | Hin]; [done |]); apply not_elem_of_nil in Hin.
Defined.

(** The byte 255 breaks the echo: it is taken for an empty buffer, so that the
    next key overtakes it and the test then shows a character from an empty
    buffer. *)
Theorem console_byte_255 : ∃ s, console_run [Typed 255; Typed 65] s ∧ display (data (shared s)) = [65; 255].
Proof.
  set (hs := [Key 255; Key 65; Poll; Poll; Run; Run; Run; Shown; Run; Run; Run; Run; Run]).
  exists (played hs).1. split; [| vm_compute; reflexivity].
  change [Typed 255; Typed 65] with (played hs).2. apply played_run. vm_compute. reflexivity.
Qed.
