(* ===== verification/Stacks.v ===== *)
(** * Stacks (c++example/{stack,templatestack,inheritstack,list}.{h,cc})

    The stack classes of the C++ primer that comes with NachOS.  The abstract
    class [Stack] of inheritstack.h is the class [StackOps], and what it promises
    is [StackLaws]: a stack refines a sequence, of bounded length or not.
    [SelfTest] is proved against the promise; the array of templatestack.cc (and
    of stack.cc and [ArrayStack], its instances for [int]) and the linked list of
    list.cc discharge it. *)

From stdpp Require Import base gmap fin_sets list numbers strings list_numbers.
From Stdlib Require Import ZArith Lia.
From S2P Require Import Prelude.

(** ** The interface (inheritstack.h) *)

Class StackOps (S T : Type) := {
  Push : T → M S unit;
  Pop : M S T;
  Full : M S bool;
  Empty : M S bool
}.

(** [stack_is s cap l]: [s] holds [l], the top first, and has room for [cap]
    elements ([None] when it never overflows). *)
Class StackLaws (S T : Type) `{StackOps S T} := {
  stack_is : S → option nat → list T → Prop;
  Push_law s cap l v : stack_is s cap l →
    if bool_decide (cap = Some (length l)) then Push v s = Fault AssertFailed
    else ∃ s', Push v s = Done (tt, s') ∧ stack_is s' cap (v :: l);
  Pop_law s cap l : stack_is s cap l →
    match l with
    | [] => Pop s = Fault AssertFailed
    | v :: l' => ∃ s', Pop s = Done (v, s') ∧ stack_is s' cap l'
    end;
  Full_law s cap l : stack_is s cap l → Full s = Done (bool_decide (cap = Some (length l)), s);
  Empty_law s cap l : stack_is s cap l → Empty s = Done (bool_decide (l = []), s);
  room_law s cap l n : stack_is s cap l → cap = Some n → (length l ≤ n)%nat
}.

(** ** Arrays (templatestack.cc) *)

Section array.
Context {T : Type}.

Record ArrayStack := mkArrayStack {
  size : Z;
  top : Z;
  stack : list T
}.

(** [Stack<T>::Stack(sz)]; [garbage] is what [new T[size]] holds. *)
Definition ArrayStack_new (garbage : list T) (sz : Z) : outcome ArrayStack :=
  if decide (sz >= 1) then Done (mkArrayStack sz 0 garbage) else Fault AssertFailed.

Definition ArrayStack_Full : M ArrayStack bool := gets (λ s, bool_decide (top s = size s)).
Definition ArrayStack_Empty : M ArrayStack bool := gets (λ s, bool_decide (top s = 0)).

Definition ArrayStack_Push (value : T) : M ArrayStack unit :=
  full ← ArrayStack_Full;
  ASSERT (negb full) ;;
  s ← get;
  l ← lift (wr (stack s) (top s) value);
  put (mkArrayStack (size s) (s32 (top s + 1)) l).

Definition ArrayStack_Pop : M ArrayStack T :=
  empty ← ArrayStack_Empty;
  ASSERT (negb empty) ;;
  s ← get;
  let t := s32 (top s - 1) in
  put (mkArrayStack (size s) t (stack s)) ;;
  lift (rd (stack s) t).
End array.
Arguments ArrayStack T : clear implicits.
Arguments mkArrayStack {T}.

#[export] Instance ArrayStack_ops T : StackOps (ArrayStack T) T := {|
  Push := ArrayStack_Push; Pop := ArrayStack_Pop; Full := ArrayStack_Full; Empty := ArrayStack_Empty
|}.

(** ** Linked lists (list.cc) *)

Module IntLists.

Record IntListElement := mkElement { next : option Z; item : Z }.
Record IntList := mkList { heap : gmap Z IntListElement; first : option Z; last : option Z }.

Definition IntList_new : IntList := mkList ∅ None None.

Definition IntList_Empty : M IntList bool := gets (λ l, bool_decide (first l = None)).

(** [*p] *)
Definition IntList_deref (p : option Z) : M IntList IntListElement :=
  l ← get;
  match p ≫= (λ a, heap l !! a) with
  | Some e => mret e
  | None => stop NullPointer
  end.

(** [new IntListElement(value)] *)
Definition IntListElement_new (value : Z) : M IntList Z :=
  l ← get;
  let a := fresh (dom (heap l) : gset Z) in
  put (mkList (<[a := mkElement None value]> (heap l)) (first l) (last l)) ;;
  mret a.

Definition IntList_Prepend (value : Z) : M IntList unit :=
  element ← IntListElement_new value;
  empty ← IntList_Empty;
  if (empty : bool) then modify (λ l, mkList (heap l) (Some element) (Some element))
  else modify (λ l, mkList (<[element := mkElement (first l) value]> (heap l)) (Some element) (last l)).

Definition IntList_Remove : M IntList Z :=
  l ← get;
  let element := first l in
  empty ← IntList_Empty;
  ASSERT (negb empty) ;;
  e ← IntList_deref element;
  (if decide (first l = last l) then modify (λ l, mkList (heap l) None None)
   else modify (λ l, mkList (heap l) (next e) (last l))) ;;
  modify (λ l, mkList (match element with Some a => delete a (heap l) | None => heap l end) (first l) (last l)) ;;
  mret (item e).

(** [~List()]; [fuel] bounds the elements that are left. *)
Fixpoint IntList_delete (fuel : nat) : M IntList unit :=
  match fuel with
  | O => stop OutOfFuel
  | S fuel' =>
      empty ← IntList_Empty;
      if (empty : bool) then mret tt else _ ← IntList_Remove; IntList_delete fuel'
  end.
End IntLists.

(** ** [ListStack] (inheritstack.cc) *)

(** The list the stack points to. *)
Definition ListStack : Type := IntLists.IntList.
Definition ListStack_new : ListStack := IntLists.IntList_new.
Definition ListStack_Push (value : Z) : M ListStack unit := IntLists.IntList_Prepend value.
Definition ListStack_Empty : M ListStack bool := IntLists.IntList_Empty.
Definition ListStack_Full : M ListStack bool := mret false.
Definition ListStack_Pop : M ListStack Z :=
  empty ← ListStack_Empty;
  ASSERT (negb empty) ;;
  IntLists.IntList_Remove.

#[export] Instance ListStack_ops : StackOps ListStack Z := {|
  Push := ListStack_Push; Pop := ListStack_Pop; Full := ListStack_Full; Empty := ListStack_Empty
|}.

(** ** The tests *)

(** A line of output. *)
Inductive line (T : Type) := Pushing (v : T) | Popping (v : T).
Arguments Pushing {T}.
Arguments Popping {T}.

Section tests.
Context {S T : Type} `{StackOps S T}.
Variable succ : T → T.       (* [count++] *)

(** [while (!Empty()) cout << "popping " << Pop()] *)
Fixpoint pop_all (fuel : nat) : M S (list (line T)) :=
  match fuel with
  | O => stop OutOfFuel
  | Datatypes.S fuel' =>
      empty ← Empty;
      if (empty : bool) then mret []
      else v ← Pop; rest ← pop_all fuel'; mret (Popping v :: rest)
  end.

(** [while (!Full()) Push(count++)] *)
Fixpoint push_all (fuel : nat) (count : T) : M S (list (line T)) :=
  match fuel with
  | O => stop OutOfFuel
  | Datatypes.S fuel' =>
      full ← Full;
      if (full : bool) then mret []
      else Push count ;; rest ← push_all fuel' (succ count); mret (Pushing count :: rest)
  end.

(** [for (int i = 0; i < numToPush; i++)] makes [n] turns. *)
Fixpoint push_turns (n : nat) (count : T) : M S (list (line T)) :=
  match n with
  | O => mret []
  | Datatypes.S n' =>
      full ← Full;
      ASSERT (negb full) ;;
      Push count ;;
      rest ← push_turns n' (succ count);
      mret (Pushing count :: rest)
  end.

(** [Stack<T>::SelfTest(start)] of templatestack.cc, with the fuel of its loops. *)
Definition SelfTest_fill (fuel : nat) (start : T) : M S (list (line T)) :=
  a ← push_all fuel start; b ← pop_all fuel; mret (a ++ b).

(** [Stack::SelfTest(numToPush)] of inheritstack.cc. *)
Definition SelfTest_turns (fuel : nat) (start : T) (numToPush : Z) : M S (list (line T)) :=
  a ← push_turns (Z.to_nat numToPush) start; b ← pop_all fuel; mret (a ++ b).
End tests.

(** [int count]; [count++] *)
Definition int_succ (count : Z) : Z := s32 (count + 1).
Definition char_succ (count : Z) : Z := s8 (count + 1).

(** [Stack::SelfTest()] of stack.cc. *)
Definition Stack_SelfTest (fuel : nat) : M (ArrayStack Z) (list (line Z)) := SelfTest_fill int_succ fuel 17.

(** The three [main]s: what they print. *)
Definition output {S A} (o : outcome (A * S)) : outcome A :=
  match o with Done (a, _) => Done a | Fault f => Fault f end.

Definition stack_main (garbage : list Z) : outcome (list (line Z)) :=
  match ArrayStack_new garbage 10 with
  | Done s => output (Stack_SelfTest 11 s)
  | Fault f => Fault f
  end.

Definition template_main (ints chars : list Z) : outcome (list (line Z) * list (line Z)) :=
  match ArrayStack_new ints 10, ArrayStack_new chars 10 with
  | Done s1, Done s2 =>
      match output (SelfTest_fill int_succ 11 17 s1), output (SelfTest_fill char_succ 11 97 s2) with
      | Done a, Done b => Done (a, b)
      | Fault f, _ => Fault f
      | _, Fault f => Fault f
      end
  | Fault f, _ => Fault f
  | _, Fault f => Fault f
  end.

Definition inherit_main (garbage : list Z) : outcome (list (line Z) * list (line Z)) :=
  match ArrayStack_new garbage 10 with
  | Done s1 =>
      match output (SelfTest_turns int_succ 11 17 10 s1), output (SelfTest_turns int_succ 11 17 10 ListStack_new) with
      | Done a, Done b => Done (a, b)
      | Fault f, _ => Fault f
      | _, Fault f => Fault f
      end
  | Fault f => Fault f
  end.

(** ** The array keeps the promise *)

Definition array_is {T} (s : ArrayStack T) (cap : option nat) (l : list T) : Prop :=
  1 ≤ size s < 2 ^ 31 ∧ cap = Some (Z.to_nat (size s)) ∧ Z.of_nat (length (stack s)) = size s ∧
  0 ≤ top s ≤ size s ∧ l = rev (take (Z.to_nat (top s)) (stack s)).

Lemma array_length {T} (s : ArrayStack T) cap l : array_is s cap l → Z.of_nat (length l) = top s.
Proof. intros (_ & _ & Hl & Ht & ->). rewrite length_rev, length_take. lia. Qed.

Lemma array_full {T} (s : ArrayStack T) cap l : array_is s cap l →
  bool_decide (cap = Some (length l)) = bool_decide (top s = size s).
Proof.
  intros Hs. pose proof (array_length s cap l Hs) as Hlen. destruct Hs as (_ & -> & _ & Ht & _).
  apply bool_decide_ext. split; [intros [= H]; lia | intros; f_equal; lia].
Qed.

Lemma array_empty {T} (s : ArrayStack T) cap l : array_is s cap l → bool_decide (l = []) = bool_decide (top s = 0).
Proof.
  intros Hs. pose proof (array_length s cap l Hs) as Hlen. apply bool_decide_ext.
  split; [intros ->; simpl in Hlen; lia | intros Ht; apply nil_length_inv; lia].
Qed.

#[export, refine] Instance ArrayStack_laws T : StackLaws (ArrayStack T) T := {| stack_is := array_is |}.
Proof.
  - intros s cap l v Hs. rewrite (array_full s cap l Hs). cbn -[bool_decide].
    unfold ArrayStack_Push, mbind, M_bind, ArrayStack_Full, gets. destruct Hs as (Hsz & -> & Hl & Ht & ->).
    case_bool_decide as Hfull; [done |]. cbn. unfold lift. rewrite wr_Done by lia. rewrite s32_small by lia.
    eexists. split; [reflexivity |]. split; [done |]. split; [done |]. cbn. rewrite length_insert.
    split; [done |]. split; [lia |]. replace (Z.to_nat (top s + 1)) with (S (Z.to_nat (top s))) by lia.
    rewrite (take_S_r _ _ v) by (apply list_lookup_insert_eq; lia).
    rewrite take_insert_ge by lia. by rewrite rev_app_distr.
  - intros s cap l Hs. pose proof (array_empty s cap l Hs) as He. pose proof (array_length s cap l Hs) as Hlen.
    cbn -[bool_decide]. unfold ArrayStack_Pop, mbind, M_bind, ArrayStack_Empty, gets.
    destruct Hs as (Hsz & -> & Hl & Ht & Hrev).
    destruct l as [| v l]; rewrite <- He; [done |]. rewrite bool_decide_false by done. cbn in *. unfold lift, put.
    rewrite s32_small by lia. destruct (rd_in_range (stack s) (top s - 1)) as (x & Hx & Hr); [lia |]. rewrite Hr.
    replace (Z.to_nat (top s)) with (S (Z.to_nat (top s - 1))) in Hrev by lia.
    rewrite (take_S_r _ _ x Hx), rev_app_distr in Hrev. injection Hrev as -> ->.
    eexists. split; [reflexivity |]. repeat (split; [done |]). cbn. split; [lia | done].
  - intros s cap l Hs. by rewrite (array_full s cap l Hs).
  - intros s cap l Hs. by rewrite (array_empty s cap l Hs).
  - intros s cap l n Hs Hc. pose proof (array_length s cap l Hs). destruct Hs as (_ & -> & _ & Ht & _).
    injection Hc as <-. lia.
Defined.

(** ** The list keeps the promise *)

Module ListFacts.
Import IntLists.

(** The cells at [addrs], linked from [p], hold [l]. *)
Fixpoint chain (h : gmap Z IntListElement) (p : option Z) (addrs l : list Z) : Prop :=
  match addrs, l with
  | [], [] => p = None
  | a :: addrs', v :: l' => p = Some a ∧ ∃ n, h !! a = Some (mkElement n v) ∧ chain h n addrs' l'
  | _, _ => False
  end.

(** The whole heap is the list. *)
Definition list_is (s : IntList) (l : list Z) : Prop :=
  ∃ addrs, NoDup addrs ∧ chain (heap s) (first s) addrs l ∧ last s = list.last addrs ∧
    ∀ a, is_Some (heap s !! a) ↔ a ∈ addrs.

Lemma cells_insert h p addrs l a e : a ∉ addrs → chain h p addrs l → chain (<[a := e]> h) p addrs l.
Proof.
  revert p l. induction addrs as [| b addrs IH]; intros p [| v l] Ha; simpl; try done.
  apply not_elem_of_cons in Ha as [Hne Ha]. intros (Hp & n & Hn & Hc). split; [done |]. exists n.
  rewrite lookup_insert_ne by done. auto.
Qed.

Lemma cells_delete h p addrs l a : a ∉ addrs → chain h p addrs l → chain (delete a h) p addrs l.
Proof.
  revert p l. induction addrs as [| b addrs IH]; intros p [| v l] Ha; simpl; try done.
  apply not_elem_of_cons in Ha as [Hne Ha]. intros (Hp & n & Hn & Hc). split; [done |]. exists n.
  rewrite lookup_delete_ne by done. auto.
Qed.

Lemma list_first s l : list_is s l → bool_decide (first s = None) = bool_decide (l = []).
Proof.
  intros (addrs & _ & Hc & _). destruct addrs as [| a addrs], l as [| v l]; simpl in Hc; try done.
  - by rewrite Hc.
  - destruct Hc as [-> _]. done.
Qed.

Lemma Prepend_run s l v : list_is s l → ∃ s', IntList_Prepend v s = Done (tt, s') ∧ list_is s' (v :: l).
Proof.
  intros Hs. pose proof (list_first s l Hs) as Hf. destruct Hs as (addrs & Hnd & Hc & Hlast & Hdom).
  unfold IntList_Prepend, IntListElement_new, mbind, M_bind, get, put, IntList_Empty, gets, modify, mret, M_ret. cbn.
  set (a := fresh (dom (heap s) : gset Z)).
  assert (heap s !! a = None) as Ha by (apply not_elem_of_dom, is_fresh).
  assert (a ∉ addrs) as Hna by (rewrite <- Hdom; rewrite Ha; by intros [? ?]). rewrite Hf.
  assert (∀ e b, is_Some (<[a := e]> (heap s) !! b) ↔ b ∈ a :: addrs) as Hdom'.
  { intros e b. rewrite elem_of_cons, <- Hdom, lookup_insert_is_Some. destruct (decide (b = a)); naive_solver. }
  destruct l as [| w l]; case_bool_decide; try done; (eexists; split; [reflexivity |]).
  - destruct addrs as [| b addrs]; [| done]. exists [a]. split; [apply NoDup_singleton |]. cbn.
    split; [| by split]. split; [done |]. exists None. by rewrite lookup_insert_eq.
  - exists (a :: addrs). split; [by apply NoDup_cons |]. cbn [first last heap]. rewrite insert_insert_eq.
    split; [| split; [| apply Hdom']].
    + cbn. split; [done |]. exists (first s). rewrite lookup_insert_eq. split; [done |]. by apply cells_insert.
    + destruct addrs; [done |]. done.
Qed.

Lemma Remove_run s v l : list_is s (v :: l) → ∃ s', IntList_Remove s = Done (v, s') ∧ list_is s' l.
Proof.
  intros (addrs & Hnd & Hc & Hlast & Hdom). destruct addrs as [| a addrs]; [done |]. cbn in Hc.
  destruct Hc as (Hf & n & Hn & Hc). apply NoDup_cons in Hnd as [Ha Hnd].
  assert (∀ b, is_Some (delete a (heap s) !! b) ↔ b ∈ addrs) as Hdom'.
  { intros b. rewrite lookup_delete_is_Some, Hdom, elem_of_cons. naive_solver. }
  unfold IntList_Remove, IntList_Empty, IntList_deref, mbind, M_bind, get, gets, modify, mret, M_ret, ASSERT. rewrite Hf. cbn. rewrite Hn.
  case_decide as Hl; (eexists; split; [reflexivity |]); exists addrs; (split; [done |]); cbn.
  - rewrite Hlast in Hl. destruct addrs as [| b addrs].
    + destruct l; [| done]. done.
    + exfalso. apply Ha, last_Some_elem_of. exact (eq_sym Hl).
  - split; [by apply cells_delete |]. split; [| done]. rewrite Hlast in *. destruct addrs; [| done].
    destruct l; [| done]. simpl in Hc. done.
Qed.
End ListFacts.

#[export, refine] Instance ListStack_laws : StackLaws ListStack Z :=
  {| stack_is := λ s cap l, cap = None ∧ ListFacts.list_is s l |}.
Proof.
  - intros s cap l v [-> Hs]. destruct (ListFacts.Prepend_run s l v Hs) as (s' & E & Hs').
    rewrite bool_decide_false by done. exists s'. done.
  - intros s cap l [-> Hs]. pose proof (ListFacts.list_first s l Hs) as Hf.
    cbn -[bool_decide]. unfold ListStack_Pop, mbind, M_bind, ListStack_Empty, IntLists.IntList_Empty, gets. rewrite Hf.
    destruct l as [| v l]; [done |]. rewrite bool_decide_false by done. cbn.
    destruct (ListFacts.Remove_run s v l Hs) as (s' & E & Hs'). exists s'. done.
  - by intros s cap l [-> _].
  - intros s cap l [-> Hs]. cbn -[bool_decide]. unfold ListStack_Empty, IntLists.IntList_Empty, gets.
    by rewrite (ListFacts.list_first s l Hs).
  - by intros s cap l n [-> _].
Defined.

Lemma ArrayStack_new_is {T} (garbage : list T) sz : 1 ≤ sz < 2 ^ 31 → Z.of_nat (length garbage) = sz →
  ∃ s, ArrayStack_new garbage sz = Done s ∧ stack_is s (Some (Z.to_nat sz)) [].
Proof.
  intros Hsz Hg. unfold ArrayStack_new. rewrite decide_True by lia. eexists. split; [done |].
  split; [done |]. split; [done |]. split; [done |]. cbn. split; [lia | done].
Qed.

Lemma ListStack_new_is : stack_is ListStack_new None [].
Proof.
  split; [done |]. exists []. split; [apply NoDup_nil_2 |]. split; [done |]. split; [done |].
  intros a. cbn. rewrite lookup_empty. split; [by intros [? ?] | by intros ?%not_elem_of_nil].
Qed.

(** ** Sequences of calls *)

Inductive call (T : Type) := CallPush (v : T) | CallPop | CallFull | CallEmpty.
Arguments CallPush {T}.
Arguments CallPop {T}.
Arguments CallFull {T}.
Arguments CallEmpty {T}.

Inductive reply (T : Type) := Nothing | Value (v : T) | Bool (b : bool).
Arguments Nothing {T}.
Arguments Value {T}.
Arguments Bool {T}.

Section calls.
Context {S T : Type} `{StackLaws S T}.

Definition do_call (c : call T) : M S (reply T) :=
  match c with
  | CallPush v => Push v ;; mret Nothing
  | CallPop => v ← Pop; mret (Value v)
  | CallFull => b ← Full; mret (Bool b)
  | CallEmpty => b ← Empty; mret (Bool b)
  end.

Fixpoint do_calls (cs : list (call T)) : M S (list (reply T)) :=
  match cs with
  | [] => mret []
  | c :: cs' => r ← do_call c; rs ← do_calls cs'; mret (r :: rs)
  end.

(** The sequence, the top first; [None] is a failed assertion. *)
Definition lifo (cap : option nat) (l : list T) (c : call T) : option (reply T * list T) :=
  match c with
  | CallPush v => if bool_decide (cap = Some (length l)) then None else Some (Nothing, v :: l)
  | CallPop => match l with [] => None | v :: l' => Some (Value v, l') end
  | CallFull => Some (Bool (bool_decide (cap = Some (length l))), l)
  | CallEmpty => Some (Bool (match l with [] => true | _ => false end), l)
  end.

Fixpoint lifo_all (cap : option nat) (l : list T) (cs : list (call T)) : option (list (reply T) * list T) :=
  match cs with
  | [] => Some ([], l)
  | c :: cs' => '(r, l') ← lifo cap l c; '(rs, l'') ← lifo_all cap l' cs'; Some (r :: rs, l'')
  end.

Lemma do_call_lifo s cap l c : stack_is s cap l →
  match lifo cap l c with
  | Some (r, l') => ∃ s', do_call c s = Done (r, s') ∧ stack_is s' cap l'
  | None => do_call c s = Fault AssertFailed
  end.
Proof.
  intros Hs. destruct c as [v | | |]; cbn [lifo do_call]; unfold mbind, M_bind.
  - pose proof (Push_law s cap l v Hs) as Hp. case_bool_decide; [by rewrite Hp |].
    destruct Hp as (s' & -> & Hs'). by exists s'.
  - pose proof (Pop_law s cap l Hs) as Hp. destruct l as [| v l]; [by rewrite Hp |].
    destruct Hp as (s' & -> & Hs'). by exists s'.
  - rewrite (Full_law s cap l Hs). by exists s.
  - rewrite (Empty_law s cap l Hs). exists s. split; [| done]. by destruct l.
Qed.

Lemma do_calls_lifo cs : ∀ s cap l, stack_is s cap l →
  match lifo_all cap l cs with
  | Some (rs, l') => ∃ s', do_calls cs s = Done (rs, s') ∧ stack_is s' cap l'
  | None => do_calls cs s = Fault AssertFailed
  end.
Proof.
  induction cs as [| c cs IH]; intros s cap l Hs; cbn [lifo_all do_calls]; [by exists s |].
  pose proof (do_call_lifo s cap l c Hs) as Hc. unfold mbind, M_bind, option_bind.
  destruct (lifo cap l c) as [[r l1] |]; [| by rewrite Hc]. destruct Hc as (s1 & -> & Hs1).
  specialize (IH s1 cap l1 Hs1). destruct (lifo_all cap l1 cs) as [[rs l2] |]; [| by rewrite IH].
  destruct IH as (s2 & -> & Hs2). by exists s2.
Qed.

(** *** The tests *)

(** [start], [start++], ... *)
Fixpoint counts (succ : T → T) (start : T) (n : nat) : list T :=
  match n with
  | O => []
  | Datatypes.S n' => start :: counts succ (succ start) n'
  end.

Lemma pop_all_run l : ∀ s cap fuel, stack_is s cap l → (length l < fuel)%nat →
  ∃ s', pop_all fuel s = Done (Popping <$> l, s') ∧ stack_is s' cap [].
Proof.
  induction l as [| v l IH]; intros s cap [| fuel] Hs Hf; simpl in Hf; try lia; cbn [pop_all]; unfold mbind, M_bind;
    rewrite (Empty_law s cap _ Hs).
  - by exists s.
  - rewrite bool_decide_false by done. destruct (Pop_law s cap _ Hs) as (s1 & -> & Hs1).
    destruct (IH s1 cap fuel Hs1) as (s2 & -> & Hs2); [lia |]. by exists s2.
Qed.

Lemma push_turns_run succ n : ∀ s cap l start, stack_is s cap l → (∀ m, cap = Some m → length l + n ≤ m)%nat →
  ∃ s', push_turns succ n start s = Done (Pushing <$> counts succ start n, s') ∧
    stack_is s' cap (rev (counts succ start n) ++ l).
Proof.
  induction n as [| n IH]; intros s cap l start Hs Hroom; cbn [push_turns counts]; [by exists s |].
  unfold mbind, M_bind, ASSERT. rewrite (Full_law s cap l Hs).
  assert (bool_decide (cap = Some (length l)) = false) as Hnf
    by (apply bool_decide_eq_false; intros E; specialize (Hroom _ E); lia).
  rewrite Hnf. cbn [negb]. pose proof (Push_law s cap l start Hs) as Hp. rewrite Hnf in Hp.
  destruct Hp as (s1 & E1 & Hs1). unfold mret, M_ret. rewrite E1.
  destruct (IH s1 cap (start :: l) (succ start) Hs1) as (s2 & -> & Hs2).
  { intros m Hm. specialize (Hroom m Hm). simpl. lia. }
  exists s2. split; [done |]. simpl. rewrite <- app_assoc. done.
Qed.

Lemma push_all_run succ n : ∀ s l start fuel, stack_is s (Some (length l + n)%nat) l → (n < fuel)%nat →
  ∃ s', push_all succ fuel start s = Done (Pushing <$> counts succ start n, s') ∧
    stack_is s' (Some (length l + n)%nat) (rev (counts succ start n) ++ l).
Proof.
  induction n as [| n IH]; intros s l start [| fuel] Hs Hf; try lia; cbn [push_all counts]; unfold mbind, M_bind;
    rewrite (Full_law s _ l Hs).
  - rewrite bool_decide_true by (f_equal; lia). by exists s.
  - assert (bool_decide (Some (length l + Datatypes.S n)%nat = Some (length l)) = false) as Hnf
      by (apply bool_decide_eq_false; intros [= E]; lia).
    pose proof (Push_law s _ l start Hs) as Hp. rewrite Hnf in *. destruct Hp as (s1 & -> & Hs1).
    replace (length l + Datatypes.S n)%nat with (length (start :: l) + n)%nat in * by (simpl; lia).
    destruct (IH s1 (start :: l) (succ start) fuel Hs1) as (s2 & -> & Hs2); [lia |].
    exists s2. split; [done |]. simpl. rewrite <- app_assoc. done.
Qed.
End calls.

(** [~List()] frees every element. *)
Lemma IntList_delete_frees l : ∀ s fuel, ListFacts.list_is s l → (length l < fuel)%nat →
  ∃ s', IntLists.IntList_delete fuel s = Done (tt, s') ∧ IntLists.heap s' = ∅.
Proof.
  induction l as [| v l IH]; intros s [| fuel] Hs Hf; simpl in Hf; try lia; cbn [IntLists.IntList_delete];
    unfold mbind, M_bind, IntLists.IntList_Empty, gets; rewrite (ListFacts.list_first s _ Hs).
  - exists s. split; [done |]. destruct Hs as (addrs & _ & Hc & _ & Hdom). destruct addrs; [| done].
    apply map_eq. intros a. rewrite lookup_empty. apply eq_None_not_Some. rewrite Hdom. apply not_elem_of_nil.
  - rewrite bool_decide_false by done. destruct (ListFacts.Remove_run s v l Hs) as (s1 & -> & Hs1). apply IH; [done | lia].
Qed.

(** What the tests print: [n] values from [start] on, and the same ones back. *)
Definition test_output {T} (succ : T → T) (start : T) (n : nat) : list (line T) :=
  (Pushing <$> counts succ start n) ++ (Popping <$> rev (counts succ start n)).

Lemma length_counts {T} (succ : T → T) n : ∀ start, length (counts succ start n) = n.
Proof. induction n as [| n IH]; intros start; simpl; [done |]. by rewrite IH. Qed.

Lemma SelfTest_turns_run {S T} `{StackLaws S T} succ fuel (start : T) numToPush (s : S) cap : stack_is s cap [] →
  (∀ m, cap = Some m → Z.to_nat numToPush ≤ m)%nat → (Z.to_nat numToPush < fuel)%nat →
  output (SelfTest_turns succ fuel start numToPush s) = Done (test_output succ start (Z.to_nat numToPush)).
Proof.
  intros Hs Hroom Hf. unfold SelfTest_turns, mbind, M_bind.
  destruct (push_turns_run succ (Z.to_nat numToPush) s cap [] start Hs Hroom) as (s1 & -> & Hs1). rewrite app_nil_r in Hs1.
  destruct (pop_all_run _ s1 cap fuel Hs1) as (s2 & -> & _); [by rewrite length_rev, length_counts |]. done.
Qed.

Lemma SelfTest_fill_run {S T} `{StackLaws S T} succ fuel (start : T) (s : S) n : stack_is s (Some n) [] → (n < fuel)%nat →
  output (SelfTest_fill succ fuel start s) = Done (test_output succ start n).
Proof.
  intros Hs Hf. unfold SelfTest_fill, mbind, M_bind.
  destruct (push_all_run succ n s [] start fuel Hs Hf) as (s1 & -> & Hs1). rewrite app_nil_r in Hs1.
  destruct (pop_all_run _ s1 _ fuel Hs1) as (s2 & -> & _); [by rewrite length_rev, length_counts |]. done.
Qed.

(** ** Claims *)

(** What a sequence of calls from the empty stack must reply. *)
Definition lifo_replies {T} (cap : option nat) (cs : list (call T)) : outcome (list (reply T)) :=
  match lifo_all cap [] cs with Some (rs, _) => Done rs | None => Fault AssertFailed end.

(** C31 The array stack and the list stack refine a last-in first-out sequence:
    any sequence of calls of [Push], [Pop], [Full] and [Empty] on a new stack
    replies what the sequence replies, and fails an assertion exactly when the
    sequence is popped empty or, for the array, pushed beyond its capacity.  No
    call leaves the array or follows a dangling pointer, whatever the memory
    held. *)
Theorem stacks_refine_lifo garbage sz (cs : list (call Z)) : 1 ≤ sz < 2 ^ 31 → Z.of_nat (length garbage) = sz →
  (∃ s, ArrayStack_new garbage sz = Done s ∧ output (do_calls cs s) = lifo_replies (Some (Z.to_nat sz)) cs) ∧
  output (do_calls cs ListStack_new) = lifo_replies None cs.
Proof.
  intros Hsz Hg. unfold lifo_replies. split.
  - destruct (ArrayStack_new_is garbage sz Hsz Hg) as (s & E & Hs). exists s. split; [done |].
    pose proof (do_calls_lifo cs s _ _ Hs) as Hr. destruct (lifo_all _ [] cs) as [[rs l] |]; [| by rewrite Hr].
    by destruct Hr as (s' & -> & _).
  - pose proof (do_calls_lifo cs ListStack_new _ _ ListStack_new_is) as Hr.
    destruct (lifo_all _ [] cs) as [[rs l] |]; [| by rewrite Hr]. by destruct Hr as (s' & -> & _).
Qed.

Lemma stacks_refine_lifo_witness :
  (∃ s, ArrayStack_new [9; 9] 2 = Done s ∧
     output (do_calls [CallPush 1; CallPush 2; CallFull; CallPop; CallPop; CallEmpty] s) =
       Done [Nothing; Nothing; Bool true; Value 2; Value 1; Bool true]) ∧
  output (do_calls [CallPush 1; CallPush 2; CallFull; CallPop; CallPop; CallEmpty] ListStack_new) =
    Done [Nothing; Nothing; Bool false; Value 2; Value 1; Bool true].
Proof.
  exact (stacks_refine_lifo [9; 9] 2 [CallPush 1; CallPush 2; CallFull; CallPop; CallPop; CallEmpty]
    (conj (Z.le_succ_diag_r 1) eq_refl) eq_refl).
Defined.

(** The three test programs end and print what was pushed, then the same
    values in reverse, whatever the memory of the arrays held; [SelfTest] of the
    abstract class gives the same output for both of its implementations. *)
Theorem SelfTests_print ints chars : length ints = 10%nat → length chars = 10%nat →
  stack_main ints = Done (test_output int_succ 17 10) ∧
  template_main ints chars = Done (test_output int_succ 17 10, test_output char_succ 97 10) ∧
  inherit_main ints = Done (test_output int_succ 17 10, test_output int_succ 17 10).
Proof.
  intros Hi Hc. unfold stack_main, template_main, inherit_main, Stack_SelfTest.
  destruct (ArrayStack_new_is ints 10) as (s1 & -> & Hs1); [lia | lia |].
  destruct (ArrayStack_new_is chars 10) as (s2 & -> & Hs2); [lia | lia |].
  rewrite !(SelfTest_fill_run _ _ _ _ _ Hs1), (SelfTest_fill_run _ _ _ _ _ Hs2) by lia.
  rewrite (SelfTest_turns_run _ _ _ 10 _ _ Hs1), (SelfTest_turns_run _ _ _ 10 _ _ ListStack_new_is) by (lia || naive_solver lia).
  done.
Qed.

Lemma SelfTests_print_witness : stack_main (replicate 10 0) =
  Done ((Pushing <$> seqZ 17 10) ++ (Popping <$> rev (seqZ 17 10))).
Proof. exact (proj1 (SelfTests_print (replicate 10 0) (replicate 10 0) eq_refl eq_refl)). Defined.
