(* ===== verification/CommandLine.v ===== *)
(** * The command line (threads/main.cc, threads/system.cc, threads/utility.cc)

    [Initialize] and [main] each go over the arguments: the first reads the
    options of the kernel, the second runs the commands.  A build of the kernel
    is given by the macros of its Makefile.  [argc] is the number of arguments
    that are left, so [*(argv + 1)] is legal when [argc > 1]. *)

From stdpp Require Import base gmap list numbers strings list_numbers.
From Stdlib Require Import ZArith Lia.
From S2P Require Import Prelude.

Record Build := mkBuild {
  USER_PROGRAM : bool; FILESYS_NEEDED : bool; FILESYS : bool; NETWORK : bool
}.
Definition threads_build : Build := mkBuild false false false false.
Definition vm_build : Build := mkBuild true true false false.
Definition filesys_build : Build := mkBuild true true true false.
Definition network_build : Build := mkBuild true true true true.

(** ** [atoi] *)

Definition is_space (c : Z) : bool := bool_decide (c = 32) || bool_decide (9 ≤ c ≤ 13).
Definition is_digit (c : Z) : bool := bool_decide (48 ≤ c ≤ 57).

Fixpoint digits (acc : Z) (cs : list Z) : Z :=
  match cs with
  | c :: cs' => if is_digit c then digits (10 * acc + (c - 48)) cs' else acc
  | [] => acc
  end.

Fixpoint skip_space (cs : list Z) : list Z :=
  match cs with
  | c :: cs' => if is_space c then skip_space cs' else cs
  | [] => []
  end.

(** [(int) strtol(s, NULL, 10)], with a [long] of 64 bits. *)
Definition atoi (s : string) : Z :=
  let value :=
    match skip_space (chars s) with
    | 45 :: cs => - digits 0 cs
    | 43 :: cs => digits 0 cs
    | cs => digits 0 cs
    end in
  s32 (Z.max (- 2 ^ 63) (Z.min value (2 ^ 63 - 1))).

(** ** Debugging flags (threads/utility.cc) *)

(** [DebugIsEnabled(flag)] after [DebugInit(flagList)], or before it; [strchr]
    also finds the 0 at the end. *)
Definition DebugIsEnabled (enableFlags : option (list Z)) (flag : Z) : bool :=
  match enableFlags with
  | Some flags => bool_decide (flag ∈ flags ++ [0]) || bool_decide (43 ∈ flags)
  | None => false
  end.

(** ** [Initialize] *)

(** The local variables that the options set; [rely] is the text given to
    [atof], and the seed of [RandomInit] stands for [randomYield]. *)
Record Options := mkOptions {
  debugArgs : string;
  randomSeed : option Z;
  preemptiveScheduling : option Z;           (* the time slice *)
  debugUserProg : bool;
  format : bool;
  rely : option string;
  netname : Z
}.

Definition default_options : Options := mkOptions "" None None false false None 0.
Definition DEFAULT_TIME_SLICE : Z := 50000.

Definition set_debugArgs (s : string) (o : Options) : Options :=
  mkOptions s (randomSeed o) (preemptiveScheduling o) (debugUserProg o) (format o) (rely o) (netname o).
Definition set_seed (n : Z) (o : Options) : Options :=
  mkOptions (debugArgs o) (Some n) (preemptiveScheduling o) (debugUserProg o) (format o) (rely o) (netname o).
Definition set_timeSlice (n : Z) (o : Options) : Options :=
  mkOptions (debugArgs o) (randomSeed o) (Some n) (debugUserProg o) (format o) (rely o) (netname o).
Definition set_debugUserProg (o : Options) : Options :=
  mkOptions (debugArgs o) (randomSeed o) (preemptiveScheduling o) true (format o) (rely o) (netname o).
Definition set_format (o : Options) : Options :=
  mkOptions (debugArgs o) (randomSeed o) (preemptiveScheduling o) (debugUserProg o) true (rely o) (netname o).
Definition set_rely (s : string) (o : Options) : Options :=
  mkOptions (debugArgs o) (randomSeed o) (preemptiveScheduling o) (debugUserProg o) (format o) (Some s) (netname o).
Definition set_netname (n : Z) (o : Options) : Options :=
  mkOptions (debugArgs o) (randomSeed o) (preemptiveScheduling o) (debugUserProg o) (format o) (rely o) n.

(** [!strcmp(arg, flag)] *)
Definition is_flag (arg flag : string) : bool := bool_decide (arg = flag).

(** The first chain of tests: [-d], [-rs], [-p].  The result has [argCount]. *)
Definition init_common (arg : string) (rest : list string) (o : Options) : outcome (Options * nat) :=
  if is_flag arg "-d" then
    match rest with
    | [] => Done (set_debugArgs "+" o, 1%nat)
    | a :: _ => Done (set_debugArgs a o, 2%nat)
    end
  else if is_flag arg "-rs" then
    match rest with
    | [] => Fault AssertFailed
    | a :: _ => Done (set_seed (atoi a) o, 2%nat)
    end
  else if is_flag arg "-p" then
    match rest with
    | [] => Done (set_timeSlice DEFAULT_TIME_SLICE o, 1%nat)
    | a :: _ => Done (set_timeSlice (atoi a) o, 2%nat)
    end
  else Done (o, 1%nat).

(** [-l] and [-m] of the network. *)
Definition init_network (arg : string) (rest : list string) (o : Options) (argCount : nat) : outcome (Options * nat) :=
  if is_flag arg "-l" then
    match rest with
    | [] => Fault AssertFailed
    | a :: _ => Done (set_rely a o, 2%nat)
    end
  else if is_flag arg "-m" then
    match rest with
    | [] => Fault AssertFailed
    | a :: _ => Done (set_netname (atoi a) o, 2%nat)
    end
  else Done (o, argCount).

(** The body of the loop. *)
Definition init_arg (b : Build) (arg : string) (rest : list string) (o : Options) : outcome (Options * nat) :=
  match init_common arg rest o with
  | Done (o, argCount) =>
      let o := if USER_PROGRAM b && is_flag arg "-s" then set_debugUserProg o else o in
      let o := if FILESYS_NEEDED b && is_flag arg "-f" then set_format o else o in
      if NETWORK b then init_network arg rest o argCount else Done (o, argCount)
  | Fault f => Fault f
  end.

(** [for (...; argc > 0; argc -= argCount, argv += argCount)]; [skip] arguments
    were taken by the last turn. *)
Fixpoint init_args (b : Build) (skip : nat) (args : list string) (o : Options) : outcome Options :=
  match args with
  | [] => Done o
  | arg :: rest =>
      match skip with
      | S skip' => init_args b skip' rest o
      | O =>
          match init_arg b arg rest o with
          | Done (o', argCount) => init_args b (pred argCount) rest o'
          | Fault f => Fault f
          end
      end
  end.

(** The options of [nachos args]. *)
Definition Initialize_options (b : Build) (args : list string) : outcome Options := init_args b 0 args default_options.

(** ** [main] *)

(** What [main] calls. *)
Inductive action :=
| PrintCopyright
| StartProcess (file : string)
| ConsoleTest (streams : option (string * string))
| Halt
| Copy (unixFile nachosFile : string)
| Print (file : string)
| Remove (file : string)
| List
| PrintFileSystem
| PerformanceTest
| MailTest (networkID : Z).

#[export] Instance action_eq_dec : EqDecision action.
Proof. solve_decision. Defined.

(** The part under [USER_PROGRAM]: the calls and [argCount]. *)
Definition main_user (arg : string) (rest : list string) : outcome (list action * nat) :=
  if is_flag arg "-x" then
    match rest with
    | f :: _ => Done ([StartProcess f], 2%nat)
    | [] => Fault AssertFailed
    end
  else if is_flag arg "-c" then
    match rest with
    | [] => Done ([ConsoleTest None; Halt], 1%nat)
    | i :: o :: _ => Done ([ConsoleTest (Some (i, o)); Halt], 3%nat)
    | _ => Fault AssertFailed
    end
  else Done ([], 1%nat).

(** The part under [FILESYS]. *)
Definition main_filesys (arg : string) (rest : list string) (argCount : nat) : outcome (list action * nat) :=
  if is_flag arg "-cp" then
    match rest with
    | f :: t :: _ => Done ([Copy f t], 3%nat)
    | _ => Fault AssertFailed
    end
  else if is_flag arg "-p" then
    match rest with f :: _ => Done ([Print f], 2%nat) | [] => Fault AssertFailed end
  else if is_flag arg "-r" then
    match rest with f :: _ => Done ([Remove f], 2%nat) | [] => Fault AssertFailed end
  else if is_flag arg "-l" then Done ([List], argCount)
  else if is_flag arg "-D" then Done ([PrintFileSystem], argCount)
  else if is_flag arg "-t" then Done ([PerformanceTest], argCount)
  else Done ([], argCount).

(** The part under [NETWORK]. *)
Definition main_network (arg : string) (rest : list string) (argCount : nat) : outcome (list action * nat) :=
  if is_flag arg "-o" then
    match rest with a :: _ => Done ([MailTest (atoi a)], 2%nat) | [] => Fault AssertFailed end
  else Done ([], argCount).

(** Two parts of the body, one after the other. *)
Definition then_part (p : outcome (list action * nat)) (next : nat → outcome (list action * nat)) :
    list action * option nat :=
  match p with
  | Done (a, n) =>
      match next n with
      | Done (a', n') => (a ++ a', Some n')
      | Fault _ => (a, None)
      end
  | Fault _ => ([], None)
  end.

(** The body of the loop: the calls, and [argCount] unless an assertion fails. *)
Definition main_arg (b : Build) (arg : string) (rest : list string) : list action * option nat :=
  let copyright := if is_flag arg "-z" then [PrintCopyright] else [] in
  let user := if USER_PROGRAM b then main_user arg rest else Done ([], 1%nat) in
  let filesys n := if FILESYS b then main_filesys arg rest n else Done ([], n) in
  let network n := if NETWORK b then main_network arg rest n else Done ([], n) in
  match then_part user filesys with
  | (a, Some n) =>
      match network n with
      | Done (a', n') => (copyright ++ a ++ a', Some n')
      | Fault _ => (copyright ++ a, None)
      end
  | (a, None) => (copyright ++ a, None)
  end.

(** How the loop ends: all arguments are done, a call does not return, or an
    assertion fails. *)
Inductive ending := LoopDone | InCall | AssertionFailed.

Section loop.
(** Which calls return.  [Halt] never does; [StartProcess] only when it finds no
    file, [ConsoleTest] after a [q], [MailTest] halts at its end. *)
Context (returns : action → bool).

(** Calls are made one after the other, while they return. *)
Fixpoint make_calls (a : list action) : list action * bool :=
  match a with
  | [] => ([], true)
  | c :: a' => if returns c then let '(made, all) := make_calls a' in (c :: made, all) else ([c], false)
  end.

(** The calls that are made, and how the loop ends. *)
Fixpoint main_args (b : Build) (skip : nat) (args : list string) : list action * ending :=
  match args with
  | [] => ([], LoopDone)
  | arg :: rest =>
      match skip with
      | S skip' => main_args b skip' rest
      | O =>
          let '(a, argCount) := main_arg b arg rest in
          match make_calls a, argCount with
          | (made, false), _ => (made, InCall)
          | (made, true), Some argCount => let '(a', e) := main_args b (pred argCount) rest in (made ++ a', e)
          | (made, true), None => (made, AssertionFailed)
          end
      end
  end.

Definition main_actions (b : Build) (args : list string) : list action * ending := main_args b 0 args.
End loop.

(** ** Well-formed command lines *)

(** The options of the usage text, with their arguments; [-n] is documented
    but [Initialize] does not look for it. *)
Inductive option_flag :=
| OptReliability (rely : string)
| OptDebug (flags : string)
| OptSeed (seed : string)
| OptStep
| OptFormat
| OptMachine (id : string).

Definition render_option (f : option_flag) : list string :=
  match f with
  | OptReliability a => ["-n"; a]
  | OptDebug a => ["-d"; a]
  | OptSeed a => ["-rs"; a]
  | OptStep => ["-s"]
  | OptFormat => ["-f"]
  | OptMachine a => ["-m"; a]
  end.

Definition apply_option (o : Options) (f : option_flag) : Options :=
  match f with
  | OptReliability _ => o
  | OptDebug a => set_debugArgs a o
  | OptSeed a => set_seed (atoi a) o
  | OptStep => set_debugUserProg o
  | OptFormat => set_format o
  | OptMachine a => set_netname (atoi a) o
  end.

(** The commands of the usage text. *)
Inductive command :=
| CmdCopyright
| CmdRun (file : string)
| CmdConsole (i o : string)
| CmdCopy (from to : string)
| CmdPrint (file : string)
| CmdRemove (file : string)
| CmdList
| CmdPrintAll
| CmdPerformance
| CmdMail (id : string).

Definition render_command (c : command) : list string :=
  match c with
  | CmdCopyright => ["-z"]
  | CmdRun f => ["-x"; f]
  | CmdConsole i o => ["-c"; i; o]
  | CmdCopy f t => ["-cp"; f; t]
  | CmdPrint f => ["-p"; f]
  | CmdRemove f => ["-r"; f]
  | CmdList => ["-l"]
  | CmdPrintAll => ["-D"]
  | CmdPerformance => ["-t"]
  | CmdMail id => ["-o"; id]
  end.

Definition command_actions (c : command) : list action :=
  match c with
  | CmdCopyright => [PrintCopyright]
  | CmdRun f => [StartProcess f]
  | CmdConsole i o => [ConsoleTest (Some (i, o)); Halt]
  | CmdCopy f t => [Copy f t]
  | CmdPrint f => [Print f]
  | CmdRemove f => [Remove f]
  | CmdList => [List]
  | CmdPrintAll => [PrintFileSystem]
  | CmdPerformance => [PerformanceTest]
  | CmdMail id => [MailTest (atoi id)]
  end.

(** The flags that each of the two loops looks for. *)
Definition init_flags : list string := ["-d"; "-rs"; "-p"; "-s"; "-f"; "-l"; "-m"].
Definition main_flags : list string := ["-z"; "-x"; "-c"; "-cp"; "-p"; "-r"; "-l"; "-D"; "-t"; "-o"].

Lemma is_flag_other (flags : list string) arg f : arg ∉ flags → f ∈ flags → is_flag arg f = false.
Proof. intros Ha Hf. apply bool_decide_eq_false. by intros ->. Qed.

(** Each loop passes over what it does not look for. *)
Lemma init_args_other arg rest o : arg ∉ init_flags →
  init_args network_build 0 (arg :: rest) o = init_args network_build 0 rest o.
Proof.
  intros Ha. cbn [init_args]. unfold init_arg, init_common, init_network. cbn [USER_PROGRAM FILESYS_NEEDED NETWORK network_build andb].
  rewrite !(is_flag_other init_flags) by (done || set_solver). done.
Qed.

Lemma init_args_others args rest o : Forall (λ a, a ∉ init_flags) args →
  init_args network_build 0 (args ++ rest) o = init_args network_build 0 rest o.
Proof. induction 1 as [| a args Ha _ IH]; [done |]. simpl app. by rewrite init_args_other. Qed.

Lemma main_args_other returns arg rest : arg ∉ main_flags →
  main_args returns network_build 0 (arg :: rest) = main_args returns network_build 0 rest.
Proof.
  intros Ha. cbn [main_args]. unfold main_arg, main_user, main_filesys, main_network.
  cbn [USER_PROGRAM FILESYS NETWORK network_build].
  rewrite !(is_flag_other main_flags) by (done || set_solver). cbn. by destruct (main_args returns network_build 0 rest).
Qed.

Lemma main_args_others returns args rest : Forall (λ a, a ∉ main_flags) args →
  main_args returns network_build 0 (args ++ rest) = main_args returns network_build 0 rest.
Proof. induction 1 as [| a args Ha _ IH]; [done |]. simpl app. by rewrite main_args_other. Qed.

(** Each loop takes its own flags with their arguments. *)
Lemma init_args_option f rest o : (∀ a, f = OptReliability a → a ∉ init_flags) →
  init_args network_build 0 (render_option f ++ rest) o = init_args network_build 0 rest (apply_option o f).
Proof.
  intros Hf. destruct f as [a | | | | |]; try reflexivity. cbn [render_option app apply_option].
  rewrite init_args_other by (apply (bool_decide_unpack _); vm_compute; exact I). by rewrite init_args_other by (by apply Hf).
Qed.

Lemma main_arg_command c rest : match render_command c with
  | [] => False
  | arg :: args => main_arg network_build arg (args ++ rest) = (command_actions c, Some (S (length args)))
  end.
Proof. by destruct c. Qed.

Lemma main_args_command returns c rest : main_args returns network_build 0 (render_command c ++ rest) =
  match make_calls returns (command_actions c) with
  | (made, true) => let '(a, e) := main_args returns network_build 0 rest in (made ++ a, e)
  | (made, false) => (made, InCall)
  end.
Proof.
  pose proof (main_arg_command c rest) as E.
  destruct c; cbn [render_command app length] in E |- *; cbn [main_args]; rewrite E;
    cbn [pred main_args]; repeat case_match; by simplify_eq.
Qed.

Lemma init_args_options fs : (∀ a, OptReliability a ∈ fs → a ∉ init_flags) → ∀ o rest,
  init_args network_build 0 (concat (render_option <$> fs) ++ rest) o =
  init_args network_build 0 rest (foldl apply_option o fs).
Proof.
  induction fs as [| f fs IH]; intros Hn o rest; [done |]. cbn [fmap list_fmap concat]. rewrite <- app_assoc.
  rewrite init_args_option by (intros a ->; apply Hn; left). apply IH. intros a Ha. apply Hn. by right.
Qed.

Lemma make_calls_app returns a b : make_calls returns (a ++ b) =
  match make_calls returns a with
  | (made, true) => let '(made', all) := make_calls returns b in (made ++ made', all)
  | (made, false) => (made, false)
  end.
Proof.
  induction a as [| c a IH]; cbn; [by destruct (make_calls returns b) |]. destruct (returns c); [| done]. rewrite IH.
  repeat case_match; by simplify_eq.
Qed.

Lemma main_args_commands returns cs : main_args returns network_build 0 (concat (render_command <$> cs)) =
  let '(made, all) := make_calls returns (concat (command_actions <$> cs)) in (made, if (all : bool) then LoopDone else InCall).
Proof.
  induction cs as [| c cs IH]; [done |]. cbn [fmap list_fmap concat]. rewrite main_args_command, make_calls_app, IH.
  repeat case_match; by simplify_eq.
Qed.

(** ** Claims *)

(** C30 Command lines mean what the usage text says, in the build with
    everything: for documented options [fs] and commands [cs], where no argument
    of an option is a flag of [main], neither a command nor its arguments are
    flags of [Initialize] (which excludes [-p] and [-l]) and the argument of [-n]
    is not one either, [Initialize] sets exactly the options, but for [-n], which
    is documented and has no effect; [main] makes exactly the calls of the
    commands, in order and with their arguments, up to and with the first call
    that does not return, such as the [Halt] of [-c]; no assertion on the
    arguments fails. *)
Theorem command_line_means returns fs cs :
  Forall (λ a, a ∉ main_flags) (concat (render_option <$> fs)) →
  (∀ a, OptReliability a ∈ fs → a ∉ init_flags) →
  Forall (λ a, a ∉ init_flags) (concat (render_command <$> cs)) →
  let args := concat (render_option <$> fs) ++ concat (render_command <$> cs) in
  Initialize_options network_build args = Done (foldl apply_option default_options fs) ∧
  main_actions returns network_build args =
    let '(made, all) := make_calls returns (concat (command_actions <$> cs)) in
    (made, if (all : bool) then LoopDone else InCall).
Proof.
  intros Hf Hn Hc args. unfold Initialize_options, main_actions, args. split.
  - rewrite init_args_options by done. rewrite <- (app_nil_r (concat (render_command <$> cs))). by rewrite init_args_others.
  - rewrite main_args_others by done. apply main_args_commands.
Qed.

(** The console test halts the machine, and the directory is not printed. *)
Lemma command_line_means_witness :
  Initialize_options network_build ["-f"; "-rs"; "42"; "-n"; "0.5"; "-cp"; "motd"; "m"; "-c"; "in"; "out"; "-D"] =
    Done (mkOptions "" (Some 42) None false true None 0) ∧
  main_actions (λ a, negb (bool_decide (a = Halt))) network_build
      ["-f"; "-rs"; "42"; "-n"; "0.5"; "-cp"; "motd"; "m"; "-c"; "in"; "out"; "-D"] =
    ([Copy "motd" "m"; ConsoleTest (Some ("in", "out")); Halt], InCall).
Proof.
  destruct (command_line_means (λ a, negb (bool_decide (a = Halt)))
    [OptFormat; OptSeed "42"; OptReliability "0.5"] [CmdCopy "motd" "m"; CmdConsole "in" "out"; CmdPrintAll]) as [H1 H2].
  - repeat (apply Forall_cons; split; [apply (bool_decide_unpack _); vm_compute; exact I |]); apply Forall_nil_2.
  - intros a Ha. assert (a = "0.5") as -> by set_solver. apply (bool_decide_unpack _); vm_compute; exact I.
  - repeat (apply Forall_cons; split; [apply (bool_decide_unpack _); vm_compute; exact I |]); apply Forall_nil_2.
  - split; [exact H1 | exact H2].
Defined.

(** Two flags mean two things.  [nachos -p file], which prints a file, also
    starts the preemptive scheduler, with [atoi(file)] for its time slice (0 for
    a name that does not start with a number); in the build with the network,
    [nachos -l], which lists the directory, is refused by an assertion of
    [Initialize], and [-n], the documented flag of the reliability, is ignored. *)
Theorem flags_clash returns file r : (∀ f, returns (Print f) = true) → returns List = true →
  main_actions returns filesys_build ["-p"; file] = ([Print file], LoopDone) ∧
  Initialize_options filesys_build ["-p"; file] = Done (set_timeSlice (atoi file) default_options) ∧
  main_actions returns network_build ["-l"] = ([List], LoopDone) ∧
  Initialize_options network_build ["-l"] = Fault AssertFailed ∧
  Initialize_options network_build ["-n"; r] = Initialize_options network_build [r].
Proof.
  intros Hp Hl. unfold main_actions. split_and!; try reflexivity.
  - cbn [main_args]. change (main_arg filesys_build "-p" [file]) with ([Print file], Some 2%nat).
    cbn [make_calls]. rewrite Hp. reflexivity.
  - cbn [main_args]. change (main_arg network_build "-l" []) with ([List], Some 1%nat).
    cbn [make_calls]. rewrite Hl. reflexivity.
Qed.
