(* ===== verification/Disasm.v ===== *)
(** * The disassembler (bin/d.c, bin/opstrings.c, bin/instr.h, bin/encode.h)

    [dump_ascii] as the text it prints for one instruction.  It reads the bits of
    the instruction with the macros of bin/instr.h and names it with the tables
    of bin/opstrings.c; machine/mipssim.cc has its own decoder (Mips.v), and the
    theorems compare the two.  The instruction and the [pc] are [int]s. *)

From stdpp Require Import base gmap list numbers strings list_numbers.
From Stdlib Require Import ZArith Lia.
From S2P Require Import Prelude Machine MachineFacts Mips MipsFacts.

(** ** Fields (bin/instr.h) *)

Definition f_rd (i : Z) : Z := Z.land (Z.shiftr i 11) 0x1f.
Definition f_rt (i : Z) : Z := Z.land (Z.shiftr i 16) 0x1f.
Definition f_rs (i : Z) : Z := Z.land (Z.shiftr i 21) 0x1f.
Definition f_shamt (i : Z) : Z := Z.land (Z.shiftr i 6) 0x1f.
Definition immed (i : Z) : Z := if decide (Z.land i 0x8000 ≠ 0) then Z.lor i (-0x8000) else Z.land i 0x7fff.
Definition off26 (i : Z) : Z := shl32 (Z.land i (Z.shiftl 1 26 - 1)) 2.
Definition top4 (i : Z) : Z := Z.land i (Z.lnot (Z.shiftl 1 28 - 1)).
Definition off16 (i : Z) : Z := shl32 (immed i) 2.

(** ** Names (bin/opstrings.c, bin/d.c) *)

Definition normalops : list string := [
  "special"; "bcond"; "j"; "jal"; "beq"; "bne"; "blez"; "bgtz";
  "addi"; "addiu"; "slti"; "sltiu"; "andi"; "ori"; "xori"; "lui";
  "cop0"; "cop1"; "cop2"; "cop3"; "024"; "025"; "026"; "027";
  "030"; "031"; "032"; "033"; "034"; "035"; "036"; "037";
  "lb"; "lh"; "lwl"; "lw"; "lbu"; "lhu"; "lwr"; "047";
  "sb"; "sh"; "swl"; "sw"; "054"; "055"; "swr"; "057";
  "lwc0"; "lwc1"; "lwc2"; "lwc3"; "064"; "065"; "066"; "067";
  "swc0"; "swc1"; "swc2"; "swc3"; "074"; "075"; "076"; "077" ].

Definition specialops : list string := [
  "sll"; "001"; "srl"; "sra"; "sllv"; "005"; "srlv"; "srav";
  "jr"; "jalr"; "012"; "013"; "syscall"; "break"; "016"; "017";
  "mfhi"; "mthi"; "mflo"; "mtlo"; "024"; "025"; "026"; "027";
  "mult"; "multu"; "div"; "divu"; "034"; "035"; "036"; "037";
  "add"; "addu"; "sub"; "subu"; "and"; "or"; "xor"; "nor";
  "050"; "051"; "slt"; "sltu"; "054"; "055"; "056"; "057";
  "060"; "061"; "062"; "063"; "064"; "065"; "066"; "067";
  "070"; "071"; "072"; "073"; "074"; "075"; "076"; "077" ].

Definition regstrings : list string := [
  "0"; "r1"; "r2"; "r3"; "r4"; "r5"; "r6"; "r7"; "r8"; "r9";
  "r10"; "r11"; "r12"; "r13"; "r14"; "r15"; "r16"; "r17"; "r18"; "r19";
  "r20"; "r21"; "r22"; "r23"; "r24"; "r25"; "r26"; "r27"; "gp"; "sp"; "r30"; "r31" ].

(** ** [printf] *)

Definition tab : string := String (Ascii.ascii_of_nat 9) "".

Definition hex_digit (d : Z) : string :=
  default "" ((["0"; "1"; "2"; "3"; "4"; "5"; "6"; "7"; "8"; "9"; "a"; "b"; "c"; "d"; "e"; "f"] : list string) !! Z.to_nat d).

(** The [n] lowest hexadecimal digits. *)
Fixpoint hex_digits (n : nat) (x : Z) : string :=
  match n with
  | O => ""
  | S n' => hex_digits n' (x / 16) +:+ hex_digit (x mod 16)
  end.

(** [%08x], and [%x] without leading zeros, of an [int] as [unsigned]. *)
Definition x08 (x : Z) : string := hex_digits 8 (u32 x).
Definition hex_length (x : Z) : nat := if decide (x = 0) then 1%nat else S (Z.to_nat (Z.log2 x / 4)).
Definition hex (x : Z) : string := hex_digits (hex_length (u32 x)) (u32 x).

(** ** [dump_ascii] *)

Definition R (i : Z) : outcome string := rd regstrings i.

(** The registers of an operand list, joined with commas. *)
Fixpoint regs (xs : list Z) : outcome string :=
  match xs with
  | [] => Done ""
  | [i] => R i
  | i :: xs' =>
      match R i, regs xs' with
      | Done a, Done b => Done (a +:+ "," +:+ b)
      | Fault f, _ | _, Fault f => Fault f
      end
  end.

(** [printf("%s...%s", ..., text)] *)
Definition regs_then (xs : list Z) (text : string) : outcome string :=
  match regs xs with
  | Done s => Done (s +:+ text)
  | Fault f => Fault f
  end.

(** [switch (op) { case ...: }] *)
Definition one_of (op : Z) (cases : list Z) : bool := existsb (Z.eqb op) cases.

(** The operands of a [SPECIAL] instruction, by function code. *)
Definition special_operands (op instruction : Z) : outcome string :=
  if one_of op [0; 2; 3] then
    regs_then [f_rd instruction; f_rt instruction] (",0x" +:+ hex (f_shamt instruction))
  else if one_of op [4; 6; 7] then regs [f_rd instruction; f_rt instruction; f_rs instruction]
  else if one_of op [8; 9; 18; 19] then regs [f_rs instruction]
  else if one_of op [12; 13] then Done ""
  else if one_of op [16; 17] then regs [f_rd instruction]
  else if one_of op [24; 25; 26; 27] then regs [f_rs instruction; f_rt instruction]
  else if one_of op [32; 33; 34; 35; 36; 37; 38; 39; 42; 43] then
    regs [f_rd instruction; f_rs instruction; f_rt instruction]
  else Done "".

Definition bcond_name (op : Z) : string :=
  if op =? 0 then "bltz" else if op =? 1 then "bgez" else if op =? 16 then "bltzal" else if op =? 17 then "bgezal" else "BCOND".

(** [off16(instruction)+pc+4] *)
Definition branch_address (instruction pc : Z) : Z := s32 (off16 instruction + pc + 4).

(** The operands of the other instructions. *)
Definition normal_operands (op instruction pc : Z) : outcome string :=
  if one_of op [2; 3] then Done (x08 (Z.lor (top4 pc) (off26 instruction)))
  else if one_of op [4; 5] then
    regs_then [f_rt instruction; f_rs instruction] ("," +:+ x08 (branch_address instruction pc))
  else if one_of op [8; 9; 10; 11; 12; 13; 14] then
    regs_then [f_rt instruction; f_rs instruction] (",0x" +:+ hex (immed instruction))
  else if op =? 15 then regs_then [f_rt instruction] (",0x" +:+ hex (immed instruction))
  else if one_of op [16; 17; 18; 19] then Done ""
  else if one_of op [32; 33; 34; 35; 36; 37; 38; 40; 41; 42; 43; 46; 48; 49; 50; 51; 56; 57; 58; 59] then
    match R (f_rt instruction), R (f_rs instruction) with
    | Done a, Done b => Done (a +:+ ",0x" +:+ hex (immed instruction) +:+ "(" +:+ b +:+ ")")
    | Fault f, _ | _, Fault f => Fault f
    end
  else Done "".

(** The name of the instruction, and the text after it. *)
Definition dump_instruction (instruction pc : Z) : outcome string :=
  let opcode := Z.shiftr (u32 instruction) 26 in
  if decide (instruction = 0) then Done "nop"
  else if opcode =? 0 then
    let op := Z.land instruction 0x3f in
    match rd specialops op, special_operands op instruction with
    | Done name, Done args => Done (name +:+ tab +:+ args)
    | Fault f, _ | _, Fault f => Fault f
    end
  else if opcode =? 1 then
    match regs_then [f_rs instruction] ("," +:+ x08 (branch_address instruction pc)) with
    | Done args => Done (bcond_name (f_rt instruction) +:+ tab +:+ args)
    | Fault f => Fault f
    end
  else
    match rd normalops opcode, normal_operands opcode instruction pc with
    | Done name, Done args => Done (name +:+ tab +:+ args)
    | Fault f, _ | _, Fault f => Fault f
    end.

Definition dump_ascii (longdis : bool) (instruction pc : Z) : outcome string :=
  let start := if longdis then x08 pc +:+ ": " +:+ x08 instruction +:+ "  " else "" in
  match dump_instruction instruction pc with
  | Done text => Done (start +:+ tab +:+ text)
  | Fault f => Fault f
  end.

(** ** A reference: the text of a decoded instruction *)

Definition op_name (o : OpCode) : string :=
  match o with
  | OP_ADD => "add" | OP_ADDI => "addi" | OP_ADDIU => "addiu" | OP_ADDU => "addu" | OP_AND => "and" | OP_ANDI => "andi"
  | OP_BEQ => "beq" | OP_BGEZ => "bgez" | OP_BGEZAL => "bgezal" | OP_BGTZ => "bgtz" | OP_BLEZ => "blez"
  | OP_BLTZ => "bltz" | OP_BLTZAL => "bltzal" | OP_BNE => "bne"
  | OP_DIV => "div" | OP_DIVU => "divu" | OP_J => "j" | OP_JAL => "jal" | OP_JALR => "jalr" | OP_JR => "jr"
  | OP_LB => "lb" | OP_LBU => "lbu" | OP_LH => "lh" | OP_LHU => "lhu" | OP_LUI => "lui" | OP_LW => "lw"
  | OP_LWL => "lwl" | OP_LWR => "lwr"
  | OP_MFHI => "mfhi" | OP_MFLO => "mflo" | OP_MTHI => "mthi" | OP_MTLO => "mtlo" | OP_MULT => "mult" | OP_MULTU => "multu"
  | OP_NOR => "nor" | OP_OR => "or" | OP_ORI => "ori" | OP_RFE => "rfe"
  | OP_SB => "sb" | OP_SH => "sh" | OP_SLL => "sll" | OP_SLLV => "sllv" | OP_SLT => "slt" | OP_SLTI => "slti"
  | OP_SLTIU => "sltiu" | OP_SLTU => "sltu" | OP_SRA => "sra" | OP_SRAV => "srav" | OP_SRL => "srl" | OP_SRLV => "srlv"
  | OP_SUB => "sub" | OP_SUBU => "subu" | OP_SW => "sw" | OP_SWL => "swl" | OP_SWR => "swr" | OP_XOR => "xor"
  | OP_XORI => "xori" | OP_SYSCALL => "syscall" | OP_UNIMP => "" | OP_RES => "" | SPECIAL => "" | BCOND => ""
  end.

(** Where a branch and a jump at [pc] continue (see [exec_targets]). *)
Definition branch_target (i : Instruction) (pc : Z) : Z := s32 (s32 (pc + 4) + IndexToAddr (extra i)).
Definition jump_target (i : Instruction) (pc : Z) : Z :=
  s32 (Z.lor (Z.land (u32 (s32 (s32 (pc + 4) + 4))) 0xf0000000) (IndexToAddr (extra i))).

(** *** The operands by the interpreter's own table (machine/mipssim.h) *)

Inductive RegType := NONE | RS | RT | RD | EXTRA.

#[export] Instance RegType_eq_dec : EqDecision RegType.
Proof. solve_decision. Defined.

(** [opStrings[o].args], without [NONE]. *)
Definition opArgs (o : OpCode) : list RegType :=
  match o with
  | OP_ADD | OP_ADDU | OP_AND | OP_NOR | OP_OR | OP_SLT | OP_SLTU | OP_SUB | OP_SUBU | OP_XOR => [RD; RS; RT]
  | OP_ADDI | OP_ADDIU | OP_ANDI | OP_ORI | OP_SLTI | OP_SLTIU | OP_XORI => [RT; RS; EXTRA]
  | OP_BEQ | OP_BNE => [RS; RT; EXTRA]
  | OP_BGEZ | OP_BGEZAL | OP_BGTZ | OP_BLEZ | OP_BLTZ | OP_BLTZAL => [RS; EXTRA]
  | OP_DIV | OP_DIVU | OP_MULT | OP_MULTU => [RS; RT]
  | OP_J | OP_JAL => [EXTRA]
  | OP_JALR | OP_JR => [RD; RS]
  | OP_LB | OP_LBU | OP_LH | OP_LHU | OP_LW | OP_LWL | OP_LWR
  | OP_SB | OP_SH | OP_SW | OP_SWL | OP_SWR => [RT; EXTRA; RS]
  | OP_LUI => [RT; EXTRA]
  | OP_MFHI | OP_MFLO => [RD]
  | OP_MTHI | OP_MTLO => [RS]
  | OP_SLL | OP_SRA | OP_SRL => [RD; RT; EXTRA]
  | OP_SLLV | OP_SRAV | OP_SRLV => [RD; RT; RS]
  | _ => []
  end.

(** What a listing shows: the same, but for the order of the registers of [beq]
    and [bne], and for [jr], which has no register [rd]. *)
Definition asm_args (o : OpCode) : list RegType :=
  match o with OP_BEQ | OP_BNE => [RT; RS; EXTRA] | OP_JR => [RS] | _ => opArgs o end.

Definition is_memory (o : OpCode) : bool :=
  match o with
  | OP_LB | OP_LBU | OP_LH | OP_LHU | OP_LW | OP_LWL | OP_LWR | OP_SB | OP_SH | OP_SW | OP_SWL | OP_SWR => true
  | _ => false
  end.

(** The text of one operand: the name of a register, a number in hexadecimal, or
    the target of a branch or a jump. *)
Definition arg_text (i : Instruction) (pc : Z) (a : RegType) : outcome string :=
  match a with
  | NONE => Done ""
  | RS => R (i_rs i)
  | RT => R (i_rt i)
  | RD => R (i_rd i)
  | EXTRA => Done
      match opCode i with
      | OP_J | OP_JAL => x08 (jump_target i pc)
      | OP_BEQ | OP_BNE | OP_BLTZ | OP_BGEZ | OP_BLTZAL | OP_BGEZAL | OP_BLEZ | OP_BGTZ => x08 (branch_target i pc)
      | _ => "0x" +:+ hex (extra i)
      end
  end.

(** [a,b,c] *)
Fixpoint comma_separated (ts : list (outcome string)) : outcome string :=
  match ts with
  | [] => Done ""
  | [t] => t
  | t :: ts' =>
      match t, comma_separated ts' with
      | Done a, Done b => Done (a +:+ "," +:+ b)
      | Fault f, _ | _, Fault f => Fault f
      end
  end.

(** The operands of an instruction; those of loads and stores as [a,b(c)]. *)
Definition op_operands (i : Instruction) (pc : Z) : outcome string :=
  if is_memory (opCode i) then
    match arg_text i pc RT, arg_text i pc EXTRA, arg_text i pc RS with
    | Done a, Done b, Done c => Done (a +:+ "," +:+ b +:+ "(" +:+ c +:+ ")")
    | Fault f, _, _ | _, Fault f, _ | _, _, Fault f => Fault f
    end
  else comma_separated (arg_text i pc <$> asm_args (opCode i)).

(** The instructions that [dump_ascii] shows as the reference does. *)
Definition shown_well (o : OpCode) : bool :=
  match o with
  | OP_MFLO | OP_MTHI | OP_BLEZ | OP_BGTZ | OP_JALR | OP_RES | OP_UNIMP | OP_RFE | SPECIAL | BCOND => false
  | _ => true
  end.

(** ** The macros and the decoder read the same bits *)

Lemma field_u32 x k n : 0 ≤ k → 0 ≤ n → k + n ≤ 32 →
  Z.land (Z.shiftr x k) (Z.ones n) = Z.land (Z.shiftr (u32 x) k) (Z.ones n).
Proof.
  intros Hk Hn Hkn. apply Z.bits_inj'. intros j Hj. rewrite !Z.land_spec, !Z.shiftr_spec by lia.
  destruct (decide (j < n)); [| by rewrite Z.ones_spec_high, !andb_false_r by lia].
  rewrite testbit_u32 by lia. by rewrite bool_decide_true by lia.
Qed.

Lemma testbit_s32_high x k : 31 ≤ k → Z.testbit (s32 x) k = Z.testbit x 31.
Proof.
  intros Hk. pose proof (s32_range x) as Hr.
  rewrite <- (testbit_s32_low x 31) by lia.
  destruct (decide (s32 x < 0)) as [Hneg | Hpos].
  - assert (∀ j, 31 ≤ j → Z.testbit (s32 x) j = true) as Hbit.
    { intros j Hj. rewrite <- (Z.lnot_involutive (s32 x)), Z.lnot_spec by lia.
      rewrite (testbit_high _ 31); [done | unfold Z.lnot; lia | lia]. }
    by rewrite !Hbit by lia.
  - by rewrite !(testbit_high _ 31) by lia.
Qed.

Lemma land_bit x k : 0 ≤ k → Z.land x (2 ^ k) = if Z.testbit x k then 2 ^ k else 0.
Proof.
  intros Hk. apply Z.bits_inj'. intros j Hj. rewrite Z.land_spec, Z.pow2_bits_eqb by lia.
  destruct (Z.eqb_spec k j) as [<- | Hne].
  - destruct (Z.testbit x k) eqn:E; [by rewrite Z.pow2_bits_true by lia | by rewrite Z.testbit_0_l].
  - rewrite andb_false_r. destruct (Z.testbit x k); [by rewrite Z.pow2_bits_false by lia | by rewrite Z.testbit_0_l].
Qed.

Lemma immed_extra x : immed x = decode_extra (u32 x) IFMT.
Proof.
  unfold immed, decode_extra. change 0x8000 with (2 ^ 15). change 0xffff with (Z.ones 16). cbv zeta.
  assert (Z.testbit (Z.land (u32 x) (Z.ones 16)) 15 = Z.testbit x 15) as Hbit.
  { rewrite Z.land_spec, testbit_u32 by lia. by rewrite andb_true_r. }
  rewrite !land_bit, Hbit by lia.
  assert (∀ k, 0 ≤ k < 16 → Z.testbit (Z.land (u32 x) (Z.ones 16)) k = Z.testbit x k) as Hlow.
  { intros k Hk. rewrite Z.land_spec, Z.ones_spec_low, testbit_u32 by lia. by rewrite bool_decide_true, andb_true_r by lia. }
  destruct (Z.testbit x 15) eqn:E.
  - rewrite decide_True, decide_False by lia. apply Z.bits_inj'. intros k Hk. rewrite Z.lor_spec.
    change (-0x8000) with (Z.lnot (Z.ones 15)). change 0xffff0000 with (Z.shiftl (Z.ones 16) 16). rewrite Z.lnot_spec by lia.
    destruct (decide (k < 32)) as [Hk' | Hk'].
    + rewrite testbit_s32_low, Z.lor_spec, Z.shiftl_spec by lia. destruct (decide (k < 16)).
      * rewrite Hlow, (Z.testbit_neg_r _ (k - 16)), orb_false_r by lia. destruct (decide (k = 15)) as [-> |]; [by rewrite E |].
        rewrite Z.ones_spec_low by lia. by rewrite orb_false_r.
      * rewrite (Z.ones_spec_low 16), (Z.ones_spec_high 15) by lia. by rewrite !orb_true_r.
    + rewrite testbit_s32_high, Z.lor_spec, Z.shiftl_spec by lia. rewrite (Z.ones_spec_high 15) by lia.
      rewrite (Z.ones_spec_low 16) by lia. by rewrite !orb_true_r.
  - rewrite decide_False, decide_True by auto. apply Z.bits_inj'. intros k Hk. change 0x7fff with (Z.ones 15).
    rewrite Z.land_spec. destruct (decide (k < 16)).
    + rewrite Hlow by lia. destruct (decide (k = 15)) as [-> |]; [by rewrite E |].
      rewrite Z.ones_spec_low by lia. by rewrite andb_true_r.
    + rewrite Z.land_spec, !Z.ones_spec_high by lia. by rewrite !andb_false_r.
Qed.

Lemma off26_extra x : off26 x = IndexToAddr (decode_extra (u32 x) JFMT).
Proof.
  unfold off26, shl32, IndexToAddr, decode_extra. do 2 f_equal. change (Z.shiftl 1 26 - 1) with (Z.ones 26).
  change 0x3ffffff with (Z.ones 26). pose proof (field_u32 x 0 26) as H. rewrite !Z.shiftr_0_r in H. apply H; lia.
Qed.

(** ** Targets *)

(** [exec] continues at [branch_target] or falls through, and jumps to [jump_target]. *)
Lemma exec_targets big i pc pcAfter m m' t r v : machine_wf m →
  registers m !! Z.to_nat NextPCReg = Some (s32 (pc + 4)) → pcAfter = s32 (s32 (pc + 4) + 4) → 0 ≤ i_rs i < 32 → 0 ≤ i_rt i < 32 →
  exec big i pcAfter m = Done (Completed t r v, m') →
  (opCode i ∈ [OP_BEQ; OP_BNE; OP_BLTZ; OP_BGEZ; OP_BLTZAL; OP_BGEZAL; OP_BLEZ; OP_BGTZ] → t = branch_target i pc ∨ t = pcAfter) ∧
  (opCode i ∈ [OP_J; OP_JAL] → t = jump_target i pc).
Proof.
  intros Hwf Hnpc -> Hrs Hrt He.
  assert (reg NextPCReg m = Done (s32 (pc + 4), m)) as Hr.
  { unfold reg, mbind, M_bind, get, lift. by rewrite (rd_Done (registers m) NextPCReg (s32 (pc + 4))). }
  destruct (reg_lookup m (i_rs i) Hwf) as (a & _ & _ & Ha); [unfold NumTotalRegs; lia |].
  destruct (reg_lookup m (i_rt i) Hwf) as (b & _ & _ & Hb); [unfold NumTotalRegs; lia |].
  unfold exec, exec_branch, exec_jump, jump_target, branch_target in *.
  split; intros Hop; rewrite !elem_of_cons, elem_of_nil in Hop.
  - set (m1 := set_register R31 (s32 (s32 (pc + 4) + 4)) m).
    assert (set_reg R31 (s32 (s32 (pc + 4) + 4)) m = Done (tt, m1)) as Hl by (by apply set_reg_run).
    assert (reg NextPCReg m1 = Done (s32 (pc + 4), m1)) as Hr1 by (by apply reg_set_register).
    assert (machine_wf m1) as Hwf1 by (apply set_gp_wf; [done | done | apply int_s32]).
    destruct (reg_lookup m1 (i_rs i) Hwf1) as (a1 & _ & _ & Ha1); [unfold NumTotalRegs; lia |].
    destruct (opCode i); try (exfalso; naive_solver congruence);
      unfold mbind, M_bind in He; rewrite ?Ha, ?Hb, ?Hr, ?Hl in He; cbn beta iota in He;
      rewrite ?Hb, ?Hr, ?Hl in He; cbn beta iota in He; rewrite ?Hr, ?Ha1 in He; cbn beta iota in He;
      rewrite ?Hr1 in He; injection He as <- _ _ _; case_match; auto.
  - destruct (opCode i); try (exfalso; naive_solver congruence); [by injection He as <- _ _ _ |].
    unfold mbind at 1, M_bind at 1 in He. rewrite Hr in He. unfold mbind, M_bind in He.
    destruct (set_reg R31 (s32 (s32 (pc + 4) + 4)) m) as [[[] m1] |]; [| done]. by injection He as <- _ _ _.
Qed.

(** ** The texts agree *)

(** [pc] and the instruction after its delay slot are in the same 256 MB. *)
Definition same_region (pc : Z) : Prop :=
  Z.land (u32 (s32 (s32 (pc + 4) + 4))) 0xf0000000 = Z.land (u32 pc) 0xf0000000.

Lemma branch_address_target x pc o rs rt rd :
  branch_address x pc = branch_target (mkInstruction o rs rt rd (decode_extra (u32 x) IFMT)) pc.
Proof.
  unfold branch_address, branch_target, off16, shl32, IndexToAddr. cbn [extra]. rewrite immed_extra.
  set (e := s32 (Z.shiftl _ 2)). destruct (s32_mod (pc + 4)) as [q ->].
  replace (pc + 4 + q * 2 ^ 32 + e) with (e + pc + 4 + q * 2 ^ 32) by lia. by rewrite s32_add_mul.
Qed.

Lemma u32_lor a b : u32 (Z.lor a b) = Z.lor (u32 a) (u32 b).
Proof.
  apply Z.bits_inj'. intros k Hk. rewrite Z.lor_spec, !testbit_u32, Z.lor_spec by lia. by case_bool_decide.
Qed.

Lemma u32_top4 pc : u32 (top4 pc) = Z.land (u32 pc) 0xf0000000.
Proof.
  unfold top4. change (Z.shiftl 1 28 - 1) with (Z.ones 28). change 0xf0000000 with (Z.shiftl (Z.ones 4) 28).
  apply Z.bits_inj'. intros k Hk. rewrite Z.land_spec, !testbit_u32, Z.land_spec, Z.lnot_spec, Z.shiftl_spec by lia.
  case_bool_decide; [| done]. rewrite !andb_true_l. f_equal. destruct (decide (k < 28)).
  - by rewrite Z.ones_spec_low, (Z.testbit_neg_r _ (k - 28)) by lia.
  - by rewrite (Z.ones_spec_high 28), (Z.ones_spec_low 4) by lia.
Qed.

Lemma jump_address_target x pc o rs rt rd : same_region pc →
  x08 (Z.lor (top4 pc) (off26 x)) = x08 (jump_target (mkInstruction o rs rt rd (decode_extra (u32 x) JFMT)) pc).
Proof.
  intros Hreg. unfold x08. f_equal. unfold jump_target. cbn [extra]. rewrite u32_s32, !u32_lor, u32_top4, off26_extra, Hreg.
  f_equal. apply Z.bits_inj'. intros k Hk. rewrite testbit_u32, Z.land_spec, testbit_u32 by lia. by case_bool_decide.
Qed.

(** Numbers of six bits, one by one. *)
Ltac six_bits x := destruct x as [| x | x]; [| | lia]; do 6 (try (destruct x as [x | x |])); try lia.

Lemma string_assoc (a b c : string) : (a +:+ b) +:+ c = a +:+ (b +:+ c).
Proof. induction a as [| ch a IH]; [done |]. change (String ch ((a +:+ b) +:+ c) = String ch (a +:+ (b +:+ c))). by rewrite IH. Qed.

(** Two texts of the same operands. *)
Ltac same_text :=
  unfold op_operands, arg_text, special_operands, normal_operands, regs_then; cbn -[R hex x08 branch_target jump_target String.append];
  repeat match goal with |- context [R ?i] => destruct (R i) end; try reflexivity; f_equal; by rewrite ?string_assoc.

Lemma special_text x o (op := Z.land x 0x3f) : rd specialTable op = Done o → shown_well o = true →
  let i := mkInstruction o (f_rs x) (f_rt x) (f_rd x) (f_shamt x) in
  rd specialops op = Done (op_name o) ∧ ∀ pc, special_operands op x = op_operands i pc.
Proof.
  assert (0 ≤ op < 64) as Hop by (apply (land_ones_range x 6); lia). clearbody op.
  intros Ho Hw. six_bits op; injection Ho as <-; try discriminate Hw; (split; [reflexivity | intros pc; same_text]).
Qed.

Lemma normal_text x pc op o fmt : 0 ≤ op < 64 → rd opTable op = Done (o, fmt) → shown_well o = true →
  (o ∈ [OP_J; OP_JAL] → same_region pc) →
  let i := mkInstruction o (f_rs x) (f_rt x) (f_rd x) (decode_extra (u32 x) fmt) in
  rd normalops op = Done (op_name o) ∧ normal_operands op x pc = op_operands i pc.
Proof.
  intros Hop Ho Hw Hreg. unfold normal_operands.
  rewrite (branch_address_target x pc o (f_rs x) (f_rt x) (f_rd x)).
  assert (o ∈ [OP_J; OP_JAL] → x08 (Z.lor (top4 pc) (off26 x)) =
    x08 (jump_target (mkInstruction o (f_rs x) (f_rt x) (f_rd x) (decode_extra (u32 x) JFMT)) pc)) as Hjump
    by (intros Hin; by apply jump_address_target, Hreg).
  rewrite !immed_extra. six_bits op; injection Ho as <- <-; try discriminate Hw;
    try rewrite Hjump by (rewrite !elem_of_cons; auto); (split; [reflexivity | same_text]).
Qed.

(** The operation of a [BCOND] instruction is its [rt] field. *)
Lemma decode_bcond_rt x : decode_bcond (u32 x) =
  if f_rt x =? 0 then OP_BLTZ else if f_rt x =? 1 then OP_BGEZ else if f_rt x =? 16 then OP_BLTZAL
  else if f_rt x =? 17 then OP_BGEZAL else OP_UNIMP.
Proof.
  assert (Z.land (u32 x) 0x1f0000 = Z.shiftl (f_rt x) 16) as Hrt.
  { unfold f_rt. change 0x1f with (Z.ones 5). rewrite (field_u32 x 16 5) by lia. change 0x1f0000 with (Z.shiftl (Z.ones 5) 16).
    apply Z.bits_inj'. intros k Hk. rewrite Z.land_spec, !Z.shiftl_spec by lia. destruct (decide (k < 16)).
    - rewrite !(Z.testbit_neg_r _ (k - 16)) by lia. by rewrite andb_false_r.
    - rewrite Z.land_spec, Z.shiftr_spec by lia. do 2 f_equal. lia. }
  assert (0 ≤ f_rt x < 32) as Hr by (apply (land_ones_range _ 5); lia).
  unfold decode_bcond. rewrite Hrt, Z.shiftl_mul_pow2 by lia. repeat case_decide; repeat case_match; done || lia.
Qed.

Lemma bcond_text x pc (o := decode_bcond (u32 x)) : shown_well o = true →
  let i := mkInstruction o (f_rs x) (f_rt x) (f_rd x) (decode_extra (u32 x) IFMT) in
  bcond_name (f_rt x) = op_name o ∧
  regs_then [f_rs x] ("," +:+ x08 (branch_address x pc)) = op_operands i pc.
Proof.
  rewrite (branch_address_target x pc o (f_rs x) (f_rt x) (f_rd x)).
  pose proof (decode_bcond_rt x) as Ho. fold o in Ho. clearbody o. unfold bcond_name. revert Ho.
  destruct (f_rt x =? 0), (f_rt x =? 1), (f_rt x =? 16), (f_rt x =? 17); intros ->; intros Hw;
    first [discriminate Hw | split; [reflexivity | same_text]].
Qed.

Lemma R_Done i : 0 ≤ i < 32 → ∃ s, R i = Done s.
Proof. intros Hi. destruct (rd_in_range regstrings i) as (s & _ & Hs); [done |]. by exists s. Qed.

Lemma field_range x k : 0 ≤ Z.land (Z.shiftr x k) 0x1f < 32.
Proof. apply (land_ones_range _ 5). lia. Qed.

(** The registers of an instruction have names. *)
Lemma op_operands_Done i pc : 0 ≤ i_rs i < 32 → 0 ≤ i_rt i < 32 → 0 ≤ i_rd i < 32 → ∃ args, op_operands i pc = Done args.
Proof.
  intros H1 H2 H3. destruct (R_Done _ H1) as [a Ha], (R_Done _ H2) as [b Hb], (R_Done _ H3) as [c Hc].
  unfold op_operands, arg_text. destruct (opCode i); cbn -[R]; rewrite ?Ha, ?Hb, ?Hc; by eexists.
Qed.

Lemma Decode_fields x i : Decode (u32 x) = Done i → ∃ fmt, 
  i = mkInstruction (opCode i) (f_rs x) (f_rt x) (f_rd x) (decode_extra (u32 x) fmt).
Proof.
  unfold Decode, f_rs, f_rt, f_rd. change 0x1f with (Z.ones 5).
  rewrite !(field_u32 x _ 5) by lia. destruct (rd opTable _) as [[op fmt] |]; [| done]. intros H. exists fmt.
  destruct op; try (injection H as <-; reflexivity). destruct (rd specialTable _); [| done]. by injection H as <-.
Qed.

Lemma opcode_field x : Z.land (Z.shiftr (u32 x) 26) 0x3f = Z.shiftr (u32 x) 26 ∧ 0 ≤ Z.shiftr (u32 x) 26 < 64.
Proof.
  pose proof (u32_range x) as Hr. rewrite Z.shiftr_div_pow2 by lia. change 0x3f with (Z.ones 6). rewrite Z.land_ones by lia.
  assert (0 ≤ u32 x / 2 ^ 26 < 64) as H by dlia. split; [by apply Z.mod_small | done].
Qed.

(** An instruction word as one of the three kinds of instructions, with the
    fields that the macros read; [opcode] is [(x>>26) & 0x3f]. *)
Inductive decoded (x opcode : Z) : Instruction → Prop :=
| decoded_special o : opcode = 0 → rd specialTable (Z.land x 0x3f) = Done o →
    decoded x opcode (mkInstruction o (f_rs x) (f_rt x) (f_rd x) (f_shamt x))
| decoded_bcond : opcode = 1 →
    decoded x opcode (mkInstruction (decode_bcond (u32 x)) (f_rs x) (f_rt x) (f_rd x) (immed x))
| decoded_normal o fmt : opcode ≠ 0 → opcode ≠ 1 → rd opTable opcode = Done (o, fmt) → o ≠ SPECIAL → o ≠ BCOND →
    decoded x opcode (mkInstruction o (f_rs x) (f_rt x) (f_rd x) (decode_extra (u32 x) fmt)).

Lemma Decode_decoded x i : Decode (u32 x) = Done i → decoded x (Z.shiftr (u32 x) 26) i.
Proof.
  intros HD. destruct (opcode_field x) as [Hop Hrange]. unfold Decode in HD. rewrite Hop in HD.
  change 0x1f with (Z.ones 5) in HD. rewrite <- !(field_u32 x _ 5) in HD by lia. change (Z.ones 5) with 0x1f in HD.
  set (op := Z.shiftr (u32 x) 26) in *. clearbody op.
  destruct (rd opTable op) as [[o fmt] |] eqn:Ho; [| done].
  destruct (Z.eqb_spec op 0) as [-> | Hne0].
  { injection Ho as <- <-. destruct (rd specialTable (Z.land (u32 x) 0x3f)) as [o |] eqn:Hs; [| done]. injection HD as <-.
    pose proof (field_u32 x 0 6) as H6. rewrite !Z.shiftr_0_r in H6. change (Z.ones 6) with 0x3f in H6.
    rewrite <- H6 in Hs by lia. unfold decode_extra. change 0x1f with (Z.ones 5). rewrite <- (field_u32 x 6 5) by lia.
    by apply decoded_special. }
  destruct (Z.eqb_spec op 1) as [-> | Hne1].
  { injection Ho as <- <-. injection HD as <-. pose proof (decoded_bcond x 1 eq_refl) as H1. by rewrite immed_extra in H1. }
  assert (o ≠ SPECIAL ∧ o ≠ BCOND) as [Hns Hnb].
  { clear -Ho Hne0 Hne1 Hrange. split; intros ->; six_bits op; discriminate Ho || lia. }
  assert (i = mkInstruction o (f_rs x) (f_rt x) (f_rd x) (decode_extra (u32 x) fmt)) as ->
    by (destruct o; done || by injection HD as <-). by apply decoded_normal.
Qed.

Lemma dump_instruction_text x pc i : (opCode i ∈ [OP_J; OP_JAL] → same_region pc) → x ≠ 0 → Decode (u32 x) = Done i → shown_well (opCode i) = true →
  ∃ args, op_operands i pc = Done args ∧ dump_instruction x pc = Done (op_name (opCode i) +:+ tab +:+ args).
Proof.
  intros Hreg Hx HD Hw.
  assert (∃ args, op_operands i pc = Done args) as [args Hargs].
  { destruct (Decode_fields x i HD) as [fmt ->]. apply op_operands_Done; apply field_range. }
  exists args. split; [done |]. unfold dump_instruction. rewrite decide_False by done.
  destruct (opcode_field x) as [_ Hrange]. apply Decode_decoded in HD. set (op := Z.shiftr (u32 x) 26) in *. clearbody op.
  destruct HD as [o -> Hs | -> | o fmt H0 H1 Ho Hns Hnb]; cbn [opCode] in *.
  - destruct (special_text x o Hs Hw) as [-> Hops]. rewrite (Hops pc). cbn [Z.eqb]. by rewrite Hargs.
  - rewrite immed_extra in Hargs. destruct (bcond_text x pc Hw) as [-> ->]. cbn [Z.eqb]. by rewrite Hargs.
  - apply Z.eqb_neq in H0, H1. rewrite H0, H1. destruct (normal_text x pc op o fmt Hrange Ho Hw Hreg) as [-> ->]. by rewrite Hargs.
Qed.

(** ** Claims *)

(** C29 The disassembler agrees with the interpreter: for every instruction word
    other than 0 that [Instruction::Decode] recognises, except [mflo], [mthi],
    [blez], [bgtz] and [jalr] (see [dump_ascii_deviates]), and for a jump provided
    that it is in the same 256 MB as the instruction after its delay slot,
    [dump_ascii] prints the name of the decoded operation and the operands that
    the interpreter's own table [opStrings] gives for it, with the decoded
    registers and immediate value, in assembler notation ([beq] and [bne] show
    the second register first, and [jr] shows only the register that it reads).
    On a well-formed machine about to execute the instruction, the address
    printed for a jump is the next [pc] that [exec] returns, and that printed for
    a branch is the one it returns when the branch does not fall through. *)
Theorem dump_ascii_decodes longdis x pc i : x ≠ 0 → Decode (u32 x) = Done i → shown_well (opCode i) = true →
  (opCode i ∈ [OP_J; OP_JAL] → same_region pc) →
  (∃ args, op_operands i pc = Done args ∧
    dump_ascii longdis x pc =
      Done ((if longdis then x08 pc +:+ ": " +:+ x08 x +:+ "  " else "") +:+ tab +:+ op_name (opCode i) +:+ tab +:+ args)) ∧
  (∀ big m m' t r v, machine_wf m → registers m !! Z.to_nat NextPCReg = Some (s32 (pc + 4)) →
    exec big i (s32 (s32 (pc + 4) + 4)) m = Done (Completed t r v, m') →
    (opCode i ∈ [OP_J; OP_JAL] → arg_text i pc EXTRA = Done (x08 t)) ∧
    (opCode i ∈ [OP_BEQ; OP_BNE; OP_BLTZ; OP_BGEZ; OP_BLTZAL; OP_BGEZAL] →
      arg_text i pc EXTRA = Done (x08 t) ∨ t = s32 (s32 (pc + 4) + 4))).
Proof.
  intros Hx HD Hw Hreg. split.
  - destruct (dump_instruction_text x pc i Hreg Hx HD Hw) as (args & Hargs & E).
    exists args. split; [done |]. unfold dump_ascii. by rewrite E.
  - intros big m m' t r v Hm Hnpc He. destruct (Decode_fields x i HD) as [fmt Hi].
    assert (0 ≤ i_rs i < 32 ∧ 0 ≤ i_rt i < 32) as [Hrs Hrt] by (rewrite Hi; split; apply field_range).
    destruct (exec_targets big i pc _ m m' t r v Hm Hnpc eq_refl Hrs Hrt He) as [Hb Hj]. split; intros Hop.
    + rewrite (Hj Hop). rewrite !elem_of_cons, elem_of_nil in Hop. unfold arg_text. by destruct Hop as [-> | [-> | []]].
    + destruct (Hb ltac:(set_solver)) as [-> | ->]; [left | by right].
      rewrite !elem_of_cons, elem_of_nil in Hop. unfold arg_text. destruct (opCode i); try done; naive_solver congruence.
Qed.

(** [jal 0x40] at address 0x80, on a machine that executes it. *)
Lemma dump_ascii_decodes_witness :
  dump_ascii true 0x0c000010 0x80 = Done ("00000080: 0c000010  " +:+ tab +:+ "jal" +:+ tab +:+ "00000040") ∧
  let m := set_register NextPCReg 0x84 sample_machine in
  let i := mkInstruction OP_JAL 0 0 0 0x10 in
  exec false i 0x88 m = Done (Completed 0x40 0 0, set_register R31 0x88 m) ∧ arg_text i 0x80 EXTRA = Done (x08 0x40).
Proof.
  destruct (dump_ascii_decodes true 0x0c000010 0x80 (mkInstruction OP_JAL 0 0 0 0x10)) as [(args & Hargs & E) Hexec];
    [discriminate | vm_compute; reflexivity | reflexivity | intros _; vm_compute; reflexivity |]. split.
  - injection Hargs as <-. rewrite E. vm_compute. reflexivity.
  - cbv zeta. assert (exec false (mkInstruction OP_JAL 0 0 0 0x10) 0x88 (set_register NextPCReg 0x84 sample_machine) =
      Done (Completed 0x40 0 0, set_register R31 0x88 (set_register NextPCReg 0x84 sample_machine))) as He by reflexivity.
    split; [exact He |]. refine (proj1 (Hexec _ _ _ _ _ _ _ _ He) _); [| reflexivity | right; left].
    apply set_gp_wf; [exact sample_machine_wf | done | done].
Defined.

(** The five exceptions: [mflo] and [mthi] show the wrong field (the register
    that is not used), [blez] and [bgtz] show no operands, [jalr] does not show
    the register of the return address. *)
Lemma dump_ascii_deviates :
  dump_ascii false 0x00001012 0 = Done (tab +:+ "mflo" +:+ tab +:+ "0") ∧
  Decode 0x00001012 = Done (mkInstruction OP_MFLO 0 0 2 0) ∧
  dump_ascii false 0x00400011 0 = Done (tab +:+ "mthi" +:+ tab +:+ "0") ∧
  Decode 0x00400011 = Done (mkInstruction OP_MTHI 2 0 0 0) ∧
  dump_ascii false 0x00402809 0 = Done (tab +:+ "jalr" +:+ tab +:+ "r2") ∧
  Decode 0x00402809 = Done (mkInstruction OP_JALR 2 0 5 0) ∧ opArgs OP_JALR = [RD; RS] ∧
  dump_ascii false 0x18400003 0 = Done (tab +:+ "blez" +:+ tab) ∧
  dump_ascii false 0x1c400003 0 = Done (tab +:+ "bgtz" +:+ tab).
Proof. repeat split; vm_compute; reflexivity. Qed.
