(* ===== verification/Execute.v ===== *)
(** * The stand-alone interpreter (bin/execute.c, bin/int.h, bin/system.c)

    A second MIPS interpreter, which runs a program of UNIX instead of a program
    of Nachos: a flat memory, no delayed loads, system calls passed on to the
    host.  [runprogram] is the initial stack and a loop over [turn].  The casts
    of bin/int.h need a host whose pointers are [int]s, and the byte order is
    that of the executables ("little-endian interp"); an access outside of [mem]
    is a fault.  [exit] ends a turn with a status; what is printed on [stdout]
    and [stderr] is [printed].  A shift by a register takes the five low bits of
    the amount, as the shift instructions of the hosts do. *)

From stdpp Require Import base gmap list numbers strings list_numbers pretty.
From Stdlib Require Import ZArith Lia.
From S2P Require Import Prelude Machine Disasm.

(** ** State (bin/execute.c, bin/main.c, bin/int.h) *)

Definition MEMSIZE : Z := Z.shiftl 1 24.
Definition memoffset : Z := 0x10000000.

(** The flags of bin/main.c: [-t], [-T] and [-r]. *)
Record Traces := mkTraces { TRACE : bool; Traptrace : bool; Regtrace : bool }.

(** [mem] is static, so that a byte never stored is 0; [pc] and [npc] are
    variables of [runprogram]. *)
Record Interp := mkInterp {
  Reg : list Z;
  HI : Z;
  LO : Z;
  mem : gmap Z Z;
  cur_pc : Z;
  next_pc : Z;
  printed : string
}.

Definition set_Reg (l : list Z) (s : Interp) : Interp :=
  mkInterp l (HI s) (LO s) (mem s) (cur_pc s) (next_pc s) (printed s).
Definition set_HI (v : Z) (s : Interp) : Interp :=
  mkInterp (Reg s) v (LO s) (mem s) (cur_pc s) (next_pc s) (printed s).
Definition set_LO (v : Z) (s : Interp) : Interp :=
  mkInterp (Reg s) (HI s) v (mem s) (cur_pc s) (next_pc s) (printed s).
Definition set_mem (f : gmap Z Z) (s : Interp) : Interp :=
  mkInterp (Reg s) (HI s) (LO s) f (cur_pc s) (next_pc s) (printed s).
Definition set_pcs (pc npc : Z) (s : Interp) : Interp :=
  mkInterp (Reg s) (HI s) (LO s) (mem s) pc npc (printed s).
Definition print (text : string) (s : Interp) : Interp :=
  mkInterp (Reg s) (HI s) (LO s) (mem s) (cur_pc s) (next_pc s) (printed s +:+ text).

Definition gpr (i : Z) : M Interp Z := s ← get; lift (rd (Reg s) i).
Definition set_gpr (i v : Z) : M Interp unit := s ← get; l ← lift (wr (Reg s) i v); put (set_Reg l s).
Definition set_npc (v : Z) : M Interp unit := modify (λ s, set_pcs (cur_pc s) v s).

(** ** Memory (bin/int.h) *)

(** [n] bytes at [(mem-memoffset)[addr]]. *)
Definition load_bytes (addr : Z) (n : nat) : M Interp (list Z) :=
  s ← get;
  let off := addr - memoffset in
  if decide (0 ≤ off ∧ off + Z.of_nat n ≤ MEMSIZE)
  then mret ((λ k, default 0 (mem s !! k)) <$> seqZ off (Z.of_nat n))
  else stop OutOfBounds.

Fixpoint store_at (off : Z) (bs : list Z) (f : gmap Z Z) : gmap Z Z :=
  match bs with
  | [] => f
  | b :: bs' => store_at (off + 1) bs' (<[off := b]> f)
  end.

Definition store_bytes (addr : Z) (bs : list Z) : M Interp unit :=
  let off := addr - memoffset in
  if decide (0 ≤ off ∧ off + Z.of_nat (length bs) ≤ MEMSIZE)
  then modify (λ s, set_mem (store_at off bs (mem s)) s)
  else stop OutOfBounds.

Definition s16 (z : Z) : Z := (z + 2 ^ 15) mod 2 ^ 16 - 2 ^ 15.

Definition fetch (addr : Z) : M Interp Z := bs ← load_bytes addr 4; mret (s32 (le_value bs)).
Definition ifetch (addr : Z) : M Interp Z := fetch addr.
Definition sfetch (addr : Z) : M Interp Z := bs ← load_bytes addr 2; mret (s16 (le_value bs)).
Definition usfetch (addr : Z) : M Interp Z := bs ← load_bytes addr 2; mret (le_value bs).
Definition cfetch (addr : Z) : M Interp Z := bs ← load_bytes addr 1; mret (s8 (le_value bs)).
Definition ucfetch (addr : Z) : M Interp Z := bs ← load_bytes addr 1; mret (le_value bs).

Definition store (addr i : Z) : M Interp unit := store_bytes addr (le_bytes 4 i).
Definition sstore (addr i : Z) : M Interp unit := store_bytes addr (le_bytes 2 i).
Definition cstore (addr i : Z) : M Interp unit := store_bytes addr (le_bytes 1 i).

(** ** Output *)

Definition newline : string := String (Ascii.ascii_of_nat 10) "".

(** [printf(" %08x", Reg[j])] for the [n] registers from [j]. *)
Definition show_regs (s : Interp) (j : nat) (n : nat) : string :=
  foldr (λ v text, " " +:+ x08 v +:+ text) newline (take n (drop j (Reg s))).

Definition dump_reg : M Interp unit :=
  s ← get;
  modify (print (" 0:" +:+ show_regs s 0 8 +:+ " 8:" +:+ show_regs s 8 8 +:+
                 "16:" +:+ show_regs s 16 8 +:+ "24:" +:+ show_regs s 24 8)).

(** [exit(status)], [u()], and going on after the [switch]. *)
Definition exits (status : Z) : M Interp (option Z) := mret (Some status).
Definition u : M Interp (option Z) := modify (print ("Unimplemented Instruction" +:+ newline)) ;; exits 2.
Definition go_on : M Interp (option Z) := mret None.

(** ** System calls (bin/system.c)

    The calls of the host are parameters: a state [W] of the host and what each
    call returns; [h_read] and [h_ioctl] also give the bytes they store. *)
Record UnixCalls (W : Type) := mkUnixCalls {
  h_read : Z → Z → W → Z * list Z * W;
  h_write : Z → list Z → W → Z * W;
  h_open : list Z → Z → Z → W → Z * W;
  h_lseek : Z → Z → Z → W → Z * W;
  h_ioctl : Z → Z → W → list Z * W;
  h_fstat : Z → W → Z * W;
  h_getpagesize : Z
}.
Arguments h_read {W}.
Arguments h_write {W}.
Arguments h_open {W}.
Arguments h_lseek {W}.
Arguments h_ioctl {W}.
Arguments h_fstat {W}.
Arguments h_getpagesize {W}.

Section interpreter.
Context {W : Type} (host : UnixCalls W) (flags : Traces).

(** The interpreter and its host. *)
Definition Sys : Type := Interp * W.

Definition on_interp {A} (m : M Interp A) : M Sys A := zoom fst (λ s w, (s, w.2)) m.
Definition on_host {A} (f : W → A * W) : M Sys A := λ w, let '(a, h) := f w.2 in Done (a, (w.1, h)).

(** The bytes of [mem] from [addr] up to the first 0. *)
Fixpoint user_string (fuel : nat) (addr : Z) : M Interp (list Z) :=
  match fuel with
  | O => stop OutOfBounds
  | S fuel' =>
      c ← ucfetch addr;
      if decide (c = 0) then mret [] else rest ← user_string fuel' (addr + 1); mret (c :: rest)
  end.

(** [o1] of [ioctl]: the size of a group-[t] request of 8 bytes becomes 6. *)
Definition ioctl_request (o1 : Z) : Z :=
  let size := Z.land (Z.shiftr o1 16) 0x7f in
  let ioctl_group := s8 (Z.land (Z.shiftr o1 8) 0x00ff) in
  if decide (ioctl_group = 116 ∧ size = 8)
  then s32 (Z.lor (Z.land o1 (Z.lnot (Z.shiftl 0x7f 16))) (Z.shiftl 6 16))
  else o1.

(** [fstat(o1, o2)] stores a result through [o2] as it is, an address of the
    user program and not of the host. *)
Definition system_trap : M Sys (option Z) :=
  (if Traptrace flags then
     syscallno ← on_interp (gpr 2);
     on_interp (modify (print ("**System call " +:+ pretty syscallno +:+ newline))) ;; on_interp dump_reg
   else mret tt) ;;
  syscallno ← on_interp (gpr 2);
  o0 ← on_interp (gpr 4);
  o1 ← on_interp (gpr 5);
  o2 ← on_interp (gpr 6);
  let returns (v : Z) : M Sys (option Z) :=
    on_interp (set_gpr 1 v) ;;
    (if Traptrace flags then on_interp (modify (print ("**Afterwards:" +:+ newline))) ;; on_interp dump_reg else mret tt) ;;
    mret None in
  match syscallno with
  | 1 => mret (Some 0)
  | 3 =>
      r ← on_host (λ h, let '(n, bs, h') := h_read host o0 o2 h in ((n, bs), h'));
      on_interp (store_bytes o1 r.2) ;; returns r.1
  | 4 =>
      bs ← on_interp (load_bytes o1 (Z.to_nat o2));
      n ← on_host (h_write host o0 bs); returns n
  | 5 =>
      name ← on_interp (user_string (Z.to_nat MEMSIZE) o0);
      fd ← on_host (h_open host name o1 o2); returns fd
  | 6 => returns 0
  | 17 => returns (s32 ((Z.quot o0 8192 + 1) * 8192))
  | 19 => pos ← on_host (h_lseek host o0 o1 o2); returns pos
  | 54 =>
      bs ← on_host (h_ioctl host o0 (ioctl_request o1));
      on_interp (store_bytes o2 bs) ;; returns 0
  | 62 =>
      r ← on_host (h_fstat host o1);
      if decide (0 ≤ r) then stop OutOfBounds else returns r
  | 64 => returns (h_getpagesize host)
  | _ =>
      on_interp (modify (print ("Unknown System call " +:+ pretty syscallno +:+ newline))) ;;
      (if Traptrace flags then mret tt else on_interp dump_reg) ;;
      mret (Some 2)
  end.

Definition system_break : M Sys (option Z) :=
  (if Traptrace flags then on_interp (modify (print "**breakpoint ")) else mret tt) ;; system_trap.

(** ** Instructions (bin/execute.c) *)

(** [HI] of [I_MULT] and [I_MULTU] from the halves of the operands. *)
Definition mult_high (t1 t2 : Z) : Z :=
  let t1l := Z.land t1 0xffff in
  let t1h := Z.land (Z.shiftr t1 16) 0xffff in
  let t2l := Z.land t2 0xffff in
  let t2h := Z.land (Z.shiftr t2 16) 0xffff in
  s32 (s32 (s32 (t1h * t2h) + Z.shiftr (s32 (t1h * t2l)) 16) + Z.shiftr (s32 (t2h * t1l)) 16).

(** [I_MULT]: the result is [(HI, LO)]. *)
Definition mult_signed (r1 r2 : Z) : Z * Z :=
  let neg := xorb (bool_decide (r1 < 0)) (bool_decide (r2 < 0)) in
  let t1 := if decide (r1 < 0) then s32 (- r1) else r1 in
  let t2 := if decide (r2 < 0) then s32 (- r2) else r2 in
  let lo := s32 (t1 * t2) in
  let hi := mult_high t1 t2 in
  if neg then
    let lo' := s32 (Z.lnot lo + 1) in
    let hi' := Z.lnot hi in
    (if decide (lo' = 0) then s32 (hi' + 1) else hi', lo')
  else (hi, lo).

(** [case I_SPECIAL] *)
Definition special (instr xpc : Z) : M Sys (option Z) :=
  let rd := f_rd instr in
  let set (v : Z) : M Sys (option Z) := on_interp (set_gpr rd v ;; go_on) in
  let set_hilo (p : Z * Z) : M Sys (option Z) := on_interp (modify (λ s, set_LO p.2 (set_HI p.1 s)) ;; go_on) in
  a ← on_interp (gpr (f_rs instr));
  b ← on_interp (gpr (f_rt instr));
  match Z.land instr 0x3f with
  | 0 => set (s32 (Z.shiftl b (f_shamt instr)))                               (* I_SLL *)
  | 2 => set (s32 (Z.shiftr (u32 b) (f_shamt instr)))                         (* I_SRL *)
  | 3 => set (Z.shiftr b (f_shamt instr))                                     (* I_SRA *)
  | 4 => set (s32 (Z.shiftl b (Z.land a 0x1f)))                               (* I_SLLV *)
  | 6 => set (s32 (Z.shiftr (u32 b) (Z.land a 0x1f)))                         (* I_SRLV *)
  | 7 => set (Z.shiftr b (Z.land a 0x1f))                                     (* I_SRAV *)
  | 8 => on_interp (set_npc a ;; go_on)                                       (* I_JR *)
  | 9 => on_interp (set_npc a ;; set_gpr rd (s32 (xpc + 8)) ;; go_on)         (* I_JALR *)
  | 12 => system_trap                                                         (* I_SYSCALL *)
  | 13 => system_break                                                        (* I_BREAK *)
  | 16 => hi ← on_interp (gets HI); set hi                                    (* I_MFHI *)
  | 17 => on_interp (modify (set_HI a) ;; go_on)                              (* I_MTHI *)
  | 18 => lo ← on_interp (gets LO); set lo                                    (* I_MFLO *)
  | 19 => on_interp (modify (set_LO a) ;; go_on)                              (* I_MTLO *)
  | 24 => set_hilo (mult_signed a b)                                          (* I_MULT *)
  | 25 => set_hilo (mult_high a b, s32 (a * b))                               (* I_MULTU *)
  | 26 =>                                                                     (* I_DIV *)
      if decide (b = 0 ∨ a = - 2 ^ 31 ∧ b = -1) then stop ArithmeticTrap else set_hilo (Z.rem a b, Z.quot a b)
  | 27 =>                                                                     (* I_DIVU *)
      if decide (b = 0) then stop ArithmeticTrap else set_hilo (s32 (u32 a mod u32 b), s32 (u32 a / u32 b))
  | 32 | 33 => set (s32 (a + b))                                              (* I_ADD, I_ADDU *)
  | 34 | 35 => set (s32 (a - b))                                              (* I_SUB, I_SUBU *)
  | 36 => set (Z.land a b)                                                    (* I_AND *)
  | 37 => set (Z.lor a b)                                                     (* I_OR *)
  | 38 => set (Z.lxor a b)                                                    (* I_XOR *)
  | 39 => set (Z.lnot (Z.lor a b))                                            (* I_NOR *)
  | 42 => set (if bool_decide (a < b) then 1 else 0)                          (* I_SLT *)
  | 43 => set (if bool_decide (u32 a < u32 b) then 1 else 0)                  (* I_SLTU *)
  | _ => on_interp u
  end.

(** [npc = xpc + 4 + (immed(instr) << 2)] when the condition holds. *)
Definition branch (taken : bool) (instr xpc : Z) : M Interp (option Z) :=
  (if taken then set_npc (s32 (xpc + 4 + shl32 (immed instr) 2)) else mret tt) ;; go_on.

(** [case I_BCOND] *)
Definition bcond (instr xpc : Z) : M Interp (option Z) :=
  match f_rt instr with
  | 0 => a ← gpr (f_rs instr); branch (bool_decide (a < 0)) instr xpc                                  (* I_BLTZ *)
  | 1 => a ← gpr (f_rs instr); branch (bool_decide (a >= 0)) instr xpc                                 (* I_BGEZ *)
  | 16 => set_gpr 31 (s32 (xpc + 8)) ;; a ← gpr (f_rs instr); branch (bool_decide (a < 0)) instr xpc   (* I_BLTZAL *)
  | 17 => set_gpr 31 (s32 (xpc + 8)) ;; a ← gpr (f_rs instr); branch (bool_decide (a >= 0)) instr xpc  (* I_BGEZAL *)
  | _ => u
  end.

(** [case I_LB] to [case I_SWR]; the effective address is [addr]. *)
Definition memory_access (op instr : Z) : M Interp (option Z) :=
  a ← gpr (f_rs instr);
  b ← gpr (f_rt instr);
  let addr := s32 (a + immed instr) in
  let aligned := Z.land (u32 addr) 0xfffffffc in
  let set (m : M Interp Z) : M Interp (option Z) := v ← m; set_gpr (f_rt instr) v ;; go_on in
  match op with
  | 32 => set (cfetch addr)                                                   (* I_LB *)
  | 33 => set (sfetch addr)                                                   (* I_LH *)
  | 34 =>                                                                     (* I_LWL *)
      set (w ← fetch aligned;
           mret (Z.lor (Z.land b (Z.shiftr (-1) (8 * Z.land (s32 (- addr)) 3))) (s32 (Z.shiftl w (8 * Z.land addr 3)))))
  | 35 => set (fetch addr)                                                    (* I_LW *)
  | 36 => set (ucfetch addr)                                                  (* I_LBU *)
  | 37 => set (usfetch addr)                                                  (* I_LHU *)
  | 38 =>                                                                     (* I_LWR *)
      set (w ← fetch aligned;
           let kept := if decide (Z.land addr 3 = 0) then 0 else Z.land b (s32 (Z.shiftl (-1) (8 * Z.land addr 3))) in
           mret (Z.lor kept (Z.shiftr w (8 * Z.land (s32 (- addr)) 3))))
  | 40 => cstore addr b ;; go_on                                              (* I_SB *)
  | 41 => sstore addr b ;; go_on                                              (* I_SH *)
  | 42 => modify (print ("sorry, no SWL yet." +:+ newline)) ;; u              (* I_SWL *)
  | 43 => store addr b ;; go_on                                               (* I_SW *)
  | _ => modify (print ("sorry, no SWR yet." +:+ newline)) ;; u               (* I_SWR *)
  end.

(** [switch ((instr>>26) & 0x3f)] *)
Definition switch (instr xpc : Z) : M Sys (option Z) :=
  let op := Z.land (Z.shiftr instr 26) 0x3f in
  let target := s32 (Z.lor (Z.land (u32 xpc) 0xf0000000) (Z.shiftl (Z.land instr 0x03ffffff) 2)) in
  let set (f : Z → Z) : M Sys (option Z) :=
    on_interp (a ← gpr (f_rs instr); set_gpr (f_rt instr) (f a) ;; go_on) in
  let compare (c : Z → Z → bool) : M Sys (option Z) :=
    on_interp (a ← gpr (f_rs instr); b ← gpr (f_rt instr); branch (c a b) instr xpc) in
  match op with
  | 0 => special instr xpc
  | 1 => on_interp (bcond instr xpc)
  | 2 => on_interp (set_npc target ;; go_on)                                  (* I_J *)
  | 3 => on_interp (set_gpr 31 (s32 (xpc + 8)) ;; set_npc target ;; go_on)    (* I_JAL *)
  | 4 => compare (λ a b, bool_decide (a = b))                                 (* I_BEQ *)
  | 5 => compare (λ a b, bool_decide (a ≠ b))                                 (* I_BNE *)
  | 6 => compare (λ a _, bool_decide (a <= 0))                                (* I_BLEZ *)
  | 7 => compare (λ a _, bool_decide (a > 0))                                 (* I_BGTZ *)
  | 8 | 9 => set (λ a, s32 (a + immed instr))                                 (* I_ADDI, I_ADDIU *)
  | 10 => set (λ a, if bool_decide (a < immed instr) then 1 else 0)           (* I_SLTI *)
  | 11 => set (λ a, if bool_decide (u32 a < u32 (immed instr)) then 1 else 0) (* I_SLTIU *)
  | 12 => set (λ a, Z.land a (immed instr))                                   (* I_ANDI *)
  | 13 => set (λ a, Z.lor a (immed instr))                                    (* I_ORI *)
  | 14 => set (λ a, Z.lxor a (immed instr))                                   (* I_XORI *)
  | 15 => set (λ _, s32 (Z.shiftl instr 16))                                  (* I_LUI *)
  | 32 | 33 | 34 | 35 | 36 | 37 | 38 | 40 | 41 | 42 | 43 | 46 => on_interp (memory_access op instr)
  | 16 | 17 | 18 | 19 | 48 | 49 | 50 | 51 | 56 | 57 | 58 | 59 =>              (* I_COP0 .. I_SWC3 *)
      on_interp (modify (print ("Sorry, no coprocessors." +:+ newline)) ;; exits 2)
  | _ => on_interp u
  end.

(** The trace at the end of a turn. *)
Definition trace (instr xpc : Z) : M Sys unit :=
  if TRACE flags then
    text ← lift (dump_ascii true instr xpc);
    on_interp (modify (print (text +:+ newline))) ;; (if Regtrace flags then on_interp dump_reg else mret tt)
  else mret tt.

(** One turn of the loop of [runprogram]. *)
Definition turn : M Sys (option Z) :=
  s ← on_interp get;
  let xpc := cur_pc s in
  on_interp (modify (set_pcs (next_pc s) (s32 (next_pc s + 4)))) ;;
  instr ← on_interp (ifetch xpc);
  on_interp (set_gpr 0 0) ;;
  ended ← (if decide (instr ≠ 0) then switch instr xpc else mret None);
  match ended with
  | Some status => mret (Some status)
  | None =>
      trace instr xpc ;; mret None
  end.

(** [n] turns of the loop, or until the program ends. *)
Fixpoint turns (n : nat) : M Sys (option Z) :=
  match n with
  | O => mret None
  | S n' => ended ← turn; match ended with Some status => mret (Some status) | None => turns n' end
  end.

(** The loop over [argv]. *)
Fixpoint store_args (argv : list string) (aci ai : Z) : M Interp unit :=
  match argv with
  | [] => mret tt
  | arg :: argv' =>
      store_bytes ai (chars arg ++ [0]) ;;
      store aci ai ;;
      store_args argv' (aci + 4) (ai + Z.of_nat (String.length arg) + 1)
  end.

Definition start_stack (startpc : Z) (argv : list string) : M Interp unit :=
  modify (set_pcs startpc (s32 (startpc + 4))) ;;
  let i := MEMSIZE - 1024 + memoffset in
  set_gpr 29 i ;;
  store i (Z.of_nat (length argv)) ;;
  store_args argv (i + 4) (i + 4 + 32).

Definition runprogram (n : nat) (startpc : Z) (argv : list string) : M Sys (option Z) :=
  on_interp (start_stack startpc argv) ;; turns n.
End interpreter.

(** ** [ilog2] *)

(** [if ((j=(i&mask)) != 0) { i = j; l += n; }] *)
Definition ilog2_step (mask n : Z) (p : Z * Z) : Z * Z :=
  let j := Z.land p.1 mask in if decide (j ≠ 0) then (j, p.2 + n) else p.

Definition ilog2 (i : Z) : Z :=
  if decide (i = 0) then 0
  else (ilog2_step 0xaaaaaaaa 1 (ilog2_step 0xcccccccc 2 (ilog2_step 0xf0f0f0f0 4
         (ilog2_step 0xff00ff00 8 (ilog2_step 0xffff0000 16 (u32 i, 1)))))).2.
