(* ===== verification/ExecuteFacts.v ===== *)
(** * The two MIPS interpreters agree

    bin/execute.c (Execute.v) and machine/mipssim.cc (Mips.v) are compared
    through [effect], what an instruction does to registers: both have it on the
    instructions where [agrees] holds.  [execute_deviates] and [ninth_argument]
    show where bin/execute.c goes wrong; [ilog2] counts bits. *)

From stdpp Require Import base gmap list numbers strings list_numbers.
From Stdlib Require Import ZArith Lia.
From S2P Require Import Prelude Machine MachineFacts Mips MipsFacts Disasm Execute.

(** ** The two interpreters *)

(** What an instruction does to registers: what is written where ([HiReg] and
    [LoReg] among them), and where it continues, if not after its delay slot.
    [a] and [b] are the registers [rs] and [rt], [hi] and [lo] the multiplier. *)
Definition effect (i : Instruction) (pc a b hi lo : Z) : list (Z * Z) * option Z :=
  let to_rd v := ([(i_rd i, v)], None) in
  let to_rt v := ([(i_rt i, v)], None) in
  let link := (31, s32 (pc + 8)) in
  let flag (c : bool) := if c then 1 else 0 in
  let goto (c : bool) := if c then Some (branch_target i pc) else None in
  match opCode i with
  | OP_ADD | OP_ADDU => to_rd (s32 (a + b))
  | OP_SUB | OP_SUBU => to_rd (s32 (a - b))
  | OP_AND => to_rd (Z.land a b)
  | OP_OR => to_rd (Z.lor a b)
  | OP_XOR => to_rd (Z.lxor a b)
  | OP_NOR => to_rd (Z.lnot (Z.lor a b))
  | OP_SLT => to_rd (flag (bool_decide (a < b)))
  | OP_SLTU => to_rd (flag (bool_decide (u32 a < u32 b)))
  | OP_ADDI | OP_ADDIU => to_rt (s32 (a + extra i))
  | OP_SLTI => to_rt (flag (bool_decide (a < extra i)))
  | OP_SLTIU => to_rt (flag (bool_decide (u32 a < u32 (extra i))))
  | OP_ANDI => to_rt (Z.land a (Z.land (extra i) 0xffff))
  | OP_ORI => to_rt (Z.lor a (Z.land (extra i) 0xffff))
  | OP_XORI => to_rt (Z.lxor a (Z.land (extra i) 0xffff))
  | OP_LUI => to_rt (s32 (Z.shiftl (extra i) 16))
  | OP_SLL => to_rd (s32 (Z.shiftl b (extra i)))
  | OP_SRL => to_rd (s32 (Z.shiftr (u32 b) (extra i)))
  | OP_SRA => to_rd (Z.shiftr b (extra i))
  | OP_SLLV => to_rd (s32 (Z.shiftl b (Z.land a 0x1f)))
  | OP_SRLV => to_rd (s32 (Z.shiftr (u32 b) (Z.land a 0x1f)))
  | OP_SRAV => to_rd (Z.shiftr b (Z.land a 0x1f))
  | OP_MFHI => to_rd hi
  | OP_MFLO => to_rd lo
  | OP_MTHI => ([(HiReg, a)], None)
  | OP_MTLO => ([(LoReg, a)], None)
  | OP_MULT => ([(HiReg, (a * b) / 2 ^ 32); (LoReg, s32 (a * b))], None)
  | OP_MULTU => ([(HiReg, s32 ((u32 a * u32 b) / 2 ^ 32)); (LoReg, s32 (a * b))], None)
  | OP_DIV => ([(LoReg, Z.quot a b); (HiReg, Z.rem a b)], None)
  | OP_DIVU => ([(LoReg, s32 (u32 a / u32 b)); (HiReg, s32 (u32 a mod u32 b))], None)
  | OP_BEQ => ([], goto (bool_decide (a = b)))
  | OP_BNE => ([], goto (bool_decide (a ≠ b)))
  | OP_BLEZ => ([], goto (bool_decide (a <= 0)))
  | OP_BGTZ => ([], goto (bool_decide (a > 0)))
  | OP_BLTZ => ([], goto (bool_decide (a < 0)))
  | OP_BGEZ => ([], goto (bool_decide (a >= 0)))
  | OP_BLTZAL => ([link], goto (bool_decide (a < 0)))
  | OP_BGEZAL => ([link], goto (bool_decide (a >= 0)))
  | OP_J => ([], Some (jump_target i pc))
  | OP_JAL => ([link], Some (jump_target i pc))
  | OP_JR => ([], Some a)
  | OP_JALR => ([(i_rd i, s32 (pc + 8))], Some a)
  | _ => ([], None)
  end.

(** When both interpreters do that: the instruction works on registers, and it
    is none of the cases where one of them deviates.  machine/mipssim.cc: [OR]
    ignores [rt], a logical shift keeps the sign, and overflow is an exception.
    bin/execute.c: logical immediates are sign-extended, carries between the
    halves of a product are lost, division by zero traps.  Branches and links
    differ in a delay slot. *)
Definition agrees (i : Instruction) (pc npc a b : Z) : Prop :=
  match opCode i with
  | OP_ADD => int_range (a + b)
  | OP_SUB => int_range (a - b)
  | OP_ADDI => int_range (a + extra i)
  | OP_ANDI | OP_ORI | OP_XORI => 0 ≤ extra i
  | OP_OR => Z.lor a b = a
  | OP_SRL | OP_SRLV => 0 ≤ b
  | OP_MULT => - 2 ^ 16 < a < 2 ^ 16 ∧ - 2 ^ 16 < b < 2 ^ 16
  | OP_MULTU => 0 ≤ a < 2 ^ 16 ∧ 0 ≤ b < 2 ^ 16
  | OP_DIV => b ≠ 0 ∧ ~ (a = - 2 ^ 31 ∧ b = -1)
  | OP_DIVU => b ≠ 0
  | OP_BEQ | OP_BNE | OP_BLEZ | OP_BGTZ | OP_BLTZ | OP_BGEZ => npc = s32 (pc + 4)
  | OP_BLTZAL | OP_BGEZAL => npc = s32 (pc + 4) ∧ i_rs i ≠ 31
  | OP_J | OP_JAL => npc = s32 (pc + 4) ∧ same_region pc
  | OP_JALR => npc = s32 (pc + 4) ∧ i_rd i ≠ i_rs i
  | OP_JR | OP_ADDU | OP_SUBU | OP_AND | OP_XOR | OP_NOR | OP_SLT | OP_SLTU | OP_ADDIU | OP_SLTI | OP_SLTIU
  | OP_LUI | OP_SLL | OP_SRA | OP_SLLV | OP_SRAV | OP_MFHI | OP_MFLO | OP_MTHI | OP_MTLO => True
  | _ => False
  end.
#[global] Instance agrees_dec i pc npc a b : Decision (agrees i pc npc a b).
Proof. unfold agrees, int_range, same_region. destruct (opCode i); apply _. Defined.

(** The general registers, the multiplier and the program counters are the same,
    and no load of the machine is pending.  [Reg[0]] is cleared at each turn. *)
Record same_registers (s : Interp) (m : Machine) : Prop := {
  sr_reg : ∀ r, 0 < r < 32 → Reg s !! Z.to_nat r = registers m !! Z.to_nat r;
  sr_length : length (Reg s) = 32%nat;
  sr_hi : registers m !! Z.to_nat HiReg = Some (HI s);
  sr_lo : registers m !! Z.to_nat LoReg = Some (LO s);
  sr_pc : registers m !! Z.to_nat PCReg = Some (cur_pc s);
  sr_npc : registers m !! Z.to_nat NextPCReg = Some (next_pc s);
  sr_load : registers m !! Z.to_nat LoadReg = Some 0
}.

(** ** machine/mipssim.cc has the effect *)

Definition set_writes (ws : list (Z * Z)) (m : Machine) : Machine := foldl (λ m w, set_register w.1 w.2 m) m ws.

Lemma link_address pc : s32 (s32 (pc + 4) + 4) = s32 (pc + 8).
Proof. destruct (s32_mod (pc + 4)) as [q ->]. rewrite <- (s32_add_mul (pc + 8) q). f_equal. lia. Qed.

Lemma Mult_parts a b : int_range a → int_range b →
  Mult a b true = ((a * b) / 2 ^ 32, s32 (a * b)) ∧
  Mult a b false = (s32 ((u32 a * u32 b) / 2 ^ 32), s32 (a * b)).
Proof.
  intros Ha Hb. destruct (Mult_spec a b Ha Hb) as [Hs Hu].
  destruct (Mult a b true) as [hi lo], (Mult a b false) as [hi' lo']. destruct Hs as (H1 & H2 & H3), Hu as (H4 & H5 & H6). cbn [fst snd] in *.
  pose proof (u32_range lo) as Hl. pose proof (u32_range lo') as Hl'. split; f_equal.
  - rewrite <- H3, Z.div_add_l, (Z.div_small (u32 lo)) by lia. lia.
  - rewrite <- H3, Z.add_comm, s32_add_mul, s32_u32. by rewrite s32_small.
  - rewrite <- H6, Z.div_add_l, (Z.div_small (u32 lo')), Z.add_0_r, s32_u32 by lia. by rewrite s32_small.
  - transitivity (s32 (u32 a * u32 b)).
    + rewrite <- H6, Z.add_comm, s32_add_mul, s32_u32. by rewrite s32_small.
    + rewrite <- (s32_u32 (u32 a * u32 b)), <- (s32_u32 (a * b)). f_equal. unfold u32. by rewrite <- Z.mul_mod.
Qed.

Lemma shiftr_u32 b k : int_range b → 0 ≤ b → 0 ≤ k → s32 (Z.shiftr (u32 b) k) = Z.shiftr b k.
Proof.
  intros Hb H0 Hk. rewrite u32_small by (unfold int_range in Hb; lia). apply s32_small. by apply int_shiftr.
Qed.

(** The values an instruction reads in a machine. *)
Record reads (i : Instruction) (m : Machine) (npc a b hi lo : Z) : Prop := {
  rs_a : reg (i_rs i) m = Done (a, m);
  rs_b : reg (i_rt i) m = Done (b, m);
  rs_hi : reg HiReg m = Done (hi, m);
  rs_lo : reg LoReg m = Done (lo, m);
  rs_npc : reg NextPCReg m = Done (npc, m);
  rs_int : int_range a ∧ int_range b ∧ int_range hi ∧ int_range lo ∧ int_range npc
}.

Section mipssim.
Context (big : bool) (i : Instruction) (m : Machine) (pc npc a b hi lo : Z).
Hypothesis Hwf : machine_wf m.
Hypothesis Hi : instruction_wf i.
Hypothesis Hreads : reads i m npc a b hi lo.
Hypothesis Hagrees : agrees i pc npc a b.

Definition has_effect (c : M Machine exec_outcome) : Prop :=
  c m = Done (Completed (default (s32 (npc + 4)) (effect i pc a b hi lo).2) 0 0, set_writes (effect i pc a b hi lo).1 m).

Lemma set_reg_1 r v : 0 ≤ r < LoadReg → set_reg r v m = Done (tt, set_register r v m).
Proof using Hwf. intros. apply set_reg_run; [done |]. unfold LoadReg, NumTotalRegs in *. lia. Qed.

Lemma set_reg_2 r v r' v' : 0 ≤ r < LoadReg → 0 ≤ r' < LoadReg → int_range v →
  set_reg r' v' (set_register r v m) = Done (tt, set_register r' v' (set_register r v m)).
Proof using Hwf. intros. apply set_reg_run; [by apply set_gp_wf |]. unfold LoadReg, NumTotalRegs in *. lia. Qed.

Definition op_in (os : list OpCode) : Prop := existsb (λ o, bool_decide (opCode i = o)) os = true.

(** Run the register reads of an instruction. *)
Ltac run_reads Hop :=
  destruct Hi as [_ Hrs Hrt Hrd Hx Hsh], Hreads as [Ra Rb Rhi Rlo Rnpc (Ia & Ib & Ihi & Ilo & Inpc)];
  unfold NumGPRegs in *; unfold has_effect, agrees, effect in *;
  destruct (opCode i) eqn:Eop; try discriminate Hop; try contradiction; try (pose proof (proj1 Hagrees) as Hag1; pose proof (proj2 Hagrees) as Hag2); unfold mbind, M_bind, mret, M_ret;
  rewrite ?Ra, ?Rb, ?Rhi, ?Rlo, ?Rnpc.
Ltac run_write := rewrite set_reg_1 by (unfold LoadReg, HiReg, LoReg, R31; lia).

Lemma exec_branch_effect : op_in [OP_BEQ; OP_BNE; OP_BLEZ; OP_BGTZ; OP_BLTZ; OP_BGEZ] →
  has_effect (exec_branch i (s32 (npc + 4))).
Proof using Hi Hreads Hagrees.
  intros Hop. unfold exec_branch, op_in in *. run_reads Hop.
  all: rewrite ?signed_bit_neg by done; rewrite Hagrees; unfold branch_target; repeat case_bool_decide; simpl; done || lia.
Qed.

Lemma exec_link_effect : op_in [OP_BLTZAL; OP_BGEZAL] → has_effect (exec_branch i (s32 (npc + 4))).
Proof using Hwf Hi Hreads Hagrees.
  intros Hop. unfold exec_branch, op_in in *. run_reads Hop.
  all: run_write; rewrite (reg_set_register m (i_rs i) _ a), (reg_set_register m NextPCReg _ npc) by done.
  all: rewrite ?signed_bit_neg by done; rewrite Hag1, link_address; unfold branch_target.
  all: repeat case_bool_decide; simpl; done || lia.
Qed.

Lemma exec_jump_effect : op_in [OP_J; OP_JAL; OP_JR; OP_JALR] → has_effect (exec_jump i (s32 (npc + 4))).
Proof using Hwf Hi Hreads Hagrees.
  intros Hop. unfold exec_jump, op_in in *. run_reads Hop; try rewrite Hag1; try done.
  - run_write. unfold jump_target. by rewrite link_address.
  - run_write. rewrite (reg_set_register m (i_rs i) _ a) by (done || lia). by rewrite link_address.
Qed.

Lemma exec_hilo_effect : op_in [OP_MFHI; OP_MFLO; OP_MTHI; OP_MTLO; OP_MULT; OP_MULTU] →
  has_effect (exec_hilo i (s32 (npc + 4))).
Proof using Hwf Hi Hreads Hagrees.
  intros Hop. unfold exec_hilo, op_in in *. run_reads Hop; try (run_write; reflexivity);
    destruct (Mult_parts a b Ia Ib) as [Hs Hu].
  - rewrite Hs. run_write. rewrite set_reg_2; [reflexivity | done | done |].
    apply (f_equal fst) in Hs. cbn [fst] in Hs. rewrite <- Hs. by apply Mult_spec.
  - rewrite Hu. run_write. rewrite set_reg_2; [reflexivity | done | done | apply int_s32].
Qed.

Lemma exec_div_effect : op_in [OP_DIV; OP_DIVU] → has_effect (exec_div i (s32 (npc + 4))).
Proof using Hwf Hi Hreads Hagrees.
  intros Hop. unfold exec_div, op_in in *. run_reads Hop.
  - rewrite !decide_False by done. run_write. by rewrite set_reg_2 by (done || by apply int_quot).
  - assert (u32 b ≠ 0) as H0.
    { intros E. apply Hagrees. rewrite <- (s32_small b), <- s32_u32 by done. by rewrite E. }
    rewrite decide_False by done. run_write. by rewrite set_reg_2 by (done || apply int_s32).
Qed.

Lemma exec_arith_effect : op_in [OP_ADD; OP_ADDI; OP_ADDIU; OP_ADDU; OP_AND; OP_ANDI; OP_SUB; OP_SUBU] →
  has_effect (exec_arith i (s32 (npc + 4))).
Proof using Hwf Hi Hreads Hagrees.
  intros Hop. unfold exec_arith, op_in in *. run_reads Hop.
  all: rewrite ?(Z.lxor_comm a (extra i)), ?(Z.add_comm a (extra i)) in *.
  all: rewrite ?add_overflow, ?sub_overflow by done; rewrite ?bool_decide_true by done; cbn [negb]; run_write; done.
Qed.

Lemma exec_shift_effect : op_in [OP_SLL; OP_SLLV; OP_SRA; OP_SRAV; OP_SRL; OP_SRLV] →
  has_effect (exec_shift i (s32 (npc + 4))).
Proof using Hwf Hi Hreads Hagrees.
  intros Hop. unfold exec_shift, op_in in *. pose proof (land_ones_range a 5) as Ha5. change (Z.ones 5) with 0x1f in Ha5.
  run_reads Hop; run_write; rewrite ?shiftr_u32 by (done || lia || by apply Hsh); done.
Qed.

Lemma exec_logic_effect : op_in [OP_NOR; OP_OR; OP_ORI; OP_XOR; OP_XORI] → has_effect (exec_logic i (s32 (npc + 4))).
Proof using Hwf Hi Hreads Hagrees.
  intros Hop. unfold exec_logic, op_in in *. run_reads Hop; run_write; try done. by rewrite Z.lor_diag, Hagrees.
Qed.

Lemma exec_compare_effect : op_in [OP_SLT; OP_SLTI; OP_SLTIU; OP_SLTU] → has_effect (exec_compare i (s32 (npc + 4))).
Proof using Hwf Hi Hreads Hagrees. intros Hop. unfold exec_compare, op_in in *. run_reads Hop; run_write; done. Qed.

Lemma exec_lui_effect : op_in [OP_LUI] → has_effect (exec_load big i (s32 (npc + 4))).
Proof using Hwf Hi Hreads Hagrees. intros Hop. unfold exec_load, op_in in *. run_reads Hop; run_write; done. Qed.

Lemma exec_effect : has_effect (exec big i (s32 (npc + 4))).
Proof using Hwf Hi Hreads Hagrees.
  pose proof exec_branch_effect. pose proof exec_link_effect. pose proof exec_jump_effect. pose proof exec_hilo_effect.
  pose proof exec_div_effect. pose proof exec_arith_effect. pose proof exec_shift_effect. pose proof exec_logic_effect.
  pose proof exec_compare_effect. pose proof exec_lui_effect. unfold op_in, agrees, exec in *. destruct (opCode i); auto; done.
Qed.
End mipssim.

(** ** bin/execute.c has the effect *)

Definition put_write (s : Interp) (w : Z * Z) : Interp :=
  if decide (w.1 = HiReg) then set_HI w.2 s
  else if decide (w.1 = LoReg) then set_LO w.2 s
  else set_Reg (<[Z.to_nat w.1 := w.2]> (Reg s)) s.
Definition put_writes (ws : list (Z * Z)) (s : Interp) : Interp := foldl put_write s ws.
Definition go_to (target : option Z) (s : Interp) : Interp :=
  match target with Some t => set_pcs (cur_pc s) t s | None => s end.

Lemma mult_high_small t1 t2 : 0 ≤ t1 < 2 ^ 16 → 0 ≤ t2 < 2 ^ 16 → mult_high t1 t2 = 0.
Proof.
  intros H1 H2. unfold mult_high. rewrite (Z.shiftr_div_pow2 t1), (Z.shiftr_div_pow2 t2) by lia.
  rewrite (Z.div_small t1), (Z.div_small t2) by lia. by rewrite Z.land_0_l.
Qed.

Lemma mult_signed_small a b : - 2 ^ 16 < a < 2 ^ 16 → - 2 ^ 16 < b < 2 ^ 16 →
  mult_signed a b = ((a * b) / 2 ^ 32, s32 (a * b)).
Proof.
  intros Ha Hb. unfold mult_signed.
  assert (∀ r, - 2 ^ 16 < r < 2 ^ 16 → (if decide (r < 0) then s32 (- r) else r) = Z.abs r) as Habs.
  { intros r Hr. case_decide; [rewrite s32_small |]; lia. }
  rewrite !Habs by done. rewrite mult_high_small by lia.
  assert (0 ≤ Z.abs a * Z.abs b < 2 ^ 32) as Hp by nia. rewrite <- Z.abs_mul in Hp.
  assert (a * b = if xorb (bool_decide (a < 0)) (bool_decide (b < 0)) then - (Z.abs a * Z.abs b) else Z.abs a * Z.abs b) as E.
  { repeat case_bool_decide; simpl; rewrite <- Z.abs_mul; nia. }
  rewrite <- Z.abs_mul in *. set (p := Z.abs (a * b)) in *. clearbody p.
  assert (s32 (Z.lnot (s32 p) + 1) = s32 (- p)) as Hlo.
  { unfold Z.lnot. destruct (s32_mod p) as [q ->]. rewrite <- (s32_add_mul (- p) (- q)). f_equal. lia. }
  destruct (xorb _ _); rewrite E; [rewrite Hlo |]; f_equal; [| by rewrite Z.div_small].
  case_decide as H0.
  - destruct (s32_mod (- p)) as [q Hq]. replace p with 0 by lia. done.
  - assert (p ≠ 0) by (intros ->; by apply H0). change (Z.lnot 0) with (-1). apply Z.div_unique with (r := 2 ^ 32 - p); [left |]; lia.
Qed.

Lemma land_immed x : 0 ≤ immed x → Z.land (immed x) 0xffff = immed x.
Proof.
  unfold immed. case_decide.
  - intros [_ Hneg]%Z.lor_nonneg. lia.
  - intros _. by rewrite <- Z.land_assoc.
Qed.

Lemma immed_low x : immed x mod 2 ^ 16 = x mod 2 ^ 16.
Proof.
  rewrite <- !Z.land_ones by lia. unfold immed. change 0x8000 with (2 ^ 15). rewrite land_bit by lia.
  destruct (Z.testbit x 15) eqn:E; case_decide; try lia.
  - rewrite Z.land_lor_distr_l. change (Z.land (-0x8000) (Z.ones 16)) with (2 ^ 15). apply Z.bits_inj'. intros k Hk.
    rewrite Z.lor_spec, Z.land_spec, Z.pow2_bits_eqb by lia. destruct (Z.eqb_spec 15 k) as [<- |]; [by rewrite E | by rewrite orb_false_r].
  - rewrite <- Z.land_assoc. change (Z.land 32767 (Z.ones 16)) with (Z.ones 15). apply Z.bits_inj'. intros k Hk.
    rewrite !Z.land_spec. destruct (decide (k = 15)) as [-> |]; [by rewrite E |].
    destruct (decide (k < 15)); [by rewrite !Z.ones_spec_low by lia | by rewrite !Z.ones_spec_high by lia].
Qed.

Lemma lui_value x : s32 (Z.shiftl x 16) = s32 (Z.shiftl (immed x) 16).
Proof.
  rewrite !Z.shiftl_mul_pow2 by lia. pose proof (immed_low x) as H.
  assert (∀ y, s32 (y * 2 ^ 16) = s32 (y mod 2 ^ 16 * 2 ^ 16)) as Hy; [| by rewrite Hy, <- H, <- Hy].
  intros y. rewrite <- (s32_add_mul (y mod 2 ^ 16 * 2 ^ 16) (y / 2 ^ 16)). f_equal. pose proof (Z.div_mod y (2 ^ 16)). lia.
Qed.

Lemma jump_value x pc o rs rt rd : same_region pc →
  s32 (Z.lor (Z.land (u32 pc) 0xf0000000) (Z.shiftl (Z.land x 0x03ffffff) 2)) =
  jump_target (mkInstruction o rs rt rd (decode_extra (u32 x) JFMT)) pc.
Proof.
  intros Hreg. unfold jump_target. cbn [extra]. rewrite Hreg, <- off26_extra. unfold off26, shl32.
  rewrite <- (s32_u32 (Z.lor _ _)), u32_lor. symmetry. rewrite <- (s32_u32 (Z.lor _ _)), u32_lor, u32_s32. done.
Qed.

Lemma branch_value x pc o rs rt rd :
  s32 (pc + 4 + shl32 (immed x) 2) = branch_target (mkInstruction o rs rt rd (immed x)) pc.
Proof.
  unfold branch_target, shl32, IndexToAddr. cbn [extra]. destruct (s32_mod (pc + 4)) as [q ->].
  rewrite <- (s32_add_mul (pc + 4 + s32 (Z.shiftl (immed x) 2)) q). f_equal. lia.
Qed.

Lemma gpr_run s i v : 0 ≤ i → Reg s !! Z.to_nat i = Some v → gpr i s = Done (v, s).
Proof. intros Hi Hv. unfold gpr, mbind, M_bind, get, lift. by rewrite (rd_Done _ _ v). Qed.

Lemma set_gpr_run s i v : length (Reg s) = 32%nat → 0 ≤ i < 32 → set_gpr i v s = Done (tt, put_write s (i, v)).
Proof.
  intros Hlen Hi. unfold set_gpr, mbind, M_bind, get, lift, put, put_write. rewrite wr_Done by lia. cbn [fst snd].
  by rewrite !decide_False by (unfold HiReg, LoReg; lia).
Qed.

Lemma gpr_put_write s r i v v' : 0 ≤ r < 32 → 0 ≤ i < 32 → r ≠ i → Reg s !! Z.to_nat r = Some v →
  gpr r (put_write s (i, v')) = Done (v, put_write s (i, v')).
Proof.
  intros Hr Hi Hne Hv. apply gpr_run; [lia |]. unfold put_write. cbn [fst snd].
  rewrite !decide_False by (unfold HiReg, LoReg; lia). simpl. by rewrite list_lookup_insert_ne by lia.
Qed.

Lemma branch_run taken x pc s : branch taken x pc s =
  Done (None, go_to (if taken then Some (s32 (pc + 4 + shl32 (immed x) 2)) else None) s).
Proof. by destruct taken. Qed.

Section execute.
Context {W : Type} (host : UnixCalls W) (flags : Traces) (x pc a b : Z) (s : Interp) (w : W).
Hypothesis Hlen : length (Reg s) = 32%nat.
Hypothesis Ha : Reg s !! Z.to_nat (f_rs x) = Some a.
Hypothesis Hb : Reg s !! Z.to_nat (f_rt x) = Some b.
Hypothesis Ia : int_range a.
Hypothesis Ib : int_range b.

(** The program goes on with the effect [e]. *)
Definition continues (m : M Sys (option Z)) (e : list (Z * Z) * option Z) : Prop :=
  m (s, w) = Done (None, (put_writes e.1 (go_to e.2 s), w)).

(** Run the register reads of an instruction. *)
Ltac run_gprs :=
  assert (gpr (f_rs x) s = Done (a, s)) as Ra by (apply gpr_run; [apply field_range | done]);
  assert (gpr (f_rt x) s = Done (b, s)) as Rb by (apply gpr_run; [apply field_range | done]);
  unfold continues, on_interp, zoom, mbind, M_bind, mret, M_ret, set_npc, modify, gets;
  repeat (cbn [fst snd]; rewrite ?Ra, ?Rb).
Ltac run_set := rewrite set_gpr_run by (done || apply field_range); reflexivity.

Lemma special_continues o : rd specialTable (Z.land x 0x3f) = Done o →
  let i := mkInstruction o (f_rs x) (f_rt x) (f_rd x) (f_shamt x) in
  agrees i pc (cur_pc s) a b → continues (special host flags x pc) (effect i pc a b (HI s) (LO s)).
Proof using Hlen Ha Hb Ia Ib.
  intros Ho i Hag. unfold special. run_gprs.
  assert (0 ≤ Z.land x 0x3f < 64) as Hop by (apply (land_ones_range x 6); lia). set (op := Z.land x 0x3f) in *. clearbody op.
  six_bits op; injection Ho as <-; try (exfalso; exact Hag); cbn [fst snd]; try run_set; try reflexivity.
  - by rewrite decide_False.
  - destruct Hag as [? ?]. rewrite mult_high_small by done. unfold effect. cbn [opCode i].
    rewrite (u32_small a), (u32_small b), Z.div_small by nia. reflexivity.
  - destruct Hag. rewrite decide_False by tauto. reflexivity.
  - destruct Hag. rewrite mult_signed_small by done. reflexivity.
Qed.

Lemma bcond_continues (i := mkInstruction (decode_bcond (u32 x)) (f_rs x) (f_rt x) (f_rd x) (immed x)) :
  agrees i pc (cur_pc s) a b → continues (on_interp (bcond x pc)) (effect i pc a b (HI s) (LO s)).
Proof using Hlen Ha Hb.
  intros Hag. pose proof (decode_bcond_rt x) as Ho. assert (0 ≤ f_rs x < 32) as Hr by apply field_range.
  pose proof (branch_value x pc (decode_bcond (u32 x)) (f_rs x) (f_rt x) (f_rd x)) as Ht. unfold i in *. clear i.
  assert (gpr (f_rs x) s = Done (a, s)) as Ra by (apply gpr_run; [apply field_range | done]).
  assert (∀ v, f_rs x ≠ 31 → gpr (f_rs x) (put_write s (31, v)) = Done (a, put_write s (31, v))) as Ra'
    by (intros v Hne; apply gpr_put_write; done || lia).
  unfold continues, on_interp, zoom, bcond. cbn [fst snd].
  destruct (Z.eqb_spec (f_rt x) 0) as [E | _]; [| destruct (Z.eqb_spec (f_rt x) 1) as [E | _];
    [| destruct (Z.eqb_spec (f_rt x) 16) as [E | _]; [| destruct (Z.eqb_spec (f_rt x) 17) as [E | _]]]].
  all: rewrite Ho in *; try (exfalso; exact Hag); rewrite E in *; unfold mbind, M_bind; unfold effect; cbn [opCode].
  - rewrite Ra, branch_run, Ht. reflexivity.
  - rewrite Ra, branch_run, Ht. reflexivity.
  - rewrite set_gpr_run by done. rewrite Ra' by apply Hag. rewrite branch_run, Ht. by case_bool_decide.
  - rewrite set_gpr_run by done. rewrite Ra' by apply Hag. rewrite branch_run, Ht. by case_bool_decide.
Qed.

Lemma normal_continues op o fmt : op = Z.shiftr (u32 x) 26 → op ≠ 0 → op ≠ 1 → rd opTable op = Done (o, fmt) →
  let i := mkInstruction o (f_rs x) (f_rt x) (f_rd x) (decode_extra (u32 x) fmt) in
  agrees i pc (cur_pc s) a b → continues (switch host flags x pc) (effect i pc a b (HI s) (LO s)).
Proof using Hlen Ha Hb.
  intros Eop Hne0 Hne1 Ho i Hag. unfold switch. run_gprs.
  destruct (opcode_field x) as [_ Hrange]. change 0x3f with (Z.ones 6). rewrite (field_u32 x 26 6) by lia. change (Z.ones 6) with 0x3f.
  rewrite (proj1 (opcode_field x)), <- Eop. rewrite <- Eop in Hrange. clear Eop.
  pose proof (immed_extra x) as Himm. pose proof (branch_value x pc o (f_rs x) (f_rt x) (f_rd x)) as Hbv.
  pose proof (jump_value x pc o (f_rs x) (f_rt x) (f_rd x)) as Hjv.
  six_bits op; injection Ho as <- <-; try (exfalso; exact Hag); cbn [fst snd]; rewrite ?Ra, ?Rb;
    unfold i, agrees, effect in *; cbn [opCode extra i_rt i_rd] in *; rewrite <- ?Himm in *; clear i Himm.
  all: rewrite ?branch_run, ?Hbv; try (rewrite Hjv by apply Hag); try (rewrite land_immed by exact Hag); try rewrite (lui_value x).
  all: try reflexivity; rewrite set_gpr_run by (done || apply field_range); reflexivity.
Qed.

(** Every instruction on which the interpreters agree has its effect. *)
Lemma switch_continues i : Decode (u32 x) = Done i → agrees i pc (cur_pc s) a b →
  continues (switch host flags x pc) (effect i pc a b (HI s) (LO s)).
Proof using Hlen Ha Hb Ia Ib.
  intros HD Hag. apply Decode_decoded in HD.
  assert (Z.land (Z.shiftr x 26) 0x3f = Z.shiftr (u32 x) 26) as Hop.
  { change 0x3f with (Z.ones 6). rewrite (field_u32 x 26 6) by lia. apply opcode_field. }
  destruct HD as [o E Ho | E | o fmt H0 H1 Ho _ _].
  - unfold switch. rewrite Hop, E. by apply special_continues.
  - unfold switch. rewrite Hop, E. by apply bcond_continues.
  - exact (normal_continues _ o fmt eq_refl H0 H1 Ho Hag).
Qed.
End execute.

(** ** One turn of both *)

(** Only registers 1 to 31 and the multiplier. *)
Definition match_registers (s : Interp) (m : Machine) : Prop :=
  length (Reg s) = 32%nat ∧ length (registers m) = 40%nat ∧
  (∀ r, 0 < r < 32 → Reg s !! Z.to_nat r = registers m !! Z.to_nat r) ∧
  registers m !! Z.to_nat HiReg = Some (HI s) ∧ registers m !! Z.to_nat LoReg = Some (LO s).

Lemma match_write s m r v : 0 ≤ r ≤ LoReg → match_registers s m →
  match_registers (put_write s (r, v)) (set_register r v m).
Proof.
  unfold match_registers, put_write, HiReg, LoReg. intros Hr (Hls & Hlm & Hregs & Hhi & Hlo). cbn [fst snd].
  repeat case_decide; subst; simpl; rewrite ?length_insert.
  all: repeat split; try done; try (by apply list_lookup_insert_eq; lia); try (by rewrite list_lookup_insert_ne by lia).
  - intros r Hr'. rewrite list_lookup_insert_ne by lia. by apply Hregs.
  - intros r Hr'. rewrite list_lookup_insert_ne by lia. by apply Hregs.
  - intros r' Hr'. destruct (decide (r' = r)) as [-> |].
    + rewrite !list_lookup_insert_eq by lia. done.
    + rewrite !list_lookup_insert_ne by lia. by apply Hregs.
Qed.

Lemma match_writes ws : ∀ s m, Forall (λ w, 0 ≤ w.1 ≤ LoReg) ws → match_registers s m →
  match_registers (put_writes ws s) (set_writes ws m).
Proof.
  induction ws as [| [r v] ws IH]; intros s m Hws Hm; [done |]. apply Forall_cons in Hws as [Hw Hws].
  apply IH; [done |]. by apply match_write.
Qed.

(** [Reg[0]] is not compared. *)
Lemma match_zero s m v : match_registers s m → match_registers s (set_register 0 v m).
Proof.
  intros (Hls & Hlm & Hregs & Hhi & Hlo). unfold match_registers, HiReg, LoReg in *. simpl. rewrite length_insert.
  split; [done |]. split; [done |]. split; [| by rewrite !list_lookup_insert_ne by lia].
  intros r Hr. rewrite list_lookup_insert_ne by lia. by apply Hregs.
Qed.

Lemma effect_writes i pc a b hi lo : instruction_wf i → Forall (λ w, 0 ≤ w.1 ≤ LoReg) (effect i pc a b hi lo).1.
Proof.
  intros [_ Hrs Hrt Hrd _ _]. unfold NumGPRegs in *. unfold effect, LoReg, HiReg.
  destruct (opCode i); cbn [fst]; repeat (apply Forall_cons_2; [cbn [fst]; lia |]); apply Forall_nil_2.
Qed.

Lemma writes_kept ws : ∀ m r, Forall (λ w, 0 ≤ w.1 ≤ LoReg) ws → LoReg < r →
  registers (set_writes ws m) !! Z.to_nat r = registers m !! Z.to_nat r.
Proof.
  induction ws as [| [r' v] ws IH]; intros m r Hws Hr; [done |]. apply Forall_cons in Hws as [Hw Hws]. cbn [fst] in Hw.
  change (set_writes ((r', v) :: ws) m) with (set_writes ws (set_register r' v m)). rewrite IH by done. simpl.
  unfold LoReg in *. by rewrite list_lookup_insert_ne by lia.
Qed.

Lemma put_writes_pcs ws : ∀ s, cur_pc (put_writes ws s) = cur_pc s ∧ next_pc (put_writes ws s) = next_pc s ∧
  mem (put_writes ws s) = mem s.
Proof.
  induction ws as [| [r v] ws IH]; intros s; [done |].
  change (put_writes ((r, v) :: ws) s) with (put_writes ws (put_write s (r, v))).
  destruct (IH (put_write s (r, v))) as (-> & -> & ->). unfold put_write. repeat case_decide; done.
Qed.

Lemma reg_Done i m v m' : reg i m = Done (v, m') → m' = m ∧ registers m !! Z.to_nat i = Some v.
Proof.
  unfold reg, mbind, M_bind, get, lift, rd. case_decide; [| done]. destruct (registers m !! Z.to_nat i); [| done].
  by intros [= -> ->].
Qed.

Lemma set_reg_Done i v m u m' : set_reg i v m = Done (u, m') →
  m' = set_register i v m ∧ 0 ≤ i < Z.of_nat (length (registers m)).
Proof.
  unfold set_reg, mbind, M_bind, get, lift, put, wr. case_decide; [| done]. by intros [= <- <-].
Qed.

(** The end of [OneInstruction] when no load is pending. *)
Lemma retire_kept m t u m' : registers m !! Z.to_nat LoadReg = Some 0 → retire t 0 0 m = Done (u, m') →
  (∀ r, 0 < r ≤ LoReg → registers m' !! Z.to_nat r = registers m !! Z.to_nat r) ∧
  length (registers m') = length (registers m) ∧ registers m' !! Z.to_nat LoadReg = Some 0.
Proof.
  intros Hload Hrun. unfold retire, DelayedLoad, mbind, M_bind in Hrun.
  repeat (match type of Hrun with
    | context [match reg ?i ?s with _ => _ end] =>
        let E := fresh "E" in destruct (reg i s) as [[? ?] |] eqn:E; [apply reg_Done in E as [-> E] | discriminate]
    | context [match set_reg ?i ?v ?s with _ => _ end] =>
        let E := fresh "E" in destruct (set_reg i v s) as [[? ?] |] eqn:E; [apply set_reg_Done in E as [-> E] | discriminate]
    end; cbn beta iota in Hrun).
  apply set_reg_Done in Hrun as [-> _]. assert (z = 0) as -> by congruence.
  unfold LoReg, LoadReg, LoadValueReg, PCReg, PrevPCReg, NextPCReg in *. simpl. rewrite !length_insert. split; [| split; [done |]].
  - intros r Hr. by rewrite !list_lookup_insert_ne by lia.
  - simpl in E2. rewrite length_insert in E2. rewrite !list_lookup_insert_ne by lia.
    rewrite list_lookup_insert_eq; [done |]. rewrite length_insert. lia.
Qed.

(** The value of a register for the next instruction. *)
Definition reg_value (s : Interp) (r : Z) : Z := if decide (r = 0) then 0 else default 0 (Reg s !! Z.to_nat r).

Section both.
Context {W S : Type} (host : UnixCalls W) (flags : Traces) `{MachineHostLaws S}.
Context (ExceptionHandler : ExceptionType → M S unit).

Lemma ReadMem_registers addr (k k1 : S) v : machine_wf (machine k) → ReadMem ExceptionHandler addr 4 k = Done (Some v, k1) →
  machine_wf (machine k1) ∧ registers (machine k1) = registers (machine k).
Proof.
  intros Hwf Hread. destruct (Translate_spec (machine k) addr 4 false Hwf) as (r & m1 & Ht & Hpost); [by right; right |].
  destruct (translate_post_wf _ _ _ _ _ _ Hwf Hpost) as [Hwf1 [Hr1 _]]. destruct r as [pa | e].
  - rewrite (ReadMem_hit _ _ _ _ pa m1) in Hread by (done || by right; right). injection Hread as _ <-. by rewrite !machine_set.
  - unfold ReadMem, mbind, M_bind in Hread. rewrite (on_machine_run _ _ _ _ Ht) in Hread.
    by destruct (RaiseException _ _ _ _) as [[] |].
Qed.

Lemma same_registers_of s m m' : registers m' = registers m → same_registers s m → same_registers s m'.
Proof. intros E []. split; try intros r Hr; rewrite ?E; auto. Qed.

(** The registers that an instruction reads, in both. *)
Lemma same_value s m r : same_registers s m → cpu_ok m → 0 ≤ r < 32 → registers m !! Z.to_nat r = Some (reg_value s r).
Proof.
  intros Hs [Hwf Hz] Hr. unfold reg_value. case_decide; [by subst |]. rewrite (sr_reg s m Hs) by lia.
  pose proof (mw_registers m Hwf) as Hl. unfold NumTotalRegs in Hl.
  destruct (lookup_lt_is_Some_2 (registers m) (Z.to_nat r)) as [v Hv]; [lia |]. by rewrite Hv.
Qed.

Lemma same_reads s m i : same_registers s m → cpu_ok m → instruction_wf i →
  reads i m (next_pc s) (reg_value s (i_rs i)) (reg_value s (i_rt i)) (HI s) (LO s).
Proof.
  intros Hs Hok Hi. pose proof Hok as [Hwf _]. destruct Hi as [_ Hrs Hrt _ _ _]. unfold NumGPRegs in *.
  assert (∀ r v, 0 ≤ r < 40 → registers m !! Z.to_nat r = Some v → reg r m = Done (v, m) ∧ int_range v) as Hreg.
  { intros r v Hr Hv. destruct (reg_lookup m r Hwf Hr) as (v' & Hv' & Iv & Rv). rewrite Hv in Hv'. by injection Hv' as <-. }
  pose proof (same_value s m (i_rs i) Hs Hok Hrs) as Va. pose proof (same_value s m (i_rt i) Hs Hok Hrt) as Vb.
  apply Hreg in Va as [Ra Ia], Vb as [Rb Ib]; [| lia | lia].
  destruct (Hreg HiReg _ ltac:(done) (sr_hi _ _ Hs)) as [Rh Ih]. destruct (Hreg LoReg _ ltac:(done) (sr_lo _ _ Hs)) as [Rl Il].
  destruct (Hreg NextPCReg _ ltac:(done) (sr_npc _ _ Hs)) as [Rn In]. split; auto.
Qed.

Lemma agrees_no_trap i pc npc m a b : registers m !! Z.to_nat (i_rs i) = Some a → registers m !! Z.to_nat (i_rt i) = Some b →
  agrees i pc npc a b → traps i m = None.
Proof. intros Ha Hb. unfold agrees, traps. rewrite Ha, Hb. destruct (opCode i); try done. intros [_ Hmin]. by rewrite decide_False. Qed.

(** What [OneInstruction] does, as the effect of the instruction. *)
Lemma OneInstruction_effect s (k k1 : S) i (e := effect i (cur_pc s) (reg_value s (i_rs i)) (reg_value s (i_rt i)) (HI s) (LO s)) :
  same_registers s (machine k) → cpu_ok (machine k) → cpu_ok (machine k1) → registers (machine k1) = registers (machine k) →
  fetches ExceptionHandler k i k1 → instruction_wf i →
  agrees i (cur_pc s) (next_pc s) (reg_value s (i_rs i)) (reg_value s (i_rt i)) →
  ∃ k', OneInstruction ExceptionHandler k = Done (tt, k') ∧ cpu_ok (machine k') ∧
    (∀ s', match_registers s' (set_writes e.1 (machine k1)) → match_registers s' (machine k')) ∧
    registers (machine k') !! Z.to_nat PCReg = Some (next_pc s) ∧
    registers (machine k') !! Z.to_nat NextPCReg = Some (default (s32 (next_pc s + 4)) e.2) ∧
    registers (machine k') !! Z.to_nat LoadReg = Some 0.
Proof.
  intros Hs Hok Hok1 Hregs Hf Hi Hag.
  pose proof (same_registers_of s _ _ Hregs Hs) as Hs1.
  pose proof (same_reads s (machine k1) i Hs1 Hok1 Hi) as Hr. pose proof Hi as [_ Hrs Hrt _ _ _]. unfold NumGPRegs in *.
  pose proof (exec_effect host_big_endian i (machine k1) _ _ _ _ _ _ (proj1 Hok1) Hi Hr Hag) as Hx. unfold has_effect in Hx. fold e in Hx.
  destruct (exec_spec host_big_endian i (s32 (next_pc s + 4)) (machine k1) (proj1 Hok1) Hi) as (r & m2 & Hx' & Hwf2 & Hpost).
  { apply int_s32. }
  { eapply agrees_no_trap; [by apply same_value | by apply same_value | exact Hag]. }
  rewrite Hx in Hx'. injection Hx' as <- <-. destruct Hpost as (It & _).
  set (m2 := set_writes e.1 (machine k1)) in *.
  assert (∀ r, LoReg < r → registers m2 !! Z.to_nat r = registers (machine k1) !! Z.to_nat r) as Hkept.
  { intros r Hr'. apply writes_kept; [by apply effect_writes | done]. }
  destruct (retire_spec m2 (default (s32 (next_pc s + 4)) e.2) 0 0 Hwf2 It ltac:(done) ltac:(done)) as ([] & m3 & Hret & Hok3 & Hn3 & Hp3).
  destruct (retire_kept m2 _ _ m3 ltac:(rewrite Hkept by done; apply Hs1) Hret) as (Hlow & Hlen & Hload).
  exists (set_machine m3 (set_machine m2 k1)). rewrite !machine_set. split; [| split; [done |]].
  - rewrite (OneInstruction_after_fetch ExceptionHandler k i k1 (next_pc s) (proj1 Hok) Hf (rs_npc _ _ _ _ _ _ _ Hr)).
    unfold mbind, M_bind. rewrite (on_machine_run _ _ _ _ Hx). cbv beta iota. rewrite (on_machine_run _ _ tt m3); [done |].
    by rewrite machine_set.
  - rewrite Hkept in Hp3 by done. rewrite Hp3, Hn3, (sr_npc _ _ Hs1). split; [| done].
    intros s' (H1 & H2 & H3 & H4 & H5). split; [done |]. split; [by rewrite Hlen |]. split; [| by rewrite !Hlow by done].
    intros r Hr'. rewrite Hlow by (unfold LoReg; lia). by apply H3.
Qed.

Definition set_printed (text : string) (s : Interp) : Interp :=
  mkInterp (Reg s) (HI s) (LO s) (mem s) (cur_pc s) (next_pc s) text.

Lemma dump_ascii_Done x pc : ∃ text, dump_ascii true x pc = Done text.
Proof.
  destruct (R_Done (f_rs x)) as [? Hrs]; [apply field_range |]. destruct (R_Done (f_rt x)) as [? Hrt]; [apply field_range |].
  destruct (R_Done (f_rd x)) as [? Hrd]; [apply field_range |].
  assert (0 ≤ Z.land x 0x3f < 64) as H6 by (apply (land_ones_range x 6); lia). destruct (opcode_field x) as [_ Hop].
  destruct (rd_in_range specialops (Z.land x 0x3f)) as (? & _ & Hso); [done |].
  destruct (rd_in_range normalops (Z.shiftr (u32 x) 26)) as (? & _ & Hno); [done |].
  unfold dump_ascii, dump_instruction, special_operands, normal_operands, regs_then, regs. rewrite Hso, Hno, Hrs, Hrt, Hrd.
  repeat case_match; try done; by eexists.
Qed.

Lemma trace_run x pc s (h : W) : ∃ text, trace flags x pc (s, h) = Done (tt, (set_printed text s, h)).
Proof.
  unfold trace. destruct (TRACE flags).
  - destruct (dump_ascii_Done x pc) as [text E]. unfold mbind, M_bind, lift. rewrite E. by destruct (Regtrace flags); eexists.
  - exists (printed s). by destruct s.
Qed.

(** The state at the [switch] of a turn. *)
Definition fetched (s : Interp) : Interp :=
  set_Reg (<[0%nat := 0]> (Reg s)) (set_pcs (next_pc s) (s32 (next_pc s + 4)) s).

Lemma turn_run s (h : W) x s' : length (Reg s) = 32%nat → ifetch (cur_pc s) s = Done (x, s) →
  (if decide (x ≠ 0) then switch host flags x (cur_pc s) else mret None) (fetched s, h) = Done (None, (s', h)) →
  ∃ text, turn host flags (s, h) = Done (None, (set_printed text s', h)).
Proof.
  intros Hlen Hf Hsw. destruct (trace_run x (cur_pc s) s' h) as [text Ht]. exists text.
  assert (ifetch (cur_pc s) (set_pcs (next_pc s) (s32 (next_pc s + 4)) s) = Done (x, set_pcs (next_pc s) (s32 (next_pc s + 4)) s)) as Hf'.
  { clear Hsw. revert Hf. unfold ifetch, fetch, load_bytes, mbind, M_bind, get, mret, M_ret, stop. case_decide; [| done]. intros [= <-]. reflexivity. }
  assert (set_gpr 0 0 (set_pcs (next_pc s) (s32 (next_pc s + 4)) s) = Done (tt, fetched s)) as Hz
    by (rewrite set_gpr_run by (done || lia); reflexivity).
  unfold turn, on_interp, zoom, mbind, M_bind, get, modify. cbn [fst snd]. rewrite Hf'. cbn [fst snd]. rewrite Hz. cbn [fst snd].
  rewrite Hsw. by rewrite Ht.
Qed.

Lemma fetched_value s r : length (Reg s) = 32%nat → 0 ≤ r < 32 → Reg (fetched s) !! Z.to_nat r = Some (reg_value s r).
Proof.
  intros Hlen Hr. unfold fetched, reg_value. simpl. case_decide.
  - subst r. apply list_lookup_insert_eq. lia.
  - rewrite list_lookup_insert_ne by lia. destruct (lookup_lt_is_Some_2 (Reg s) (Z.to_nat r)) as [v Hv]; [lia |]. by rewrite Hv.
Qed.

Lemma fetched_match s m : same_registers s m → machine_wf m → match_registers (fetched s) m.
Proof.
  intros Hs Hwf. pose proof (mw_registers m Hwf) as Hl. destruct Hs. unfold fetched, match_registers. simpl. rewrite length_insert.
  repeat split; try done. intros r Hr. rewrite list_lookup_insert_ne by lia. by apply sr_reg0.
Qed.

(** What a turn does, as the effect of the instruction. *)
Lemma turn_effect s (h : W) m x i (e := effect i (cur_pc s) (reg_value s (i_rs i)) (reg_value s (i_rt i)) (HI s) (LO s)) :
  same_registers s m → cpu_ok m → ifetch (cur_pc s) s = Done (x, s) → Decode (u32 x) = Done i → instruction_wf i →
  agrees i (cur_pc s) (next_pc s) (reg_value s (i_rs i)) (reg_value s (i_rt i)) →
  ∃ s', turn host flags (s, h) = Done (None, (s', h)) ∧ match_registers s' (set_writes e.1 m) ∧
    cur_pc s' = next_pc s ∧ next_pc s' = default (s32 (next_pc s + 4)) e.2 ∧ mem s' = mem s.
Proof.
  intros Hs Hok Hif HD Hi Hag. pose proof (sr_length _ _ Hs) as Hlen. pose proof (fetched_match s m Hs (proj1 Hok)) as Hm.
  destruct (Decode_fields x i HD) as [fmt Ei]. pose proof (same_reads s m i Hs Hok Hi) as [_ _ _ _ _ (Ia & Ib & _)].
  destruct (decide (x = 0)) as [-> | Hx].
  - destruct (turn_run s h 0 (fetched s) Hlen Hif eq_refl) as [text Ht]. exists (set_printed text (fetched s)).
    split; [done |]. injection HD as <-. split; [by apply match_zero | done].
  - assert (∀ r, 0 ≤ r < 32 → Reg (fetched s) !! Z.to_nat r = Some (reg_value s r)) as Hv by (intros; by apply fetched_value).
    assert (i_rs i = f_rs x ∧ i_rt i = f_rt x) as [Ers Ert] by (by rewrite Ei).
    pose proof (switch_continues host flags x (cur_pc s) _ _ (fetched s) h (proj1 Hm)
      (Hv (f_rs x) (field_range x 21)) (Hv (f_rt x) (field_range x 16))) as Hsw.
    rewrite <- Ers, <- Ert in Hsw. specialize (Hsw Ia Ib i HD Hag). unfold continues in Hsw. fold e in Hsw.
    assert (match_registers (go_to e.2 (fetched s)) m) as Hm' by (by destruct e.2).
    destruct (turn_run s h x (put_writes e.1 (go_to e.2 (fetched s))) Hlen Hif) as [text Ht]; [by rewrite decide_True |].
    eexists. split; [exact Ht |]. destruct (put_writes_pcs e.1 (go_to e.2 (fetched s))) as (E1 & E2 & E3).
    split; [apply (match_writes e.1 _ _ (effect_writes _ _ _ _ _ _ Hi) Hm') |]. simpl. rewrite E1, E2, E3. by destruct e.2.
Qed.
End both.

(** ** Claims *)

(** C8 The two MIPS interpreters of the repository agree: from the same
    registers and the same instruction word, for every instruction on registers
    and outside of the deviations that [agrees] lists, one turn of the loop of
    bin/execute.c and [Machine::OneInstruction] both run to their end and leave
    the same registers, multiplier and program counters, taken branches, links
    and delay slots included; the memory of bin/execute.c and its host are as
    before. *)
Theorem interpreters_agree {W S} (host : UnixCalls W) (flags : Traces) `{MachineHostLaws S}
    (ExceptionHandler : ExceptionType → M S unit) s (h : W) (k k1 : S) x i :
  same_registers s (machine k) → cpu_ok (machine k) →
  ifetch (cur_pc s) s = Done (x, s) → ReadMem ExceptionHandler (cur_pc s) 4 k = Done (Some x, k1) →
  Decode (u32 x) = Done i → agrees i (cur_pc s) (next_pc s) (reg_value s (i_rs i)) (reg_value s (i_rt i)) →
  ∃ s' k', turn host flags (s, h) = Done (None, (s', h)) ∧ OneInstruction ExceptionHandler k = Done (tt, k') ∧
    same_registers s' (machine k') ∧ cpu_ok (machine k') ∧ mem s' = mem s.
Proof.
  intros Hs Hok Hif Hread HD Hag. destruct (ReadMem_registers ExceptionHandler _ _ _ _ (proj1 Hok) Hread) as [Hwf1 Hregs].
  assert (cpu_ok (machine k1)) as Hok1 by (by apply (cpu_ok_same (machine k))).
  assert (instruction_wf i) as Hi by (destruct (Decode_spec (u32 x)) as (i' & Hi' & Hwf); rewrite HD in Hi'; by injection Hi' as ->).
  assert (fetches ExceptionHandler k i k1) as Hf by (exists (cur_pc s), x; split; [apply Hs | done]).
  destruct (OneInstruction_effect ExceptionHandler s k k1 i Hs Hok Hok1 Hregs Hf Hi Hag) as (k' & Hone & Hok' & Hmatch & Hpc & Hnpc & Hload).
  destruct (turn_effect host flags s h (machine k1) x i (same_registers_of s _ _ Hregs Hs) Hok1 Hif HD Hi Hag)
    as (s' & Hturn & Hm & Hpc' & Hnpc' & Hmem).
  exists s', k'. split; [done |]. split; [done |]. apply Hmatch in Hm as (H1 & H2 & H3 & H4 & H5).
  split; [| done]. split; try done; [by rewrite Hpc, Hpc' | by rewrite Hnpc, Hnpc'].
Qed.

(** [beq r0,r0,3] at 0x10000000, mapped by the TLB. *)
Definition beq_machine : Machine :=
  mkMachine ([3; 0; 0; 16] ++ replicate (Z.to_nat MemorySize - 4) 0)
    (<[34%nat := 0x10000000]> (<[35%nat := 0x10000004]> (replicate (Z.to_nat NumTotalRegs) 0)))
    (Some (mkEntry 0x200000 0 true false false false :: replicate 3 (mkEntry 0 0 false false false false))) None 0.
Definition beq_interp : Interp :=
  mkInterp (replicate 32 0) 0 0 (<[0 := 3]> (<[3 := 16]> ∅)) 0x10000000 0x10000004 "".
Definition no_host : UnixCalls unit :=
  mkUnixCalls unit (λ _ _ h, (0, [], h)) (λ _ _ h, (0, h)) (λ _ _ _ h, (-1, h)) (λ _ _ _ h, (-1, h)) (λ _ _ h, ([], h))
    (λ _ h, (-1, h)) 4096.

Lemma interpreters_agree_witness : ∃ s' k',
  turn no_host (mkTraces false false false) (beq_interp, tt) = Done (None, (s', tt)) ∧
  @OneInstruction Machine (bare_host false) (λ _, mret tt) beq_machine = Done (tt, k') ∧
  next_pc s' = 0x10000010 ∧ registers k' !! 35%nat = Some 0x10000010.
Proof.
  destruct (@interpreters_agree unit Machine no_host (mkTraces false false false) (bare_host false) (bare_host_laws false)
    (λ _, mret tt) beq_interp tt beq_machine
    (state_of beq_machine (@ReadMem Machine (bare_host false) (λ _, mret tt) 0x10000000 4 beq_machine))
    0x10000003 (mkInstruction OP_BEQ 0 0 0 3)) as (s' & k' & Hs & Hk & Hsame & _).
  - split; try reflexivity. intros r Hr.
    change (replicate 32 0 !! Z.to_nat r =
      (<[34%nat := 0x10000000]> (<[35%nat := 0x10000004]> (replicate 40 0)) : list Z) !! Z.to_nat r).
    rewrite !list_lookup_insert_ne by lia. rewrite !lookup_replicate_2 by lia. done.
  - split; [| reflexivity]. split; [reflexivity | | reflexivity | | by exists 0 |].
    + apply Forall_app. split; [by repeat constructor | by apply Forall_replicate].
    + by repeat apply Forall_insert; [apply Forall_replicate | |].
    + right. split; [done |]. by eexists.
  - vm_compute. reflexivity.
  - vm_compute. reflexivity.
  - vm_compute. reflexivity.
  - vm_compute. reflexivity.
  - exists s', k'. split; [exact Hs |]. split; [exact Hk |].
    assert (next_pc s' = 0x10000010) as E.
    { revert Hs. vm_compute. by intros [= <-]. }
    split; [exact E |]. rewrite <- E. apply (sr_npc s' k' Hsame).
Defined.

(** ** Where bin/execute.c deviates *)

(** A product loses the carries between its halves; logical immediates are
    extended with the sign. *)
Lemma execute_deviates :
  mult_signed 0x18000 0x18000 = (1, 0x40000000) ∧ Mult 0x18000 0x18000 true = (2, 0x40000000) ∧
  (let andi := 0x3022ff00 in                                      (* andi r2,r1,0xff00 *)
   let s := mkInterp (<[1%nat := -1]> (replicate 32 0)) 0 0 ∅ 0 4 "" in
   match switch no_host (mkTraces false false false) andi 0 (s, tt) with
   | Done (_, (s', _)) => Reg s' !! 2%nat = Some (-256)
   | Fault _ => False
   end).
Proof. repeat split; vm_compute; reflexivity. Qed.

(** Where the argument [k] of a program is, from the array on its stack. *)
Definition arg_string (k : Z) (s : Interp) : option (list Z) :=
  match fetch (MEMSIZE - 1024 + memoffset + 4 + 4 * k) s with
  | Done (ai, _) => value_of (user_string 20 ai s)
  | Fault _ => None
  end.

Definition arg_strings (argv : list string) : list (option (list Z)) :=
  let s := mkInterp (replicate 32 0) 0 0 ∅ 0 4 "" in
  match start_stack memoffset argv s with
  | Done (_, s') => (λ k, arg_string k s') <$> seqZ 0 (Z.of_nat (length argv))
  | Fault _ => []
  end.

(** The array has room for eight arguments: the ninth pointer overwrites the
    first string. *)
Lemma ninth_argument :
  arg_strings ["one"; "two"; "3"; "4"; "5"; "6"; "7"; "8"] =
    (λ a, Some (chars a)) <$> ["one"; "two"; "3"; "4"; "5"; "6"; "7"; "8"] ∧
  arg_strings ["one"; "two"; "3"; "4"; "5"; "6"; "7"; "8"; "9"] !! 0%nat ≠ Some (Some (chars "one")).
Proof. split; vm_compute; [reflexivity | discriminate]. Qed.

(** ** The logarithm *)

(** The highest bit of [i] is [h], and the numbers of all its bits agree with
    [h] from bit [k] on. *)
Definition shares (k i h : Z) : Prop :=
  Z.testbit i h = true ∧ ∀ j, Z.testbit i j = true → 0 ≤ j ≤ h ∧ j / 2 ^ k = h / 2 ^ k.

(** [mask] has the bits whose number has bit [k]. *)
Definition mask_of (mask k : Z) : Prop :=
  forallb (λ j, Bool.eqb (Z.testbit mask j) (Z.testbit j k)) (seqZ 0 32) = true.

Lemma mask_bit mask k j : mask_of mask k → 0 ≤ j < 32 → Z.testbit mask j = Z.testbit j k.
Proof.
  unfold mask_of. rewrite forallb_forall. intros Hm Hj. apply eqb_prop, Hm, list_elem_of_In, elem_of_seqZ. lia.
Qed.

(** Half of the numbers that share bit [k] and above. *)
Lemma half_bit j h k : 0 ≤ k → 0 ≤ j ≤ h → j / 2 ^ (k + 1) = h / 2 ^ (k + 1) →
  (Z.testbit j k = Z.testbit h k → j / 2 ^ k = h / 2 ^ k) ∧ (Z.testbit j k = true → Z.testbit h k = true).
Proof.
  intros Hk Hj E.
  assert (∀ z, z / 2 ^ k = 2 * (z / 2 ^ (k + 1)) + Z.b2z (Z.testbit z k)) as Hz.
  { intros z. rewrite Z.testbit_spec' by lia. rewrite Z.pow_add_r, <- Z.div_div by lia. apply Z.div_mod. lia. }
  split.
  - intros Ht. by rewrite !Hz, E, Ht.
  - intros Ht. assert (j / 2 ^ k ≤ h / 2 ^ k) as Hle by (apply Z.div_le_mono; lia).
    rewrite !Hz, E, Ht in Hle. destruct (Z.testbit h k); simpl in Hle; [done | lia].
Qed.

Lemma shares_step mask k i h : mask_of mask k → 0 ≤ k → h < 32 → shares (k + 1) i h →
  (Z.land i mask ≠ 0 ↔ Z.testbit h k = true) ∧
  shares k (if Z.testbit h k then Z.land i mask else i) h.
Proof.
  intros Hm Hk Hh [Htop Hbits]. pose proof (Hbits h Htop) as [Hh0 _].
  assert (∀ j, Z.testbit i j = true → Z.testbit mask j = Z.testbit j k) as Hmask.
  { intros j Hj. destruct (Hbits j Hj). apply mask_bit; [done | lia]. }
  destruct (Z.testbit h k) eqn:Ht.
  - assert (Z.testbit (Z.land i mask) h = true) as Hland by (by rewrite Z.land_spec, Htop, Hmask, Ht).
    split; [split; [done |]; intros _ E; by rewrite E, Z.bits_0 in Hland |]. split; [done |].
    intros j Hj. rewrite Z.land_spec in Hj. apply andb_prop in Hj as [Hj Hmj]. destruct (Hbits j Hj) as [H1 H2].
    rewrite Hmask in Hmj by done. split; [done |]. apply half_bit; [done | done | done | by rewrite Hmj].
  - assert (∀ j, Z.testbit i j = true → Z.testbit j k = false) as Hno.
    { intros j Hj. destruct (Hbits j Hj) as [H1 H2]. destruct (Z.testbit j k) eqn:E; [| done].
      apply (half_bit j h k) in E; try done. by rewrite Ht in E. }
    split.
    + split; [| done]. intros Hne. exfalso. apply Hne. apply Z.bits_inj'. intros j _. rewrite Z.land_spec, Z.bits_0.
      destruct (Z.testbit i j) eqn:E; [| done]. by rewrite Hmask, Hno.
    + split; [done |]. intros j Hj. destruct (Hbits j Hj) as [H1 H2]. split; [done |].
      apply half_bit; try done. by rewrite Hno, Ht.
Qed.

Lemma ilog2_step_bit mask k n i h : mask_of mask k → 0 ≤ k → h < 32 → shares (k + 1) i h →
  ∃ i', (∀ l, ilog2_step mask n (i, l) = (i', l + (if Z.testbit h k then n else 0))) ∧ shares k i' h.
Proof.
  intros Hm Hk Hh Hs. destruct (shares_step mask k i h Hm Hk Hh Hs) as [Hiff Hs']. unfold ilog2_step. cbn [fst snd].
  destruct (Z.testbit h k).
  - exists (Z.land i mask). split; [| done]. intros l. by rewrite decide_True by (by apply Hiff).
  - exists i. split; [| done]. intros l. rewrite decide_False by (intros H; by apply Hiff in H). by rewrite Z.add_0_r.
Qed.

(** [ilog2] is the number of bits of its argument as an unsigned number: 0
    for 0, and otherwise one more than the logarithm. *)
Theorem ilog2_bits i : int_range i → ilog2 i = if decide (i = 0) then 0 else Z.log2 (u32 i) + 1.
Proof.
  intros Hi. unfold ilog2. destruct (decide (i = 0)) as [| H0]; [done |]. pose proof (u32_range i) as Hr.
  assert (u32 i ≠ 0) as Hne by (intros E; apply H0; rewrite <- (s32_small i), <- s32_u32 by done; by rewrite E).
  set (x := u32 i) in *. clearbody x. set (h := Z.log2 x). assert (0 ≤ h < 32) as Hh.
  { split; [apply Z.log2_nonneg |]. apply Z.log2_lt_pow2; lia. }
  assert (shares 5 x h) as H5.
  { split; [apply Z.bit_log2; lia |]. intros j Hj. destruct (decide (j < 0)); [by rewrite Z.testbit_neg_r in Hj |].
    destruct (decide (h < j)); [by rewrite Z.bits_above_log2 in Hj by (fold h; lia) |].
    split; [lia |]. rewrite !Z.div_small by lia. done. }
  clearbody h. 
  destruct (ilog2_step_bit 0xffff0000 4 16 x h) as (i4 & -> & H4); [done | lia | lia | done |].
  destruct (ilog2_step_bit 0xff00ff00 3 8 i4 h) as (i3 & -> & H3); [done | lia | lia | done |].
  destruct (ilog2_step_bit 0xf0f0f0f0 2 4 i3 h) as (i2 & -> & H2); [done | lia | lia | done |].
  destruct (ilog2_step_bit 0xcccccccc 1 2 i2 h) as (i1 & -> & H1); [done | lia | lia | done |].
  destruct (ilog2_step_bit 0xaaaaaaaa 0 1 i1 h) as (i0 & -> & _); [done | lia | lia | done |].
  clear -Hh. cbn [snd]. six_bits h; reflexivity.
Qed.

Lemma ilog2_bits_witness : ilog2 (-1) = 32 ∧ ilog2 4 = 3.
Proof. split; [rewrite (ilog2_bits (-1)) by done | rewrite (ilog2_bits 4) by done]; vm_compute; reflexivity. Defined.
